(* ===== verification/_CoqProject ===== *)
-Q . S2P
Prelude.v
Strings.v
Timestamp.v
DataTypes.v
Sql.v
SqliteOrm.v
MemOrm.v
ConfigStore.v
SqliteConfigStore.v
SqliteAtomic.v
StoreOps.v
StoreInvariants.v
StoreTheorems.v
History.v
NamespaceManager.v
PublishEngine.v
NotificationChannel.v
Auth.v
ConfigClient.v
Json.v
Api.v
HttpServer.v
HttpTheorems.v
GrpcService.v
Concurrency.v
ConcurrencyTheorems.v
Scripts.v
TransactionRaces.v
SqliteFaults.v
ConfigParser.v
Server.v
GrpcServer.v
KeyValue.v
Registry.v
ServerKv.v
HttpErrors.v
MysqlPool.v
MysqlConfigStore.v
MysqlSql.v
MysqlSchema.v
MysqlTheorems.v
MysqlData.v
