(* ===== verification/Prelude.v ===== *)
(** * Config Center: a verification library

    Config Center is a configuration server: applications own namespaces,
    namespaces own keys, a key is edited as a draft and becomes visible to
    readers when its namespace is published; every change leaves a version
    record and a log entry.  This library models its components in Rocq, from
    the sources under [src/], and proves what makes them correct.

    ** The program and the files

    - [Prelude]: outcomes (a value, an exception, undefined behaviour), the
      state-exception monad, 32-bit integers, the total-correctness judgement
      [wp], tables seen through their keys, strings.
    - [Strings]: the conversions and searches of [std::string] the components share.
    - [Timestamp]: [getTimestamp] of the stores and the namespace manager.
    - [DataTypes]: the structs of [storage/data_types.h].
    - [SqliteOrm], [MemOrm]: the storage object of the sqlite_orm library, as
      operations and laws, with the schema of [createStorage]; and in-memory
      storages that obey the laws, with faults on schedule.
    - [ConfigStore]: the abstract class of [storage/config_store.h] as a type
      class, the abstract state it stands for, the contract [ConfigStoreContract] of
      its methods, and [ConfigStoreSpec], the contract of a store whose creations
      write their rows.
    - [SqliteConfigStore], [SqliteAtomic]: every method of
      [storage/sqlite_config_store.cpp]; that it keeps the contract on a healthy
      connection, and what it guarantees when statements fail.
    - [StoreOps], [StoreInvariants], [StoreTheorems], [History]: sequences of
      operations as a step relation; the invariants of every reachable content;
      what clients read back; version numbering and rollback.
    - [NamespaceManager], [PublishEngine], [NotificationChannel], [Auth]:
      [storage/namespace_manager.cpp], [publish/publish_engine.cpp] and
      [publish/release_rule_engine.cpp], [subscription/notification_channel.cpp],
      [auth/auth_types.cpp].
    - [ConfigClient]: the SDK, [sdk/src/config_client.cpp].
    - [Json], [Api], [HttpServer], [HttpTheorems], [GrpcService]: JSON values, the
      handler classes of [src/api/], the router and handlers of
      [server/http_server.cpp], the services of [server/grpc_server.cpp] and
      [api/grpc_service.cpp].
    - [Concurrency], [ConcurrencyTheorems]: the store behind its mutex as one of
      several threads sees it, with the calls of the others between its own; what
      the components keep, and which requests are atomic, in every interleaving of
      calls that hold the mutex.
    - [Scripts]: a handler of the HTTP server between its calls of the store.
    - [TransactionRaces]: the SQLite store when the transaction commands of other
      threads, which take no mutex, fall between the statements of a method.
    - [SqliteFaults]: the same threads over the SQLite store when any statement of
      any request may fail, and an edit over HTTP when statements fail.
    - [ConfigParser]: the configuration file, [config/config_parser.cpp].
    - [Server], [GrpcServer]: the accept loop, reads, handlers and writes of
      [server/http_server.cpp] as an event loop over the store on the worker threads
      of [main.cpp], and [main.cpp]; the life cycle of the gRPC server and of its
      service object.
    - [KeyValue]: what clients of the two servers observe, as a key-value map with
      drafts, and that the servers implement it.
    - [HttpErrors]: which requests end the HTTP server, from their kind, their body and
      what the store holds.
    - [ServerKv]: the event loop, the handlers and the store together: every client
      of the HTTP server gets the map's answer, with one worker or without edits.
    - [Registry]: what the administration requests of the HTTP server do, as a
      registry of applications and namespaces, and that the server implements it.
    - [Sql]: the lexical structure and the statements of the SQL the MySQL store
      writes, with a parser.
    - [MysqlPool], [MysqlConfigStore]: the connection pool and every method of
      [storage/mysql_config_store.cpp], as programs of requests on connections, with
      the SQL texts, the schema, the rows and the connection string.
    - [MysqlSql], [MysqlSchema], [MysqlTheorems], [MysqlData]: what the store sends,
      its types, what it does with the connections, and the data it reads.

    A C++ class is a [Module] with one definition per method, under the method's
    name.  A method of a component that only holds a pointer to the store is a
    computation [M T A] on the store's state; the manager, the notification
    channel and the SDK client have records of their own.  A caller is verified
    against [ConfigStoreSpec] only, so what is shown of it holds over any store that
    keeps it.  [SqliteConfigStore] keeps it over a storage that obeys the laws and
    whose [insert] writes the columns of the primary key ([writes_keys]); over one
    whose [insert] leaves them out, as sqlite_orm documents it, it keeps
    [ConfigStoreContract] with creations of applications, namespaces and configs that
    answer [false] and store nothing.  The witnesses run the callers over the SQLite
    store on [mem_orm], the in-memory storage that writes them.

    ** What is shown

    - The SQLite store implements the contract on every branch of every method, in
      the form its [insert] allows ([SqliteAtomic.sqlite_refines_contract]);
      publication is atomic whichever statements fail
      ([SqliteAtomic.publishRelease_atomic]), the other writes
      are not ([SqliteAtomic.createConfig_partial]), and a client is told that an
      edit was stored when it was not ([SqliteFaults.put_under_faults]); but no
      failure, of any request in any interleaving of calls that hold the mutex, breaks
      a constraint of the tables or the audit trail ([SqliteFaults.faults_keep_store]).
    - No sequence of operations breaks the invariant, the histories only grow,
      [ROLLBACK] restores exactly the content at [BEGIN] ([StoreInvariants]);
      versions are numbered without gaps while keys have no colon and nothing is
      deleted, and a rollback then restores the value it names ([History]).
    - The two servers implement a key-value map with drafts: every sequence of edits,
      reads, deletions and publications, over either protocol, is answered as the
      map answers ([KeyValue.server_refines_kv]), and so is every client of the HTTP
      server's event loop, whatever the order of accepts, reads, writes and errors,
      when it has one worker or its clients send no edits ([ServerKv.loop_serves_kv]);
      and they implement a registry of applications and namespaces, up to the removal
      that ends the server ([Registry.http_registry]).
    - From edit to reader: through the engine ([PublishEngine.edit_publish_get]),
      over HTTP ([HttpTheorems.http_put_publish_get]) and over gRPC
      ([GrpcService.grpc_set_publish_get]); GET requests change nothing
      ([HttpTheorems.http_get_read_only]); routing extracts the namespace and
      the key that the target was made of; where the handler classes and the
      session agree, and where they do not ([HttpTheorems.handlers_agree]).
    - Inheritance of namespaces finds the nearest ancestor's value and ends when
      the ancestors form no cycle ([NamespaceManager]); approvals, rollouts and
      grayscale buckets ([PublishEngine]).
    - Notifications are delivered in order, at most once, in every interleaving
      of publishers and waiters, and no waiter stays blocked while one is there for it
      ([NotificationChannel]).
    - Tokens and passwords: what is issued is accepted, what is accepted was
      signed ([Auth]); the SDK's cache file round trip, accessors and back-off
      ([ConfigClient]); every setting of the configuration file reaches its own
      field and the others keep their defaults ([ConfigParser]).
    - The event loop of the HTTP server serves requests as if one after the other,
      with one worker or where they make one store call each, and two edits that race
      on two workers do not ([Server.two_puts_race]); it never stops accepting
      ([Server]); which requests end it ([HttpErrors.request_ends_server]); and the
      gRPC server hands every call that reaches it to an object that was destroyed
      ([GrpcServer.grpc_calls_dangle]).
    - Several threads ([ConcurrencyTheorems]): no interleaving of calls that hold the
      mutex breaks an invariant of the store; requests that make one store call are
      linearizable; an acknowledged edit stays on record; the answer to a creation is
      right; the races of the requests that make two calls, and a transaction that
      undoes the work of the others.
    - The MySQL store: every text it sends, for all arguments and answers, is the
      statement it is meant to be, and fits the schema it creates but for the times,
      which are in no format MySQL reads ([MysqlSchema]); its threads, while they use no
      transaction methods, never share a connection and all their calls complete; a
      publication is one transaction; and which methods lose connections or hide failures
      ([MysqlTheorems]); the connection string ([MysqlData]).
    - Where the code departs from its documents, the theorem says what it does
      (for instance [PublishEngine.publishGrayscale_never_publishes],
      [HttpTheorems.http_delete_then_get], [MysqlTheorems.refusals_unreported],
      [ConcurrencyTheorems.put_lost_in_race]).

    ** Choices

    - Signed 32-bit overflow is [Undef]: the version counter, the release
      version and the offset of a page.  Nothing is said of what follows it.
    - Each operation reads the clock at most once; the reading is its argument
      [now].
    - A method that holds the mutex is one step.  The interleavings of several
      threads are modelled for the store calls of every component
      ([Concurrency.shared]), for the handlers on the workers of the HTTP server
      ([Server], where the store calls of two handlers interleave), for the
      notification channel and for the pool of the MySQL store.
    - The transaction commands of the SQLite store take no mutex.  [Concurrency]
      covers the interleavings in which they fall between the calls of other threads
      ([Concurrency.between_calls]); what is shown there of invariants, atomicity and
      failures is of threads that do not use them ([plain], [uses_plain]), for which
      these interleavings are all there are.  Only the grayscale release uses them, and
      no route or call of the servers makes one.  [TransactionRaces] has examples of
      commands that fall between the statements of a method, in which creation and
      publication do not keep their promises.
    - [NamespaceManager.resolveConfig] takes fuel, one unit a call; as many units
      as there are namespaces, and one, are enough when there is no cycle, and on
      a cycle no fuel is enough.  [GrpcService.WatchConfig] takes the answers of
      the runtime, one element a round.  Everything else is structural.
    - The laws of the storage follow the documents of sqlite_orm: an insert writes the
      columns outside the primary key.  A statement on a table whose key is the
      object's own is refused then, since the columns are not nullable; with
      [writes_keys] it stores the object as given.
    - A blocked thread is a member of the condition variable's set in
      [NotificationChannel] and a state of its thread in [MysqlPool]; [notify_all] and
      [notify_one] wake threads, spurious wake-ups are steps of their own.
    - A server is found under an address when the runtime says that the listening
      address is reached by it ([GrpcServer]).
    - Libraries are parameters: sqlite_orm, the JSON parser and serializer,
      yaml-cpp's loader and conversions, jwt-cpp, SHA-256, [std::hash], [std::stod],
      the gRPC runtime, the connections of the MySQL store.  A theorem that needs something
      of one says so as a hypothesis, and its witness has a concrete instance.

    ** What is not modelled

    What a MySQL server does with a statement: [MysqlConnection] has no
    implementation in the repository, and the effect of the statements depends on
    the server's collation, SQL mode and date formats, so every answer is allowed.
    The bytes on the sockets; the threads of the gRPC runtime; the console output of
    [main.cpp].  The storage object asked for an allocator by [healthCheck] is a
    parameter of which nothing is assumed, so theorems about all requests leave the
    target [/health] out where they need the store's contract.  The classes of
    [publish/draft_manager.cpp], [publish/approval_engine.cpp],
    [subscription/long_polling.cpp] and the like only keep a pointer. *)
From Stdlib Require Export ZArith Lia Ascii.
From stdpp Require Export base gmap list strings sorting numbers pretty.

(** ** Outcomes and the state-exception monad

    A C++ call either returns a value, leaves by an exception, or runs into
    undefined behaviour (a signed overflow).  The state is kept in all three
    cases: what a call wrote before it threw stays written. *)
Inductive outcome (A : Type) : Type :=
  | Ret (a : A)
  | Throw
  | Undef.
Arguments Ret {A} a.
Arguments Throw {A}.
Arguments Undef {A}.

#[export] Instance outcome_ret : MRet outcome := λ A a, Ret a.
#[export] Instance outcome_bind : MBind outcome := λ A B k o,
  match o with Ret a => k a | Throw => Throw | Undef => Undef end.

(** The value, or an exception. *)
Definition or_throw {A : Type} (o : option A) : outcome A :=
  match o with Some a => Ret a | None => Throw end.

Definition M (S A : Type) : Type := S → outcome A * S.

#[export] Instance M_ret (S : Type) : MRet (M S) := λ A a s, (Ret a, s).

#[export] Instance M_bind (S : Type) : MBind (M S) := λ A B k m s,
  match m s with
  | (Ret a, s') => k a s'
  | (Throw, s') => (Throw, s')
  | (Undef, s') => (Undef, s')
  end.

Definition throw {S A : Type} : M S A := λ s, (Throw, s).
Definition undef {S A : Type} : M S A := λ s, (Undef, s).

Lemma bind_ret {S A B : Type} (a : A) (k : A → M S B) : mret a ≫= k = k a.
Proof. done. Qed.
Lemma bind_throw {S A B : Type} (k : A → M S B) : throw ≫= k = throw.
Proof. done. Qed.

(** [try { m } catch (...) { h }]: an exception runs the handler in the state
    the exception left; undefined behaviour is not caught. *)
Definition try_catch {S A : Type} (m h : M S A) : M S A := λ s,
  match m s with
  | (Throw, s') => h s'
  | r => r
  end.

(** ** Machine integers *)
Open Scope Z_scope.

Definition INT32_MIN : Z := -2147483648.
Definition INT32_MAX : Z := 2147483647.

Definition in_int32 (z : Z) : Prop := INT32_MIN ≤ z ≤ INT32_MAX.

#[export] Instance in_int32_dec (z : Z) : Decision (in_int32 z).
Proof. unfold in_int32. apply _. Defined.

(** A 32-bit signed operation whose mathematical result is [z]: overflow of
    [int] and [int32_t] is undefined behaviour. *)
Definition int32 {S : Type} (z : Z) : M S Z :=
  if decide (in_int32 z) then mret z else undef.

(** ** Total-correctness reasoning

    [wp s m Q]: from [s], the computation [m] ends in an outcome [o] and a
    ready state whose observation [v] satisfies [Q o v].  There is no partial
    reading: [m] is a function, so it always ends in one of the outcomes. *)
Class Observed (S V : Type) := {
  view : S → V;
  ready : S → Prop;
}.
#[export] Hint Mode Observed ! - : typeclass_instances.

Section wp.
Context {S V : Type} `{!Observed S V}.

Definition wp {A : Type} (s : S) (m : M S A) (Q : outcome A → V → Prop) : Prop :=
  ∃ o s', m s = (o, s') ∧ ready s' ∧ Q o (view s').

Lemma wp_ret {A : Type} (s : S) (a : A) (Q : outcome A → V → Prop) :
  ready s → Q (Ret a) (view s) → wp s (mret a) Q.
Proof. intros Hr HQ. by exists (Ret a), s. Qed.

Lemma wp_mono {A : Type} (s : S) (m : M S A) (Q Q' : outcome A → V → Prop) :
  wp s m Q → (∀ o v, Q o v → Q' o v) → wp s m Q'.
Proof. intros (o & s' & ? & ? & ?) HQ. exists o, s'. eauto. Qed.

Lemma wp_bind {A B : Type} (s : S) (m : M S A) (k : A → M S B) (Q : outcome B → V → Prop) :
  wp s m (λ o v,
    match o with
    | Ret a => ∀ s', ready s' → view s' = v → wp s' (k a) Q
    | Throw => Q Throw v
    | Undef => Q Undef v
    end) →
  wp s (m ≫= k) Q.
Proof.
  intros (o & s' & Hm & Hr & HQ). unfold wp, mbind, M_bind. rewrite Hm.
  destruct o as [a| |].
  - destruct (HQ s' Hr eq_refl) as (o' & s'' & Hk & ? & ?). exists o', s''. eauto.
  - exists Throw, s'. eauto.
  - exists Undef, s'. eauto.
Qed.

Lemma wp_try {A : Type} (s : S) (m h : M S A) (Q : outcome A → V → Prop) :
  wp s m (λ o v,
    match o with
    | Throw => ∀ s', ready s' → view s' = v → wp s' h Q
    | _ => Q o v
    end) →
  wp s (try_catch m h) Q.
Proof.
  intros (o & s' & Hm & Hr & HQ). unfold wp, try_catch. rewrite Hm.
  destruct o as [a| |].
  - exists (Ret a), s'. eauto.
  - apply (HQ s' Hr eq_refl).
  - exists Undef, s'. eauto.
Qed.

Lemma wp_run {A : Type} (s : S) (m : M S A) (Q : outcome A → V → Prop) :
  wp s m Q → ready (m s).2 ∧ Q (m s).1 (view (m s).2).
Proof. by intros (o & s' & -> & ? & ?). Qed.

Lemma wp_int32 (s : S) (z : Z) (Q : outcome Z → V → Prop) :
  ready s →
  (in_int32 z → Q (Ret z) (view s)) → (¬ in_int32 z → Q Undef (view s)) →
  wp s (int32 z) Q.
Proof.
  intros Hr Hin Hout. unfold int32. case_decide.
  - apply wp_ret; eauto.
  - exists Undef, s. eauto.
Qed.
End wp.

(** ** Rows of a table, seen through their key

    A relational table is a list of rows; its keyed view is the finite map
    from the key columns to the row. *)
Section keyed.
Context {K R : Type} `{Countable K} (key : R → K).

Definition keyed (l : list R) : gmap K R := list_to_map ((λ r, (key r, r)) <$> l).

Lemma keyed_fst l : ((λ r, (key r, r)) <$> l).*1 = key <$> l.
Proof. by rewrite <- list_fmap_compose. Qed.

Lemma keyed_lookup l k r :
  NoDup (key <$> l) → keyed l !! k = Some r ↔ r ∈ l ∧ key r = k.
Proof.
  intros Hnd. unfold keyed. rewrite <- elem_of_list_to_map by by rewrite keyed_fst.
  rewrite list_elem_of_fmap. naive_solver.
Qed.

Lemma keyed_None l k : keyed l !! k = None ↔ k ∉ key <$> l.
Proof.
  unfold keyed. rewrite <- not_elem_of_list_to_map. by rewrite keyed_fst.
Qed.

Lemma keyed_is_Some l k : is_Some (keyed l !! k) ↔ k ∈ key <$> l.
Proof.
  rewrite <- not_eq_None_Some, keyed_None.
  split; [|tauto]. by destruct (decide (k ∈ key <$> l)).
Qed.

Lemma keyed_snoc l r :
  key r ∉ key <$> l → keyed (l ++ [r]) = <[key r := r]> (keyed l).
Proof.
  intros Hr. unfold keyed. rewrite fmap_app, list_to_map_app. cbn.
  rewrite insert_empty. symmetry. apply insert_union_singleton_r.
  by apply keyed_None.
Qed.

Lemma NoDup_fmap_filter (P : R → Prop) `{∀ r, Decision (P r)} l :
  NoDup (key <$> l) → NoDup (key <$> filter P l).
Proof.
  intros Hnd. eapply sublist_NoDup; [exact Hnd|]. apply fmap_sublist, sublist_filter.
Qed.

Lemma keyed_filter (P : R → Prop) `{∀ r, Decision (P r)} l :
  NoDup (key <$> l) → keyed (filter P l) = filter (λ kr, P kr.2) (keyed l).
Proof.
  intros Hnd. apply map_eq. intros k. apply option_eq. intros r.
  rewrite map_lookup_filter_Some, !keyed_lookup by auto using NoDup_fmap_filter.
  rewrite list_elem_of_filter. naive_solver.
Qed.

Lemma keyed_fmap (f : R → R) l :
  (∀ r, key (f r) = key r) → keyed (f <$> l) = f <$> keyed l.
Proof.
  intros Hf. unfold keyed. rewrite <- list_to_map_fmap.
  f_equal. rewrite <- !list_fmap_compose. apply list_fmap_ext.
  intros ? r _. cbn. by rewrite Hf.
Qed.

Lemma keyed_to_list l : NoDup (key <$> l) → (map_to_list (keyed l)).*2 ≡ₚ l.
Proof.
  intros Hnd. unfold keyed. rewrite map_to_list_to_map by by rewrite keyed_fst.
  rewrite <- list_fmap_compose. by rewrite list_fmap_id.
Qed.
End keyed.
Arguments keyed : simpl never.

(** The rows with [P] replaced by their image under [f]: [UPDATE .. WHERE]. *)
Definition update_where {R : Type} (P : R → Prop) `{∀ r, Decision (P r)} (f : R → R)
    (l : list R) : list R :=
  (λ r, if decide (P r) then f r else r) <$> l.
Arguments update_where : simpl never.

(** [l] enumerates, without repetition, the rows of [m] that satisfy [P]. *)
Definition enumerates {K R : Type} `{Countable K} (l : list R) (m : gmap K R)
    (P : R → Prop) : Prop :=
  NoDup l ∧ ∀ r, r ∈ l ↔ (∃ k, m !! k = Some r) ∧ P r.

Lemma keyed_enumerates {K R : Type} `{Countable K} (key : R → K) (P : R → Prop)
    `{∀ r, Decision (P r)} (l rows : list R) :
  NoDup (key <$> rows) → l ≡ₚ filter P rows → enumerates l (keyed key rows) P.
Proof.
  intros Hnd Hl. split.
  - rewrite Hl. apply NoDup_filter. by eapply NoDup_fmap_1.
  - intros r. rewrite Hl, list_elem_of_filter. setoid_rewrite keyed_lookup; [|done].
    naive_solver.
Qed.

(** ** List facts *)
Lemma NoDup_snoc {A : Type} (l : list A) (x : A) : NoDup (l ++ [x]) ↔ NoDup l ∧ x ∉ l.
Proof. rewrite NoDup_app. pose proof (NoDup_singleton x). set_solver. Qed.

Lemma fmap_snoc {A B : Type} (f : A → B) (l : list A) (x : A) :
  f <$> l ++ [x] = (f <$> l) ++ [f x].
Proof. by rewrite fmap_app. Qed.

(** A list keyed by numbers up to [seq] takes a row with the key [seq + 1]. *)
Lemma fresh_id {R : Type} (key : R → Z) (l : list R) (r : R) (seq : Z) :
  NoDup (key <$> l) → Forall (λ x, key x ≤ seq) l → key r = seq + 1 →
  NoDup (key <$> l ++ [r]) ∧ Forall (λ x, key x ≤ seq + 1) (l ++ [r]).
Proof.
  intros Hnd Hall Hr. rewrite fmap_snoc, NoDup_snoc, Forall_app, Forall_singleton.
  split_and!; [done| |eapply Forall_impl; [done|cbn; lia]|lia].
  rewrite list_elem_of_fmap. intros (x & Hx & Hin). rewrite Forall_forall in Hall.
  specialize (Hall x Hin). lia.
Qed.

Lemma fmap_update_where {R B : Type} (g : R → B) (P : R → Prop) `{∀ r, Decision (P r)} f l :
  (∀ r, P r → g (f r) = g r) → g <$> update_where P f l = g <$> l.
Proof.
  intros Hg. unfold update_where. rewrite <- list_fmap_compose. apply list_fmap_ext.
  intros ? r _. cbn. case_decide; auto.
Qed.

Lemma Forall_update_where {R : Type} (g : R → Z) (P : R → Prop) `{∀ r, Decision (P r)} f l z :
  (∀ r, P r → g (f r) = g r) → Forall (λ r, g r ≤ z) l →
  Forall (λ r, g r ≤ z) (update_where P f l).
Proof.
  intros Hg Hl. unfold update_where. apply Forall_fmap. eapply Forall_impl; [done|].
  intros r Hr. cbn. case_decide; [rewrite Hg|]; done.
Qed.

(** The first row an unordered query by key returns is the row of that key. *)
Lemma keyed_head {K R : Type} `{Countable K} (key : R → K) (P : R → Prop) `{∀ r, Decision (P r)}
    (i : K) (l rows : list R) :
  (∀ r, P r ↔ key r = i) → NoDup (key <$> rows) → l ≡ₚ filter P rows →
  head l = keyed key rows !! i.
Proof.
  intros HP Hnd Hl. symmetry. destruct l as [|x l]; cbn.
  - apply keyed_None. rewrite list_elem_of_fmap. intros (r & -> & Hr).
    assert (r ∈ filter P rows) as Hr' by (apply list_elem_of_filter; by rewrite HP).
    rewrite <- Hl in Hr'. by apply not_elem_of_nil in Hr'.
  - apply keyed_lookup; [done|]. rewrite <- HP.
    assert (x ∈ filter P rows) as [? ?]%list_elem_of_filter; [|done].
    rewrite <- Hl. by left.
Qed.

Lemma head_picks {A : Type} (l l' : list A) :
  l ≡ₚ l' → match head l with Some x => x ∈ l' | None => l' = [] end.
Proof.
  intros Hl. destruct l as [|x l]; cbn.
  - by apply Permutation_nil_l in Hl.
  - rewrite <- Hl. by left.
Qed.

(** ** Strings *)
Lemma str_app_nil (s : string) : "" +:+ s = s.
Proof. done. Qed.
Lemma str_app_cons (a : Ascii.ascii) (s t : string) : String a s +:+ t = String a (s +:+ t).
Proof. done. Qed.
Create Rewrite HintDb str.
#[export] Hint Rewrite str_app_nil str_app_cons : str.

(** The characters of a string. *)
Abbreviation chars := String.list_ascii_of_string.

Lemma chars_app (s t : string) : chars (s +:+ t) = chars s ++ chars t.
Proof. induction s as [|a s IH]; [done|]. rewrite str_app_cons. cbn. by rewrite IH. Qed.

Lemma str_app_assoc (s t u : string) : (s +:+ t) +:+ u = s +:+ (t +:+ u).
Proof. induction s as [|a s IH]; [done|]. rewrite !str_app_cons. by rewrite IH. Qed.

Lemma str_app_empty (s : string) : s +:+ "" = s.
Proof. induction s as [|a s IH]; [done|]. rewrite str_app_cons. by rewrite IH. Qed.
Lemma str_length_app (s t : string) : String.length (s +:+ t) = (String.length s + String.length t)%nat.
Proof. induction s as [|a s IH]; [done|]. rewrite str_app_cons. cbn. by rewrite IH. Qed.

(** A number spelled out in binary, a concrete encoding of any countable value. *)
Fixpoint to_bits (p : positive) : string :=
  match p with
  | xH => ""
  | xO p => "0" +:+ to_bits p
  | xI p => "1" +:+ to_bits p
  end.
Fixpoint of_bits (s : string) : option positive :=
  match s with
  | EmptyString => Some xH
  | String a s =>
    p ← of_bits s;
    if bool_decide (a = "0"%char) then Some (xO p)
    else if bool_decide (a = "1"%char) then Some (xI p) else None
  end.

Lemma of_to_bits p : of_bits (to_bits p) = Some p.
Proof. induction p as [p IH|p IH|]; cbn [to_bits]; rewrite ?str_app_cons, ?str_app_nil; cbn; by rewrite ?IH. Qed.
