(* ===== verification/Strings.v ===== *)
(** * Strings of the standard library

    The functions of [std::string] and the conversions between numbers and text
    that the components share: character classes, [std::stoi], [std::stoll],
    [find] and [substr], with the facts about them. *)
From S2P Require Import Prelude.

(** ** Characters and numbers *)
(** [isspace] and [tolower] in the "C" locale *)
Definition is_space (a : ascii) : bool :=
  let n := N_of_ascii a in (n =? 32)%N || ((9 <=? n)%N && (n <=? 13)%N).

Definition tolower_char (a : ascii) : ascii :=
  let n := N_of_ascii a in
  if (65 <=? n)%N && (n <=? 90)%N then ascii_of_N (n + 32) else a.

Fixpoint tolower (s : string) : string :=
  match s with
  | EmptyString => EmptyString
  | String a s => String (tolower_char a) (tolower s)
  end.

Definition digit_val (a : ascii) : option Z :=
  let n := N_of_ascii a in
  if (48 <=? n)%N && (n <=? 57)%N then Some (Z.of_N n - 48) else None.

Fixpoint skip_space (s : string) : string :=
  match s with
  | String a s' => if is_space a then skip_space s' else s
  | EmptyString => EmptyString
  end.

(** The digits at the start of [s]: their value, or [None] if there is none. *)
Fixpoint read_digits (acc : option Z) (s : string) : option Z :=
  match s with
  | EmptyString => acc
  | String a s =>
    match digit_val a with
    | Some d => read_digits (Some (default 0 acc * 10 + d)) s
    | None => acc
    end
  end.

(** [std::strtol]: the integer at the start of the text, if there is one *)
Definition read_int (s : string) : option Z :=
  let '(neg, rest) :=
    match skip_space s with
    | String a r =>
      if bool_decide (a = "-"%char) then (true, r)
      else if bool_decide (a = "+"%char) then (false, r) else (false, String a r)
    | EmptyString => (false, EmptyString)
    end in
  n ← read_digits None rest;
  Some (if neg : bool then - n else n).

(** [std::stoi] and [std::stoll]: [None] where they throw (no number, or one that
    does not fit) *)
Definition stoi (s : string) : option Z :=
  z ← read_int s; if decide (in_int32 z) then Some z else None.

Definition in_int64 (z : Z) : Prop := - 2 ^ 63 ≤ z < 2 ^ 63.
#[export] Instance in_int64_dec z : Decision (in_int64 z).
Proof. unfold in_int64. apply _. Defined.

Definition stoll (s : string) : option Z :=
  z ← read_int s; if decide (in_int64 z) then Some z else None.

(** ** Printed integers *)
Lemma digit_val_pretty (d : N) : (d < 10)%N → digit_val (pretty_N_char d) = Some (Z.of_N d).
Proof.
  intros Hd. assert (d = 0 ∨ d = 1 ∨ d = 2 ∨ d = 3 ∨ d = 4 ∨ d = 5 ∨ d = 6 ∨ d = 7 ∨ d = 8 ∨ d = 9)%N
    as Hcases by lia.
  by repeat destruct Hcases as [->|Hcases]; [..|subst].
Qed.

Lemma read_digits_pretty (x : N) (s : string) :
  (0 < x)%N → read_digits None (pretty_N_go x s) = read_digits (Some (Z.of_N x)) s.
Proof.
  revert s. induction (N.lt_wf_0 x) as [x _ IH]. intros s Hx.
  rewrite pretty_N_go_step by done.
  assert (digit_val (pretty_N_char (x `mod` 10)) = Some (Z.of_N (x `mod` 10))) as Hd
    by (apply digit_val_pretty, N.mod_lt; lia).
  pose proof (f_equal Z.of_N (N.div_mod' x 10)) as Hx10. rewrite N2Z.inj_add, N2Z.inj_mul in Hx10.
  destruct (decide (x `div` 10 = 0)%N) as [Hz|Hz].
  - rewrite Hz in Hx10 |- *. rewrite pretty_N_go_0. cbn. rewrite Hd. do 2 f_equal. cbn in *. lia.
  - rewrite IH; [|by apply N.div_lt|by apply N.neq_0_lt_0]. cbn. rewrite Hd. do 2 f_equal. cbn in *. lia.
Qed.

(** What follows the number: nothing, or a character that is not a digit. *)
Definition no_digit (s : string) : Prop :=
  match s with EmptyString => True | String a _ => digit_val a = None end.

Lemma read_digits_number (n : N) (rest : string) :
  no_digit rest → read_digits None (pretty n +:+ rest) = Some (Z.of_N n).
Proof.
  intros Hrest. assert (∀ acc, read_digits (Some acc) rest = Some acc) as Hstop.
  { intros acc. destruct rest as [|a r]; [done|]. cbn in *. by rewrite Hrest. }
  assert (∀ s x, pretty_N_go x s +:+ rest = pretty_N_go x (s +:+ rest)) as Happ.
  { intros s x. revert s. induction (N.lt_wf_0 x) as [x _ IH]. intros s.
    destruct (decide (x = 0)%N) as [->|Hx]; [by rewrite !pretty_N_go_0|].
    rewrite !(pretty_N_go_step x) by lia. rewrite IH by (apply N.div_lt; lia). done. }
  unfold pretty, pretty_N. case_decide as Hn.
  - subst. rewrite str_app_cons, str_app_nil. cbn. apply Hstop.
  - rewrite Happ, str_app_nil, read_digits_pretty by lia. apply Hstop.
Qed.

Lemma pretty_N_head (n : N) : ∃ d s, (d < 10)%N ∧ pretty n = String (pretty_N_char d) s.
Proof.
  assert (∀ x s, (0 < x)%N → ∃ d s', (d < 10)%N ∧ pretty_N_go x s = String (pretty_N_char d) s') as Hgo.
  { intros x. induction (N.lt_wf_0 x) as [x _ IH]. intros s Hx. rewrite pretty_N_go_step by done.
    destruct (decide (x `div` 10 = 0)%N) as [->|Hz].
    - rewrite pretty_N_go_0. eexists _, _. split; [|done]. by apply N.mod_lt.
    - apply IH; [by apply N.div_lt|by apply N.neq_0_lt_0]. }
  unfold pretty, pretty_N. case_decide.
  - by exists 0%N, "".
  - apply Hgo. lia.
Qed.

(** A digit is no space and no sign. *)
Lemma digit_char (d : N) : (d < 10)%N →
  is_space (pretty_N_char d) = false ∧ pretty_N_char d ≠ "-"%char ∧ pretty_N_char d ≠ "+"%char.
Proof.
  intros Hd. assert (d = 0 ∨ d = 1 ∨ d = 2 ∨ d = 3 ∨ d = 4 ∨ d = 5 ∨ d = 6 ∨ d = 7 ∨ d = 8 ∨ d = 9)%N
    as Hcases by lia.
  by repeat destruct Hcases as [->|Hcases]; [..|subst].
Qed.

Lemma skip_space_app (ws s : string) :
  Forall is_space (chars ws) → skip_space (ws +:+ s) = skip_space s.
Proof.
  induction ws as [|a ws IH]; intros Hws; [done|]. cbn in Hws. apply Forall_cons in Hws as [Ha Hws].
  rewrite str_app_cons. cbn. rewrite (Is_true_true_1 _ Ha). by apply IH.
Qed.

(** A printed integer is read back, after white space and before anything that
    does not start with a digit. *)
Lemma read_int_pretty ws z rest :
  Forall is_space (chars ws) → no_digit rest → read_int (ws +:+ pretty z +:+ rest) = Some z.
Proof.
  intros Hws Hrest. unfold read_int. rewrite skip_space_app by done.
  assert (∀ n : N, skip_space (pretty n +:+ rest) = pretty n +:+ rest ∧
    match pretty n +:+ rest with
    | String a r => if bool_decide (a = "-"%char) then (true, r)
        else if bool_decide (a = "+"%char) then (false, r) else (false, String a r)
    | EmptyString => (false, EmptyString)
    end = (false, pretty n +:+ rest)) as Hpos.
  { intros n. destruct (pretty_N_head n) as (d & s & Hd & ->). rewrite str_app_cons. cbn.
    destruct (digit_char d Hd) as (-> & ? & ?). by rewrite !bool_decide_false. }
  destruct z as [|p|p].
  - destruct (Hpos 0%N) as [E1 E2]. change (pretty 0%Z) with (pretty 0%N).
    rewrite E1, E2, read_digits_number by done. done.
  - destruct (Hpos (Npos p)) as [E1 E2]. change (pretty (Zpos p)) with (pretty (Npos p)).
    rewrite E1, E2, read_digits_number by done. done.
  - change (pretty (Zneg p)) with ("-" +:+ pretty (Npos p)). rewrite !str_app_cons, str_app_nil.
    generalize (read_digits_number (Npos p) rest Hrest). generalize (pretty (Npos p) +:+ rest).
    intros t Ht. cbn [skip_space]. change (is_space "-"%char) with false. cbn iota.
    rewrite bool_decide_true by done. cbn. by rewrite Ht.
Qed.

Lemma stoi_pretty ws z rest :
  Forall is_space (chars ws) → no_digit rest →
  stoi (ws +:+ pretty z +:+ rest) = if decide (in_int32 z) then Some z else None.
Proof. intros Hws Hrest. unfold stoi. by rewrite read_int_pretty. Qed.

(** The text of [std::to_string] is read back. *)
Lemma read_int_number z : read_int (pretty z) = Some z.
Proof.
  pose proof (read_int_pretty "" z "" (List.Forall_nil _) I) as H.
  by rewrite str_app_nil, str_app_empty in H.
Qed.
Lemma stoi_number z : in_int32 z → stoi (pretty z) = Some z.
Proof. intros Hz. unfold stoi. rewrite read_int_number. cbn. by rewrite decide_True. Qed.
Lemma stoll_number z : in_int64 z → stoll (pretty z) = Some z.
Proof. intros Hz. unfold stoll. rewrite read_int_number. cbn. by rewrite decide_True. Qed.
Lemma stoi_range s z : stoi s = Some z → in_int32 z.
Proof. unfold stoi. destruct (read_int s); [|done]. cbn. case_decide; congruence. Qed.

(** ** Searching *)
Fixpoint starts_with (p s : string) : bool :=
  match p, s with
  | EmptyString, _ => true
  | String a p, String b s => bool_decide (a = b) && starts_with p s
  | String _ _, EmptyString => false
  end.

(** [s.find(p)]: the first position, [None] for [npos] *)
Fixpoint find (p s : string) : option nat :=
  if starts_with p s then Some 0%nat
  else match s with
       | EmptyString => None
       | String _ s => Datatypes.S <$> find p s
       end.

(** [s.substr(n)], for [n] at most the length *)
Fixpoint substr (n : nat) (s : string) : string :=
  match n, s with
  | Datatypes.S n, String _ s => substr n s
  | _, _ => s
  end.

(** the first [n] characters *)
Fixpoint str_take (n : nat) (s : string) : string :=
  match n, s with
  | Datatypes.S n, String a s => String a (str_take n s)
  | _, _ => EmptyString
  end.

Lemma starts_with_app p s : starts_with p (p +:+ s) = true.
Proof.
  induction p as [|a p IH]; [done|]. rewrite str_app_cons. cbn. by rewrite bool_decide_true.
Qed.

Lemma find_prefix p s : find p (p +:+ s) = Some 0%nat.
Proof. destruct p as [|a p]; [by destruct s|]. rewrite str_app_cons. cbn [find]. rewrite <- str_app_cons. by rewrite starts_with_app. Qed.

Lemma find_zero p s : find p s = Some 0%nat ↔ starts_with p s = true.
Proof.
  destruct s as [|a s]; cbn; destruct (starts_with p _); try done.
  destruct (find p s); cbn; split; congruence.
Qed.

Lemma substr_app p s : substr (String.length p) (p +:+ s) = s.
Proof. induction p as [|a p IH]; [by destruct s|]. by rewrite str_app_cons. Qed.

Lemma str_take_app p s : str_take (String.length p) (p +:+ s) = p.
Proof. induction p as [|a p IH]; [done|]. rewrite str_app_cons. cbn. by rewrite IH. Qed.

(** A pattern that does not match in a text with a part of itself appended does
    not match early in the text followed by the whole. *)
Lemma starts_with_longer p s t : starts_with p s = true → starts_with p (s +:+ t) = true.
Proof.
  revert s. induction p as [|a p IH]; intros [|b s]; cbn; try done.
  rewrite str_app_cons. rewrite !andb_true_iff. naive_solver.
Qed.

(** Whether [p] matches at the start of [s] depends on the first [length p]
    characters of [s] only. *)
Lemma starts_with_local p s t t' :
  (String.length p ≤ String.length s)%nat → starts_with p (s +:+ t) = starts_with p (s +:+ t').
Proof.
  revert s. induction p as [|a p IH]; intros [|b s]; cbn [String.length starts_with]; intros Hl;
    rewrite ?str_app_cons; cbn [starts_with]; [done|done|lia|]. f_equal. apply IH. lia.
Qed.

(** A pattern that is not in a text is not in any end of it. *)
Lemma find_None_suffix p a s : find p (a +:+ s) = None → find p s = None.
Proof.
  induction a as [|x a IH]; [done|]. rewrite str_app_cons. cbn [find].
  destruct (starts_with p _); [done|]. intros H. apply IH. by destruct (find p (a +:+ s)).
Qed.

Lemma find_None_prefix p a s : find p (a +:+ s) = None → find p a = None.
Proof.
  induction a as [|x a IH].
  - cbn. destruct p as [|y p]; [|done]. destruct s; done.
  - rewrite str_app_cons. cbn [find]. destruct (starts_with p (String x a)) eqn:E.
    + apply (starts_with_longer p (String x a) s) in E. rewrite str_app_cons in E. by rewrite E.
    + case_match; [done|]. destruct (find p (a +:+ s)); [done|]. by rewrite IH.
Qed.

(** The separator is found where it was put: [p] is the separator but for its
    last character [c], and [a] followed by [p] does not contain it. *)
Lemma find_separator p c a b :
  find (p +:+ String c "") (a +:+ p) = None →
  find (p +:+ String c "") (a +:+ p +:+ String c b) = Some (String.length a).
Proof.
  induction a as [|x a IH]; intros Hn.
  - rewrite !str_app_nil. assert (p +:+ String c b = (p +:+ String c "") +:+ b) as ->.
    { by rewrite str_app_assoc, str_app_cons, str_app_nil. }
    apply find_prefix.
  - rewrite str_app_cons in Hn |- *. cbn [find] in Hn |- *.
    destruct (starts_with (p +:+ String c "") (String x (a +:+ p))) eqn:E1; [done|].
    destruct (find (p +:+ String c "") (a +:+ p)) eqn:E2; [done|].
    rewrite IH by done.
    replace (String x (a +:+ p +:+ String c b)) with ((String x (a +:+ p)) +:+ String c b)
      by (by rewrite str_app_cons, str_app_assoc).
    rewrite (starts_with_local _ _ _ ""), str_app_empty, E1; [done|].
    rewrite !str_length_app. cbn. rewrite str_length_app. lia.
Qed.
