(* ===== verification/Timestamp.v ===== *)
(** * Timestamps

    [getTimestamp] of [SqliteConfigStore], [MysqlConfigStore] and
    [NamespaceManager]: the system clock, broken down by [std::gmtime] and
    printed by [std::put_time] as ["%Y-%m-%dT%H:%M:%SZ"].  The clock is read
    at most once by each operation, so its reading is an argument [now] of the
    operations (seconds since 1970-01-01).

    The tables store these strings and order and filter by them, so what
    matters is that the order of the strings is the order of the instants. *)
From S2P Require Import Prelude.

(** ** The proleptic Gregorian calendar, as [gmtime] walks it *)
Definition is_leap (y : Z) : bool :=
  (y mod 4 =? 0) && (negb (y mod 100 =? 0) || (y mod 400 =? 0)).

Definition days_in_year (y : Z) : Z := if is_leap y then 366 else 365.

Definition month_lengths (y : Z) : list Z :=
  [31; if is_leap y then 29 else 28; 31; 30; 31; 30; 31; 31; 30; 31; 30; 31].

(** The year and day of the year [d] days after 1 January of year [y]. *)
Fixpoint year_of (fuel : nat) (y d : Z) : Z * Z :=
  match fuel with
  | O => (y, d)
  | S fuel =>
    if d <? days_in_year y then (y, d) else year_of fuel (y + 1) (d - days_in_year y)
  end.

(** The month (counted from [m]) and day of the month of day [d] of the year. *)
Fixpoint month_of (lens : list Z) (m d : Z) : Z * Z :=
  match lens with
  | [] => (m, d)
  | len :: lens => if d <? len then (m, d) else month_of lens (m + 1) (d - len)
  end.

Record tm := Tm {
  tm_year : Z;
  tm_mon : Z;
  tm_mday : Z;
  tm_hour : Z;
  tm_min : Z;
  tm_sec : Z;
}.

Definition gmtime (t : Z) : tm :=
  let days := t / 86400 in
  let secs := t mod 86400 in
  let '(y, yday) := year_of (Z.to_nat (days / 365 + 1)) 1970 days in
  let '(m, mday) := month_of (month_lengths y) 1 yday in
  Tm y m (mday + 1) (secs / 3600) (secs / 60 mod 60) (secs mod 60).

(** ** Printing *)
Definition digit (d : Z) : Ascii.ascii := Ascii.ascii_of_N (48 + Z.to_N (d mod 10)).

(** [n] in [w] decimal digits, most significant first, zero padded. *)
Fixpoint digits (w : nat) (n : Z) : string :=
  match w with
  | O => ""
  | S w => String (digit (n / 10 ^ Z.of_nat w)) (digits w n)
  end.

Definition put_time (tm : tm) : string :=
  pretty (tm_year tm) +:+ "-" +:+ digits 2 (tm_mon tm) +:+ "-" +:+ digits 2 (tm_mday tm)
  +:+ "T" +:+ digits 2 (tm_hour tm) +:+ ":" +:+ digits 2 (tm_min tm) +:+ ":"
  +:+ digits 2 (tm_sec tm) +:+ "Z".

Definition getTimestamp (now : Z) : string := put_time (gmtime now).

Example getTimestamp_epoch : getTimestamp 0 = "1970-01-01T00:00:00Z".
Proof. vm_compute. reflexivity. Qed.
Example getTimestamp_leap : getTimestamp 1709210096 = "2024-02-29T12:34:56Z".
Proof. vm_compute. reflexivity. Qed.
Example getTimestamp_century : getTimestamp 4107542400 = "2100-03-01T00:00:00Z".
Proof. vm_compute. reflexivity. Qed.

(** ** Lexicographic comparison *)

(** Close [(a ?= b) = (c ?= d)] by comparing on the left and linear arithmetic. *)
Ltac cmp_lia :=
  match goal with
  | |- _ = (?c ?= ?d) =>
    destruct (Z.compare_spec c d);
    [apply Z.compare_eq_iff | apply Z.compare_lt_iff | apply Z.compare_gt_iff]; lia
  end.

Definition cmp_then (c1 c2 : comparison) : comparison :=
  match c1 with Eq => c2 | _ => c1 end.

Definition cmp_pair (p q : Z * Z) : comparison := cmp_then (p.1 ?= q.1) (p.2 ?= q.2).

Lemma cmp_pair_eq p q : p.1 = q.1 → cmp_pair p q = (p.2 ?= q.2).
Proof. intros E. unfold cmp_pair. by rewrite E, Z.compare_refl. Qed.

Lemma cmp_pair_lt p q : p.1 < q.1 → cmp_pair p q = Lt.
Proof. intros E%Z.compare_lt_iff. unfold cmp_pair. by rewrite E. Qed.

Lemma cmp_pair_gt p q : p.1 > q.1 → cmp_pair p q = Gt.
Proof. intros E%Z.gt_lt%Z.compare_gt_iff. unfold cmp_pair. by rewrite E. Qed.

Lemma cmp_then_assoc c1 c2 c3 :
  cmp_then (cmp_then c1 c2) c3 = cmp_then c1 (cmp_then c2 c3).
Proof. by destruct c1. Qed.

Lemma cmp_scale b h1 h2 r1 r2 :
  0 ≤ r1 < b → 0 ≤ r2 < b →
  (b * h1 + r1 ?= b * h2 + r2) = cmp_then (h1 ?= h2) (r1 ?= r2).
Proof.
  intros H1 H2. unfold cmp_then. destruct (Z.compare_spec h1 h2) as [->| |].
  - cmp_lia.
  - apply Z.compare_lt_iff. nia.
  - apply Z.compare_gt_iff. nia.
Qed.

(** [cmp_divmod]: a number compares as its quotient, then its remainder. *)
Lemma cmp_divmod b a1 a2 :
  0 < b → (a1 ?= a2) = cmp_then (a1 / b ?= a2 / b) (a1 mod b ?= a2 mod b).
Proof.
  intros Hb. rewrite <- (cmp_scale b) by (apply Z.mod_pos_bound; lia).
  by rewrite <- !Z.div_mod by lia.
Qed.

Lemma string_compare_app s1 s2 t1 t2 :
  String.length s1 = String.length s2 →
  String.compare (s1 +:+ t1) (s2 +:+ t2) = cmp_then (String.compare s1 s2) (String.compare t1 t2).
Proof.
  revert s2. induction s1 as [|a s1 IH]; intros [|b s2]; cbn [String.length]; intros Hlen;
    try done.
  change (String a s1 +:+ t1) with (String a (s1 +:+ t1)).
  change (String b s2 +:+ t2) with (String b (s2 +:+ t2)).
  cbn [String.compare]. destruct (Ascii.compare a b); cbn; [apply IH; lia|done..].
Qed.

Lemma ascii_compare_digit a b : Ascii.compare (digit a) (digit b) = (a mod 10 ?= b mod 10).
Proof.
  pose proof (Z.mod_pos_bound a 10) as Ha. pose proof (Z.mod_pos_bound b 10) as Hb.
  unfold Ascii.compare, digit. rewrite !Ascii.N_ascii_embedding by lia.
  destruct (Z.compare_spec (a mod 10) (b mod 10)); [apply N.compare_eq_iff|apply N.compare_lt_iff|apply N.compare_gt_iff]; lia.
Qed.

Lemma length_digits w n : String.length (digits w n) = w.
Proof. induction w; cbn; auto. Qed.

Lemma compare_digits w a b :
  String.compare (digits w a) (digits w b)
  = (a mod 10 ^ Z.of_nat w ?= b mod 10 ^ Z.of_nat w).
Proof.
  induction w as [|w IH].
  { cbn. by rewrite !Z.mod_1_r. }
  assert (0 < 10 ^ Z.of_nat w) by (apply Z.pow_pos_nonneg; lia).
  cbn [digits String.compare]. rewrite ascii_compare_digit, IH.
  rewrite Nat2Z.inj_succ, Z.pow_succ_r, (Z.mul_comm 10), !Z.rem_mul_r by lia.
  rewrite !(Z.add_comm (_ mod 10 ^ _)), cmp_scale by (apply Z.mod_pos_bound; lia).
  by destruct (_ mod 10 ?= _ mod 10).
Qed.

Lemma compare_digits_small w a b :
  0 ≤ a < 10 ^ Z.of_nat w → 0 ≤ b < 10 ^ Z.of_nat w →
  String.compare (digits w a) (digits w b) = (a ?= b).
Proof. intros. by rewrite compare_digits, !Z.mod_small. Qed.

(** ** The calendar is monotone *)
Lemma days_in_year_bounds y : 365 ≤ days_in_year y ≤ 366.
Proof. unfold days_in_year. destruct (is_leap y); lia. Qed.

Lemma year_of_ge fuel y d : y ≤ (year_of fuel y d).1.
Proof.
  revert y d. induction fuel as [|fuel IH]; intros y d; cbn; [lia|].
  case_match; cbn; [lia|]. specialize (IH (y + 1) (d - days_in_year y)). lia.
Qed.

Lemma year_of_fuel fuel fuel' y d :
  0 ≤ d < 365 * Z.of_nat fuel → (fuel ≤ fuel')%nat → year_of fuel' y d = year_of fuel y d.
Proof.
  revert fuel' y d. induction fuel as [|fuel IH]; intros [|fuel'] y d Hd Hf; try lia.
  cbn. case_match; [done|]. pose proof (days_in_year_bounds y). apply IH; lia.
Qed.

Lemma year_of_bounds fuel y d :
  0 ≤ d < 365 * Z.of_nat fuel →
  0 ≤ (year_of fuel y d).2 < days_in_year (year_of fuel y d).1.
Proof.
  revert y d. induction fuel as [|fuel IH]; intros y d Hd; [lia|].
  pose proof (days_in_year_bounds y). cbn. case_match; cbn; [lia|]. apply IH; lia.
Qed.

Lemma year_of_mono fuel y d1 d2 :
  cmp_pair (year_of fuel y d1) (year_of fuel y d2) = (d1 ?= d2).
Proof.
  revert y d1 d2. induction fuel as [|fuel IH]; intros y d1 d2; cbn.
  { by apply cmp_pair_eq. }
  pose proof (year_of_ge fuel (y + 1) (d1 - days_in_year y)).
  pose proof (year_of_ge fuel (y + 1) (d2 - days_in_year y)).
  destruct (Z.ltb_spec d1 (days_in_year y)), (Z.ltb_spec d2 (days_in_year y)).
  - by apply cmp_pair_eq.
  - rewrite cmp_pair_lt by (cbn; lia). symmetry. apply Z.compare_lt_iff. lia.
  - rewrite cmp_pair_gt by (cbn; lia). symmetry. apply Z.compare_gt_iff. lia.
  - rewrite IH. cmp_lia.
Qed.

Lemma month_of_ge lens m d : m ≤ (month_of lens m d).1.
Proof.
  revert m d. induction lens as [|len lens IH]; intros m d; cbn; [lia|].
  case_match; cbn; [lia|]. specialize (IH (m + 1) (d - len)). lia.
Qed.

Lemma month_of_mono lens m d1 d2 :
  cmp_pair (month_of lens m d1) (month_of lens m d2) = (d1 ?= d2).
Proof.
  revert m d1 d2. induction lens as [|len lens IH]; intros m d1 d2; cbn.
  { by apply cmp_pair_eq. }
  pose proof (month_of_ge lens (m + 1) (d1 - len)).
  pose proof (month_of_ge lens (m + 1) (d2 - len)).
  destruct (Z.ltb_spec d1 len), (Z.ltb_spec d2 len).
  - by apply cmp_pair_eq.
  - rewrite cmp_pair_lt by (cbn; lia). symmetry. apply Z.compare_lt_iff. lia.
  - rewrite cmp_pair_gt by (cbn; lia). symmetry. apply Z.compare_gt_iff. lia.
  - rewrite IH. cmp_lia.
Qed.

Lemma month_of_bounds lens m d :
  Forall (λ len, len ≤ 31) lens → 0 ≤ d < foldr Z.add 0 lens →
  m ≤ (month_of lens m d).1 < m + Z.of_nat (length lens) ∧ 0 ≤ (month_of lens m d).2 < 31.
Proof.
  intros Hlens. revert m d. induction Hlens as [|len lens Hlen _ IH]; intros m d Hd; cbn in *; [lia|].
  destruct (Z.ltb_spec d len); cbn; [lia|]. specialize (IH (m + 1) (d - len)). lia.
Qed.

(** ** Broken-down times *)
Definition MAX_TIME : Z := 253402300799. (* 9999-12-31T23:59:59Z *)

Definition tm_fields (tm : tm) : list Z :=
  [tm_year tm; tm_mon tm; tm_mday tm; tm_hour tm; tm_min tm; tm_sec tm].

Fixpoint cmp_list (l1 l2 : list Z) : comparison :=
  match l1, l2 with
  | x :: l1, y :: l2 => cmp_then (x ?= y) (cmp_list l1 l2)
  | _, _ => Eq
  end.

(** The date of a day number, as [gmtime] computes it with [fuel] years. *)
Definition date (fuel : nat) (days : Z) : Z * (Z * Z) :=
  let p := year_of fuel 1970 days in
  (p.1, month_of (month_lengths p.1) 1 p.2).

Lemma date_mono fuel d1 d2 :
  cmp_then ((date fuel d1).1 ?= (date fuel d2).1) (cmp_pair (date fuel d1).2 (date fuel d2).2)
  = (d1 ?= d2).
Proof.
  rewrite <- (year_of_mono fuel 1970 d1 d2). unfold date. cbn [fst snd].
  set (p := year_of fuel 1970 d1). set (q := year_of fuel 1970 d2).
  destruct (Z.compare_spec p.1 q.1) as [E|E|E]; cbn [cmp_then].
  - rewrite (cmp_pair_eq p q), E by done. apply month_of_mono.
  - by rewrite (cmp_pair_lt p q).
  - by rewrite (cmp_pair_gt p q) by lia.
Qed.

Lemma gmtime_date t fuel :
  0 ≤ t → t / 86400 < 365 * Z.of_nat fuel →
  gmtime t = let d := date fuel (t / 86400) in let s := t mod 86400 in
    Tm d.1 d.2.1 (d.2.2 + 1) (s / 3600) (s / 60 mod 60) (s mod 60).
Proof.
  intros Ht Hfuel. assert (0 ≤ t / 86400) by (apply Z.div_pos; lia).
  unfold gmtime, date.
  set (n := Z.to_nat (t / 86400 / 365 + 1)).
  pose proof (Z.mul_succ_div_gt (t / 86400) 365). pose proof (Z.div_pos (t / 86400) 365).
  assert (t / 86400 < 365 * Z.of_nat n) by (unfold n; lia).
  replace (year_of n 1970 (t / 86400)) with (year_of fuel 1970 (t / 86400)).
  2: { destruct (Nat.le_gt_cases n fuel); [|symmetry]; apply year_of_fuel; lia. }
  destruct (year_of fuel 1970 (t / 86400)) as [y yd]. cbn [fst snd].
  by destruct (month_of (month_lengths y) 1 yd).
Qed.

(** Years walked for the instants up to [MAX_TIME]. *)
Definition FUEL : nat := Z.to_nat 8036.

Lemma date_year_bound d : d ≤ MAX_TIME / 86400 → (date FUEL d).1 < 10000.
Proof.
  intros Hd. pose proof (date_mono FUEL d (MAX_TIME / 86400)) as Hm.
  replace (date FUEL (MAX_TIME / 86400)) with (9999, (12, 30)) in Hm by (vm_compute; reflexivity).
  revert Hm. generalize (date FUEL d) as p. intros [y md]. cbn [fst snd]. intros Hm.
  destruct (Z.compare_spec y 9999) as [E|E|E]; try lia.
  cbn [cmp_then] in Hm. symmetry in Hm. apply Z.compare_gt_iff in Hm. lia.
Qed.

Lemma date_bounds d :
  0 ≤ d ≤ MAX_TIME / 86400 →
  1000 ≤ (date FUEL d).1 < 10000 ∧ 1 ≤ (date FUEL d).2.1 ≤ 12 ∧ 0 ≤ (date FUEL d).2.2 < 31.
Proof.
  intros [Hd0 Hd]. pose proof (date_year_bound d Hd) as Hy.
  assert (0 ≤ d < 365 * Z.of_nat FUEL) as Hf.
  { unfold FUEL. rewrite Z2Nat.id by done. split; [done|]. eapply Z.le_lt_trans; [exact Hd|].
    by vm_compute. }
  pose proof (year_of_bounds FUEL 1970 d Hf) as Hyd.
  pose proof (year_of_ge FUEL 1970 d) as Hge.
  revert Hy Hyd Hge. unfold date. cbn [fst snd].
  generalize (year_of FUEL 1970 d) as p. intros [y yd]. cbn [fst snd]. intros.
  destruct (month_of_bounds (month_lengths y) 1 yd) as [Hm ?].
  { unfold month_lengths. destruct (is_leap y); repeat constructor; lia. }
  { unfold days_in_year, month_lengths in *. destruct (is_leap y); cbn; lia. }
  change (length (month_lengths y)) with 12%nat in Hm. lia.
Qed.

Lemma day_compare a b :
  0 ≤ a < 86400 → 0 ≤ b < 86400 →
  (a ?= b) = cmp_list [a / 3600; a / 60 mod 60; a mod 60] [b / 3600; b / 60 mod 60; b mod 60].
Proof.
  intros Ha Hb. rewrite (cmp_divmod 60) by lia. rewrite (cmp_divmod 60 (a / 60)) by lia.
  rewrite !Z.div_div by lia. cbn [cmp_list]. rewrite cmp_then_assoc.
  by destruct (_ mod 60 ?= b mod 60).
Qed.

(** The fields of [gmtime], compared in order, give the order of the instants. *)
Lemma gmtime_compare a b :
  0 ≤ a ≤ MAX_TIME → 0 ≤ b ≤ MAX_TIME →
  cmp_list (tm_fields (gmtime a)) (tm_fields (gmtime b)) = (a ?= b).
Proof.
  intros Ha Hb.
  assert (∀ t, 0 ≤ t ≤ MAX_TIME → t / 86400 < 365 * Z.of_nat FUEL) as Hf.
  { intros t Ht. unfold FUEL. rewrite Z2Nat.id by done. eapply Z.le_lt_trans.
    - apply Z.div_le_mono; [done|apply Ht].
    - by vm_compute. }
  rewrite !(gmtime_date _ FUEL) by (try apply Hf; lia).
  rewrite (cmp_divmod 86400 a b), <- (date_mono FUEL) by lia.
  rewrite (day_compare (a mod _) (b mod _)) by (apply Z.mod_pos_bound; lia).
  unfold cmp_pair. generalize (date FUEL (a / 86400)) (date FUEL (b / 86400)).
  intros [ya [ma da]] [yb [mb db]]. cbn [fst snd tm_fields cmp_list tm_year tm_mon tm_mday tm_hour tm_min tm_sec].
  rewrite !cmp_then_assoc. do 2 f_equal. f_equal. cmp_lia.
Qed.

(** ** The printed form *)
Lemma pretty_N_char_digit x : (x < 10)%N → pretty_N_char x = digit (Z.of_N x).
Proof.
  intros Hx.
  assert (x = 0 ∨ x = 1 ∨ x = 2 ∨ x = 3 ∨ x = 4 ∨ x = 5 ∨ x = 6 ∨ x = 7 ∨ x = 8 ∨ x = 9)%N as Hc by lia.
  by destruct_or! Hc; subst.
Qed.

Lemma pretty_year y : 1000 ≤ y < 10000 → pretty y = digits 4 y.
Proof.
  intros Hy. destruct y as [|p|p]; [lia| |lia].
  change (pretty (Zpos p)) with (pretty_N_go (Npos p) "").
  rewrite !pretty_N_go_step, !N.Div0.div_div
    by (rewrite ?N.Div0.div_div; first [lia | apply N.div_str_pos; lia]).
  rewrite (N.div_small (N.pos p) (10 * (10 * (10 * 10)))), pretty_N_go_0 by lia.
  rewrite !pretty_N_char_digit by (by apply N.mod_lt).
  rewrite !N2Z.inj_mod, !N2Z.inj_div. cbn [digits]. unfold digit.
  by rewrite !Z.mod_mod, Z.div_1_r by done.
Qed.

Definition tm_printable (tm : tm) : Prop :=
  1000 ≤ tm_year tm < 10000 ∧ Forall (λ f, 0 ≤ f < 100) (tail (tm_fields tm)).

Lemma gmtime_printable t : 0 ≤ t ≤ MAX_TIME → tm_printable (gmtime t).
Proof.
  intros Ht. assert (0 ≤ t / 86400 ≤ MAX_TIME / 86400) as Hd.
  { split; [apply Z.div_pos; lia|apply Z.div_le_mono; lia]. }
  rewrite (gmtime_date t FUEL); [|lia|].
  2: { unfold FUEL. rewrite Z2Nat.id by done. eapply Z.le_lt_trans; [apply Hd|]. by vm_compute. }
  pose proof (date_bounds _ Hd) as (? & ? & ?). revert H H0 H1.
  generalize (date FUEL (t / 86400)) as d. intros [y [m md]] ? ? ?. unfold tm_printable.
  cbn [fst snd tm_year tm_mon tm_mday tm_hour tm_min tm_sec tm_fields tail] in *.
  split; [lia|]. repeat constructor; Z.to_euclidean_division_equations; lia.
Qed.

Lemma put_time_compare t1 t2 :
  tm_printable t1 → tm_printable t2 →
  String.compare (put_time t1) (put_time t2) = cmp_list (tm_fields t1) (tm_fields t2).
Proof.
  unfold tm_printable, tm_fields. cbn [tail]. rewrite !Forall_cons, !Forall_nil.
  intros (? & ? & ? & ? & ? & ? & _) (? & ? & ? & ? & ? & ? & _).
  unfold put_time. rewrite !pretty_year by done.
  rewrite !string_compare_app by (by rewrite ?length_digits).
  rewrite !compare_digits_small by (cbn; lia). done.
Qed.

(** Timestamps sort chronologically.  For every two clock readings from
    1970 to the end of year 9999 the byte-wise comparison of the two strings
    [getTimestamp] stores is the comparison of the instants: [ORDER BY
    created_at] and the [time_from]/[time_to] filters, which compare the
    strings, order and select by time. *)
Theorem getTimestamp_chronological (t1 t2 : Z) :
  0 ≤ t1 ≤ MAX_TIME → 0 ≤ t2 ≤ MAX_TIME →
  String.compare (getTimestamp t1) (getTimestamp t2) = (t1 ?= t2).
Proof.
  intros H1 H2. unfold getTimestamp.
  rewrite put_time_compare by (by apply gmtime_printable).
  by apply gmtime_compare.
Qed.

Lemma getTimestamp_chronological_witness :
  (0 ≤ 1709210096 ≤ MAX_TIME ∧ 0 ≤ 4107542400 ≤ MAX_TIME)
  ∧ String.compare (getTimestamp 1709210096) (getTimestamp 4107542400) = Lt.
Proof.
  split; [unfold MAX_TIME; lia|].
  exact (getTimestamp_chronological 1709210096 4107542400 ltac:(unfold MAX_TIME; lia) ltac:(unfold MAX_TIME; lia)).
Defined.
