(* ===== verification/DataTypes.v ===== *)
(** * Data types

    The structs of [include/config-center/storage/data_types.h].  A field
    [f] of a struct is the projection with the struct's prefix; [int32_t],
    [int64_t] and [int] are [Z], with the ranges stated where they matter;
    [std::optional] is [option].  [empty_*] is the struct as C++
    default-initialises it: strings are empty, the integers 0, the optionals
    unset. *)
From S2P Require Import Prelude.

Record Application := mkApplication {
  app_app_id : string;
  app_name : string;
  app_description : option string;
  app_created_at : string;
}.

Record Namespace := mkNamespace {
  ns_id : string;
  ns_app_id : string;
  ns_env : string;
  ns_cluster : string;
  ns_name : string;
  ns_type : string;
  ns_parent_namespace_id : option string;
  ns_approval_enabled : option bool;
  ns_created_at : string;
}.

Record ConfigKey := mkConfigKey {
  ck_namespace_id : string;
  ck_key : string;
  ck_value : string;
  ck_version : Z;
  ck_status : string;
  ck_created_at : string;
  ck_updated_at : string;
}.

Record ConfigVersion := mkConfigVersion {
  cv_version : Z;
  cv_config_id : string;
  cv_value : string;
  cv_change_type : string;
  cv_operator_id : string;
  cv_created_at : string;
}.

Record ChangeLog := mkChangeLog {
  cl_id : Z;
  cl_config_id : string;
  cl_namespace_id : string;
  cl_key : string;
  cl_version : Z;
  cl_old_value : string;
  cl_new_value : string;
  cl_operation : string;
  cl_operator_id : string;
  cl_created_at : string;
}.

Record Release := mkRelease {
  rel_id : Z;
  rel_namespace_id : string;
  rel_release_version : Z;
  rel_release_note : string;
  rel_release_type : string;
  rel_status : string;
  rel_grayscale_percentage : option Z;
  rel_whitelist : option string;
  rel_operator_id : string;
  rel_created_at : string;
}.

Record Approval := mkApproval {
  apv_id : Z;
  apv_namespace_id : string;
  apv_submitter_id : string;
  apv_approver_id : string;
  apv_status : string;
  apv_comment : string;
  apv_created_at : string;
  apv_updated_at : string;
}.

Record User := mkUser {
  usr_id : Z;
  usr_username : string;
  usr_password_hash : string;
  usr_role : string;
  usr_created_at : string;
}.

Record ChangeLogQuery := mkChangeLogQuery {
  clq_key : option string;
  clq_namespace_id : option string;
  clq_time_from : option string;
  clq_time_to : option string;
  clq_page : Z;
  clq_page_size : Z;
}.

Record ReleaseQuery := mkReleaseQuery {
  rq_namespace_id : string;
  rq_page : Z;
  rq_page_size : Z;
}.

(** [ReleaseQuery query; query.namespace_id = ns;] *)
Definition release_query (ns : string) : ReleaseQuery := mkReleaseQuery ns 1 20.

Definition empty_release : Release :=
  mkRelease 0 "" 0 "" "" "" None None "" "".
Definition empty_approval : Approval :=
  mkApproval 0 "" "" "" "" "" "" "".

#[export] Instance Application_eq_dec : EqDecision Application.
Proof. solve_decision. Defined.
#[export] Instance Namespace_eq_dec : EqDecision Namespace.
Proof. solve_decision. Defined.
#[export] Instance ConfigKey_eq_dec : EqDecision ConfigKey.
Proof. solve_decision. Defined.
#[export] Instance ConfigVersion_eq_dec : EqDecision ConfigVersion.
Proof. solve_decision. Defined.
#[export] Instance ChangeLog_eq_dec : EqDecision ChangeLog.
Proof. solve_decision. Defined.
#[export] Instance Release_eq_dec : EqDecision Release.
Proof. solve_decision. Defined.
#[export] Instance Approval_eq_dec : EqDecision Approval.
Proof. solve_decision. Defined.
#[export] Instance User_eq_dec : EqDecision User.
Proof. solve_decision. Defined.

(** The key of a config row: its namespace and its name. *)
Definition ck_pk (c : ConfigKey) : string * string := (ck_namespace_id c, ck_key c).
