(* ===== verification/Sql.v ===== *)
(** * SQL text

    The lexical structure of the SQL text the MySQL store builds, as the MySQL
    manual describes it (identifiers, quoted identifiers, numbers, string
    literals with backslash escapes and doubled quotes), the statements the
    store sends, and the text of a statement as tokens.  The lexer is an
    automaton over characters and knows no comments: it rejects what it does not
    know.  [parse] reads tokens back into a statement, and [parse_tokens] shows
    that it reads back every statement. *)
From S2P Require Import Prelude Strings.

(** ** Characters *)
Definition quote : ascii := "'".
Definition backslash : ascii := "\".
Definition tick : ascii := "`".

Definition is_digit (a : ascii) : bool :=
  let n := N_of_ascii a in (48 <=? n)%N && (n <=? 57)%N.
Definition is_letter (a : ascii) : bool :=
  let n := N_of_ascii a in
  ((65 <=? n)%N && (n <=? 90)%N) || ((97 <=? n)%N && (n <=? 122)%N) || bool_decide (a = "_"%char).
Definition is_operator (a : ascii) : bool :=
  bool_decide (a = "<"%char) || bool_decide (a = ">"%char) || bool_decide (a = "="%char).
Definition is_punctuation (a : ascii) : bool :=
  bool_decide (a = "("%char) || bool_decide (a = ")"%char) || bool_decide (a = ","%char).

(** ** Tokens *)
Inductive token :=
  | TWord (w : string)    (* an identifier or keyword *)
  | TTick (w : string)    (* a quoted identifier *)
  | TNum (digits : string)
  | TStr (s : string)     (* a string literal, by its value *)
  | TOp (o : string).
#[export] Instance token_eq_dec : EqDecision token.
Proof. solve_decision. Defined.

(** The states of the automaton, with the text of the token read so far. *)
Inductive mode :=
  | Start
  | Word (acc : string)
  | Num (acc : string)
  | Op (acc : string)
  | Minus
  | Str (acc : string)       (* inside a literal *)
  | StrEsc (acc : string)    (* after a backslash in a literal *)
  | StrEnd (acc : string)    (* after a quote in a literal: its end, or a doubled quote *)
  | Tick (acc : string).

Definition snoc (s : string) (a : ascii) : string := s +:+ String a "".

(** The value of an escape sequence: the character, but for those the manual lists. *)
Definition unescape (a : ascii) : string :=
  if bool_decide (a = "0"%char) then String "000" ""
  else if bool_decide (a = "b"%char) then String "008" ""
  else if bool_decide (a = "n"%char) then String "010" ""
  else if bool_decide (a = "r"%char) then String "013" ""
  else if bool_decide (a = "t"%char) then String "009" ""
  else if bool_decide (a = "Z"%char) then String "026" ""
  else if bool_decide (a = "%"%char) || bool_decide (a = "_"%char) then
    String backslash (String a "")
  else String a "".

(** A character between tokens. *)
Definition begin (a : ascii) : option (list token * mode) :=
  if is_space a then Some ([], Start)
  else if is_letter a then Some ([], Word (String a ""))
  else if is_digit a then Some ([], Num (String a ""))
  else if is_operator a then Some ([], Op (String a ""))
  else if is_punctuation a then Some ([TOp (String a "")], Start)
  else if bool_decide (a = "-"%char) then Some ([], Minus)
  else if bool_decide (a = quote) then Some ([], Str "")
  else if bool_decide (a = tick) then Some ([], Tick "")
  else None.

(** The end of the token [t] by a character that is not part of it. *)
Definition emit (t : token) (a : ascii) : option (list token * mode) :=
  '(ts, m) ← begin a; Some (t :: ts, m).

Definition step (m : mode) (a : ascii) : option (list token * mode) :=
  match m with
  | Start => begin a
  | Word acc => if is_letter a || is_digit a then Some ([], Word (snoc acc a)) else emit (TWord acc) a
  | Num acc =>
    if is_digit a then Some ([], Num (snoc acc a))
    else if is_letter a then None else emit (TNum acc) a
  | Op acc => if is_operator a then Some ([], Op (snoc acc a)) else emit (TOp acc) a
  | Minus => if bool_decide (a = "-"%char) then None else emit (TOp "-") a
  | Str acc =>
    if bool_decide (a = quote) then Some ([], StrEnd acc)
    else if bool_decide (a = backslash) then Some ([], StrEsc acc)
    else Some ([], Str (snoc acc a))
  | StrEsc acc => Some ([], Str (acc +:+ unescape a))
  | StrEnd acc =>
    if bool_decide (a = quote) then Some ([], Str (snoc acc quote)) else emit (TStr acc) a
  | Tick acc =>
    if bool_decide (a = tick) then Some ([TTick acc], Start) else Some ([], Tick (snoc acc a))
  end.

Fixpoint run (m : mode) (s : string) : option (list token * mode) :=
  match s with
  | EmptyString => Some ([], m)
  | String a s => '(ts, m') ← step m a; '(ts', m'') ← run m' s; Some (ts ++ ts', m'')
  end.

(** The end of the text. *)
Definition finish (m : mode) : option (list token) :=
  match m with
  | Start => Some []
  | Word acc => Some [TWord acc]
  | Num acc => Some [TNum acc]
  | Op acc => Some [TOp acc]
  | Minus => Some [TOp "-"]
  | StrEnd acc => Some [TStr acc]
  | Str _ | StrEsc _ | Tick _ => None
  end.

Definition lex_from (m : mode) (s : string) : option (list token) :=
  '(ts, m') ← run m s; l ← finish m'; Some (ts ++ l).
Definition lex (s : string) : option (list token) := lex_from Start s.

(** ** Statements *)
Inductive value := VStr (s : string) | VInt (z : Z) | VNull | VBool (b : bool).
#[export] Instance value_eq_dec : EqDecision value.
Proof. solve_decision. Defined.

Inductive comparison_op := CEq | CGe | CLe.
(** [col op value], or [1=1] *)
Inductive cond := Cmp (col : string) (op : comparison_op) (v : value) | Always.

Inductive stmt :=
  | Insert (table : string) (cols : list string) (vals : list value)
  | Update (table : string) (sets : list (string * value)) (wh : list cond)
  | Delete (table : string) (wh : list cond)
  | Select (cols : list string) (table : string) (wh : list cond) (order_desc : option string)
      (limit : option (Z * Z))
  | SelectMax (col table : string) (wh : list cond)
  | SelectLastInsertId.

(** ** Their text, as tokens *)

(** [KEY] is a reserved word: the column is written in back quotes. *)
Definition col_token (c : string) : token := if bool_decide (c = "key") then TTick c else TWord c.

Definition int_tokens (z : Z) : list token :=
  match z with
  | Zneg p => [TOp "-"; TNum (pretty (Npos p))]
  | _ => [TNum (pretty (Z.to_N z))]
  end.

Definition value_tokens (v : value) : list token :=
  match v with
  | VStr s => [TStr s]
  | VInt z => int_tokens z
  | VNull => [TWord "NULL"]
  | VBool b => [TWord (if b then "TRUE" else "FALSE")]
  end.

Definition op_token (o : comparison_op) : token :=
  TOp (match o with CEq => "=" | CGe => ">=" | CLe => "<=" end).

Definition cond_tokens (c : cond) : list token :=
  match c with
  | Cmp col op v => col_token col :: op_token op :: value_tokens v
  | Always => [TNum "1"; TOp "="; TNum "1"]
  end.

Definition set_tokens (s : string * value) : list token :=
  col_token s.1 :: TOp "=" :: value_tokens s.2.

(** Items with a separator between them. *)
Fixpoint separated {A : Type} (sep : token) (f : A → list token) (l : list A) : list token :=
  match l with
  | [] => []
  | [x] => f x
  | x :: l => f x ++ sep :: separated sep f l
  end.

Definition where_tokens (wh : list cond) : list token :=
  match wh with
  | [] => []
  | _ => TWord "WHERE" :: separated (TWord "AND") cond_tokens wh
  end.

Definition order_tokens (o : option string) : list token :=
  match o with
  | Some c => [TWord "ORDER"; TWord "BY"; col_token c; TWord "DESC"]
  | None => []
  end.

Definition limit_tokens (l : option (Z * Z)) : list token :=
  match l with
  | Some (n, o) => TWord "LIMIT" :: int_tokens n ++ TWord "OFFSET" :: int_tokens o
  | None => []
  end.

Definition tokens (st : stmt) : list token :=
  match st with
  | Insert t cols vals =>
    [TWord "INSERT"; TWord "INTO"; TWord t; TOp "("]
    ++ separated (TOp ",") (λ c, [col_token c]) cols ++ [TOp ")"; TWord "VALUES"; TOp "("]
    ++ separated (TOp ",") value_tokens vals ++ [TOp ")"]
  | Update t sets wh =>
    [TWord "UPDATE"; TWord t; TWord "SET"] ++ separated (TOp ",") set_tokens sets ++ where_tokens wh
  | Delete t wh => [TWord "DELETE"; TWord "FROM"; TWord t] ++ where_tokens wh
  | Select cols t wh o l =>
    [TWord "SELECT"] ++ separated (TOp ",") (λ c, [col_token c]) cols ++ [TWord "FROM"; TWord t]
    ++ where_tokens wh ++ order_tokens o ++ limit_tokens l
  | SelectMax c t wh =>
    [TWord "SELECT"; TWord "MAX"; TOp "("; col_token c; TOp ")"; TWord "FROM"; TWord t] ++ where_tokens wh
  | SelectLastInsertId => [TWord "SELECT"; TWord "LAST_INSERT_ID"; TOp "("; TOp ")"]
  end.

(** The text [t] is the statement [st]. *)
Definition spells (t : string) (st : stmt) : Prop := lex t = Some (tokens st).

(** ** The automaton on concatenations *)
Lemma run_app m s t :
  run m (s +:+ t) = '(ts, m') ← run m s; '(ts', m'') ← run m' t; Some (ts ++ ts', m'').
Proof.
  revert m. induction s as [|a s IH]; intros m.
  - rewrite str_app_nil. cbn. by destruct (run m t) as [[]|].
  - rewrite str_app_cons. cbn. destruct (step m a) as [[ts1 m1]|]; [|done]. cbn. rewrite IH.
    destruct (run m1 s) as [[ts2 m2]|]; [|done]. cbn. destruct (run m2 t) as [[ts3 m3]|]; [|done].
    cbn. by rewrite app_assoc.
Qed.

(** The text after a part that is known to be read. *)
Lemma lex_app m s t ts m' :
  run m s = Some (ts, m') → lex_from m (s +:+ t) = (λ l, ts ++ l) <$> lex_from m' t.
Proof.
  intros H. unfold lex_from. rewrite run_app, H. cbn. destruct (run m' t) as [[ts2 m2]|]; [|done].
  cbn. destruct (finish m2); [|done]. cbn. by rewrite app_assoc.
Qed.

Lemma snoc_app acc a s : snoc acc a +:+ s = acc +:+ String a s.
Proof. unfold snoc. by rewrite str_app_assoc, str_app_cons, str_app_nil. Qed.

(** Text without quotes and backslashes stands for itself in a literal. *)
Definition plain_char (a : ascii) : bool :=
  negb (bool_decide (a = quote)) && negb (bool_decide (a = backslash)).
Lemma run_plain acc s : Forall plain_char (chars s) → run (Str acc) s = Some ([], Str (acc +:+ s)).
Proof.
  revert acc. induction s as [|a s IH]; intros acc; cbn.
  - intros _. by rewrite str_app_empty.
  - intros [Ha Hs]%Forall_cons. unfold plain_char in Ha.
    apply andb_prop_elim in Ha as [Hq Hb].
    case_bool_decide; [done|]. case_bool_decide; [done|]. cbn. rewrite IH by done. cbn.
    by rewrite snoc_app.
Qed.

Lemma run_digits acc s : Forall is_digit (chars s) → run (Num acc) s = Some ([], Num (acc +:+ s)).
Proof.
  revert acc. induction s as [|a s IH]; intros acc; cbn.
  - intros _. by rewrite str_app_empty.
  - intros [Ha Hs]%Forall_cons. rewrite (Is_true_true_1 _ Ha). cbn. rewrite IH by done. cbn.
    by rewrite snoc_app.
Qed.

Lemma pretty_N_char_is_digit d : (d < 10)%N → is_digit (pretty_N_char d).
Proof.
  intros Hd. assert (d = 0 ∨ d = 1 ∨ d = 2 ∨ d = 3 ∨ d = 4 ∨ d = 5 ∨ d = 6 ∨ d = 7 ∨ d = 8 ∨ d = 9)%N
    as Hcases by lia.
  by repeat destruct Hcases as [->|Hcases]; [..|subst].
Qed.

Lemma pretty_N_digits (n : N) : Forall is_digit (chars (pretty n)) ∧ pretty n ≠ "".
Proof.
  assert (∀ x s, Forall is_digit (chars s) → Forall is_digit (chars (pretty_N_go x s))) as Hgo.
  { intros x. induction (N.lt_wf_0 x) as [x _ IH]. intros s Hs.
    destruct (decide (x = 0)%N) as [->|Hx]; [by rewrite pretty_N_go_0|].
    rewrite pretty_N_go_step by lia. apply IH; [apply N.div_lt; lia|].
    cbn. constructor; [|done]. apply pretty_N_char_is_digit, N.mod_lt. lia. }
  split.
  - unfold pretty, pretty_N. case_decide; [repeat constructor|]. by apply Hgo.
  - destruct (pretty_N_head n) as (d & s & _ & ->). done.
Qed.

Lemma run_number (n : N) : run Start (pretty n) = Some ([], Num (pretty n)).
Proof.
  destruct (pretty_N_digits n) as [Hd Hne]. destruct (pretty n) as [|a s]; [done|].
  cbn in Hd. apply Forall_cons in Hd as [Ha Hs]. cbn.
  assert (begin a = Some ([], Num (String a ""))) as ->.
  { unfold begin. rewrite (Is_true_true_1 _ Ha). unfold is_digit in Ha.
    apply andb_prop_elim in Ha as [H1%Is_true_true_1%N.leb_le H2%Is_true_true_1%N.leb_le].
    assert (is_space a = false) as ->.
    { unfold is_space. destruct (N.eqb_spec (N_of_ascii a) 32); [lia|].
      destruct (N.leb_spec 9 (N_of_ascii a)), (N.leb_spec (N_of_ascii a) 13); cbn; (done || lia). }
    assert (is_letter a = false) as ->; [|done].
    unfold is_letter. destruct (N.leb_spec 65 (N_of_ascii a)), (N.leb_spec (N_of_ascii a) 90),
      (N.leb_spec 97 (N_of_ascii a)), (N.leb_spec (N_of_ascii a) 122); try lia; cbn.
    all: apply bool_decide_eq_false; intros ->; cbn in *; lia. }
  cbn. by rewrite run_digits.
Qed.

(** An integer as [std::to_string] prints it: its sign, and its digits so far. *)
Definition int_sign (z : Z) : list token := match z with Zneg _ => [TOp "-"] | _ => [] end.
Definition int_digits (z : Z) : string := pretty (Z.abs_N z).
Lemma int_tokens_eq z : int_tokens z = int_sign z ++ [TNum (int_digits z)].
Proof. by destruct z. Qed.

Lemma run_int z : run Start (pretty z) = Some (int_sign z, Num (int_digits z)).
Proof.
  destruct z as [|p|p].
  - reflexivity.
  - change (pretty (Zpos p)) with (pretty (Npos p)). apply run_number.
  - change (pretty (Zneg p)) with (String "-" (pretty (Npos p))).
    assert (∀ s, s ≠ "" → Forall is_digit (chars s) →
      run Minus s = '(ts, m) ← run Start s; Some (TOp "-" :: ts, m)) as Hminus.
    { intros [|a s] Hne Hd; [done|]. cbn. apply Forall_cons in Hd as [Ha _].
      case_bool_decide; [by subst|]. unfold emit. destruct (begin a) as [[ts1 m1]|]; [|done]. cbn.
      by destruct (run m1 s) as [[]|]. }
    destruct (pretty_N_digits (Npos p)) as [Hd Hne].
    cbn [run step]. change (begin "-") with (Some ([] : list token, Minus)). cbn [mbind option_bind].
    rewrite Hminus by done. rewrite run_number. reflexivity.
Qed.

(** ** Reading statements back *)
Definition parse_col (ts : list token) : option (string * list token) :=
  match ts with
  | TWord w :: ts | TTick w :: ts => Some (w, ts)
  | _ => None
  end.

Definition parse_int (ts : list token) : option (Z * list token) :=
  match ts with
  | TNum d :: ts => n ← read_digits None d; Some (n, ts)
  | TOp o :: TNum d :: ts =>
    if bool_decide (o = "-") then n ← read_digits None d; Some (- n, ts) else None
  | _ => None
  end.

Definition parse_value (ts : list token) : option (value * list token) :=
  match ts with
  | TStr s :: ts => Some (VStr s, ts)
  | TWord w :: ts =>
    if bool_decide (w = "NULL") then Some (VNull, ts)
    else if bool_decide (w = "TRUE") then Some (VBool true, ts)
    else if bool_decide (w = "FALSE") then Some (VBool false, ts) else None
  | _ => '(z, ts) ← parse_int ts; Some (VInt z, ts)
  end.

Definition parse_op (ts : list token) : option (comparison_op * list token) :=
  match ts with
  | TOp o :: ts =>
    if bool_decide (o = "=") then Some (CEq, ts)
    else if bool_decide (o = ">=") then Some (CGe, ts)
    else if bool_decide (o = "<=") then Some (CLe, ts) else None
  | _ => None
  end.

Definition parse_cond (ts : list token) : option (cond * list token) :=
  match ts with
  | TNum a :: TOp o :: TNum b :: ts =>
    if bool_decide (a = "1" ∧ o = "=" ∧ b = "1") then Some (Always, ts) else None
  | _ => '(c, ts) ← parse_col ts; '(o, ts) ← parse_op ts; '(v, ts) ← parse_value ts;
         Some (Cmp c o v, ts)
  end.

(** The next token is [t]. *)
Definition expect (t : token) (ts : list token) : option (list token) :=
  match ts with
  | t' :: ts => if bool_decide (t' = t) then Some ts else None
  | [] => None
  end.

Definition parse_set (ts : list token) : option ((string * value) * list token) :=
  '(c, ts) ← parse_col ts; ts ← expect (TOp "=") ts; '(v, ts) ← parse_value ts; Some ((c, v), ts).

(** One item, and more while there is a separator; [fuel] bounds their number. *)
Fixpoint parse_separated {A : Type} (sep : token) (p : list token → option (A * list token))
    (fuel : nat) (ts : list token) : option (list A * list token) :=
  match fuel with
  | O => None
  | S fuel =>
    '(x, ts) ← p ts;
    match expect sep ts with
    | Some ts => '(l, ts) ← parse_separated sep p fuel ts; Some (x :: l, ts)
    | None => Some ([x], ts)
    end
  end.

Definition parse_list {A : Type} (sep : token) (p : list token → option (A * list token))
    (ts : list token) : option (list A * list token) :=
  parse_separated sep p (length ts) ts.

Definition parse_where (ts : list token) : option (list cond * list token) :=
  match expect (TWord "WHERE") ts with
  | Some ts => parse_list (TWord "AND") parse_cond ts
  | None => Some ([], ts)
  end.

Definition parse_order (ts : list token) : option (option string * list token) :=
  match expect (TWord "ORDER") ts with
  | Some ts =>
    ts ← expect (TWord "BY") ts; '(c, ts) ← parse_col ts; ts ← expect (TWord "DESC") ts;
    Some (Some c, ts)
  | None => Some (None, ts)
  end.

Definition parse_limit (ts : list token) : option (option (Z * Z) * list token) :=
  match expect (TWord "LIMIT") ts with
  | Some ts =>
    '(n, ts) ← parse_int ts; ts ← expect (TWord "OFFSET") ts; '(o, ts) ← parse_int ts;
    Some (Some (n, o), ts)
  | None => Some (None, ts)
  end.

Definition parse_table (ts : list token) : option (string * list token) :=
  match ts with TWord t :: ts => Some (t, ts) | _ => None end.

Definition parse_insert (ts : list token) : option (stmt * list token) :=
  ts ← expect (TWord "INTO") ts; '(t, ts) ← parse_table ts; ts ← expect (TOp "(") ts;
  '(cols, ts) ← parse_list (TOp ",") parse_col ts; ts ← expect (TOp ")") ts;
  ts ← expect (TWord "VALUES") ts; ts ← expect (TOp "(") ts;
  '(vals, ts) ← parse_list (TOp ",") parse_value ts; ts ← expect (TOp ")") ts;
  Some (Insert t cols vals, ts).

Definition parse_update (ts : list token) : option (stmt * list token) :=
  '(t, ts) ← parse_table ts; ts ← expect (TWord "SET") ts;
  '(sets, ts) ← parse_list (TOp ",") parse_set ts; '(wh, ts) ← parse_where ts;
  Some (Update t sets wh, ts).

Definition parse_delete (ts : list token) : option (stmt * list token) :=
  ts ← expect (TWord "FROM") ts; '(t, ts) ← parse_table ts; '(wh, ts) ← parse_where ts;
  Some (Delete t wh, ts).

(** [name(] *)
Definition parse_call (name : string) (ts : list token) : option (list token) :=
  ts ← expect (TWord name) ts; expect (TOp "(") ts.

Definition parse_select (ts : list token) : option (stmt * list token) :=
  match parse_call "LAST_INSERT_ID" ts with
  | Some ts => ts ← expect (TOp ")") ts; Some (SelectLastInsertId, ts)
  | None =>
    match parse_call "MAX" ts with
    | Some ts =>
      '(c, ts) ← parse_col ts; ts ← expect (TOp ")") ts; ts ← expect (TWord "FROM") ts;
      '(t, ts) ← parse_table ts; '(wh, ts) ← parse_where ts; Some (SelectMax c t wh, ts)
    | None =>
      '(cols, ts) ← parse_list (TOp ",") parse_col ts; ts ← expect (TWord "FROM") ts;
      '(t, ts) ← parse_table ts; '(wh, ts) ← parse_where ts; '(ord, ts) ← parse_order ts;
      '(lim, ts) ← parse_limit ts; Some (Select cols t wh ord lim, ts)
    end
  end.

(** A whole statement. *)
Definition parse (ts : list token) : option stmt :=
  '(st, ts) ← match ts with
    | TWord w :: ts =>
      if bool_decide (w = "INSERT") then parse_insert ts
      else if bool_decide (w = "UPDATE") then parse_update ts
      else if bool_decide (w = "DELETE") then parse_delete ts
      else if bool_decide (w = "SELECT") then parse_select ts else None
    | _ => None
    end;
  match ts with [] => Some st | _ => None end.

(** ** The round trip *)
Lemma parse_col_token c ts : parse_col (col_token c :: ts) = Some (c, ts).
Proof. unfold col_token. by case_bool_decide. Qed.

Lemma read_digits_text (n : N) : read_digits None (pretty n) = Some (Z.of_N n).
Proof. rewrite <- (str_app_empty (pretty n)). by apply read_digits_number. Qed.

Lemma parse_int_tokens z ts : parse_int (int_tokens z ++ ts) = Some (z, ts).
Proof.
  destruct z as [|p|p]; [reflexivity| |].
  - cbn [int_tokens app parse_int]. by rewrite read_digits_text.
  - cbn [int_tokens app parse_int]. by rewrite read_digits_text.
Qed.

Lemma parse_value_tokens v ts : parse_value (value_tokens v ++ ts) = Some (v, ts).
Proof.
  destruct v as [s|z| |[]]; try reflexivity.
  pose proof (parse_int_tokens z ts) as H. unfold parse_value, value_tokens.
  destruct z; cbn [int_tokens app] in *; rewrite H; done.
Qed.

Lemma parse_cond_tokens c ts : parse_cond (cond_tokens c ++ ts) = Some (c, ts).
Proof.
  destruct c as [c o v|]; [|reflexivity].
  assert (parse_cond (cond_tokens (Cmp c o v) ++ ts) =
    '(c, ts) ← parse_col (cond_tokens (Cmp c o v) ++ ts); '(o, ts) ← parse_op ts;
    '(v, ts) ← parse_value ts; Some (Cmp c o v, ts)) as ->.
  { unfold cond_tokens, col_token. by case_bool_decide. }
  cbn [cond_tokens app]. rewrite parse_col_token. cbn [mbind option_bind].
  assert (parse_op (op_token o :: value_tokens v ++ ts) = Some (o, value_tokens v ++ ts)) as ->
    by by destruct o.
  cbn [mbind option_bind]. by rewrite parse_value_tokens.
Qed.

Lemma expect_same t ts : expect t (t :: ts) = Some ts.
Proof. cbn. by rewrite bool_decide_true. Qed.

Lemma parse_set_tokens c ts : parse_set (set_tokens c ++ ts) = Some (c, ts).
Proof.
  destruct c as [c v]. unfold set_tokens, parse_set. cbn [fst snd app]. rewrite parse_col_token.
  cbn [mbind option_bind]. rewrite expect_same. cbn [mbind option_bind]. by rewrite parse_value_tokens.
Qed.

Section lists.
Context {A : Type} (sep : token) (p : list token → option (A * list token)) (f : A → list token).
Context (Hp : ∀ x ts, p (f x ++ ts) = Some (x, ts)) (Hf : ∀ x, f x ≠ []).

Lemma separated_cons x l : l ≠ [] → separated sep f (x :: l) = f x ++ sep :: separated sep f l.
Proof. by destruct l. Qed.

Lemma separated_length l : (length l ≤ length (separated sep f l))%nat.
Proof.
  induction l as [|x l IH]; [done|]. assert (length (f x) ≠ 0%nat) by (by intros ?%nil_length_inv%Hf).
  destruct (decide (l = [])) as [->|Hl]; [cbn; lia|]. rewrite separated_cons by done.
  rewrite length_app. cbn [length]. lia.
Qed.

Lemma parse_separated_list l ts fuel :
  l ≠ [] → expect sep ts = None → (length l ≤ fuel)%nat →
  parse_separated sep p fuel (separated sep f l ++ ts) = Some (l, ts).
Proof.
  revert fuel. induction l as [|x l IH]; intros fuel Hl Hs Hfuel; [done|].
  destruct fuel as [|fuel]; cbn [length] in Hfuel; [lia|]. cbn [parse_separated].
  destruct (decide (l = [])) as [->|Hl'].
  - cbn [separated]. rewrite Hp. cbn [mbind option_bind]. by rewrite Hs.
  - rewrite separated_cons by done. rewrite <- app_assoc, Hp. cbn [mbind option_bind app].
    rewrite expect_same. rewrite IH by (done || lia). done.
Qed.

Lemma parse_list_separated l ts :
  l ≠ [] → expect sep ts = None → parse_list sep p (separated sep f l ++ ts) = Some (l, ts).
Proof.
  intros Hl Hs. apply parse_separated_list; [done..|]. rewrite length_app.
  pose proof (separated_length l). lia.
Qed.
End lists.

Lemma parse_cols l ts :
  l ≠ [] → expect (TOp ",") ts = None →
  parse_list (TOp ",") parse_col (separated (TOp ",") (λ c, [col_token c]) l ++ ts) = Some (l, ts).
Proof. apply parse_list_separated; [apply parse_col_token|done]. Qed.

Lemma parse_values l ts :
  l ≠ [] → expect (TOp ",") ts = None →
  parse_list (TOp ",") parse_value (separated (TOp ",") value_tokens l ++ ts) = Some (l, ts).
Proof. apply parse_list_separated; [apply parse_value_tokens|by intros [|[]| |]]. Qed.

Lemma parse_sets l ts :
  l ≠ [] → expect (TOp ",") ts = None →
  parse_list (TOp ",") parse_set (separated (TOp ",") set_tokens l ++ ts) = Some (l, ts).
Proof. apply parse_list_separated; [apply parse_set_tokens|done]. Qed.

Lemma parse_where_tokens wh ts :
  expect (TWord "WHERE") ts = None → expect (TWord "AND") ts = None →
  parse_where (where_tokens wh ++ ts) = Some (wh, ts).
Proof.
  intros Hw Ha. unfold parse_where, where_tokens. destruct wh as [|c wh]; [cbn [app]; by rewrite Hw|].
  cbn [app]. rewrite expect_same. apply parse_list_separated; [apply parse_cond_tokens| |done|done].
  by intros [].
Qed.

Lemma parse_order_tokens o ts :
  expect (TWord "ORDER") ts = None → parse_order (order_tokens o ++ ts) = Some (o, ts).
Proof.
  intros Ho. unfold parse_order. destruct o as [c|]; cbn [order_tokens app]; [|by rewrite Ho].
  rewrite !expect_same. cbn [mbind option_bind]. rewrite parse_col_token. cbn [mbind option_bind].
  by rewrite expect_same.
Qed.

Lemma parse_limit_tokens l : parse_limit (limit_tokens l) = Some (l, []).
Proof.
  unfold parse_limit. destruct l as [[n o]|]; [|done]. cbn [limit_tokens]. rewrite expect_same.
  rewrite parse_int_tokens. cbn [mbind option_bind]. rewrite expect_same. cbn [mbind option_bind].
  rewrite <- (app_nil_r (int_tokens o)). by rewrite parse_int_tokens.
Qed.

(** Where the text after a list of conditions does not go on with it. *)
Lemma expect_clauses w o l :
  w ≠ "ORDER" → w ≠ "LIMIT" → expect (TWord w) (order_tokens o ++ limit_tokens l) = None.
Proof.
  intros Ho Hl. destruct o as [c|]; [|destruct l as [[n m]|]]; cbn; [..|done].
  all: rewrite bool_decide_false by congruence; done.
Qed.

(** Statements the grammar can write: their lists are not empty. *)
Definition wf_stmt (st : stmt) : bool :=
  match st with
  | Insert _ cols vals => negb (bool_decide (cols = [])) && negb (bool_decide (vals = []))
  | Update _ sets _ => negb (bool_decide (sets = []))
  | Select cols _ _ _ _ => negb (bool_decide (cols = []))
  | _ => true
  end.

Lemma parse_call_select name cols t ts :
  cols ≠ [] →
  parse_call name (separated (TOp ",") (λ c, [col_token c]) cols ++ TWord "FROM" :: TWord t :: ts) = None.
Proof.
  destruct cols as [|c [|d cols]]; intros Hc; [done| |]; unfold parse_call; cbn; by case_bool_decide.
Qed.

(** Goes over the fixed tokens of a statement. *)
Ltac skip_tokens := cbn [mbind option_bind app]; repeat (rewrite expect_same; cbn [mbind option_bind]).

Definition whole (r : option (stmt * list token)) : option stmt :=
  '(st, ts) ← r; match ts with [] => Some st | _ => None end.
Lemma parse_INSERT ts : parse (TWord "INSERT" :: ts) = whole (parse_insert ts).
Proof. done. Qed.
Lemma parse_UPDATE ts : parse (TWord "UPDATE" :: ts) = whole (parse_update ts).
Proof. done. Qed.
Lemma parse_DELETE ts : parse (TWord "DELETE" :: ts) = whole (parse_delete ts).
Proof. done. Qed.
Lemma parse_SELECT ts : parse (TWord "SELECT" :: ts) = whole (parse_select ts).
Proof. done. Qed.

(** Reading a statement back from its text gives the statement: no two
    statements have the same text. *)
Lemma parse_tokens st : wf_stmt st = true → parse (tokens st) = Some st.
Proof.
  destruct st as [t cols vals|t sets wh|t wh|cols t wh o l|c t wh|]; cbn [wf_stmt];
    rewrite ?andb_true_iff, ?negb_true_iff, ?bool_decide_eq_false; intros Hwf; unfold tokens; cbn [app].
  - rewrite parse_INSERT. unfold parse_insert. skip_tokens. cbn [parse_table]. skip_tokens.
    rewrite parse_cols by (done || apply Hwf). skip_tokens.
    rewrite parse_values by (done || apply Hwf). skip_tokens. done.
  - rewrite parse_UPDATE. unfold parse_update. cbn [parse_table]. skip_tokens.
    rewrite parse_sets; [|done|by destruct wh]. cbn [mbind option_bind].
    rewrite <- (app_nil_r (where_tokens wh)). by rewrite parse_where_tokens.
  - rewrite parse_DELETE. unfold parse_delete. skip_tokens. cbn [parse_table mbind option_bind].
    rewrite <- (app_nil_r (where_tokens wh)). by rewrite parse_where_tokens.
  - rewrite parse_SELECT. unfold parse_select. rewrite !parse_call_select by done.
    rewrite parse_cols by done. skip_tokens. cbn [parse_table mbind option_bind].
    rewrite parse_where_tokens by by apply expect_clauses. cbn [mbind option_bind].
    rewrite parse_order_tokens by by destruct l as [[]|]. cbn [mbind option_bind].
    by rewrite parse_limit_tokens.
  - rewrite parse_SELECT. unfold parse_select.
    change (parse_call "LAST_INSERT_ID" (TWord "MAX" :: ?ts)) with (None (A := list token)).
    unfold parse_call. skip_tokens. rewrite parse_col_token. skip_tokens.
    cbn [parse_table mbind option_bind]. rewrite <- (app_nil_r (where_tokens wh)).
    by rewrite parse_where_tokens.
  - reflexivity.
Qed.

(** What a server reads. *)
Definition parse_sql (t : string) : option stmt := ts ← lex t; parse ts.
