(* ===== verification/SqliteOrm.v ===== *)
(** * The SQLite storage of [sqlite_orm]

    [sqlite_orm] is not part of the repository, so its storage object is a
    parameter: the class [SqliteOrm] holds the operations the store calls,
    and [SqliteOrmLaws] what it relies on, in the terms of the SQLite and
    sqlite_orm documentation:

    - a table is what [createStorage] declares (primary keys, the unique user
      name, the foreign key, the autoincrement ids);
    - a statement either takes effect as a whole or fails without effect, and
      fails when its result would break a constraint;
    - [insert] writes the columns outside the primary key: the id of an
      autoincrement table is the storage's, and the key columns of a table whose
      key is the object's own stay unset, so that the statement is refused;
      [writes_keys] is the storage that writes them all the same;
    - [BEGIN] inside a transaction, and [COMMIT] or [ROLLBACK] outside one,
      fail; [ROLLBACK] restores the content at [BEGIN]; a statement that fails
      inside a transaction may roll the transaction back;
    - [SELECT] returns the matching rows in an unspecified order, or in some
      order that respects [ORDER BY];
    - [LIMIT] and [OFFSET] select a slice, a negative limit being no limit and
      a negative offset no offset.

    Failures other than constraint violations (I/O errors, a locked file)
    are possible in any state that is not [healthy]. *)
From S2P Require Import Prelude DataTypes.

(** ** The schema: [createStorage] *)
Record database := mkDatabase {
  applications : list Application;
  namespaces : list Namespace;
  configs : list ConfigKey;
  config_versions : list ConfigVersion;
  change_logs : list ChangeLog;
  releases : list Release;
  approvals : list Approval;
  users : list User;
  (* sqlite_sequence: the largest id each autoincrement table has used *)
  seq_change_logs : Z;
  seq_releases : Z;
  seq_approvals : Z;
  seq_users : Z;
}.

Definition empty_database : database := mkDatabase [] [] [] [] [] [] [] [] 0 0 0 0.

(** A mapped table: its rows; whether its primary key is a text column, or several
    columns, of the object's own; the row an [INSERT] of an object adds, with the
    autoincrement column assigned whatever the object holds there; the id the
    insertion reports, for the tables that have one; and the sequence after it. *)
Class Table (R : Type) := {
  rows : database → list R;
  set_rows : list R → database → database;
  own_key : bool;
  inserted : R → database → R;
  insert_id : database → option Z;
  bump_seq : database → database;
}.

#[export] Instance applications_table : Table Application := {|
  rows := applications;
  set_rows l d := mkDatabase l (namespaces d) (configs d) (config_versions d)
    (change_logs d) (releases d) (approvals d) (users d)
    (seq_change_logs d) (seq_releases d) (seq_approvals d) (seq_users d);
  own_key := true;
  inserted r _ := r;
  insert_id _ := None;
  bump_seq d := d;
|}.

#[export] Instance namespaces_table : Table Namespace := {|
  rows := namespaces;
  set_rows l d := mkDatabase (applications d) l (configs d) (config_versions d)
    (change_logs d) (releases d) (approvals d) (users d)
    (seq_change_logs d) (seq_releases d) (seq_approvals d) (seq_users d);
  own_key := true;
  inserted r _ := r;
  insert_id _ := None;
  bump_seq d := d;
|}.

#[export] Instance configs_table : Table ConfigKey := {|
  rows := configs;
  set_rows l d := mkDatabase (applications d) (namespaces d) l (config_versions d)
    (change_logs d) (releases d) (approvals d) (users d)
    (seq_change_logs d) (seq_releases d) (seq_approvals d) (seq_users d);
  own_key := true;
  inserted r _ := r;
  insert_id _ := None;
  bump_seq d := d;
|}.

#[export] Instance config_versions_table : Table ConfigVersion := {|
  rows := config_versions;
  set_rows l d := mkDatabase (applications d) (namespaces d) (configs d) l
    (change_logs d) (releases d) (approvals d) (users d)
    (seq_change_logs d) (seq_releases d) (seq_approvals d) (seq_users d);
  own_key := false;
  inserted r _ := r;
  insert_id _ := None;
  bump_seq d := d;
|}.

#[export] Instance change_logs_table : Table ChangeLog := {|
  rows := change_logs;
  set_rows l d := mkDatabase (applications d) (namespaces d) (configs d) (config_versions d)
    l (releases d) (approvals d) (users d)
    (seq_change_logs d) (seq_releases d) (seq_approvals d) (seq_users d);
  own_key := false;
  inserted r d := mkChangeLog (seq_change_logs d + 1) (cl_config_id r) (cl_namespace_id r)
    (cl_key r) (cl_version r) (cl_old_value r) (cl_new_value r) (cl_operation r)
    (cl_operator_id r) (cl_created_at r);
  insert_id d := Some (seq_change_logs d + 1);
  bump_seq d := mkDatabase (applications d) (namespaces d) (configs d) (config_versions d)
    (change_logs d) (releases d) (approvals d) (users d)
    (seq_change_logs d + 1) (seq_releases d) (seq_approvals d) (seq_users d);
|}.

#[export] Instance releases_table : Table Release := {|
  rows := releases;
  set_rows l d := mkDatabase (applications d) (namespaces d) (configs d) (config_versions d)
    (change_logs d) l (approvals d) (users d)
    (seq_change_logs d) (seq_releases d) (seq_approvals d) (seq_users d);
  own_key := false;
  inserted r d := mkRelease (seq_releases d + 1) (rel_namespace_id r) (rel_release_version r)
    (rel_release_note r) (rel_release_type r) (rel_status r) (rel_grayscale_percentage r)
    (rel_whitelist r) (rel_operator_id r) (rel_created_at r);
  insert_id d := Some (seq_releases d + 1);
  bump_seq d := mkDatabase (applications d) (namespaces d) (configs d) (config_versions d)
    (change_logs d) (releases d) (approvals d) (users d)
    (seq_change_logs d) (seq_releases d + 1) (seq_approvals d) (seq_users d);
|}.

#[export] Instance approvals_table : Table Approval := {|
  rows := approvals;
  set_rows l d := mkDatabase (applications d) (namespaces d) (configs d) (config_versions d)
    (change_logs d) (releases d) l (users d)
    (seq_change_logs d) (seq_releases d) (seq_approvals d) (seq_users d);
  own_key := false;
  inserted r d := mkApproval (seq_approvals d + 1) (apv_namespace_id r) (apv_submitter_id r)
    (apv_approver_id r) (apv_status r) (apv_comment r) (apv_created_at r) (apv_updated_at r);
  insert_id d := Some (seq_approvals d + 1);
  bump_seq d := mkDatabase (applications d) (namespaces d) (configs d) (config_versions d)
    (change_logs d) (releases d) (approvals d) (users d)
    (seq_change_logs d) (seq_releases d) (seq_approvals d + 1) (seq_users d);
|}.

#[export] Instance users_table : Table User := {|
  rows := users;
  set_rows l d := mkDatabase (applications d) (namespaces d) (configs d) (config_versions d)
    (change_logs d) (releases d) (approvals d) l
    (seq_change_logs d) (seq_releases d) (seq_approvals d) (seq_users d);
  own_key := false;
  inserted r d := mkUser (seq_users d + 1) (usr_username r) (usr_password_hash r) (usr_role r)
    (usr_created_at r);
  insert_id d := Some (seq_users d + 1);
  bump_seq d := mkDatabase (applications d) (namespaces d) (configs d) (config_versions d)
    (change_logs d) (releases d) (approvals d) (users d)
    (seq_change_logs d) (seq_releases d) (seq_approvals d) (seq_users d + 1);
|}.

(** ** The effect of a statement on the content *)
Definition insert_row {R : Type} `{Table R} (r : R) (d : database) : database :=
  bump_seq (set_rows (rows d ++ [inserted r d]) d).

Definition update_rows {R : Type} `{Table R} (P : R → Prop) `{∀ r, Decision (P r)} (f : R → R)
    (d : database) : database :=
  set_rows (update_where P f (rows d)) d.

Definition remove_rows {R : Type} `{Table R} (P : R → Prop) `{∀ r, Decision (P r)}
    (d : database) : database :=
  set_rows (filter (λ r, ¬ P r) (rows d)) d.

Arguments insert_row : simpl never.
Arguments update_rows : simpl never.
Arguments remove_rows : simpl never.

(** [LIMIT limit OFFSET offset] *)
Definition sql_slice {R : Type} (lim : option (Z * Z)) (l : list R) : list R :=
  match lim with
  | None => l
  | Some (limit, offset) =>
    let l' := drop (Z.to_nat offset) l in
    if limit <? 0 then l' else take (Z.to_nat limit) l'
  end.

(** The constraints of the schema; the foreign key counts when the connection
    enforces foreign keys. *)
Definition valid (fk : bool) (d : database) : Prop :=
  NoDup (app_app_id <$> applications d) ∧
  NoDup (ns_id <$> namespaces d) ∧
  NoDup (ck_pk <$> configs d) ∧
  NoDup (cl_id <$> change_logs d) ∧ Forall (λ r, cl_id r ≤ seq_change_logs d) (change_logs d) ∧
  NoDup (rel_id <$> releases d) ∧ Forall (λ r, rel_id r ≤ seq_releases d) (releases d) ∧
  NoDup (apv_id <$> approvals d) ∧ Forall (λ r, apv_id r ≤ seq_approvals d) (approvals d) ∧
  NoDup (usr_id <$> users d) ∧ Forall (λ r, usr_id r ≤ seq_users d) (users d) ∧
  NoDup (usr_username <$> users d) ∧
  (fk = true → Forall (λ n, ns_app_id n ∈ app_app_id <$> applications d) (namespaces d)).

Arguments valid : simpl never.

#[export] Instance valid_dec (fk : bool) (d : database) : Decision (valid fk d).
Proof. unfold valid. apply _. Defined.

(** ** The storage object *)
Class SqliteOrm := {
  conn : Type;
  (* what the connection reads; the content at [BEGIN] while a transaction is open *)
  db_of : conn → database;
  tx_of : conn → option database;
  healthy : conn → Prop;
  fk_enabled : bool;
  (* [insert] writes the columns of the primary key; documented: [false] *)
  writes_keys : bool;
  orm_insert : ∀ {R : Type} `{Table R}, R → M conn Z;
  orm_get_all : ∀ {R : Type} `{Table R} (P : R → Prop) `{∀ r, Decision (P r)}, M conn (list R);
  orm_get_all_by : ∀ {R : Type} `{Table R} (P : R → Prop) `{∀ r, Decision (P r)}
    (le : relation R) `{RelDecision R R le} (lim : option (Z * Z)), M conn (list R);
  orm_update : ConfigKey → M conn ();
  orm_update_all : ∀ {R : Type} `{Table R} (f : R → R) (P : R → Prop) `{∀ r, Decision (P r)},
    M conn ();
  orm_remove_all : ∀ {R : Type} `{Table R} (P : R → Prop) `{∀ r, Decision (P r)}, M conn ();
  orm_begin_transaction : M conn ();
  orm_commit : M conn ();
  orm_rollback : M conn ();
  orm_get_allocator : M conn ();
}.

Section laws.
Context `{!SqliteOrm}.

(** What a failed statement may leave behind. *)
Definition aborted (c c' : conn) : Prop :=
  (db_of c' = db_of c ∧ tx_of c' = tx_of c) ∨
  (∃ s, tx_of c = Some s ∧ db_of c' = s ∧ tx_of c' = None).

(** [m] is one statement whose effect on the content is [eff] and whose
    result is one of those [res] allows. *)
Record statement {A : Type} (m : M conn A) (eff : database → database)
    (res : database → A → Prop) : Prop := {
  st_sound : ∀ c,
    match m c with
    | (Ret a, c') => db_of c' = eff (db_of c) ∧ tx_of c' = tx_of c ∧ res (db_of c) a
    | (Throw, c') => aborted c c'
    | (Undef, _) => False
    end;
  st_ok : ∀ c, healthy c → valid fk_enabled (eff (db_of c)) →
    ∃ a c', m c = (Ret a, c') ∧ healthy c';
  st_reject : ∀ c, healthy c → ¬ valid fk_enabled (eff (db_of c)) →
    ∃ c', m c = (Throw, c') ∧ healthy c' ∧ db_of c' = db_of c ∧ tx_of c' = tx_of c;
  st_valid : ∀ c a c', m c = (Ret a, c') → valid fk_enabled (db_of c) →
    valid fk_enabled (eff (db_of c));
}.

(** The objects of [R] can be inserted: the key is the storage's own, or written. *)
Definition insertable (R : Type) `{!Table R} : Prop := own_key = true → writes_keys = true.

(** [m] is one statement that is always refused. *)
Record refused {A : Type} (m : M conn A) : Prop := {
  rf_sound : ∀ c, ∃ c', m c = (Throw, c') ∧ aborted c c';
  rf_ok : ∀ c, healthy c →
    ∃ c', m c = (Throw, c') ∧ healthy c' ∧ db_of c' = db_of c ∧ tx_of c' = tx_of c;
}.

(** [m] is a transaction control command: it goes from [(db, tx)] to
    [eff db tx] and is refused where [eff] is not defined. *)
Record control (m : M conn ()) (eff : database → option database →
    option (database * option database)) : Prop := {
  ct_sound : ∀ c,
    match m c with
    | (Ret _, c') => eff (db_of c) (tx_of c) = Some (db_of c', tx_of c')
    | (Throw, c') => aborted c c'
    | (Undef, _) => False
    end;
  ct_ok : ∀ c, healthy c → is_Some (eff (db_of c) (tx_of c)) →
    ∃ c', m c = (Ret (), c') ∧ healthy c';
  ct_reject : ∀ c, healthy c → eff (db_of c) (tx_of c) = None →
    ∃ c', m c = (Throw, c') ∧ healthy c' ∧ db_of c' = db_of c ∧ tx_of c' = tx_of c;
}.
End laws.

Definition eff_begin (d : database) (tx : option database) : option (database * option database) :=
  match tx with None => Some (d, Some d) | Some _ => None end.
Definition eff_commit (d : database) (tx : option database) : option (database * option database) :=
  match tx with None => None | Some _ => Some (d, None) end.
Definition eff_rollback (d : database) (tx : option database) : option (database * option database) :=
  match tx with None => None | Some s => Some (s, None) end.

Class SqliteOrmLaws `(O : SqliteOrm) : Prop := {
  law_valid : ∀ c, healthy c →
    valid fk_enabled (db_of c) ∧ ∀ s, tx_of c = Some s → valid fk_enabled s;
  law_insert : ∀ {R : Type} `{Table R} (r : R), insertable R →
    statement (orm_insert r) (insert_row r) (λ d a, ∀ i, insert_id d = Some i → a = i);
  law_insert_refused : ∀ {R : Type} `{Table R} (r : R),
    own_key = true → writes_keys = false → refused (orm_insert r);
  law_get_all : ∀ {R : Type} `{Table R} (P : R → Prop) `{∀ r, Decision (P r)},
    statement (orm_get_all P) id (λ d l, l ≡ₚ filter P (rows d));
  law_get_all_by : ∀ {R : Type} `{Table R} (P : R → Prop) `{∀ r, Decision (P r)}
    (le : relation R) `{RelDecision R R le} (lim : option (Z * Z)),
    Transitive le → Total le →
    statement (orm_get_all_by P le lim) id (λ d l,
      ∃ l0, l0 ≡ₚ filter P (rows d) ∧ StronglySorted le l0 ∧ l = sql_slice lim l0);
  law_update : ∀ k : ConfigKey,
    statement (orm_update k) (update_rows (λ r, ck_pk r = ck_pk k) (λ _, k)) (λ _ _, True);
  law_update_all : ∀ {R : Type} `{Table R} (f : R → R) (P : R → Prop) `{∀ r, Decision (P r)},
    statement (orm_update_all f P) (update_rows P f) (λ _ _, True);
  law_remove_all : ∀ {R : Type} `{Table R} (P : R → Prop) `{∀ r, Decision (P r)},
    statement (orm_remove_all P) (remove_rows P) (λ _ _, True);
  law_begin : control orm_begin_transaction eff_begin;
  law_commit : control orm_commit eff_commit;
  law_rollback : control orm_rollback eff_rollback;
}.

(** ** Reasoning about statements *)
#[export] Instance conn_observed `{!SqliteOrm} : Observed conn (database * option database) := {|
  view c := (db_of c, tx_of c);
  ready := healthy;
|}.

Section wp_orm.
Context `{!SqliteOrm, !SqliteOrmLaws _}.

Lemma wp_statement {A : Type} (m : M conn A) eff res c (Q : outcome A → _ → Prop) :
  statement m eff res → healthy c →
  (valid fk_enabled (eff (db_of c)) → ∀ a, res (db_of c) a →
    Q (Ret a) (eff (db_of c), tx_of c)) →
  (¬ valid fk_enabled (eff (db_of c)) → Q Throw (db_of c, tx_of c)) →
  wp c m Q.
Proof.
  intros [Hs Hok Hrej _] Hc HRet HThrow. specialize (Hs c).
  destruct (decide (valid fk_enabled (eff (db_of c)))) as [Hv|Hv].
  - destruct (Hok c Hc Hv) as (a & c' & Hm & Hc'). rewrite Hm in Hs.
    destruct Hs as (Hd & Ht & Ha). exists (Ret a), c'. split_and!; [done..|].
    cbn. rewrite Hd, Ht. by apply HRet.
  - destruct (Hrej c Hc Hv) as (c' & Hm & Hc' & Hd & Ht). exists Throw, c'.
    split_and!; [done..|]. cbn. rewrite Hd, Ht. by apply HThrow.
Qed.

(** A statement that leaves the content alone cannot be refused. *)
Lemma wp_query {A : Type} (m : M conn A) res c (Q : outcome A → _ → Prop) :
  statement m id res → healthy c →
  (∀ a, res (db_of c) a → Q (Ret a) (view c)) →
  wp c m Q.
Proof.
  intros Hst Hc HQ. destruct (law_valid c Hc) as [Hv _].
  eapply wp_statement; [done..|by intros _|done].
Qed.

Lemma wp_control m eff c (Q : outcome () → _ → Prop) :
  control m eff → healthy c →
  match eff (db_of c) (tx_of c) with
  | Some v => Q (Ret ()) v
  | None => Q Throw (view c)
  end →
  wp c m Q.
Proof.
  intros [Hs Hok Hrej] Hc HQ. specialize (Hs c).
  destruct (eff (db_of c) (tx_of c)) as [v|] eqn:E.
  - destruct (Hok c Hc) as (c' & Hm & Hc'); [by rewrite E|].
    rewrite Hm in Hs. simplify_eq. by exists (Ret ()), c'.
  - destruct (Hrej c Hc E) as (c' & Hm & Hc' & Hd & Ht). exists Throw, c'.
    split_and!; [done..|]. cbn. by rewrite Hd, Ht.
Qed.

(** The same rules for a statement followed by the rest of a method. *)
Lemma wp_then {A B : Type} (m : M conn A) (k : A → M conn B) eff res d tx c
    (Q : outcome B → _ → Prop) :
  statement m eff res → healthy c → db_of c = d → tx_of c = tx →
  (valid fk_enabled (eff d) → ∀ a c', res d a → healthy c' → db_of c' = eff d →
    tx_of c' = tx → wp c' (k a) Q) →
  (¬ valid fk_enabled (eff d) → Q Throw (d, tx)) →
  wp c (m ≫= k) Q.
Proof.
  intros Hst Hc <- <- HRet HThrow. apply wp_bind. eapply wp_statement; [done..| |done].
  intros Hv a Ha c' Hc' [= ? ?]. by eapply HRet.
Qed.

Lemma wp_then_query {A B : Type} (m : M conn A) (k : A → M conn B) res d tx c
    (Q : outcome B → _ → Prop) :
  statement m id res → healthy c → db_of c = d → tx_of c = tx →
  (∀ a c', res d a → healthy c' → db_of c' = d → tx_of c' = tx → wp c' (k a) Q) →
  wp c (m ≫= k) Q.
Proof.
  intros Hst Hc <- <- HRet. apply wp_bind. eapply wp_query; [done..|].
  intros a Ha c' Hc' [= ? ?]. by eapply HRet.
Qed.

Lemma wp_then_int32 {B : Type} (z : Z) (k : Z → M conn B) c (Q : outcome B → _ → Prop) :
  healthy c →
  (in_int32 z → wp c (k z) Q) → (¬ in_int32 z → Q Undef (view c)) →
  wp c (int32 z ≫= k) Q.
Proof.
  intros Hc Hin Hout. unfold int32. case_decide as Hz.
  - destruct (Hin Hz) as (o & c' & ? & ? & ?). by exists o, c'.
  - exists Undef, c. auto.
Qed.

Lemma wp_then_control {B : Type} (m : M conn ()) (k : () → M conn B) eff d tx c
    (Q : outcome B → _ → Prop) :
  control m eff → healthy c → db_of c = d → tx_of c = tx →
  match eff d tx with
  | Some (d', tx') => ∀ c', healthy c' → db_of c' = d' → tx_of c' = tx' → wp c' (k ()) Q
  | None => Q Throw (d, tx)
  end →
  wp c (m ≫= k) Q.
Proof.
  intros Hct Hc <- <- HQ. apply wp_bind. eapply wp_control; [done..|].
  destruct (eff (db_of c) (tx_of c)) as [[d' tx']|]; [|done].
  intros c' Hc' [= ? ?]. by eapply HQ.
Qed.
End wp_orm.

(** ** Which statements keep the constraints *)
Section valid.
Context {fk : bool}.
Implicit Types d : database.

Lemma valid_insert_application d (r : Application) :
  valid fk d → valid fk (insert_row r d) ↔ app_app_id r ∉ app_app_id <$> applications d.
Proof.
  intros Hv. unfold valid in Hv |- *. destruct_and! Hv. unfold insert_row; cbn.
  rewrite !fmap_snoc, NoDup_snoc. split; [tauto|]. intros Hr. split_and!; try done.
  intros Hfk. eapply Forall_impl; [eauto|]. cbn. set_solver.
Qed.

Lemma valid_insert_namespace d (r : Namespace) :
  valid fk d → valid fk (insert_row r d) ↔
    (ns_id r ∉ ns_id <$> namespaces d) ∧
    (fk = true → ns_app_id r ∈ app_app_id <$> applications d).
Proof.
  intros Hv. unfold valid in Hv |- *. destruct_and! Hv. unfold insert_row; cbn.
  rewrite !fmap_snoc, NoDup_snoc, Forall_app, Forall_singleton. tauto.
Qed.

Lemma valid_insert_config d (r : ConfigKey) :
  valid fk d → valid fk (insert_row r d) ↔ ck_pk r ∉ ck_pk <$> configs d.
Proof.
  intros Hv. unfold valid in Hv |- *. destruct_and! Hv. unfold insert_row; cbn.
  rewrite !fmap_snoc, NoDup_snoc. tauto.
Qed.

Lemma valid_insert_version d (r : ConfigVersion) : valid fk d → valid fk (insert_row r d).
Proof. done. Qed.

Lemma valid_insert_log d (r : ChangeLog) : valid fk d → valid fk (insert_row r d).
Proof.
  intros Hv. unfold valid in Hv |- *. destruct_and! Hv. unfold insert_row; cbn.
  destruct (fresh_id cl_id (change_logs d) (inserted r d) (seq_change_logs d)); [done..|]. by split_and!.
Qed.

Lemma valid_insert_release d (r : Release) : valid fk d → valid fk (insert_row r d).
Proof.
  intros Hv. unfold valid in Hv |- *. destruct_and! Hv. unfold insert_row; cbn.
  destruct (fresh_id rel_id (releases d) (inserted r d) (seq_releases d)); [done..|]. by split_and!.
Qed.

Lemma valid_insert_approval d (r : Approval) : valid fk d → valid fk (insert_row r d).
Proof.
  intros Hv. unfold valid in Hv |- *. destruct_and! Hv. unfold insert_row; cbn.
  destruct (fresh_id apv_id (approvals d) (inserted r d) (seq_approvals d)); [done..|]. by split_and!.
Qed.

Lemma valid_insert_user d (r : User) :
  valid fk d → valid fk (insert_row r d) ↔ usr_username r ∉ usr_username <$> users d.
Proof.
  intros Hv. unfold valid in Hv |- *. destruct_and! Hv. unfold insert_row; cbn.
  destruct (fresh_id usr_id (users d) (inserted r d) (seq_users d)); [done..|]. cbn in *.
  rewrite !(fmap_snoc usr_username), NoDup_snoc. tauto.
Qed.

Lemma valid_update_configs d (P : ConfigKey → Prop) `{∀ r, Decision (P r)} f :
  (∀ r, P r → ck_pk (f r) = ck_pk r) → valid fk d → valid fk (update_rows P f d).
Proof.
  intros Hf Hv. unfold valid in Hv |- *. destruct_and! Hv. unfold update_rows; cbn.
  by rewrite fmap_update_where.
Qed.

Lemma valid_update_releases d (P : Release → Prop) `{∀ r, Decision (P r)} f :
  (∀ r, P r → rel_id (f r) = rel_id r) → valid fk d → valid fk (update_rows P f d).
Proof.
  intros Hf Hv. unfold valid in Hv |- *. destruct_and! Hv. unfold update_rows; cbn.
  rewrite fmap_update_where by done. split_and!; try done. by apply Forall_update_where.
Qed.

Lemma valid_update_approvals d (P : Approval → Prop) `{∀ r, Decision (P r)} f :
  (∀ r, P r → apv_id (f r) = apv_id r) → valid fk d → valid fk (update_rows P f d).
Proof.
  intros Hf Hv. unfold valid in Hv |- *. destruct_and! Hv. unfold update_rows; cbn.
  rewrite fmap_update_where by done. split_and!; try done. by apply Forall_update_where.
Qed.

Lemma valid_remove_configs d (P : ConfigKey → Prop) `{∀ r, Decision (P r)} :
  valid fk d → valid fk (remove_rows P d).
Proof.
  intros Hv. unfold valid in Hv |- *. destruct_and! Hv. unfold remove_rows; cbn.
  split_and!; try done. by apply NoDup_fmap_filter.
Qed.

Lemma valid_remove_namespaces d (P : Namespace → Prop) `{∀ r, Decision (P r)} :
  valid fk d → valid fk (remove_rows P d).
Proof.
  intros Hv. unfold valid in Hv |- *. destruct_and! Hv. unfold remove_rows; cbn.
  split_and!; try done; [by apply NoDup_fmap_filter|].
  intros Hfk. apply Forall_forall. intros n [_ Hn]%list_elem_of_filter.
  match goal with H : _ → Forall _ (namespaces d) |- _ =>
    specialize (H Hfk); rewrite Forall_forall in H; by apply H end.
Qed.

(** Deleting an application is refused exactly when a namespace refers to it. *)
Lemma valid_remove_application d (appId : string) :
  valid fk d →
  valid fk (remove_rows (λ r, app_app_id r = appId) d) ↔
    (fk = true → Forall (λ n, ns_app_id n ≠ appId) (namespaces d)).
Proof.
  intros Hv. unfold valid in Hv |- *. destruct_and! Hv. unfold remove_rows; cbn. split.
  - intros Hr Hfk. do 12 destruct Hr as [_ Hr]. specialize (Hr Hfk).
    rewrite Forall_forall in Hr |- *. intros n Hn Heq. specialize (Hr n Hn).
    apply list_elem_of_fmap in Hr as (a & Ha & [Hne _]%list_elem_of_filter). congruence.
  - intros Hno. split_and!; try done; [by apply NoDup_fmap_filter|].
    intros Hfk. specialize (Hno Hfk). rewrite Forall_forall in Hno |- *. intros n Hn.
    specialize (Hno n Hn). assert (ns_app_id n ∈ app_app_id <$> applications d) as Ha.
    { match goal with H : _ → Forall _ (namespaces d) |- _ =>
        specialize (H Hfk); rewrite Forall_forall in H; by apply H end. }
    apply list_elem_of_fmap in Ha as (a & Ha & Hin). rewrite Ha in *.
    apply list_elem_of_fmap_2. by apply list_elem_of_filter.
Qed.
End valid.
