(* ===== verification/MemOrm.v ===== *)
(** * An in-memory storage

    A concrete storage that satisfies [SqliteOrmLaws]: the content is kept in
    memory, rows come back in insertion order, and a schedule says which of the
    next statements fail with an I/O error.  It makes every definition over the
    storage executable and shows that the laws can hold, with and without
    foreign keys, for an [insert] as it is documented and for one that writes the
    key columns, [mem_orm]. *)
From S2P Require Import Prelude DataTypes SqliteOrm.

Record mem := mkMem {
  m_db : database;
  m_tx : option database;
  m_faults : list bool;
}.

Definition mem_empty : mem := mkMem empty_database None [].

Section mem_storage.
Context (keys fk : bool).

(** The next command fails when the schedule says so. *)
Definition mem_tick {A : Type} (k : M mem A) : M mem A := λ c,
  match m_faults c with
  | true :: fs => (Throw, mkMem (m_db c) (m_tx c) fs)
  | fs => k (mkMem (m_db c) (m_tx c) (tail fs))
  end.

Definition mem_statement {A : Type} (eff : database → database) (res : database → A) : M mem A :=
  mem_tick (λ c,
    if decide (valid fk (eff (m_db c)))
    then (Ret (res (m_db c)), mkMem (eff (m_db c)) (m_tx c) (m_faults c))
    else (Throw, c)).

(** An [INSERT] that leaves out a key column fails. *)
Definition mem_insert {R : Type} `{Table R} (r : R) : M mem Z :=
  if own_key && negb keys then mem_tick (λ c, (Throw, c))
  else mem_statement (insert_row r) (λ d, default 0 (insert_id d)).

Definition mem_control (eff : database → option database → option (database * option database))
    : M mem () :=
  mem_tick (λ c,
    match eff (m_db c) (m_tx c) with
    | Some (d, tx) => (Ret (), mkMem d tx (m_faults c))
    | None => (Throw, c)
    end).

Definition mem_healthy (c : mem) : Prop :=
  m_faults c = [] ∧ valid fk (m_db c) ∧ ∀ s, m_tx c = Some s → valid fk s.

#[export] Instance mem_storage : SqliteOrm := {|
  conn := mem;
  db_of := m_db;
  tx_of := m_tx;
  healthy := mem_healthy;
  fk_enabled := fk;
  writes_keys := keys;
  orm_insert R _ r := mem_insert r;
  orm_get_all R _ P _ := mem_statement id (λ d, filter P (rows d));
  orm_get_all_by R _ P _ le _ lim :=
    mem_statement id (λ d, sql_slice lim (merge_sort le (filter P (rows d))));
  orm_update k := mem_statement (update_rows (λ r, ck_pk r = ck_pk k) (λ _, k)) (λ _, ());
  orm_update_all R _ f P _ := mem_statement (update_rows P f) (λ _, ());
  orm_remove_all R _ P _ := mem_statement (remove_rows P) (λ _, ());
  orm_begin_transaction := mem_control eff_begin;
  orm_commit := mem_control eff_commit;
  orm_rollback := mem_control eff_rollback;
  orm_get_allocator := mret ();
|}.

Lemma mem_tick_healthy {A : Type} (k : M mem A) c : m_faults c = [] → mem_tick k c = k c.
Proof. intros Hf. unfold mem_tick. rewrite Hf. destruct c; cbn in *. by subst. Qed.

Lemma mem_statement_law {A : Type} eff (res : database → A) (R : database → A → Prop) :
  (∀ d, R d (res d)) → statement (mem_statement eff res) eff R.
Proof.
  intros HR. split.
  - intros c. unfold mem_statement, mem_tick.
    destruct (m_faults c) as [|[] fs]; cbn; [case_decide|left|case_decide];
      cbn; auto; by left.
  - intros c [Hf [Hv Htx]] Hv'. unfold mem_statement. rewrite mem_tick_healthy by done.
    cbn in *. rewrite decide_True by done. eexists _, _. split; [done|]. done.
  - intros c (Hf & Hv & Htx) Hv'. unfold mem_statement. rewrite mem_tick_healthy by done.
    cbn in *. rewrite decide_False by done. by exists c.
  - intros c a c'. unfold mem_statement, mem_tick. cbn.
    destruct (m_faults c) as [|[] fs]; cbn; [case_decide| |case_decide]; naive_solver.
Qed.

Lemma mem_refused_law {A : Type} : refused (A := A) (mem_tick (λ c, (Throw, c))).
Proof.
  split.
  - intros c. unfold mem_tick. destruct (m_faults c) as [|[] fs]; eexists; (split; [done|by left]).
  - intros c Hc. exists c. rewrite mem_tick_healthy by apply Hc. done.
Qed.

Lemma mem_control_law eff :
  (∀ d tx d' tx', eff d tx = Some (d', tx') → valid fk d → (∀ s, tx = Some s → valid fk s) →
    valid fk d' ∧ ∀ s, tx' = Some s → valid fk s) →
  control (mem_control eff) eff.
Proof.
  intros Heff. split.
  - intros c. unfold mem_control, mem_tick.
    destruct (m_faults c) as [|[] fs]; cbn; try (by left);
      destruct (eff (m_db c) (m_tx c)) as [[d tx]|]; cbn; auto; by left.
  - intros c (Hf & Hv & Htx) [[d tx] E]. unfold mem_control. rewrite mem_tick_healthy by done.
    cbn in *. rewrite E. eexists. split; [done|]. split; [done|]. cbn. eauto.
  - intros c (Hf & Hv & Htx) E. unfold mem_control. rewrite mem_tick_healthy by done.
    cbn in *. rewrite E. by exists c.
Qed.

#[export] Instance mem_storage_laws : SqliteOrmLaws mem_storage.
Proof.
  split.
  - intros c (_ & ? & ?). by split.
  - intros R HR r Hr. cbn. unfold mem_insert. rewrite (proj2 (andb_false_iff _ _)).
    + apply mem_statement_law. intros d i Hi. by rewrite Hi.
    + unfold insertable in Hr. cbn in Hr. destruct own_key; [right; by rewrite Hr|by left].
  - intros R HR r Hown Hk. cbn. unfold mem_insert. cbn in Hk. rewrite Hown, Hk. cbn.
    apply mem_refused_law.
  - intros R HR P HP. apply mem_statement_law. done.
  - intros R HR P HP le Hle lim Htr Htot. apply mem_statement_law. intros d.
    exists (merge_sort le (filter P (rows d))). split_and!; [apply merge_sort_Permutation| |done].
    by apply StronglySorted_merge_sort.
  - intros k. by apply mem_statement_law.
  - intros R HR f P HP. by apply mem_statement_law.
  - intros R HR P HP. by apply mem_statement_law.
  - apply mem_control_law. intros d [] ? ? ?; naive_solver.
  - apply mem_control_law. intros d [] ? ? ?; naive_solver.
  - apply mem_control_law. intros d [] ? ? ?; naive_solver.
Qed.
End mem_storage.

(** The storage whose [insert] writes every column. *)
Abbreviation mem_orm := (mem_storage true).
Abbreviation mem_orm_laws := (mem_storage_laws true).

Lemma mem_empty_healthy (fk : bool) : mem_healthy fk mem_empty.
Proof. unfold mem_healthy. split; [done|]. split; [|done]. destruct fk; by apply (bool_decide_unpack _). Qed.
