(* ===== verification/ConfigStore.v ===== *)
(** * The storage interface

    [ConfigStore] is the abstract class of
    [include/config-center/storage/config_store.h]: one field per virtual
    method.  A reference parameter the method writes ([Release&],
    [Approval&]) is an argument and a component of the result; [now] is the
    reading of the system clock for the methods of which an implementation
    reads it.

    [Store] is the abstract state a store implements: finite maps from keys to
    rows, and the content saved while a transaction is open.  The [spec_*]
    functions say what each method does to it, and [ConfigStoreSpec] is the
    contract the other components are verified against;
    [ConfigStoreContract] is the one of any store, also of a store that refuses
    every new application, namespace and config. *)
From S2P Require Import Prelude Timestamp DataTypes SqliteOrm.

Class ConfigStore (S : Type) := {
  healthCheck : M S bool;
  createApplication : Application → M S bool;
  getApplication : string → M S (option Application);
  listApplications : M S (list Application);
  deleteApplication : string → M S bool;
  createNamespace : Namespace → M S bool;
  getNamespace : string → M S (option Namespace);
  listNamespaces : string → string → string → M S (list Namespace);
  deleteNamespace : string → M S bool;
  createConfig : string → string → string → string → Z → M S bool;
  updateConfig : string → string → string → string → bool → Z → M S bool;
  deleteConfig : string → string → string → bool → Z → M S bool;
  getConfig : string → string → bool → M S (option ConfigKey);
  listConfigs : string → bool → M S (list ConfigKey);
  getConfigVersions : string → string → M S (list ConfigVersion);
  getConfigVersion : string → string → Z → M S (option ConfigVersion);
  rollbackConfig : string → string → Z → string → Z → M S bool;
  getChangeHistory : ChangeLogQuery → M S (list ChangeLog);
  createRelease : Release → Z → M S (bool * Release);
  getReleases : ReleaseQuery → M S (list Release);
  getRelease : Z → M S (option Release);
  retireRelease : Z → M S bool;
  publishRelease : string → string → string → Release → Z → M S (bool * Release);
  createApproval : Approval → Z → M S (bool * Approval);
  updateApprovalStatus : Z → string → string → Z → M S bool;
  getPendingApprovals : string → M S (list Approval);
  createUser : User → M S bool;
  getUserByUsername : string → M S (option User);
  listUsers : M S (list User);
  beginTransaction : M S bool;
  commitTransaction : M S bool;
  rollbackTransaction : M S bool;
}.

(** ** The abstract state *)
Record content := mkContent {
  s_apps : gmap string Application;
  s_nss : gmap string Namespace;
  s_cfgs : gmap (string * string) ConfigKey;
  s_vers : list ConfigVersion;
  s_logs : list ChangeLog;
  s_rels : gmap Z Release;
  s_apvs : gmap Z Approval;
  s_users : gmap string User;
  s_next_log : Z;
  s_next_rel : Z;
  s_next_apv : Z;
  s_next_user : Z;
}.

Record Store := mkStore {
  cur : content;
  saved : option content;
}.

Definition empty_content : content := mkContent ∅ ∅ ∅ [] [] ∅ ∅ ∅ 1 1 1 1.

Definition set_apps f s := mkContent (f (s_apps s)) (s_nss s) (s_cfgs s) (s_vers s) (s_logs s)
  (s_rels s) (s_apvs s) (s_users s) (s_next_log s) (s_next_rel s) (s_next_apv s) (s_next_user s).
Definition set_nss f s := mkContent (s_apps s) (f (s_nss s)) (s_cfgs s) (s_vers s) (s_logs s)
  (s_rels s) (s_apvs s) (s_users s) (s_next_log s) (s_next_rel s) (s_next_apv s) (s_next_user s).
Definition set_cfgs f s := mkContent (s_apps s) (s_nss s) (f (s_cfgs s)) (s_vers s) (s_logs s)
  (s_rels s) (s_apvs s) (s_users s) (s_next_log s) (s_next_rel s) (s_next_apv s) (s_next_user s).
Definition add_ver v s := mkContent (s_apps s) (s_nss s) (s_cfgs s) (s_vers s ++ [v]) (s_logs s)
  (s_rels s) (s_apvs s) (s_users s) (s_next_log s) (s_next_rel s) (s_next_apv s) (s_next_user s).
Definition add_log (l : Z → ChangeLog) s := mkContent (s_apps s) (s_nss s) (s_cfgs s) (s_vers s)
  (s_logs s ++ [l (s_next_log s)]) (s_rels s) (s_apvs s) (s_users s)
  (s_next_log s + 1) (s_next_rel s) (s_next_apv s) (s_next_user s).
Definition set_rels f s := mkContent (s_apps s) (s_nss s) (s_cfgs s) (s_vers s) (s_logs s)
  (f (s_rels s)) (s_apvs s) (s_users s) (s_next_log s) (s_next_rel s) (s_next_apv s) (s_next_user s).
Definition add_rel (r : Release) s := mkContent (s_apps s) (s_nss s) (s_cfgs s) (s_vers s) (s_logs s)
  (<[s_next_rel s := r]> (s_rels s)) (s_apvs s) (s_users s)
  (s_next_log s) (s_next_rel s + 1) (s_next_apv s) (s_next_user s).
Definition set_apvs f s := mkContent (s_apps s) (s_nss s) (s_cfgs s) (s_vers s) (s_logs s)
  (s_rels s) (f (s_apvs s)) (s_users s) (s_next_log s) (s_next_rel s) (s_next_apv s) (s_next_user s).
Definition add_apv (a : Approval) s := mkContent (s_apps s) (s_nss s) (s_cfgs s) (s_vers s) (s_logs s)
  (s_rels s) (<[s_next_apv s := a]> (s_apvs s)) (s_users s)
  (s_next_log s) (s_next_rel s) (s_next_apv s + 1) (s_next_user s).
Definition add_user (u : User) s := mkContent (s_apps s) (s_nss s) (s_cfgs s) (s_vers s) (s_logs s)
  (s_rels s) (s_apvs s) (<[usr_username u := u]> (s_users s))
  (s_next_log s) (s_next_rel s) (s_next_apv s) (s_next_user s + 1).

(** ** Struct updates the methods make *)
Definition makeConfigId (namespaceId key : string) : string := namespaceId +:+ ":" +:+ key.

Definition status_of (draft : bool) : string := if draft then "draft" else "live".

(** [config.value = value; config.version = v; config.status = ...; config.updated_at = ts] *)
Definition edit_config (c : ConfigKey) (value : string) (v : Z) (draft : bool) (ts : string)
    : ConfigKey :=
  mkConfigKey (ck_namespace_id c) (ck_key c) value v (status_of draft) (ck_created_at c) ts.

Definition set_ck_status (st : string) (c : ConfigKey) : ConfigKey :=
  mkConfigKey (ck_namespace_id c) (ck_key c) (ck_value c) (ck_version c) st (ck_created_at c)
    (ck_updated_at c).

Definition set_rel_status (st : string) (r : Release) : Release :=
  mkRelease (rel_id r) (rel_namespace_id r) (rel_release_version r) (rel_release_note r)
    (rel_release_type r) st (rel_grayscale_percentage r) (rel_whitelist r) (rel_operator_id r)
    (rel_created_at r).

Definition set_rel_id (i : Z) (r : Release) : Release :=
  mkRelease i (rel_namespace_id r) (rel_release_version r) (rel_release_note r)
    (rel_release_type r) (rel_status r) (rel_grayscale_percentage r) (rel_whitelist r)
    (rel_operator_id r) (rel_created_at r).

Definition set_apv_id (i : Z) (a : Approval) : Approval :=
  mkApproval i (apv_namespace_id a) (apv_submitter_id a) (apv_approver_id a) (apv_status a)
    (apv_comment a) (apv_created_at a) (apv_updated_at a).

(** [SET status = st, comment = comment, updated_at = ts] *)
Definition decide_approval (st comment ts : string) (a : Approval) : Approval :=
  mkApproval (apv_id a) (apv_namespace_id a) (apv_submitter_id a) (apv_approver_id a) st comment
    (apv_created_at a) ts.

Definition set_usr_id (i : Z) (u : User) : User :=
  mkUser i (usr_username u) (usr_password_hash u) (usr_role u) (usr_created_at u).

(** [maxVersion] of [publishRelease]: the largest of the versions, 0 if there is none. *)
Definition max_version (vs : list Z) : Z :=
  match vs with
  | [] => 0
  | v :: vs => foldr Z.max v vs
  end.

Lemma max_version_eq (vs : list Z) (m : Z) :
  m ∈ vs → (∀ v, v ∈ vs → v ≤ m) → max_version vs = m.
Proof.
  destruct vs as [|v vs]; [by intros ?%not_elem_of_nil|]. cbn.
  revert v. induction vs as [|w vs IH]; intros v Hm Hle; cbn.
  - by apply list_elem_of_singleton in Hm.
  - assert (v ≤ m ∧ w ≤ m) as [? ?] by (split; apply Hle; set_solver).
    apply elem_of_cons in Hm as [->|[->|Hm]%elem_of_cons].
    + rewrite (IH v); [lia|by left|set_solver].
    + rewrite Z.max_l; [done|]. clear IH. induction vs as [|x vs IH]; cbn; [done|].
      apply Z.max_lub; [apply Hle; set_solver|apply IH; set_solver].
    + rewrite (IH v); [lia|by right|set_solver].
Qed.

Lemma max_version_spec (vs : list Z) :
  vs ≠ [] → max_version vs ∈ vs ∧ ∀ v, v ∈ vs → v ≤ max_version vs.
Proof.
  destruct vs as [|v vs]; [done|]. intros _. cbn. induction vs as [|w vs [IH1 IH2]]; cbn.
  - split; [by left|]. intros x ->%list_elem_of_singleton. done.
  - split.
    + destruct (Z.max_spec w (foldr Z.max v vs)) as [[_ ->]|[_ ->]]; set_solver.
    + intros x [->|[->|Hx]%elem_of_cons]%elem_of_cons.
      * assert (v ≤ foldr Z.max v vs) by (apply IH2; by left). lia.
      * lia.
      * assert (x ≤ foldr Z.max v vs) by (apply IH2; by right). lia.
Qed.

Lemma max_version_le (vs : list Z) v : v ∈ vs → v ≤ max_version vs.
Proof.
  intros Hv. assert (vs ≠ []) as Hne by (by intros ->; apply not_elem_of_nil in Hv).
  by apply max_version_spec.
Qed.

Lemma max_version_perm (vs ws : list Z) : vs ≡ₚ ws → max_version vs = max_version ws.
Proof.
  intros Hp. destruct (decide (ws = [])) as [->|Hne].
  - by apply Permutation_nil_r in Hp as ->.
  - destruct (max_version_spec ws Hne) as [Hin Hle]. apply max_version_eq; [by rewrite Hp|].
    intros v. rewrite Hp. auto.
Qed.

(** ** What the methods do to the content *)
Definition spec_createApplication (app : Application) : M content bool := λ s,
  match s_apps s !! app_app_id app with
  | Some _ => (Ret false, s)
  | None => (Ret true, set_apps <[app_app_id app := app]> s)
  end.

Definition referenced (appId : string) (s : content) : Prop :=
  map_Exists (λ _ n, ns_app_id n = appId) (s_nss s).
#[export] Instance referenced_dec appId s : Decision (referenced appId s).
Proof. unfold referenced. apply _. Defined.

(** With foreign keys enforced, deleting an application that has namespaces is
    refused by the database. *)
Definition spec_deleteApplication (fk : bool) (appId : string) : M content bool := λ s,
  if decide (fk = true ∧ referenced appId s) then (Throw, s)
  else (Ret true, set_apps (delete appId) s).

Definition spec_createNamespace (fk : bool) (ns : Namespace) : M content bool := λ s,
  if decide (s_nss s !! ns_id ns = None ∧ (fk = true → is_Some (s_apps s !! ns_app_id ns)))
  then (Ret true, set_nss <[ns_id ns := ns]> s)
  else (Ret false, s).

Definition spec_deleteNamespace (nsId : string) : M content bool := λ s,
  (Ret true, set_nss (delete nsId) s).

Definition create_version (ns key value op ts : string) : ConfigVersion :=
  mkConfigVersion 1 (makeConfigId ns key) value "create" op ts.
Definition create_log (ns key value op ts : string) (i : Z) : ChangeLog :=
  mkChangeLog i (makeConfigId ns key) ns key 1 "" value "create" op ts.
Definition new_config (ns key value ts : string) : ConfigKey :=
  mkConfigKey ns key value 1 "draft" ts ts.

Definition spec_createConfig (ns key value op : string) (now : Z) : M content bool := λ s,
  let ts := getTimestamp now in
  match s_cfgs s !! (ns, key) with
  | Some _ => (Ret false, s)
  | None =>
    (Ret true, add_log (create_log ns key value op ts)
      (add_ver (create_version ns key value op ts)
        (set_cfgs <[(ns, key) := new_config ns key value ts]> s)))
  end.

Definition update_version (ns key value op ts : string) (v : Z) : ConfigVersion :=
  mkConfigVersion v (makeConfigId ns key) value "update" op ts.
Definition update_log (ns key old value op ts : string) (v i : Z) : ChangeLog :=
  mkChangeLog i (makeConfigId ns key) ns key v old value "update" op ts.

(** The version is a 32-bit counter: its increment overflows at the last one. *)
Definition spec_updateConfig (ns key value op : string) (draft : bool) (now : Z)
    : M content bool := λ s,
  let ts := getTimestamp now in
  match s_cfgs s !! (ns, key) with
  | None => (Ret false, s)
  | Some c =>
    let v := ck_version c + 1 in
    if decide (in_int32 v) then
      (Ret true, add_log (update_log ns key (ck_value c) value op ts v)
        (add_ver (update_version ns key value op ts v)
          (set_cfgs <[(ns, key) := edit_config c value v draft ts]> s)))
    else (Undef, s)
  end.

Definition delete_log (ns key op ts : string) (i : Z) : ChangeLog :=
  mkChangeLog i (makeConfigId ns key) ns key 0 "" "" "delete" op ts.

Definition spec_deleteConfig (ns key op : string) (draft : bool) (now : Z) : M content bool := λ s,
  let gone :=
    match s_cfgs s !! (ns, key) with
    | Some c => negb draft || bool_decide (ck_status c = "draft")
    | None => false
    end in
  (Ret true, add_log (delete_log ns key op (getTimestamp now))
    (if gone then set_cfgs (delete (ns, key)) s else s)).

(** A draft row is invisible to readers that do not ask for drafts. *)
Definition visible (includeDraft : bool) (c : ConfigKey) : Prop :=
  includeDraft = true ∨ ck_status c ≠ "draft".
#[export] Instance visible_dec i c : Decision (visible i c).
Proof. unfold visible. apply _. Defined.

Definition spec_getConfig (ns key : string) (includeDraft : bool) : M content (option ConfigKey) :=
  λ s, (Ret (c ← s_cfgs s !! (ns, key); if decide (visible includeDraft c) then Some c else None), s).

Definition versions_of (ns : string) (s : content) : list Z :=
  rel_release_version <$> filter (λ r, rel_namespace_id r = ns) (map_to_list (s_rels s)).*2.

Definition new_release (ns note op ts : string) (v i : Z) : Release :=
  mkRelease i ns v note "full" "active" None None op ts.

(** Every row of the namespace becomes live and one release is added. *)
Definition go_live (ns : string) (c : ConfigKey) : ConfigKey :=
  if decide (ck_namespace_id c = ns) then set_ck_status "live" c else c.

Definition spec_publishRelease (ns note op : string) (now : Z) : M content (bool * Release) := λ s,
  let v := max_version (versions_of ns s) + 1 in
  if decide (in_int32 v) then
    let r := new_release ns note op (getTimestamp now) v (s_next_rel s) in
    (Ret (true, r), add_rel r (set_cfgs (fmap (go_live ns)) s))
  else (Undef, s).

Definition spec_createRelease (r : Release) : M content (bool * Release) := λ s,
  let r' := set_rel_id (s_next_rel s) r in (Ret (true, r'), add_rel r' s).

Definition spec_retireRelease (i : Z) : M content bool := λ s,
  (Ret true, set_rels (alter (set_rel_status "retired") i) s).

Definition spec_createApproval (a : Approval) : M content (bool * Approval) := λ s,
  let a' := set_apv_id (s_next_apv s) a in (Ret (true, a'), add_apv a' s).

Definition spec_updateApprovalStatus (i : Z) (st comment : string) (now : Z) : M content bool := λ s,
  (Ret true, set_apvs (alter (decide_approval st comment (getTimestamp now)) i) s).

Definition spec_createUser (u : User) : M content bool := λ s,
  match s_users s !! usr_username u with
  | Some _ => (Ret false, s)
  | None => (Ret true, add_user (set_usr_id (s_next_user s) u) s)
  end.

(** ** The contract *)

(** The outcome and the new content are those of [f]; a transaction in
    progress stays as it is.  Nothing is said of the state after undefined
    behaviour. *)
Definition refines {A : Type} (f : M content A) (st : Store) (o : outcome A) (st' : Store) : Prop :=
  match f (cur st) with
  | (Undef, _) => o = Undef
  | (o', s') => o = o' ∧ st' = mkStore s' (saved st)
  end.

(** A query: it returns a result [R] allows and changes nothing. *)
Definition queries {A : Type} (R : content → A → Prop) (st : Store) (o : outcome A) (st' : Store)
    : Prop :=
  st' = st ∧ ∃ a, o = Ret a ∧ R (cur st) a.

(** [o] is some element of [l], if it has one: [results[0]] of an unordered query. *)
Definition picks {A : Type} (l : list A) (o : option A) : Prop :=
  match o with Some x => x ∈ l | None => l = [] end.

Definition version_desc (a b : ConfigVersion) : Prop := cv_version b ≤ cv_version a.
Definition log_desc (a b : ChangeLog) : Prop := String.le (cl_created_at b) (cl_created_at a).
Definition release_desc (a b : Release) : Prop := String.le (rel_created_at b) (rel_created_at a).

#[export] Instance version_desc_dec : RelDecision version_desc.
Proof. intros a b. unfold version_desc. apply _. Defined.
#[export] Instance log_desc_dec : RelDecision log_desc.
Proof. intros a b. unfold log_desc. apply _. Defined.
#[export] Instance release_desc_dec : RelDecision release_desc.
Proof. intros a b. unfold release_desc. apply _. Defined.

#[export] Instance version_desc_total : Total version_desc.
Proof. intros a b. unfold version_desc. lia. Qed.
#[export] Instance version_desc_trans : Transitive version_desc.
Proof. intros a b c. unfold version_desc. lia. Qed.

(** Ordering rows by a text column, latest first. *)
Lemma text_desc_total {A : Type} (col : A → string) : Total (λ a b, String.le (col b) (col a)).
Proof. intros a b. destruct (total String.le (col a) (col b)); auto. Qed.
Lemma text_desc_trans {A : Type} (col : A → string) : Transitive (λ a b, String.le (col b) (col a)).
Proof. intros a b c ? ?. by transitivity (col b). Qed.

#[export] Instance log_desc_total : Total log_desc := text_desc_total cl_created_at.
#[export] Instance log_desc_trans : Transitive log_desc := text_desc_trans cl_created_at.
#[export] Instance release_desc_total : Total release_desc := text_desc_total rel_created_at.
#[export] Instance release_desc_trans : Transitive release_desc := text_desc_trans rel_created_at.

(** The page [page] of [page_size] rows of some ordering of [l] by [le]. *)
Definition page_of {A : Type} (le : relation A) (l : list A) (page page_size : Z) (p : list A) : Prop :=
  ∃ l0, l0 ≡ₚ l ∧ StronglySorted le l0 ∧ p = sql_slice (Some (page_size, (page - 1) * page_size)) l0.

Definition page_in_range (page page_size : Z) : Prop :=
  in_int32 (page - 1) ∧ in_int32 ((page - 1) * page_size).
#[export] Instance page_in_range_dec p n : Decision (page_in_range p n).
Proof. unfold page_in_range. apply _. Defined.

(** A paged query: the offset is computed in [int], which may overflow. *)
Definition paged {A : Type} (R : content → list A → Prop) (page page_size : Z)
    (st : Store) (o : outcome (list A)) (st' : Store) : Prop :=
  if decide (page_in_range page page_size) then queries R st o st' else o = Undef.

(** A condition of the [WHERE] clause that is added when the query sets the field. *)
Definition when_set {A : Type} (P : A → Prop) (o : option A) : Prop :=
  match o with Some a => P a | None => True end.
#[export] Instance when_set_dec {A : Type} (P : A → Prop) `{∀ a, Decision (P a)} o :
  Decision (when_set P o).
Proof. destruct o; apply _. Defined.

Definition log_matches (q : ChangeLogQuery) (l : ChangeLog) : Prop :=
  when_set (λ k, cl_key l = k) (clq_key q) ∧
  when_set (λ n, cl_namespace_id l = n) (clq_namespace_id q) ∧
  when_set (λ t, String.le t (cl_created_at l)) (clq_time_from q) ∧
  when_set (λ t, String.le (cl_created_at l) t) (clq_time_to q).
#[export] Instance log_matches_dec q l : Decision (log_matches q l).
Proof. unfold log_matches. apply _. Defined.

Definition is_version (ns key : string) (v : Z) (r : ConfigVersion) : Prop :=
  cv_config_id r = makeConfigId ns key ∧ cv_version r = v.
#[export] Instance is_version_dec ns key v r : Decision (is_version ns key v r).
Proof. unfold is_version. apply _. Defined.

(** The transaction commands on the store. *)
Definition tx_begin (st : Store) (o : outcome bool) (st' : Store) : Prop :=
  match saved st with
  | None => o = Ret true ∧ st' = mkStore (cur st) (Some (cur st))
  | Some _ => o = Throw ∧ st' = st
  end.
Definition tx_commit (st : Store) (o : outcome bool) (st' : Store) : Prop :=
  match saved st with
  | None => o = Throw ∧ st' = st
  | Some _ => o = Ret true ∧ st' = mkStore (cur st) None
  end.
Definition tx_rollback (st : Store) (o : outcome bool) (st' : Store) : Prop :=
  match saved st with
  | None => o = Throw ∧ st' = st
  | Some s => o = Ret true ∧ st' = mkStore s None
  end.

(** A creation of a row whose key is the caller's, in a store that can ([keyed]) or
    cannot store such rows. *)
Definition creates (keyed : bool) (f : M content bool) : M content bool :=
  if keyed then f else mret false.

Class ConfigStoreContract (S : Type) `{!ConfigStore S} (O : Observed S Store) (fk keyed : bool) : Prop := {
  createApplication_contract app s : ready s →
    wp s (createApplication app) (refines (creates keyed (spec_createApplication app)) (view s));
  getApplication_spec i s : ready s →
    wp s (getApplication i) (queries (λ c o, o = s_apps c !! i) (view s));
  listApplications_spec s : ready s →
    wp s listApplications (queries (λ c l, enumerates l (s_apps c) (λ _, True)) (view s));
  deleteApplication_spec i s : ready s →
    wp s (deleteApplication i) (refines (spec_deleteApplication fk i) (view s));
  createNamespace_contract ns s : ready s →
    wp s (createNamespace ns) (refines (creates keyed (spec_createNamespace fk ns)) (view s));
  getNamespace_spec i s : ready s →
    wp s (getNamespace i) (queries (λ c o, o = s_nss c !! i) (view s));
  listNamespaces_spec app env cl s : ready s →
    wp s (listNamespaces app env cl) (queries (λ c l, enumerates l (s_nss c)
      (λ n, ns_app_id n = app ∧ ns_env n = env ∧ ns_cluster n = cl)) (view s));
  deleteNamespace_spec i s : ready s →
    wp s (deleteNamespace i) (refines (spec_deleteNamespace i) (view s));
  createConfig_contract ns key v op now s : ready s →
    wp s (createConfig ns key v op now) (refines (creates keyed (spec_createConfig ns key v op now)) (view s));
  updateConfig_spec ns key v op d now s : ready s →
    wp s (updateConfig ns key v op d now) (refines (spec_updateConfig ns key v op d now) (view s));
  deleteConfig_spec ns key op d now s : ready s →
    wp s (deleteConfig ns key op d now) (refines (spec_deleteConfig ns key op d now) (view s));
  getConfig_spec ns key i s : ready s →
    wp s (getConfig ns key i) (refines (spec_getConfig ns key i) (view s));
  listConfigs_spec ns i s : ready s →
    wp s (listConfigs ns i) (queries (λ c l, enumerates l (s_cfgs c)
      (λ r, ck_namespace_id r = ns ∧ visible i r)) (view s));
  getConfigVersions_spec ns key s : ready s →
    wp s (getConfigVersions ns key) (queries (λ c l,
      l ≡ₚ filter (λ r, cv_config_id r = makeConfigId ns key) (s_vers c) ∧
      StronglySorted version_desc l) (view s));
  getConfigVersion_spec ns key v s : ready s →
    wp s (getConfigVersion ns key v)
      (queries (λ c o, picks (filter (is_version ns key v) (s_vers c)) o) (view s));
  rollbackConfig_spec ns key v op now s : ready s →
    wp s (rollbackConfig ns key v op now) (λ o st',
      ∃ t, picks (filter (is_version ns key v) (s_vers (cur (view s)))) t ∧
        match t with
        | None => o = Ret false ∧ st' = view s
        | Some cv => refines (spec_updateConfig ns key (cv_value cv) op true now) (view s) o st'
        end);
  getChangeHistory_spec q s : ready s →
    wp s (getChangeHistory q) (paged (λ c, page_of log_desc (filter (log_matches q) (s_logs c))
      (clq_page q) (clq_page_size q)) (clq_page q) (clq_page_size q) (view s));
  createRelease_spec r now s : ready s →
    wp s (createRelease r now) (refines (spec_createRelease r) (view s));
  getReleases_spec q s : ready s →
    wp s (getReleases q) (paged (λ c p, ∃ l,
      enumerates l (s_rels c) (λ r, rel_namespace_id r = rq_namespace_id q) ∧
      page_of release_desc l (rq_page q) (rq_page_size q) p) (rq_page q) (rq_page_size q) (view s));
  getRelease_spec i s : ready s →
    wp s (getRelease i) (queries (λ c o, o = s_rels c !! i) (view s));
  retireRelease_spec i s : ready s →
    wp s (retireRelease i) (refines (spec_retireRelease i) (view s));
  publishRelease_spec ns note op out now s : ready s →
    wp s (publishRelease ns note op out now) (λ o st',
      match saved (view s) with
      | None => refines (spec_publishRelease ns note op now) (view s) o st'
      | Some _ => o = Throw ∧ st' = view s
      end);
  createApproval_spec a now s : ready s →
    wp s (createApproval a now) (refines (spec_createApproval a) (view s));
  updateApprovalStatus_spec i st c now s : ready s →
    wp s (updateApprovalStatus i st c now) (refines (spec_updateApprovalStatus i st c now) (view s));
  getPendingApprovals_spec ns s : ready s →
    wp s (getPendingApprovals ns) (queries (λ c l, enumerates l (s_apvs c)
      (λ a, apv_namespace_id a = ns ∧ apv_status a = "pending")) (view s));
  createUser_spec u s : ready s →
    wp s (createUser u) (refines (spec_createUser u) (view s));
  getUserByUsername_spec n s : ready s →
    wp s (getUserByUsername n) (queries (λ c o, o = s_users c !! n) (view s));
  listUsers_spec s : ready s →
    wp s listUsers (queries (λ c l, enumerates l (s_users c) (λ _, True)) (view s));
  beginTransaction_spec s : ready s → wp s beginTransaction (tx_begin (view s));
  commitTransaction_spec s : ready s → wp s commitTransaction (tx_commit (view s));
  rollbackTransaction_spec s : ready s → wp s rollbackTransaction (tx_rollback (view s));
}.

(** The contract of a store that can hold what its callers create. *)
Class ConfigStoreSpec (S : Type) `{!ConfigStore S} (O : Observed S Store) (fk : bool) : Prop :=
  spec_contract :: ConfigStoreContract S O fk true.

Section keyed.
Context {S : Type} `{!ConfigStore S} {O : Observed S Store} {fk : bool} `{Hspec : !ConfigStoreSpec S O fk}.

Lemma createApplication_spec app s : ready s →
  wp s (createApplication app) (refines (spec_createApplication app) (view s)).
Proof. apply (createApplication_contract (keyed := true)). Qed.
Lemma createNamespace_spec ns s : ready s →
  wp s (createNamespace ns) (refines (spec_createNamespace fk ns) (view s)).
Proof. apply (createNamespace_contract (keyed := true)). Qed.
Lemma createConfig_spec ns key v op now s : ready s →
  wp s (createConfig ns key v op now) (refines (spec_createConfig ns key v op now) (view s)).
Proof. apply (createConfig_contract (keyed := true)). Qed.
End keyed.
