(* ===== verification/SqliteConfigStore.v ===== *)
(** * The SQLite store

    [SqliteConfigStore] of [src/storage/sqlite_config_store.cpp], one
    definition per method, over the storage object [SqliteOrm].  Every method
    that takes the mutex is one atomic step of the store ([publishRelease]
    calls the transaction methods with the mutex held, and those do not take
    it); [rollbackConfig] is two such steps.  [sqlite_store_contract] shows that the
    store keeps the contract of the interface over every storage that obeys the
    laws. *)
From S2P Require Import Prelude Timestamp DataTypes SqliteOrm ConfigStore MemOrm.

Definition release_version_desc (a b : Release) : Prop :=
  rel_release_version b ≤ rel_release_version a.
#[export] Instance release_version_desc_dec : RelDecision release_version_desc.
Proof. intros a b. unfold release_version_desc. apply _. Defined.

#[export] Instance release_version_desc_total : Total release_version_desc.
Proof. intros a b. unfold release_version_desc. lia. Qed.
#[export] Instance release_version_desc_trans : Transitive release_version_desc.
Proof. intros a b c. unfold release_version_desc. lia. Qed.

Module Sqlite.
Section sqlite.
Context `{!SqliteOrm}.

(** [createStorage] makes the storage object of a file, with the tables of
    [database]; [sync_schema] creates the tables that are missing. *)
Definition initialize (createStorage : string → outcome conn) (sync_schema : M conn ())
    (connectionString : string) : outcome (bool * conn) :=
  storage ← createStorage connectionString;
  let '(o, storage) := sync_schema storage in
  _ ← o; mret (true, storage).

Definition healthCheck : M conn bool :=
  try_catch (_ ← orm_get_allocator; mret true) (mret false).

(** ** Applications *)
Definition createApplication (app : Application) : M conn bool :=
  try_catch (_ ← orm_insert app; mret true) (mret false).

Definition getApplication (appId : string) : M conn (option Application) :=
  results ← orm_get_all (λ a, app_app_id a = appId);
  mret (head results).

Definition listApplications : M conn (list Application) :=
  orm_get_all (λ _, True).

Definition deleteApplication (appId : string) : M conn bool :=
  _ ← orm_remove_all (λ a, app_app_id a = appId);
  mret true.

(** ** Namespaces *)
Definition createNamespace (ns : Namespace) : M conn bool :=
  try_catch (_ ← orm_insert ns; mret true) (mret false).

Definition getNamespace (nsId : string) : M conn (option Namespace) :=
  results ← orm_get_all (λ n, ns_id n = nsId);
  mret (head results).

Definition listNamespaces (appId env cluster : string) : M conn (list Namespace) :=
  orm_get_all (λ n, ns_app_id n = appId ∧ ns_env n = env ∧ ns_cluster n = cluster).

Definition deleteNamespace (nsId : string) : M conn bool :=
  _ ← orm_remove_all (λ n, ns_id n = nsId);
  mret true.

(** ** Configs *)
Definition createConfig (namespaceId key value operatorId : string) (now : Z) : M conn bool :=
  let ts := getTimestamp now in
  let config := mkConfigKey namespaceId key value 1 "draft" ts ts in
  ok ← try_catch (_ ← orm_insert config; mret true) (mret false);
  if ok : bool then
    _ ← orm_insert
      (mkConfigVersion 1 (makeConfigId namespaceId key) value "create" operatorId ts);
    _ ← orm_insert
      (mkChangeLog 0 (makeConfigId namespaceId key) namespaceId key 1 "" value "create"
        operatorId ts);
    mret true
  else mret false.

Definition updateConfig (namespaceId key value operatorId : string) (draft : bool) (now : Z)
    : M conn bool :=
  let ts := getTimestamp now in
  results ← orm_get_all (λ c, ck_namespace_id c = namespaceId ∧ ck_key c = key);
  match results with
  | [] => mret false
  | config :: _ =>
    let oldValue := ck_value config in
    newVersion ← int32 (ck_version config + 1);
    _ ← orm_update (edit_config config value newVersion draft ts);
    _ ← orm_insert
      (mkConfigVersion newVersion (makeConfigId namespaceId key) value "update" operatorId ts);
    _ ← orm_insert
      (mkChangeLog 0 (makeConfigId namespaceId key) namespaceId key newVersion oldValue value
        "update" operatorId ts);
    mret true
  end.

Definition deleteConfig (namespaceId key operatorId : string) (draft : bool) (now : Z)
    : M conn bool :=
  let ts := getTimestamp now in
  _ ← (if draft then
         orm_remove_all (λ c, ck_namespace_id c = namespaceId ∧ ck_key c = key
                              ∧ ck_status c = "draft")
       else orm_remove_all (λ c, ck_namespace_id c = namespaceId ∧ ck_key c = key));
  _ ← orm_insert
    (mkChangeLog 0 (makeConfigId namespaceId key) namespaceId key 0 "" "" "delete" operatorId ts);
  mret true.

Definition getConfig (namespaceId key : string) (includeDraft : bool)
    : M conn (option ConfigKey) :=
  results ← orm_get_all (λ c, ck_namespace_id c = namespaceId ∧ ck_key c = key);
  match results with
  | [] => mret None
  | config :: _ =>
    if negb includeDraft && bool_decide (ck_status config = "draft") then mret None
    else mret (Some config)
  end.

Definition listConfigs (namespaceId : string) (includeDraft : bool) : M conn (list ConfigKey) :=
  results ← orm_get_all (λ c, ck_namespace_id c = namespaceId);
  mret (if negb includeDraft then filter (λ c, ck_status c ≠ "draft") results else results).

(** ** Versions *)
Definition getConfigVersions (namespaceId key : string) : M conn (list ConfigVersion) :=
  orm_get_all_by (λ v, cv_config_id v = makeConfigId namespaceId key) version_desc None.

Definition getConfigVersion (namespaceId key : string) (version : Z)
    : M conn (option ConfigVersion) :=
  results ← orm_get_all (λ v, cv_config_id v = makeConfigId namespaceId key
                              ∧ cv_version v = version);
  mret (head results).

Definition rollbackConfig (namespaceId key : string) (targetVersion : Z) (operatorId : string)
    (now : Z) : M conn bool :=
  target ← getConfigVersion namespaceId key targetVersion;
  match target with
  | None => mret false
  | Some cv => updateConfig namespaceId key (cv_value cv) operatorId true now
  end.

Definition getChangeHistory (query : ChangeLogQuery) : M conn (list ChangeLog) :=
  p ← int32 (clq_page query - 1);
  offset ← int32 (p * clq_page_size query);
  orm_get_all_by (log_matches query) log_desc (Some (clq_page_size query, offset)).

(** ** Releases *)
Definition createRelease (release : Release) (now : Z) : M conn (bool * Release) :=
  try_catch (i ← orm_insert release; mret (true, set_rel_id i release)) (mret (false, release)).

Definition getReleases (query : ReleaseQuery) : M conn (list Release) :=
  p ← int32 (rq_page query - 1);
  offset ← int32 (p * rq_page_size query);
  orm_get_all_by (λ r, rel_namespace_id r = rq_namespace_id query) release_desc
    (Some (rq_page_size query, offset)).

Definition getRelease (releaseId : Z) : M conn (option Release) :=
  results ← orm_get_all (λ r, rel_id r = releaseId);
  mret (head results).

Definition retireRelease (releaseId : Z) : M conn bool :=
  _ ← orm_update_all (set_rel_status "retired") (λ r, rel_id r = releaseId);
  mret true.

Definition beginTransaction : M conn bool := _ ← orm_begin_transaction; mret true.
Definition commitTransaction : M conn bool := _ ← orm_commit; mret true.
Definition rollbackTransaction : M conn bool := _ ← orm_rollback; mret true.

(** The statements of the [try] block of [publishRelease], up to the one
    that sets [outRelease]. *)
Definition publishStatements (namespaceId releaseNote operatorId : string) (now : Z)
    : M conn Release :=
  _ ← orm_get_all (λ c, ck_namespace_id c = namespaceId ∧ ck_status c = "draft");
  _ ← orm_update_all (set_ck_status "live") (λ c, ck_namespace_id c = namespaceId);
  releases ← orm_get_all_by (λ r, rel_namespace_id r = namespaceId) release_version_desc
    (Some (1, 0));
  let maxVersion := match releases with [] => 0 | r :: _ => rel_release_version r end in
  version ← int32 (maxVersion + 1);
  let release := mkRelease 0 namespaceId version releaseNote "full" "active" None None
    operatorId (getTimestamp now) in
  i ← orm_insert release;
  mret (set_rel_id i release).

(** [outRelease] is set before the commit: the two halves of the [try] block
    share the handler and differ in what the caller then finds in
    [outRelease]. *)
Definition publishRelease (namespaceId releaseNote operatorId : string) (outRelease : Release)
    (now : Z) : M conn (bool * Release) :=
  _ ← beginTransaction;
  let failed (out : Release) := _ ← rollbackTransaction; mret (false, out) in
  done ← try_catch
    (release ← publishStatements namespaceId releaseNote operatorId now; mret (true, release))
    (failed outRelease);
  match done with
  | (true, release) => try_catch (_ ← commitTransaction; mret (true, release)) (failed release)
  | r => mret r
  end.

(** ** Approvals *)
Definition createApproval (approval : Approval) (now : Z) : M conn (bool * Approval) :=
  try_catch (i ← orm_insert approval; mret (true, set_apv_id i approval))
    (mret (false, approval)).

Definition updateApprovalStatus (approvalId : Z) (status comment : string) (now : Z)
    : M conn bool :=
  _ ← orm_update_all (decide_approval status comment (getTimestamp now))
    (λ a, apv_id a = approvalId);
  mret true.

Definition getPendingApprovals (namespaceId : string) : M conn (list Approval) :=
  orm_get_all (λ a, apv_namespace_id a = namespaceId ∧ apv_status a = "pending").

(** ** Users *)
Definition createUser (user : User) : M conn bool :=
  try_catch (_ ← orm_insert user; mret true) (mret false).

Definition getUserByUsername (username : string) : M conn (option User) :=
  results ← orm_get_all (λ u, usr_username u = username);
  mret (head results).

Definition listUsers : M conn (list User) :=
  orm_get_all (λ _, True).
End sqlite.
End Sqlite.

#[export] Instance sqlite_store `{!SqliteOrm} : ConfigStore conn := {|
  healthCheck := Sqlite.healthCheck;
  createApplication := Sqlite.createApplication;
  getApplication := Sqlite.getApplication;
  listApplications := Sqlite.listApplications;
  deleteApplication := Sqlite.deleteApplication;
  createNamespace := Sqlite.createNamespace;
  getNamespace := Sqlite.getNamespace;
  listNamespaces := Sqlite.listNamespaces;
  deleteNamespace := Sqlite.deleteNamespace;
  createConfig := Sqlite.createConfig;
  updateConfig := Sqlite.updateConfig;
  deleteConfig := Sqlite.deleteConfig;
  getConfig := Sqlite.getConfig;
  listConfigs := Sqlite.listConfigs;
  getConfigVersions := Sqlite.getConfigVersions;
  getConfigVersion := Sqlite.getConfigVersion;
  rollbackConfig := Sqlite.rollbackConfig;
  getChangeHistory := Sqlite.getChangeHistory;
  createRelease := Sqlite.createRelease;
  getReleases := Sqlite.getReleases;
  getRelease := Sqlite.getRelease;
  retireRelease := Sqlite.retireRelease;
  publishRelease := Sqlite.publishRelease;
  createApproval := Sqlite.createApproval;
  updateApprovalStatus := Sqlite.updateApprovalStatus;
  getPendingApprovals := Sqlite.getPendingApprovals;
  createUser := Sqlite.createUser;
  getUserByUsername := Sqlite.getUserByUsername;
  listUsers := Sqlite.listUsers;
  beginTransaction := Sqlite.beginTransaction;
  commitTransaction := Sqlite.commitTransaction;
  rollbackTransaction := Sqlite.rollbackTransaction;
|}.

(** ** The abstraction *)
Definition abs (d : database) : content :=
  mkContent (keyed app_app_id (applications d)) (keyed ns_id (namespaces d))
    (keyed ck_pk (configs d)) (config_versions d) (change_logs d)
    (keyed rel_id (releases d)) (keyed apv_id (approvals d)) (keyed usr_username (users d))
    (seq_change_logs d + 1) (seq_releases d + 1) (seq_approvals d + 1) (seq_users d + 1).

Arguments abs : simpl never.

Lemma s_apps_abs d : s_apps (abs d) = keyed app_app_id (applications d).
Proof. done. Qed.
Lemma s_nss_abs d : s_nss (abs d) = keyed ns_id (namespaces d).
Proof. done. Qed.
Lemma s_cfgs_abs d : s_cfgs (abs d) = keyed ck_pk (configs d).
Proof. done. Qed.
Lemma s_rels_abs d : s_rels (abs d) = keyed rel_id (releases d).
Proof. done. Qed.
Lemma s_users_abs d : s_users (abs d) = keyed usr_username (users d).
Proof. done. Qed.
Create Rewrite HintDb abs.
#[export] Hint Rewrite s_apps_abs s_nss_abs s_cfgs_abs s_rels_abs s_users_abs : abs.

Definition abs_view (v : database * option database) : Store := mkStore (abs v.1) (abs <$> v.2).
Arguments abs_view _ /.

Definition sqlite_observed `{!SqliteOrm} : Observed conn Store := {|
  view c := abs_view (db_of c, tx_of c);
  ready := healthy;
|}.

(** ** The statements seen through the abstraction *)
Section abs.
Context {fk : bool}.
Implicit Types d : database.

Lemma abs_insert_application d (r : Application) :
  app_app_id r ∉ app_app_id <$> applications d →
  abs (insert_row r d) = set_apps <[app_app_id r := r]> (abs d).
Proof. intros Hr. unfold abs, insert_row. cbn. by rewrite keyed_snoc. Qed.

Lemma abs_insert_namespace d (r : Namespace) :
  ns_id r ∉ ns_id <$> namespaces d →
  abs (insert_row r d) = set_nss <[ns_id r := r]> (abs d).
Proof. intros Hr. unfold abs, insert_row. cbn. by rewrite keyed_snoc. Qed.

Lemma abs_insert_config d (r : ConfigKey) :
  ck_pk r ∉ ck_pk <$> configs d →
  abs (insert_row r d) = set_cfgs <[ck_pk r := r]> (abs d).
Proof. intros Hr. unfold abs, insert_row. cbn. by rewrite keyed_snoc. Qed.

Lemma abs_insert_version d (r : ConfigVersion) : abs (insert_row r d) = add_ver r (abs d).
Proof. done. Qed.

Lemma abs_insert_log d ci ns k v old new op opr ts :
  abs (insert_row (mkChangeLog 0 ci ns k v old new op opr ts) d)
  = add_log (λ i, mkChangeLog i ci ns k v old new op opr ts) (abs d).
Proof. done. Qed.

Lemma keyed_fresh {R : Type} (key : R → Z) (l : list R) seq :
  Forall (λ x, key x ≤ seq) l → seq + 1 ∉ key <$> l.
Proof.
  rewrite Forall_forall, list_elem_of_fmap. intros Hl (x & Hx & Hin).
  specialize (Hl x Hin). lia.
Qed.

Lemma abs_insert_release d (r : Release) :
  valid fk d → abs (insert_row r d) = add_rel (set_rel_id (s_next_rel (abs d)) r) (abs d).
Proof.
  intros Hv. unfold abs, insert_row, add_rel. cbn. rewrite keyed_snoc; [done|].
  apply keyed_fresh. apply Hv.
Qed.

Lemma abs_insert_approval d (r : Approval) :
  valid fk d → abs (insert_row r d) = add_apv (set_apv_id (s_next_apv (abs d)) r) (abs d).
Proof.
  intros Hv. unfold abs, insert_row, add_apv. cbn. rewrite keyed_snoc; [done|].
  apply keyed_fresh. apply Hv.
Qed.

Lemma abs_insert_user d (r : User) :
  usr_username r ∉ usr_username <$> users d →
  abs (insert_row r d) = add_user (set_usr_id (s_next_user (abs d)) r) (abs d).
Proof. intros Hr. unfold abs, insert_row, add_user. cbn. by rewrite keyed_snoc. Qed.

Lemma abs_update_config d (k c : ConfigKey) :
  valid fk d → s_cfgs (abs d) !! ck_pk k = Some c →
  abs (update_rows (λ r, ck_pk r = ck_pk k) (λ _, k) d) = set_cfgs <[ck_pk k := k]> (abs d).
Proof.
  intros Hv Hc. unfold abs, update_rows, set_cfgs. cbn. f_equal.
  unfold update_where. rewrite keyed_fmap by (intros r; by case_decide).
  rewrite s_cfgs_abs in Hc. apply map_eq. intros i. rewrite lookup_fmap, lookup_insert.
  case_decide as Hi; [subst i; rewrite Hc; cbn; by rewrite decide_True by
    (by apply (keyed_lookup ck_pk) in Hc as [_ Hc]; [done|apply Hv])|].
  destruct (keyed ck_pk (configs d) !! i) as [r|] eqn:Hr; [|done]. cbn.
  apply (keyed_lookup ck_pk) in Hr as [_ <-]; [|apply Hv]. by rewrite decide_False.
Qed.

Lemma abs_update_status d ns :
  abs (update_rows (λ c, ck_namespace_id c = ns) (set_ck_status "live") d)
  = set_cfgs (fmap (go_live ns)) (abs d).
Proof.
  unfold abs, update_rows, set_cfgs. cbn. f_equal. unfold update_where.
  rewrite keyed_fmap; [done|]. intros r. by case_decide.
Qed.

Lemma keyed_alter {K R : Type} `{Countable K} (key : R → K) (f : R → R) i l :
  NoDup (key <$> l) → (∀ r, key (f r) = key r) →
  keyed key (update_where (λ r, key r = i) f l) = alter f i (keyed key l).
Proof.
  intros Hnd Hf. unfold update_where. rewrite keyed_fmap by (intros r; by case_decide).
  apply map_eq. intros j. rewrite lookup_fmap, lookup_alter.
  destruct (keyed key l !! j) as [r|] eqn:Hr.
  - pose proof Hr as [_ Hk]%keyed_lookup; [|done]. cbn.
    destruct (decide (i = j)) as [->|Hij]; [rewrite Hr|].
    + by rewrite decide_True.
    + by rewrite decide_False by congruence.
  - destruct (decide (i = j)) as [->|]; [by rewrite Hr|done].
Qed.

Lemma abs_retire d i :
  valid fk d →
  abs (update_rows (λ r, rel_id r = i) (set_rel_status "retired") d)
  = set_rels (alter (set_rel_status "retired") i) (abs d).
Proof.
  intros Hv. unfold abs, update_rows, set_rels. cbn. f_equal.
  apply keyed_alter; [apply Hv|done].
Qed.

Lemma abs_decide_approval d i st c ts :
  valid fk d →
  abs (update_rows (λ r, apv_id r = i) (decide_approval st c ts) d)
  = set_apvs (alter (decide_approval st c ts) i) (abs d).
Proof.
  intros Hv. unfold abs, update_rows, set_apvs. cbn. f_equal.
  apply keyed_alter; [apply Hv|done].
Qed.

Lemma keyed_remove {K R : Type} `{Countable K} (key : R → K) i l :
  NoDup (key <$> l) → keyed key (filter (λ r, ¬ key r = i) l) = delete i (keyed key l).
Proof.
  intros Hnd. rewrite keyed_filter by done. apply map_eq. intros j. apply option_eq. intros r.
  rewrite map_lookup_filter_Some, lookup_delete_Some, keyed_lookup by done. naive_solver.
Qed.

Lemma abs_remove_application d i :
  valid fk d →
  abs (remove_rows (λ r, app_app_id r = i) d) = set_apps (delete i) (abs d).
Proof.
  intros Hv. unfold abs, remove_rows, set_apps. cbn. f_equal.
  apply keyed_remove, Hv.
Qed.

Lemma abs_referenced i d :
  valid fk d → referenced i (abs d) ↔ ¬ Forall (λ n, ns_app_id n ≠ i) (namespaces d).
Proof.
  intros Hv. unfold referenced, map_Exists. autorewrite with abs.
  setoid_rewrite (keyed_lookup ns_id); [|apply Hv]. split.
  - intros (? & n & [Hn _] & Hi) HF. rewrite Forall_forall in HF. by apply (HF n).
  - intros (n & Hn & Hi)%not_Forall_Exists%Exists_exists; [|intros; solve_decision].
    exists (ns_id n), n. split; [done|]. by destruct (decide (ns_app_id n = i)).
Qed.

Lemma abs_remove_namespace d i :
  valid fk d → abs (remove_rows (λ r, ns_id r = i) d) = set_nss (delete i) (abs d).
Proof.
  intros Hv. unfold abs, remove_rows, set_nss. cbn. f_equal.
  apply keyed_remove, Hv.
Qed.
End abs.

(** ** Each method keeps its contract *)
Section specs.
Context `{!SqliteOrm, !SqliteOrmLaws _}.

Lemma wp_abs {A : Type} (c : conn) (m : M conn A) (Q : outcome A → Store → Prop) :
  wp c m (λ o v, Q o (abs_view v)) → @wp conn Store sqlite_observed A c m Q.
Proof. done. Qed.

Lemma sqlite_valid c : healthy c → valid fk_enabled (db_of c).
Proof. apply law_valid. Qed.

(** A query by key. *)
Lemma wp_lookup {K R : Type} `{Countable K, !Table R} (key : R → K) (sel : content → gmap K R)
    (i : K) (c : conn) :
  (∀ d, valid fk_enabled d → NoDup (key <$> rows d)) →
  (∀ d, sel (abs d) = keyed key (rows d)) →
  healthy c →
  @wp conn Store sqlite_observed _ c (results ← orm_get_all (λ r, key r = i); mret (head results))
    (queries (λ s o, o = sel s !! i) (@view _ _ sqlite_observed c)).
Proof.
  intros Hnd Hsel Hc. apply wp_abs.
  eapply wp_then_query; [apply law_get_all|done|done|done|]. intros l c' Hl Hc' Hd Ht.
  apply wp_ret; [done|]. cbn. rewrite Hd, Ht. split; [done|]. eexists. split; [done|].
  cbn. rewrite Hsel. eapply (keyed_head key (λ r, key r = i)); [done| |exact Hl].
  by apply Hnd, sqlite_valid.
Qed.

(** A query that returns rows of a keyed table. *)
Lemma wp_enumerate {K R : Type} `{Countable K, !Table R} (key : R → K) (sel : content → gmap K R)
    (P : R → Prop) `{∀ r, Decision (P r)} (c : conn) :
  (∀ d, valid fk_enabled d → NoDup (key <$> rows d)) →
  (∀ d, sel (abs d) = keyed key (rows d)) →
  healthy c →
  @wp conn Store sqlite_observed _ c (orm_get_all P)
    (queries (λ s l, enumerates l (sel s) P) (@view _ _ sqlite_observed c)).
Proof.
  intros Hnd Hsel Hc. apply wp_abs. eapply wp_query; [apply law_get_all|done|].
  intros l Hl. split; [done|]. eexists. split; [done|]. cbn. rewrite Hsel.
  eapply keyed_enumerates; [|exact Hl]. by apply Hnd, sqlite_valid.
Qed.

(** [try { insert; return true } catch (...) { return false }] *)
Lemma wp_try_insert {R : Type} `{!Table R} (r : R) (c : conn) (Q : outcome bool → _ → Prop) :
  healthy c → insertable R →
  (valid fk_enabled (insert_row r (db_of c)) → Q (Ret true) (insert_row r (db_of c), tx_of c)) →
  (¬ valid fk_enabled (insert_row r (db_of c)) → Q (Ret false) (view c)) →
  wp c (try_catch (_ ← orm_insert r; mret true) (mret false)) Q.
Proof.
  intros Hc HR Hok Hno. apply wp_try. eapply wp_then; [by apply law_insert|done|done|done| |].
  - intros Hv a c' _ Hc' Hd Ht. apply wp_ret; [done|]. cbn. rewrite Hd, Ht. auto.
  - intros Hv c' Hc' Hview. apply wp_ret; [done|]. rewrite Hview. auto.
Qed.

(** The same insertion of a row whose key the storage does not write. *)
Lemma wp_try_refused {R : Type} `{!Table R} (r : R) (c : conn) (Q : outcome bool → _ → Prop) :
  healthy c → own_key = true → writes_keys = false → Q (Ret false) (view c) →
  wp c (try_catch (_ ← orm_insert r; mret true) (mret false)) Q.
Proof.
  intros Hc Hown Hk HQ. apply wp_try, wp_bind.
  destruct (rf_ok _ (law_insert_refused r Hown Hk) c Hc) as (c' & E & Hc' & Hd & Ht).
  exists Throw, c'. split_and!; [done|done|]. intros c2 Hc2 Hview. apply wp_ret; [done|].
  rewrite Hview. cbn. by rewrite Hd, Ht.
Qed.

(** An insertion into a table with keys of its own, in either storage. *)
Lemma wp_try_create {R : Type} `{!Table R} (r : R) (c : conn) (Q : outcome bool → _ → Prop) :
  healthy c → own_key = true →
  (writes_keys = true → valid fk_enabled (insert_row r (db_of c)) →
    Q (Ret true) (insert_row r (db_of c), tx_of c)) →
  (writes_keys = false ∨ ¬ valid fk_enabled (insert_row r (db_of c)) → Q (Ret false) (view c)) →
  wp c (try_catch (_ ← orm_insert r; mret true) (mret false)) Q.
Proof.
  intros Hc Hown Hok Hno. destruct writes_keys eqn:Hk.
  - apply wp_try_insert; auto. by intros _.
  - apply wp_try_refused; auto.
Qed.

Lemma sqlite_createApplication app c : healthy c →
  @wp _ _ sqlite_observed _ c (Sqlite.createApplication app)
    (refines (creates writes_keys (spec_createApplication app)) (@view _ _ sqlite_observed c)).
Proof.
  intros Hc. apply wp_abs, wp_try_create; [done..| |]; unfold refines, spec_createApplication.
  - intros -> Hv. cbn. autorewrite with abs. rewrite valid_insert_application in Hv by (by apply sqlite_valid).
    rewrite (proj2 (keyed_None _ _ _)) by done. cbn. by rewrite abs_insert_application.
  - destruct writes_keys; cbn; [intros [[=]|Hv]|done]. autorewrite with abs.
    rewrite valid_insert_application, <- keyed_None in Hv by (by apply sqlite_valid).
    by destruct (keyed _ _ !! _).
Qed.

Lemma sqlite_createNamespace ns c : healthy c →
  @wp _ _ sqlite_observed _ c (Sqlite.createNamespace ns)
    (refines (creates writes_keys (spec_createNamespace fk_enabled ns)) (@view _ _ sqlite_observed c)).
Proof.
  intros Hc. apply wp_abs, wp_try_create; [done..| |]; unfold refines, spec_createNamespace.
  - intros -> Hv. cbn. autorewrite with abs.
    rewrite valid_insert_namespace, <- keyed_None, <- keyed_is_Some in Hv by (by apply sqlite_valid).
    rewrite decide_True by done. cbn. rewrite abs_insert_namespace; [done|].
    destruct Hv as [Hn _]. by apply keyed_None in Hn.
  - destruct writes_keys; cbn; [intros [[=]|Hv]|done]. autorewrite with abs.
    rewrite valid_insert_namespace, <- keyed_None, <- keyed_is_Some in Hv by (by apply sqlite_valid).
    by rewrite decide_False.
Qed.

Lemma sqlite_createUser u c : healthy c →
  @wp _ _ sqlite_observed _ c (Sqlite.createUser u)
    (refines (spec_createUser u) (@view _ _ sqlite_observed c)).
Proof.
  intros Hc. apply wp_abs, wp_try_insert; [done..| |]; unfold refines, spec_createUser;
    cbn; autorewrite with abs; intros Hv; rewrite valid_insert_user in Hv by (by apply sqlite_valid).
  - rewrite (proj2 (keyed_None _ _ _)) by done. cbn. by rewrite abs_insert_user.
  - rewrite <- keyed_None in Hv. by destruct (keyed _ _ !! _).
Qed.

Lemma sqlite_deleteApplication i c : healthy c →
  @wp _ _ sqlite_observed _ c (Sqlite.deleteApplication i)
    (refines (spec_deleteApplication fk_enabled i) (@view _ _ sqlite_observed c)).
Proof.
  intros Hc. pose proof (sqlite_valid c Hc) as Hv0. apply wp_abs.
  pose proof (abs_referenced i _ Hv0) as Href.
  eapply wp_then; [apply law_remove_all|done|done|done|..];
    unfold refines, spec_deleteApplication; cbn; rewrite (valid_remove_application _ i) by done.
  - intros Hv _ c' _ Hc' Hd Ht. apply wp_ret; [done|]. cbn. rewrite Hd, Ht.
    rewrite decide_False by naive_solver. by rewrite (abs_remove_application (fk := fk_enabled)).
  - intros Hv. rewrite decide_True; [done|]. rewrite Href.
    destruct fk_enabled; [split; [done|]; intros ?; by apply Hv|exfalso; by apply Hv].
Qed.

Lemma sqlite_deleteNamespace i c : healthy c →
  @wp _ _ sqlite_observed _ c (Sqlite.deleteNamespace i)
    (refines (spec_deleteNamespace i) (@view _ _ sqlite_observed c)).
Proof.
  intros Hc. pose proof (sqlite_valid c Hc) as Hv0. apply wp_abs.
  eapply wp_then; [apply law_remove_all|done|done|done|..].
  - intros Hv _ c' _ Hc' Hd Ht. apply wp_ret; [done|]. cbn. rewrite Hd, Ht.
    unfold refines. cbn. by rewrite (abs_remove_namespace (fk := fk_enabled)).
  - intros Hv. destruct Hv. by apply valid_remove_namespaces.
Qed.

Lemma sqlite_createConfig ns key v op now c : healthy c →
  @wp _ _ sqlite_observed _ c (Sqlite.createConfig ns key v op now)
    (refines (creates writes_keys (spec_createConfig ns key v op now)) (@view _ _ sqlite_observed c)).
Proof.
  intros Hc. pose proof (sqlite_valid c Hc) as Hv0.
  apply wp_abs, wp_bind, wp_try_create; [done..| |]; unfold refines, spec_createConfig.
  - intros -> Hv c1 Hc1 [= Hd1 Ht1]. cbn. autorewrite with abs. rewrite valid_insert_config in Hv by done.
    rewrite (proj2 (keyed_None ck_pk _ (ns, key))) by done.
    pose proof (sqlite_valid c1 Hc1) as Hv1. rewrite Hd1 in Hv1.
    eapply wp_then; [by apply law_insert|done|done|done|..];
      [|intros Hbad; destruct Hbad; by apply valid_insert_version].
    intros Hv2 ? c2 _ Hc2 Hd2 Ht2.
    eapply wp_then; [by apply law_insert|done|done|done|..];
      [|intros Hbad; destruct Hbad; by apply valid_insert_log].
    intros Hv3 ? c3 _ Hc3 Hd3 Ht3. apply wp_ret; [done|]. cbn. split; [done|].
    rewrite Hd3, Ht3, abs_insert_log, abs_insert_version. by rewrite abs_insert_config.
  - intros Hv c1 Hc1 [= Hd1 Ht1]. apply wp_ret; [done|]. cbn. rewrite Hd1, Ht1.
    destruct writes_keys; cbn; [destruct Hv as [[=]|Hv]|done]. autorewrite with abs.
    rewrite valid_insert_config, <- keyed_None in Hv by done. by destruct (keyed _ _ !! _).
Qed.

(** The query every method on one config starts with. *)
Lemma wp_find_config {B : Type} ns key (k : list ConfigKey → M conn B) c
    (Q : outcome B → _ → Prop) :
  healthy c →
  (∀ l c', healthy c' → db_of c' = db_of c → tx_of c' = tx_of c →
    head l = s_cfgs (abs (db_of c)) !! (ns, key) → wp c' (k l) Q) →
  wp c (orm_get_all (λ r, ck_namespace_id r = ns ∧ ck_key r = key) ≫= k) Q.
Proof.
  intros Hc HQ. eapply wp_then_query; [apply law_get_all|done|done|done|].
  intros l c' Hl Hc' Hd Ht. apply HQ; try done. autorewrite with abs.
  eapply (keyed_head ck_pk); [|apply (sqlite_valid c Hc)|exact Hl].
  intros r. unfold ck_pk. naive_solver.
Qed.

Lemma sqlite_updateConfig ns key v op dr now c : healthy c →
  @wp _ _ sqlite_observed _ c (Sqlite.updateConfig ns key v op dr now)
    (refines (spec_updateConfig ns key v op dr now) (@view _ _ sqlite_observed c)).
Proof.
  intros Hc. pose proof (sqlite_valid c Hc) as Hv0. apply wp_abs, wp_find_config; [done|].
  intros l c0 Hc0 Hd0 Ht0 Hl. unfold refines, spec_updateConfig. cbn. rewrite <- Hl.
  destruct l as [|config l]; cbn; [apply wp_ret; [done|]; cbn; by rewrite Hd0, Ht0|].
  apply wp_then_int32; [done| |intros Hz; by rewrite decide_False].
  intros Hz. rewrite decide_True by done. cbn in Hl. symmetry in Hl.
  assert (ck_pk config = (ns, key)) as Hpk.
  { autorewrite with abs in Hl. by apply (keyed_lookup ck_pk) in Hl as [_ ?]; [|apply Hv0]. }
  eapply wp_then; [apply law_update|done|done|done|..].
  2: { intros Hbad; destruct Hbad. apply valid_update_configs; [|done]. by intros r ->. }
  intros Hv1 ? c1 _ Hc1 Hd1 Ht1.
  eapply wp_then; [by apply law_insert|done|done|done|..];
    [|intros Hbad; destruct Hbad; by apply valid_insert_version].
  intros Hv2 ? c2 _ Hc2 Hd2 Ht2.
  eapply wp_then; [by apply law_insert|done|done|done|..];
    [|intros Hbad; destruct Hbad; by apply valid_insert_log].
  intros Hv3 ? c3 _ Hc3 Hd3 Ht3. apply wp_ret; [done|]. cbn. split; [done|].
  rewrite Hd3, Ht3, abs_insert_log, abs_insert_version.
  rewrite (abs_update_config (fk := fk_enabled) _ (edit_config config v _ dr _) config);
    [|done|]; change (ck_pk (edit_config _ _ _ _ _)) with (ck_pk config); by rewrite Hpk.
Qed.

(** The effect of the two [DELETE]s of [deleteConfig]. *)
Lemma abs_remove_config ns key (dr : bool) (P : ConfigKey → Prop) `{∀ r, Decision (P r)} d :
  (∀ r, P r ↔ ck_pk r = (ns, key) ∧ (dr = true → ck_status r = "draft")) →
  valid fk_enabled d →
  abs (remove_rows P d)
  = if match s_cfgs (abs d) !! (ns, key) with
       | Some c => negb dr || bool_decide (ck_status c = "draft")
       | None => false
       end
    then set_cfgs (delete (ns, key)) (abs d) else abs d.
Proof.
  intros HP Hv. assert (NoDup (ck_pk <$> configs d)) as Hnd by apply Hv.
  enough (keyed ck_pk (filter (λ r, ¬ P r) (configs d))
    = if match keyed ck_pk (configs d) !! (ns, key) with
         | Some c => negb dr || bool_decide (ck_status c = "draft")
         | None => false
         end
      then delete (ns, key) (keyed ck_pk (configs d)) else keyed ck_pk (configs d)) as E.
  { unfold remove_rows, abs. cbn. rewrite E. by case_match. }
  rewrite keyed_filter by done. apply map_eq. intros i. apply option_eq. intros r.
  rewrite map_lookup_filter_Some. cbn. setoid_rewrite HP.
  destruct (keyed ck_pk (configs d) !! (ns, key)) as [x|] eqn:Hx.
  - pose proof Hx as [_ Hpk]%keyed_lookup; [|done].
    destruct (negb dr || _) eqn:Hb.
    + rewrite lookup_delete_Some, (keyed_lookup ck_pk) by done.
      assert (dr = true → ck_status x = "draft").
      { intros ->. cbn in Hb. by apply bool_decide_eq_true in Hb. }
      split; [|naive_solver]. intros [[Hr <-] Hn]. split; [|done]. intros E.
      assert (r = x) as ->; [|naive_solver].
      assert (keyed ck_pk (configs d) !! ck_pk r = Some r) by (by apply keyed_lookup).
      rewrite <- E in *. congruence.
    + split; [naive_solver|]. intros Hr. split; [done|]. intros [E Hdr].
      apply orb_false_iff in Hb as [Hneg Hst]. apply bool_decide_eq_false in Hst.
      pose proof Hr as [_ <-]%keyed_lookup; [|done]. rewrite E in Hr. simplify_eq.
      destruct dr; [auto|done].
  - split; [naive_solver|]. intros Hr. split; [done|]. intros [E _].
    pose proof Hr as [_ <-]%keyed_lookup; [|done]. congruence.
Qed.

Lemma sqlite_deleteConfig ns key op dr now c : healthy c →
  @wp _ _ sqlite_observed _ c (Sqlite.deleteConfig ns key op dr now)
    (refines (spec_deleteConfig ns key op dr now) (@view _ _ sqlite_observed c)).
Proof.
  intros Hc. pose proof (sqlite_valid c Hc) as Hv0. apply wp_abs. unfold Sqlite.deleteConfig.
  unfold refines, spec_deleteConfig. cbn.
  destruct dr; (eapply wp_then; [apply law_remove_all|done|done|done|..];
    [|intros Hbad; destruct Hbad; by apply valid_remove_configs]);
    intros Hv1 ? c1 _ Hc1 Hd1 Ht1;
    (eapply wp_then; [by apply law_insert|done|done|done|..];
      [|intros Hbad; destruct Hbad; by apply valid_insert_log]);
    intros Hv2 ? c2 _ Hc2 Hd2 Ht2; (apply wp_ret; [done|]); cbn; (split; [done|]);
    rewrite Hd2, Ht2, abs_insert_log.
  - rewrite (abs_remove_config ns key true); [done| |done].
    intros r. unfold ck_pk. naive_solver.
  - rewrite (abs_remove_config ns key false); [done| |done].
    intros r. unfold ck_pk. naive_solver.
Qed.

Lemma sqlite_getConfig ns key i c : healthy c →
  @wp _ _ sqlite_observed _ c (Sqlite.getConfig ns key i)
    (refines (spec_getConfig ns key i) (@view _ _ sqlite_observed c)).
Proof.
  intros Hc. apply wp_abs, wp_find_config; [done|]. intros l c0 Hc0 Hd0 Ht0 Hl.
  unfold refines, spec_getConfig. cbn. rewrite <- Hl. destruct l as [|config l]; cbn.
  { apply wp_ret; [done|]. cbn. by rewrite Hd0, Ht0. }
  assert (negb i && bool_decide (ck_status config = "draft")
    = negb (bool_decide (visible i config))) as ->.
  { unfold visible. destruct i; cbn; repeat case_bool_decide; naive_solver. }
  destruct (decide (visible i config)).
  - rewrite bool_decide_true by done. cbn. apply wp_ret; [done|]. cbn. by rewrite Hd0, Ht0.
  - rewrite bool_decide_false by done. cbn. apply wp_ret; [done|]. cbn. by rewrite Hd0, Ht0.
Qed.

Lemma sqlite_listConfigs ns i c : healthy c →
  @wp _ _ sqlite_observed _ c (Sqlite.listConfigs ns i)
    (queries (λ s l, enumerates l (s_cfgs s) (λ r, ck_namespace_id r = ns ∧ visible i r))
      (@view _ _ sqlite_observed c)).
Proof.
  intros Hc. apply wp_abs. eapply wp_then_query; [apply law_get_all|done|done|done|].
  intros l c' Hl Hc' Hd Ht. apply wp_ret; [done|]. cbn. rewrite Hd, Ht. split; [done|].
  eexists. split; [done|]. cbn. autorewrite with abs.
  eapply keyed_enumerates in Hl as [Hnd Hin]; [|apply (sqlite_valid c Hc)].
  destruct i; cbn; split; [done| |by apply NoDup_filter|].
  - intros r. rewrite Hin. unfold visible. naive_solver.
  - intros r. rewrite list_elem_of_filter, Hin. unfold visible. naive_solver.
Qed.

Lemma sqlite_getConfigVersions ns key c : healthy c →
  @wp _ _ sqlite_observed _ c (Sqlite.getConfigVersions ns key)
    (queries (λ s l, l ≡ₚ filter (λ r, cv_config_id r = makeConfigId ns key) (s_vers s) ∧
      StronglySorted version_desc l) (@view _ _ sqlite_observed c)).
Proof.
  intros Hc. apply wp_abs. eapply wp_query; [apply law_get_all_by; apply _|done|].
  intros l (l0 & Hp & Hs & ->). split; [done|]. by exists l0.
Qed.

Lemma sqlite_getConfigVersion ns key v c : healthy c →
  @wp _ _ sqlite_observed _ c (Sqlite.getConfigVersion ns key v)
    (queries (λ s o, picks (filter (is_version ns key v) (s_vers s)) o)
      (@view _ _ sqlite_observed c)).
Proof.
  intros Hc. apply wp_abs. eapply wp_then_query; [apply law_get_all|done|done|done|].
  intros l c' Hl Hc' Hd Ht. apply wp_ret; [done|]. cbn. rewrite Hd, Ht. split; [done|].
  exists (head l). split; [done|]. by apply head_picks.
Qed.

Lemma sqlite_rollbackConfig ns key v op now c : healthy c →
  @wp _ _ sqlite_observed _ c (Sqlite.rollbackConfig ns key v op now) (λ o st',
    ∃ t, picks (filter (is_version ns key v) (s_vers (cur (@view _ _ sqlite_observed c)))) t ∧
      match t with
      | None => o = Ret false ∧ st' = @view _ _ sqlite_observed c
      | Some cv => refines (spec_updateConfig ns key (cv_value cv) op true now)
          (@view _ _ sqlite_observed c) o st'
      end).
Proof.
  intros Hc. unfold Sqlite.rollbackConfig. apply wp_bind.
  eapply wp_mono; [by apply sqlite_getConfigVersion|].
  intros ? ? [-> (t & -> & Ht)] c' Hc' Hview. destruct t as [cv|].
  - eapply wp_mono; [by apply sqlite_updateConfig|]. rewrite Hview.
    intros o st' ?. by exists (Some cv).
  - apply wp_ret; [done|]. rewrite Hview. by exists None.
Qed.

(** The two [int] operations before a paged query. *)
Lemma wp_offset {B : Type} page size (k : Z → M conn B) c (Q : outcome B → _ → Prop) :
  healthy c →
  (page_in_range page size → wp c (k ((page - 1) * size)) Q) →
  (¬ page_in_range page size → Q Undef (view c)) →
  wp c (p ← int32 (page - 1); offset ← int32 (p * size); k offset) Q.
Proof.
  intros Hc Hin Hout. unfold page_in_range in *.
  apply wp_then_int32; [done| |naive_solver]. intros H1.
  apply wp_then_int32; [done|naive_solver..].
Qed.

Lemma sqlite_getChangeHistory q c : healthy c →
  @wp _ _ sqlite_observed _ c (Sqlite.getChangeHistory q)
    (paged (λ s, page_of log_desc (filter (log_matches q) (s_logs s))
      (clq_page q) (clq_page_size q)) (clq_page q) (clq_page_size q)
      (@view _ _ sqlite_observed c)).
Proof.
  intros Hc. apply wp_abs, wp_offset; [done| |]; intros Hr.
  - eapply wp_query; [apply law_get_all_by; apply _|done|]. intros l Hl.
    unfold paged. rewrite decide_True by done. split; [done|]. by exists l.
  - unfold paged. by rewrite decide_False.
Qed.

Lemma sqlite_getReleases q c : healthy c →
  @wp _ _ sqlite_observed _ c (Sqlite.getReleases q)
    (paged (λ s p, ∃ l, enumerates l (s_rels s) (λ r, rel_namespace_id r = rq_namespace_id q) ∧
      page_of release_desc l (rq_page q) (rq_page_size q) p) (rq_page q) (rq_page_size q)
      (@view _ _ sqlite_observed c)).
Proof.
  intros Hc. apply wp_abs, wp_offset; [done| |]; intros Hr.
  - eapply wp_query; [apply law_get_all_by; apply _|done|]. intros l Hl.
    unfold paged. rewrite decide_True by done. split; [done|]. exists l.
    split; [done|]. cbn. autorewrite with abs. eexists. split; [|exact Hl].
    eapply keyed_enumerates; [apply (sqlite_valid c Hc)|done].
  - unfold paged. by rewrite decide_False.
Qed.

Lemma sqlite_createRelease r now c : healthy c →
  @wp _ _ sqlite_observed _ c (Sqlite.createRelease r now)
    (refines (spec_createRelease r) (@view _ _ sqlite_observed c)).
Proof.
  intros Hc. pose proof (sqlite_valid c Hc) as Hv0. apply wp_abs, wp_try.
  eapply wp_then; [by apply law_insert|done|done|done|..];
    [|intros Hbad; destruct Hbad; by apply valid_insert_release].
  intros Hv i c' Hi Hc' Hd Ht. apply wp_ret; [done|]. unfold refines, spec_createRelease. cbn.
  rewrite Hd, Ht, (abs_insert_release (fk := fk_enabled)) by done. by rewrite (Hi _ eq_refl).
Qed.

Lemma sqlite_retireRelease i c : healthy c →
  @wp _ _ sqlite_observed _ c (Sqlite.retireRelease i)
    (refines (spec_retireRelease i) (@view _ _ sqlite_observed c)).
Proof.
  intros Hc. pose proof (sqlite_valid c Hc) as Hv0. apply wp_abs.
  eapply wp_then; [apply law_update_all|done|done|done|..];
    [|intros Hbad; destruct Hbad; by apply valid_update_releases].
  intros Hv _ c' _ Hc' Hd Ht. apply wp_ret; [done|]. unfold refines. cbn.
  by rewrite Hd, Ht, (abs_retire (fk := fk_enabled)).
Qed.

Lemma sqlite_createApproval a now c : healthy c →
  @wp _ _ sqlite_observed _ c (Sqlite.createApproval a now)
    (refines (spec_createApproval a) (@view _ _ sqlite_observed c)).
Proof.
  intros Hc. pose proof (sqlite_valid c Hc) as Hv0. apply wp_abs, wp_try.
  eapply wp_then; [by apply law_insert|done|done|done|..];
    [|intros Hbad; destruct Hbad; by apply valid_insert_approval].
  intros Hv i c' Hi Hc' Hd Ht. apply wp_ret; [done|]. unfold refines, spec_createApproval. cbn.
  rewrite Hd, Ht, (abs_insert_approval (fk := fk_enabled)) by done. by rewrite (Hi _ eq_refl).
Qed.

Lemma sqlite_updateApprovalStatus i st cm now c : healthy c →
  @wp _ _ sqlite_observed _ c (Sqlite.updateApprovalStatus i st cm now)
    (refines (spec_updateApprovalStatus i st cm now) (@view _ _ sqlite_observed c)).
Proof.
  intros Hc. pose proof (sqlite_valid c Hc) as Hv0. apply wp_abs.
  eapply wp_then; [apply law_update_all|done|done|done|..];
    [|intros Hbad; destruct Hbad; by apply valid_update_approvals].
  intros Hv _ c' _ Hc' Hd Ht. apply wp_ret; [done|]. unfold refines. cbn.
  by rewrite Hd, Ht, (abs_decide_approval (fk := fk_enabled)).
Qed.

(** [ORDER BY release_version DESC LIMIT 1] is the largest version. *)
Lemma releases_head_max ns (d : database) (l l0 : list Release) :
  valid fk_enabled d →
  l0 ≡ₚ filter (λ r, rel_namespace_id r = ns) (releases d) →
  StronglySorted release_version_desc l0 → l = sql_slice (Some (1, 0)) l0 →
  match l with [] => 0 | r :: _ => rel_release_version r end
  = max_version (versions_of ns (abs d)).
Proof.
  intros Hv Hp Hs ->. rewrite <- (max_version_perm (rel_release_version <$> l0)).
  2: { unfold versions_of. autorewrite with abs. rewrite Hp.
    by rewrite keyed_to_list by apply Hv. }
  clear Hp. destruct l0 as [|r l0]; [done|].
  apply StronglySorted_inv in Hs as [_ Hs]. rewrite Forall_forall in Hs.
  symmetry. apply max_version_eq; [by left|]. intros v Hin.
  apply elem_of_cons in Hin as [->|(x & -> & Hx)%list_elem_of_fmap]; [done|].
  by apply Hs.
Qed.

Lemma wp_publishStatements ns note op now c (Q : outcome Release → _ → Prop) :
  healthy c →
  match spec_publishRelease ns note op now (abs (db_of c)) with
  | (Ret (_, r), s) => ∀ d, valid fk_enabled d → abs d = s → Q (Ret r) (d, tx_of c)
  | _ => ∀ v, Q Undef v
  end →
  wp c (Sqlite.publishStatements ns note op now) Q.
Proof.
  intros Hc. pose proof (sqlite_valid c Hc) as Hv0. unfold spec_publishRelease. intros HQ.
  eapply wp_then_query; [apply law_get_all|done|done|done|]. intros _ c3 _ Hc3 Hd3 Ht3.
  eapply wp_then; [apply law_update_all|done|done|done|..];
    [|intros Hbad; destruct Hbad; by apply valid_update_configs].
  intros Hv4 _ c4 _ Hc4 Hd4 Ht4.
  eapply wp_then_query; [apply law_get_all_by; apply _|done|done|done|].
  intros l c5 (l0 & Hp & Hs & ->) Hc5 Hd5 Ht5.
  rewrite (releases_head_max ns (db_of c) _ l0) by done.
  apply wp_then_int32; [done| |intros Hz; by rewrite decide_False in HQ].
  intros Hz. rewrite decide_True in HQ by done.
  eapply wp_then; [by apply law_insert|done|done|done|..];
    [|intros Hbad; destruct Hbad; by apply valid_insert_release].
  intros Hv6 i c6 Hi Hc6 Hd6 Ht6. apply wp_ret; [done|]. cbn. rewrite Hd6, Ht6.
  rewrite (Hi _ eq_refl). apply HQ; [done|].
  by rewrite (abs_insert_release (fk := fk_enabled)), abs_update_status.
Qed.

Lemma sqlite_publishRelease ns note op out now c : healthy c →
  @wp _ _ sqlite_observed _ c (Sqlite.publishRelease ns note op out now) (λ o st',
    match saved (@view _ _ sqlite_observed c) with
    | None => refines (spec_publishRelease ns note op now) (@view _ _ sqlite_observed c) o st'
    | Some _ => o = Throw ∧ st' = @view _ _ sqlite_observed c
    end).
Proof.
  intros Hc. apply wp_abs, wp_bind, wp_bind. eapply wp_control; [apply law_begin|done|]. cbn.
  destruct (tx_of c) as [s|]; cbn; [done|].
  intros c1 Hc1 [= Hd1 Ht1]. apply wp_ret; [done|]. intros c2 Hc2 [= Hd2 Ht2].
  apply wp_bind, wp_try, wp_bind, wp_publishStatements; [done|].
  unfold refines. cbn. rewrite Hd2, Hd1.
  unfold spec_publishRelease. case_decide; [|done].
  intros d Hd Habs c7 Hc7 [= Hd7 Ht7]. apply wp_ret; [done|]. intros c8 Hc8 [= Hd8 Ht8].
  apply wp_try, wp_bind, wp_bind. eapply wp_control; [apply law_commit|done|].
  rewrite Ht8, Ht7, Ht2, Ht1. cbn.
  intros c9 Hc9 [= Hd9 Ht9]. apply wp_ret; [done|]. intros c10 Hc10 [= Hd10 Ht10].
  apply wp_ret; [done|]. cbn. rewrite Hd10, Ht10, Hd9, Ht9, Hd8, Hd7. by rewrite Habs.
Qed.

Lemma sqlite_transaction (m : M conn ()) eff c : control m eff → healthy c →
  @wp _ _ sqlite_observed _ c (_ ← m; mret true) (λ o st',
    match eff (db_of c) (tx_of c) with
    | Some v => o = Ret true ∧ st' = abs_view v
    | None => o = Throw ∧ st' = @view _ _ sqlite_observed c
    end).
Proof.
  intros Hm Hc. apply wp_abs, wp_bind. eapply wp_control; [done..|].
  destruct (eff (db_of c) (tx_of c)) as [[d tx]|]; [|done].
  intros c' Hc' [= ? ?]. apply wp_ret; [done|]. cbn. split; [done|]. congruence.
Qed.

Lemma sqlite_tx_begin c : healthy c →
  @wp _ _ sqlite_observed _ c Sqlite.beginTransaction (tx_begin (@view _ _ sqlite_observed c)).
Proof.
  intros Hc. eapply wp_mono; [apply (sqlite_transaction _ _ c law_begin Hc)|]. unfold tx_begin.
  cbn. by destruct (tx_of c).
Qed.

Lemma sqlite_tx_commit c : healthy c →
  @wp _ _ sqlite_observed _ c Sqlite.commitTransaction (tx_commit (@view _ _ sqlite_observed c)).
Proof.
  intros Hc. eapply wp_mono; [apply (sqlite_transaction _ _ c law_commit Hc)|]. unfold tx_commit.
  cbn. by destruct (tx_of c).
Qed.

Lemma sqlite_tx_rollback c : healthy c →
  @wp _ _ sqlite_observed _ c Sqlite.rollbackTransaction
    (tx_rollback (@view _ _ sqlite_observed c)).
Proof.
  intros Hc. eapply wp_mono; [apply (sqlite_transaction _ _ c law_rollback Hc)|]. unfold tx_rollback.
  cbn. by destruct (tx_of c).
Qed.

#[export] Instance sqlite_store_contract :
  @ConfigStoreContract conn sqlite_store sqlite_observed fk_enabled writes_keys.
Proof.
  split; cbn; intros; eauto using sqlite_createApplication, sqlite_deleteApplication,
    sqlite_createNamespace, sqlite_deleteNamespace, sqlite_createConfig, sqlite_updateConfig,
    sqlite_deleteConfig, sqlite_getConfig, sqlite_listConfigs, sqlite_getConfigVersions,
    sqlite_getConfigVersion, sqlite_rollbackConfig, sqlite_getChangeHistory,
    sqlite_createRelease, sqlite_getReleases, sqlite_retireRelease, sqlite_publishRelease,
    sqlite_createApproval, sqlite_updateApprovalStatus, sqlite_createUser, sqlite_tx_begin,
    sqlite_tx_commit, sqlite_tx_rollback.
  - apply (wp_lookup app_app_id s_apps); [intros d Hd; apply Hd|done..].
  - apply (wp_enumerate app_app_id s_apps); [intros d Hd; apply Hd|done..].
  - apply (wp_lookup ns_id s_nss); [intros d Hd; apply Hd|done..].
  - apply (wp_enumerate ns_id s_nss); [intros d Hd; apply Hd|done..].
  - apply (wp_lookup rel_id s_rels); [intros d Hd; apply Hd|done..].
  - apply (wp_enumerate apv_id s_apvs); [intros d Hd; apply Hd|done..].
  - apply (wp_lookup usr_username s_users); [intros d Hd; apply Hd|done..].
  - apply (wp_enumerate usr_username s_users); [intros d Hd; apply Hd|done..].
Qed.
End specs.

(** ** The store over the in-memory storage

    A concrete store that keeps the contract, with foreign keys enforced, over the
    storage whose [insert] writes the key columns. *)
Definition mem_store : ConfigStore mem := @sqlite_store (mem_orm true).
Definition mem_observed : Observed mem Store := @sqlite_observed (mem_orm true).
Lemma mem_store_spec : @ConfigStoreSpec mem mem_store mem_observed true.
Proof. exact (@sqlite_store_contract (mem_orm true) (mem_orm_laws true)). Qed.
