(* ===== verification/SqliteAtomic.v ===== *)
(** * The SQLite store when statements fail

    The contract of [SqliteConfigStore.v] is about a healthy connection.  Here
    nothing is assumed of the connection but the laws of a statement: each one
    may fail (an I/O error, a locked file), and a failing statement may roll
    the open transaction back.  [durable] is what a new connection would find:
    the content at [BEGIN] while a transaction is open. *)
From S2P Require Import Prelude Timestamp DataTypes SqliteOrm MemOrm ConfigStore SqliteConfigStore.

Definition durable `{!SqliteOrm} (c : conn) : database := default (db_of c) (tx_of c).

(** ** Every run of a computation *)
Section all_runs.
Context {S : Type}.

(** [run m s Q]: [Q] holds of the outcome of [m] from [s] and of the state it leaves. *)
Definition run {A : Type} (m : M S A) (s : S) (Q : outcome A → S → Prop) : Prop :=
  Q (m s).1 (m s).2.

Lemma run_mono {A : Type} (m : M S A) s (Q Q' : outcome A → S → Prop) :
  run m s Q → (∀ o s', Q o s' → Q' o s') → run m s Q'.
Proof. unfold run. auto. Qed.

Lemma run_bind {A B : Type} (m : M S A) (k : A → M S B) s (Q : outcome B → S → Prop) :
  run m s (λ o s',
    match o with Ret a => run (k a) s' Q | Throw => Q Throw s' | Undef => Q Undef s' end) →
  run (m ≫= k) s Q.
Proof. unfold run, mbind, M_bind. by destruct (m s) as [[a| |] s']. Qed.

Lemma run_try {A : Type} (m h : M S A) s (Q : outcome A → S → Prop) :
  run m s (λ o s', match o with Throw => run h s' Q | _ => Q o s' end) →
  run (try_catch m h) s Q.
Proof. unfold run, try_catch. by destruct (m s) as [[a| |] s']. Qed.

Lemma run_int32 {B : Type} z (k : Z → M S B) s (Q : outcome B → S → Prop) :
  (in_int32 z → run (k z) s Q) → (¬ in_int32 z → Q Undef s) → run (int32 z ≫= k) s Q.
Proof. intros Hin Hout. unfold int32. case_decide; [by apply Hin|by apply Hout]. Qed.
End all_runs.

Section faults.
Context `{!SqliteOrm, !SqliteOrmLaws _}.
Implicit Types c : conn.

Lemma run_statement {A B : Type} (m : M conn A) (k : A → M conn B) eff res c
    (Q : outcome B → conn → Prop) :
  statement m eff res →
  (∀ a c', db_of c' = eff (db_of c) → tx_of c' = tx_of c → res (db_of c) a →
    (valid fk_enabled (db_of c) → valid fk_enabled (eff (db_of c))) → run (k a) c' Q) →
  (∀ c', aborted c c' → Q Throw c') →
  run (m ≫= k) c Q.
Proof.
  intros [Hs _ _ Hval] Hk Hab. apply run_bind. unfold run. specialize (Hs c).
  destruct (m c) as [[a| |] c'] eqn:E; [|by apply Hab|done]. destruct Hs as (? & ? & ?).
  apply Hk; eauto.
Qed.

Lemma run_control {B : Type} (m : M conn ()) (k : () → M conn B) eff c
    (Q : outcome B → conn → Prop) :
  control m eff →
  (∀ c', eff (db_of c) (tx_of c) = Some (db_of c', tx_of c') → run (k ()) c' Q) →
  (∀ c', aborted c c' → Q Throw c') →
  run (m ≫= k) c Q.
Proof.
  intros [Hs _ _] Hk Hab. apply run_bind. unfold run. specialize (Hs c).
  destruct (m c) as [[[]| |] c']; [|by apply Hab|done]. by apply Hk.
Qed.

Lemma aborted_durable c c' : aborted c c' → durable c' = durable c.
Proof. unfold durable, aborted. intros [[-> ->]|(s & -> & -> & ->)]; done. Qed.

(** [rollbackTransaction] in a handler, after anything that kept [durable]. *)
Lemma run_rollback {A : Type} (a : A) c d (Q : outcome A → conn → Prop) :
  durable c = d →
  (∀ c', db_of c' = d → tx_of c' = None → Q (Ret a) c') →
  (∀ c', durable c' = d → Q Throw c') →
  run (_ ← Sqlite.rollbackTransaction; mret a) c Q.
Proof.
  intros Hd HR HT. apply run_bind. eapply run_control; [apply law_rollback|..].
  - intros c' E. unfold eff_rollback in E. unfold durable in Hd.
    destruct (tx_of c); simplify_eq. by apply HR.
  - intros c' ?%aborted_durable. apply HT. congruence.
Qed.

(** What the outcomes of [publishRelease] leave of the content [d] it found. *)
Definition all_or_nothing (ns note op : string) (now : Z) (d : database)
    (o : outcome (bool * Release)) (c' : conn) : Prop :=
  match o with
  | Ret (true, r) =>
    spec_publishRelease ns note op now (abs d) = (Ret (true, r), abs (db_of c')) ∧
    tx_of c' = None
  | Ret (false, _) => db_of c' = d ∧ tx_of c' = None
  | Throw | Undef => durable c' = d
  end.

(** A statement inside the transaction that began at [d]. *)
Lemma run_tx_statement {A B : Type} (m : M conn A) (k : A → M conn B) eff res c d
    (Q : outcome B → conn → Prop) :
  statement m eff res → tx_of c = Some d →
  (∀ a c', db_of c' = eff (db_of c) → tx_of c' = Some d → res (db_of c) a → run (k a) c' Q) →
  (∀ c', durable c' = d → Q Throw c') →
  run (m ≫= k) c Q.
Proof.
  intros Hst Htx Hk HT. eapply run_statement; [done| |].
  - intros a c' Hd Ht Ha _. apply Hk; [done| |done]. by rewrite Ht.
  - intros c' Hx%aborted_durable. apply HT. rewrite Hx. unfold durable. by rewrite Htx.
Qed.

Lemma publishStatements_faults ns note op now c d (Q : outcome Release → conn → Prop) :
  valid fk_enabled d → db_of c = d → tx_of c = Some d →
  (∀ r c', tx_of c' = Some d →
    spec_publishRelease ns note op now (abs d) = (Ret (true, r), abs (db_of c')) → Q (Ret r) c') →
  (∀ c', durable c' = d → Q Throw c') → (∀ c', durable c' = d → Q Undef c') →
  run (Sqlite.publishStatements ns note op now) c Q.
Proof.
  intros Hv Hd Htx HR HT HU.
  eapply run_tx_statement; [apply law_get_all|done| |done]. intros _ c2 Hd2 Ht2 _.
  eapply run_tx_statement; [apply law_update_all|done| |done]. intros _ c3 Hd3 Ht3 _.
  eapply run_tx_statement; [apply law_get_all_by; apply _|done| |done].
  intros l c4 Hd4 Ht4 (l0 & Hp & Hs & Hl). unfold id in Hd2, Hd4. rewrite Hd2, Hd in Hd3.
  rewrite Hd3 in Hd4, Hp. rewrite (releases_head_max ns d l l0) by done.
  apply run_int32; intros Hz; [|apply HU; unfold durable; by rewrite Ht4].
  eapply run_tx_statement; [by apply law_insert|done| |done]. intros i c5 Hd5 Ht5 Hi.
  unfold run. cbn. apply HR; [done|]. rewrite Hd5, Hd4. rewrite Hd4 in Hi.
  rewrite (abs_insert_release (fk := fk_enabled)), abs_update_status
    by by apply valid_update_configs.
  unfold spec_publishRelease. rewrite decide_True by done.
  by rewrite (Hi _ eq_refl).
Qed.

Lemma publish_faults ns note op out now c :
  valid fk_enabled (db_of c) → tx_of c = None →
  run (Sqlite.publishRelease ns note op out now) c (all_or_nothing ns note op now (db_of c)).
Proof.
  intros Hv Htx. remember (db_of c) as d eqn:Ed.
  apply run_bind. eapply run_control; [apply law_begin| |].
  2: { intros c' Hx%aborted_durable. cbn. rewrite Hx. unfold durable. by rewrite Htx. }
  rewrite Htx, <- Ed. intros c1 [= Hd1 Ht1]. unfold run at 1. cbn. apply run_bind, run_try, run_bind.
  eapply publishStatements_faults; [done..| | |done].
  - intros r c2 Ht2 Hspec. unfold run at 1. cbn. apply run_try, run_bind.
    eapply run_control; [apply law_commit| |].
    + intros c3. rewrite Ht2. intros [= Hd3 Ht3]. cbn. by rewrite <- Hd3.
    + intros c3 Hx%aborted_durable. eapply run_rollback; [|done..].
      rewrite Hx. unfold durable. by rewrite Ht2.
  - intros c2 Hd2. by eapply run_rollback.
Qed.

(** *** [createConfig], which runs its statements outside a transaction *)
Definition createConfig_left (ns key value op : string) (now : Z) (d : database)
    (o : outcome bool) (d' : database) : Prop :=
  let ts := getTimestamp now in
  let with_config := insert_row (new_config ns key value ts) d in
  match o with
  | Ret true => spec_createConfig ns key value op now (abs d) = (Ret true, abs d')
  | Ret false => d' = d
  | Throw =>
    (ns, key) ∉ ck_pk <$> configs d ∧
    (d' = with_config ∨ d' = insert_row (create_version ns key value op ts) with_config)
  | Undef => False
  end.

(** Outside a transaction a statement that failed left everything as it was. *)
Lemma aborted_outside c c' :
  tx_of c = None → aborted c c' → db_of c' = db_of c ∧ tx_of c' = None.
Proof. intros E [[-> ->]|(s & E' & _)]; [done|congruence]. Qed.

(** [try { insert; return true } catch (...) { return false }] of a row with a key of its own *)
Lemma run_try_create {R : Type} `{!Table R} (r : R) c (Q : outcome bool → conn → Prop) :
  own_key = true →
  (∀ c', writes_keys = true → db_of c' = insert_row r (db_of c) → tx_of c' = tx_of c →
    (valid fk_enabled (db_of c) → valid fk_enabled (insert_row r (db_of c))) → Q (Ret true) c') →
  (∀ c', aborted c c' → Q (Ret false) c') →
  run (try_catch (_ ← orm_insert r; mret true) (mret false)) c Q.
Proof.
  intros Hown Hok Hab. apply run_try. destruct writes_keys eqn:Hk.
  - eapply run_statement; [by apply law_insert; intros _| |].
    + intros a c' Hd Ht _ Hv. unfold run. cbn. auto.
    + intros c' Hx. unfold run. cbn. auto.
  - apply run_bind. destruct (rf_sound _ (law_insert_refused r Hown Hk) c) as (c' & E & Hx).
    unfold run at 1. rewrite E. unfold run. cbn. auto.
Qed.

Lemma createConfig_faults ns key value op now c :
  valid fk_enabled (db_of c) → tx_of c = None →
  run (Sqlite.createConfig ns key value op now) c
    (λ o c', createConfig_left ns key value op now (db_of c) o (db_of c') ∧ tx_of c' = None).
Proof.
  pose proof aborted_outside as Hab.
  intros Hv Htx. apply run_bind, run_try_create; [done|..].
  - intros c1 _ Hd1 Ht1 Hv1. specialize (Hv1 Hv).
    rewrite valid_insert_config in Hv1 by done. rewrite Htx in Ht1.
    eapply run_statement; [by apply law_insert| |].
    2: { intros c2 [Hd2 Ht2]%Hab; [|done]. split; [|done]. split; [done|]. left. by rewrite Hd2, Hd1. }
    intros _ c2 Hd2 Ht2 _ _. rewrite Ht1 in Ht2. eapply run_statement; [by apply law_insert| |].
    2: { intros c3 [Hd3 Ht3]%Hab; [|done]. split; [|done]. split; [done|]. right. by rewrite Hd3, Hd2, Hd1. }
    intros _ c3 Hd3 Ht3 _ _. split; [|cbn; congruence]. cbn. unfold spec_createConfig.
    rewrite Hd3, Hd2, Hd1. autorewrite with abs. rewrite (proj2 (keyed_None ck_pk _ (ns, key))) by done.
    by rewrite abs_insert_log, abs_insert_version, abs_insert_config.
  - intros c1 [Hd1 Ht1]%Hab; [|done]. unfold run. cbn. done.
Qed.

(** A storage that leaves the key columns out: nothing is created. *)
Lemma createConfig_refused ns key value op now c :
  writes_keys = false →
  run (Sqlite.createConfig ns key value op now) c (λ o c', o = Ret false ∧ aborted c c').
Proof.
  intros Hk. apply run_bind, run_try_create; [done|congruence|]. intros c' Hx. unfold run. cbn. done.
Qed.
End faults.

(** ** The theorems *)

(** C1: publishing is all or nothing.  Whatever statements fail, a
    [publishRelease] that starts outside a transaction either returns [true]
    with every row of the namespace live and the new release stored, as
    [spec_publishRelease] says, or returns [false] with the content unchanged
    and no transaction left open, or leaves by an exception (or at the version
    overflow) with the durable content unchanged. *)
Theorem publishRelease_atomic `{!SqliteOrm, !SqliteOrmLaws _} ns note op out now (c : conn) :
  valid fk_enabled (db_of c) → tx_of c = None →
  match Sqlite.publishRelease ns note op out now c with
  | (Ret (true, r), c') =>
    spec_publishRelease ns note op now (abs (db_of c)) = (Ret (true, r), abs (db_of c')) ∧
    tx_of c' = None
  | (Ret (false, _), c') => db_of c' = db_of c ∧ tx_of c' = None
  | (Throw, c') | (Undef, c') => durable c' = db_of c
  end.
Proof.
  intros Hv Htx. pose proof (publish_faults ns note op out now c Hv Htx) as Hrun.
  unfold run in Hrun. by destruct (Sqlite.publishRelease _ _ _ _ _ _) as [[[[] ?]| |] c'].
Qed.

(** One draft row; the insertion of the release fails. *)
Definition draft_db : database := insert_row (new_config "ns" "k" "v" "t") empty_database.
Definition failing_insert : mem := mkMem draft_db None [false; false; false; false; true].

Lemma publishRelease_atomic_witness :
  let run := @Sqlite.publishRelease (mem_orm true) "ns" "note" "op" empty_release 0 failing_insert in
  match run with
  | (Ret (true, r), c') =>
    spec_publishRelease "ns" "note" "op" 0 (abs draft_db) = (Ret (true, r), abs (m_db c')) ∧
    m_tx c' = None
  | (Ret (false, _), c') => m_db c' = draft_db ∧ m_tx c' = None
  | (Throw, c') | (Undef, c') => @durable (mem_orm true) c' = draft_db
  end ∧ run.1 = Ret (false, empty_release).
Proof.
  split; [|vm_compute; reflexivity].
  apply (@publishRelease_atomic (mem_orm true) _ "ns" "note" "op" empty_release 0 failing_insert);
    [|reflexivity].
  apply (bool_decide_unpack _). vm_compute. exact I.
Defined.

(** What a [createConfig] that fails half-way leaves.  Its three statements
    are not in a transaction: [true] means that all three took effect, [false]
    that none did, and an exception that the row is stored without its change
    log, and perhaps without its version record. *)
Theorem createConfig_partial `{!SqliteOrm, !SqliteOrmLaws _} ns key value op now (c : conn) :
  valid fk_enabled (db_of c) → tx_of c = None →
  match Sqlite.createConfig ns key value op now c with
  | (Ret true, c') =>
    spec_createConfig ns key value op now (abs (db_of c)) = (Ret true, abs (db_of c'))
  | (Ret false, c') => db_of c' = db_of c
  | (Throw, c') =>
    let ts := getTimestamp now in
    let row_only := insert_row (new_config ns key value ts) (db_of c) in
    db_of c' = row_only ∨ db_of c' = insert_row (create_version ns key value op ts) row_only
  | (Undef, _) => False
  end.
Proof.
  intros Hv Htx. pose proof (createConfig_faults ns key value op now c Hv Htx) as Hrun.
  unfold run in Hrun. destruct (Sqlite.createConfig _ _ _ _ _ _) as [[[]| |] c'], Hrun as [Hl _]; try done.
  apply Hl.
Qed.

Lemma createConfig_partial_witness :
  let c := mkMem empty_database None [false; false; true] in
  let run := @Sqlite.createConfig (mem_orm true) "ns" "k" "v" "op" 0 c in
  match run with
  | (Ret true, c') =>
    spec_createConfig "ns" "k" "v" "op" 0 (abs empty_database) = (Ret true, abs (m_db c'))
  | (Ret false, c') => m_db c' = empty_database
  | (Throw, c') =>
    let ts := getTimestamp 0 in
    let row_only := insert_row (new_config "ns" "k" "v" ts) empty_database in
    m_db c' = row_only ∨ m_db c' = insert_row (create_version "ns" "k" "v" "op" ts) row_only
  | (Undef, _) => False
  end ∧ run.1 = Throw.
Proof.
  intros c run. split; [|vm_compute; reflexivity].
  apply (@createConfig_partial (mem_orm true) _ "ns" "k" "v" "op" 0 c); [|reflexivity].
  apply (bool_decide_unpack _). vm_compute. exact I.
Defined.

(** C2: the SQLite store keeps the contract of the storage interface.  Over every
    storage that obeys the laws, on a healthy connection, each of the thirty-one
    methods returns the result, and has the effect on applications,
    namespaces, configs, versions, logs, releases, approvals, users and the
    open transaction, that [ConfigStoreContract] states.  Where [insert] leaves out
    the columns of the primary key, as it is documented, the three methods that
    create an application, a namespace or a config answer [false] and store nothing;
    where it writes them, they store the row unless its key is taken. *)
Theorem sqlite_refines_contract `{!SqliteOrm, !SqliteOrmLaws _} :
  @ConfigStoreContract conn sqlite_store sqlite_observed fk_enabled writes_keys.
Proof. exact sqlite_store_contract. Qed.

Lemma sqlite_refines_contract_witness :
  let documented := mem_storage false true in
  let c := mkMem draft_db None [] in
  @ConfigStoreContract mem (@sqlite_store documented) (@sqlite_observed documented) true false ∧
  @Sqlite.createConfig documented "ns" "other" "v" "op" 0 c = (Ret false, c) ∧
  (@Sqlite.updateConfig documented "ns" "k" "w" "op" true 0 c).1 = Ret true ∧
  @ConfigStoreContract mem (@sqlite_store (mem_orm true)) (@sqlite_observed (mem_orm true)) true true.
Proof.
  intros documented c. split_and!.
  - exact (@sqlite_refines_contract documented (mem_storage_laws false true)).
  - vm_compute. reflexivity.
  - vm_compute. reflexivity.
  - exact (@sqlite_refines_contract (mem_orm true) (mem_orm_laws true)).
Defined.
