(* ===== verification/StoreOps.v ===== *)
(** * Sequences of store operations

    Every method of [ConfigStore] that changes the store, as a value of type
    [op]; [exec] runs one on any implementation of the interface and
    [run_ops] a sequence of them, going on after an exception the way a server
    that serves one request after another does.  [store_step] is the same on the
    abstract store, as a relation, and [exec_step] relates the two: what is
    shown of [store_step] by rule induction holds of every implementation that
    keeps the contract. *)
From S2P Require Import Prelude Timestamp DataTypes SqliteOrm MemOrm ConfigStore SqliteConfigStore.

Inductive op :=
  | OpCreateApplication (app : Application)
  | OpDeleteApplication (appId : string)
  | OpCreateNamespace (ns : Namespace)
  | OpDeleteNamespace (nsId : string)
  | OpCreateConfig (ns key value operator : string) (now : Z)
  | OpUpdateConfig (ns key value operator : string) (draft : bool) (now : Z)
  | OpDeleteConfig (ns key operator : string) (draft : bool) (now : Z)
  | OpRollbackConfig (ns key : string) (version : Z) (operator : string) (now : Z)
  | OpCreateRelease (r : Release) (now : Z)
  | OpRetireRelease (i : Z)
  | OpPublishRelease (ns note operator : string) (now : Z)
  | OpCreateApproval (a : Approval) (now : Z)
  | OpUpdateApprovalStatus (i : Z) (status comment : string) (now : Z)
  | OpCreateUser (u : User)
  | OpBegin
  | OpCommit
  | OpRollback.

Section exec.
Context {S : Type} `{!ConfigStore S}.

Definition drop_result {A : Type} (m : M S A) : M S () := _ ← m; mret ().

Definition exec (o : op) : M S () :=
  match o with
  | OpCreateApplication app => drop_result (createApplication app)
  | OpDeleteApplication i => drop_result (deleteApplication i)
  | OpCreateNamespace ns => drop_result (createNamespace ns)
  | OpDeleteNamespace i => drop_result (deleteNamespace i)
  | OpCreateConfig ns k v opr now => drop_result (createConfig ns k v opr now)
  | OpUpdateConfig ns k v opr d now => drop_result (updateConfig ns k v opr d now)
  | OpDeleteConfig ns k opr d now => drop_result (deleteConfig ns k opr d now)
  | OpRollbackConfig ns k v opr now => drop_result (rollbackConfig ns k v opr now)
  | OpCreateRelease r now => drop_result (createRelease r now)
  | OpRetireRelease i => drop_result (retireRelease i)
  | OpPublishRelease ns note opr now =>
    drop_result (publishRelease ns note opr empty_release now)
  | OpCreateApproval a now => drop_result (createApproval a now)
  | OpUpdateApprovalStatus i st c now => drop_result (updateApprovalStatus i st c now)
  | OpCreateUser u => drop_result (createUser u)
  | OpBegin => drop_result beginTransaction
  | OpCommit => drop_result commitTransaction
  | OpRollback => drop_result rollbackTransaction
  end.

Fixpoint run_ops (l : list op) : M S () :=
  match l with
  | [] => mret ()
  | o :: l => _ ← try_catch (exec o) (mret ()); run_ops l
  end.
End exec.

(** What an operation may do to the content when it does not overflow. *)
Inductive content_step (fk : bool) : op → content → content → Prop :=
  | cs_createApplication app s o s' :
      spec_createApplication app s = (o, s') → content_step fk (OpCreateApplication app) s s'
  | cs_deleteApplication i s o s' :
      spec_deleteApplication fk i s = (o, s') → content_step fk (OpDeleteApplication i) s s'
  | cs_createNamespace ns s o s' :
      spec_createNamespace fk ns s = (o, s') → content_step fk (OpCreateNamespace ns) s s'
  | cs_deleteNamespace i s o s' :
      spec_deleteNamespace i s = (o, s') → content_step fk (OpDeleteNamespace i) s s'
  | cs_createConfig ns k v opr now s o s' :
      spec_createConfig ns k v opr now s = (o, s') →
      content_step fk (OpCreateConfig ns k v opr now) s s'
  | cs_updateConfig ns k v opr d now s o s' :
      spec_updateConfig ns k v opr d now s = (o, s') →
      content_step fk (OpUpdateConfig ns k v opr d now) s s'
  | cs_deleteConfig ns k opr d now s o s' :
      spec_deleteConfig ns k opr d now s = (o, s') →
      content_step fk (OpDeleteConfig ns k opr d now) s s'
  | cs_rollbackConfig ns k v opr now cv s o s' :
      is_version ns k v cv → cv ∈ s_vers s →
      spec_updateConfig ns k (cv_value cv) opr true now s = (o, s') →
      content_step fk (OpRollbackConfig ns k v opr now) s s'
  | cs_rollbackConfig_unknown ns k v opr now s :
      content_step fk (OpRollbackConfig ns k v opr now) s s
  | cs_createRelease r now s o s' :
      spec_createRelease r s = (o, s') → content_step fk (OpCreateRelease r now) s s'
  | cs_retireRelease i s o s' :
      spec_retireRelease i s = (o, s') → content_step fk (OpRetireRelease i) s s'
  | cs_publishRelease ns note opr now s o s' :
      spec_publishRelease ns note opr now s = (o, s') →
      content_step fk (OpPublishRelease ns note opr now) s s'
  | cs_createApproval a now s o s' :
      spec_createApproval a s = (o, s') → content_step fk (OpCreateApproval a now) s s'
  | cs_updateApprovalStatus i st c now s o s' :
      spec_updateApprovalStatus i st c now s = (o, s') →
      content_step fk (OpUpdateApprovalStatus i st c now) s s'
  | cs_createUser u s o s' :
      spec_createUser u s = (o, s') → content_step fk (OpCreateUser u) s s'.

Definition is_publish (o : op) : bool := match o with OpPublishRelease _ _ _ _ => true | _ => false end.

(** [publishRelease] opens a transaction of its own, so it is refused inside one. *)
Inductive store_step (fk : bool) : op → Store → Store → Prop :=
  | step_content o s s' sv :
      content_step fk o s s' → (is_publish o = true → sv = None) →
      store_step fk o (mkStore s sv) (mkStore s' sv)
  | step_publish_refused o st : is_publish o = true → is_Some (saved st) → store_step fk o st st
  | step_begin s : store_step fk OpBegin (mkStore s None) (mkStore s (Some s))
  | step_begin_refused st : is_Some (saved st) → store_step fk OpBegin st st
  | step_commit s s0 : store_step fk OpCommit (mkStore s (Some s0)) (mkStore s None)
  | step_commit_refused st : saved st = None → store_step fk OpCommit st st
  | step_rollback s s0 : store_step fk OpRollback (mkStore s (Some s0)) (mkStore s0 None)
  | step_rollback_refused st : saved st = None → store_step fk OpRollback st st.

(** A property of the content, of the current one and of the one saved at [BEGIN]. *)
Definition on_store (P : content → Prop) (st : Store) : Prop :=
  P (cur st) ∧ ∀ s, saved st = Some s → P s.

Lemma on_store_step fk (P : content → Prop) o st st' :
  (∀ s s', content_step fk o s s' → P s → P s') →
  store_step fk o st st' → on_store P st → on_store P st'.
Proof.
  unfold on_store.
  intros HP Hstep. revert HP.
  destruct Hstep as [o' s s' sv Hc _|o' ? _ _|s|? _|s s0|? _|s s0|? _]; cbn;
    intros HP [Hcur Hsv]; split; auto.
  - by eapply HP.
  - by intros ? [= <-].
  - done.
  - done.
Qed.

Section exec_spec.
Context {S : Type} `{!ConfigStore S} {O : Observed S Store} {fk : bool}
  `{Hspec : !ConfigStoreSpec S O fk}.

Lemma wp_drop {A : Type} (m : M S A) (s : S) (Q : outcome A → Store → Prop) (R : Store → Prop) :
  wp s m Q → (∀ o st', Q o st' → o ≠ Undef → R st') →
  wp s (drop_result m) (λ o st', o ≠ Undef → R st').
Proof.
  intros Hm HQ. apply wp_bind. eapply wp_mono; [exact Hm|]. cbn. intros [a| |] v Hv.
  - intros s' Hs' <-. apply wp_ret; [done|]. intros _. by eapply HQ.
  - intros _. by eapply HQ.
  - done.
Qed.

(** An operation of the interface whose contract is a function on the content. *)
Lemma exec_refines {A : Type} (o : op) (m : M S A) (f : M content A) (s : S) :
  wp s m (refines f (view s)) →
  (∀ x s', f (cur (view s)) = (x, s') → content_step fk o (cur (view s)) s') →
  is_publish o = false →
  wp s (drop_result m) (λ r st', r ≠ Undef → store_step fk o (view s) st').
Proof.
  intros Hm Hstep Hp. eapply wp_drop; [exact Hm|]. intros r st' Href Hr. unfold refines in Href.
  destruct (view s) as [c sv] eqn:Hview. cbn in *.
  destruct (f c) as [x s']. specialize (Hstep x s' eq_refl).
  destruct x; [destruct Href as [_ ->]|destruct Href as [_ ->]|by destruct Hr];
    (constructor; [done|by rewrite Hp]).
Qed.

Lemma exec_step (o : op) (s : S) : ready s →
  wp s (exec o) (λ r st', r ≠ Undef → store_step fk o (view s) st').
Proof.
  intros Hs. destruct o; cbn [exec];
    try (eapply exec_refines; [by eauto using createApplication_spec, deleteApplication_spec,
      createNamespace_spec, deleteNamespace_spec, createConfig_spec, updateConfig_spec,
      deleteConfig_spec, createRelease_spec, retireRelease_spec, createApproval_spec,
      updateApprovalStatus_spec, createUser_spec|by econstructor|done]).
  - eapply wp_drop; [by apply rollbackConfig_spec|]. cbn. intros r st' (t & Ht & Hr) Hd.
    destruct (view s) as [c sv]. cbn in *. destruct t as [cv|].
    + apply list_elem_of_filter in Ht as [Hv Hin]. unfold refines in Hr. cbn in Hr.
      destruct (spec_updateConfig _ _ _ _ _ _ _) as [x s'] eqn:E.
      destruct x; [destruct Hr as [_ ->]|destruct Hr as [_ ->]|done];
        (constructor; [by econstructor|done]).
    + destruct Hr as [_ ->]. by constructor; [constructor|].
  - eapply wp_drop; [by apply publishRelease_spec|]. cbn. intros r st' Hr Hd.
    destruct (view s) as [c [sv|]]; cbn in *.
    + destruct Hr as [_ ->]. by apply step_publish_refused.
    + unfold refines in Hr. cbn in Hr.
      destruct (spec_publishRelease _ _ _ _ _) as [x s'] eqn:E.
      destruct x; [destruct Hr as [_ ->]|destruct Hr as [_ ->]|done];
        (constructor; [by econstructor|done]).
  - eapply wp_drop; [by apply beginTransaction_spec|]. cbn. intros r st'.
    destruct (view s) as [c [sv|]]; intros [_ ->] _; by constructor.
  - eapply wp_drop; [by apply commitTransaction_spec|]. cbn. intros r st'.
    destruct (view s) as [c [sv|]]; intros [_ ->] _; by constructor.
  - eapply wp_drop; [by apply rollbackTransaction_spec|]. cbn. intros r st'.
    destruct (view s) as [c [sv|]]; intros [_ ->] _; by constructor.
Qed.

(** What every step keeps holds along every sequence, which never throws. *)
Lemma run_ops_ind (P : op → Prop) (R : Store → Prop) :
  (∀ o st st', P o → R st → store_step fk o st st' → R st') →
  ∀ (l : list op) (s : S), Forall P l → ready s → R (view s) →
    wp s (run_ops l) (λ r st', r = Undef ∨ r = Ret () ∧ R st').
Proof.
  intros Hstep l. induction l as [|o l IH]; intros s Hl Hs HR; cbn.
  { apply wp_ret; auto. }
  apply Forall_cons in Hl as [Ho Hl]. apply wp_bind, wp_try.
  eapply wp_mono; [by apply exec_step|]. intros [[]| |] v Hv.
  - intros s' Hs' <-. apply IH; [done..|]. eapply Hstep; [done..|]. by apply Hv.
  - intros s' Hs' <-. apply wp_ret; [done|]. intros s'' Hs'' Hview. apply IH; [done..|].
    eapply Hstep; [done..|]. rewrite Hview. by apply Hv.
  - by left.
Qed.
End exec_spec.
