(* ===== verification/StoreInvariants.v ===== *)
(** * Invariants of the store

    What holds of the content after any sequence of operations, on any
    implementation of the interface that keeps its contract: rows sit under
    their keys, every config has a version record and a log entry with its
    current value, log ids are consecutive, ids of releases and approvals are
    below the counters; the logs only grow, and [ROLLBACK] undoes exactly what
    was done since [BEGIN]. *)
From S2P Require Import Prelude Timestamp DataTypes SqliteOrm MemOrm ConfigStore SqliteConfigStore StoreOps.

(** A config row [c] under the key [k]: its status is one of the two, its
    version is a positive [int], and its current version and value are on
    record. *)
Record wf_config (vers : list ConfigVersion) (logs : list ChangeLog)
    (k : string * string) (c : ConfigKey) : Prop := {
  wfc_key : ck_pk c = k;
  wfc_status : ck_status c = "draft" ∨ ck_status c = "live";
  wfc_version : 1 ≤ ck_version c ≤ INT32_MAX;
  wfc_recorded : ∃ v, v ∈ vers ∧ is_version k.1 k.2 (ck_version c) v ∧ cv_value v = ck_value c;
  wfc_logged : ∃ l, l ∈ logs ∧ cl_namespace_id l = k.1 ∧ cl_key l = k.2 ∧
    cl_version l = ck_version c ∧ cl_new_value l = ck_value c;
}.

Record wf (fk : bool) (s : content) : Prop := {
  wf_apps : map_Forall (λ i a, app_app_id a = i) (s_apps s);
  wf_nss : map_Forall (λ i n, ns_id n = i ∧ (fk = true → is_Some (s_apps s !! ns_app_id n)))
    (s_nss s);
  wf_cfgs : map_Forall (wf_config (s_vers s) (s_logs s)) (s_cfgs s);
  wf_rels : map_Forall (λ i r, rel_id r = i ∧ i < s_next_rel s) (s_rels s);
  wf_apvs : map_Forall (λ i a, apv_id a = i ∧ i < s_next_apv s) (s_apvs s);
  wf_users : map_Forall (λ i u, usr_username u = i) (s_users s);
  wf_logs : cl_id <$> s_logs s = seqZ 1 (Z.of_nat (length (s_logs s))) ∧
    s_next_log s = Z.of_nat (length (s_logs s)) + 1;
}.

Definition wf_store (fk : bool) : Store → Prop := on_store (wf fk).

Lemma wf_empty fk : wf fk empty_content.
Proof. by split; try apply map_Forall_empty. Qed.

(** ** Each kind of update keeps the invariant *)
Section wf.
Context {fk : bool}.
Implicit Types s : content.

Lemma wf_config_mono vers vers' logs logs' k c :
  vers ⊆ vers' → logs ⊆ logs' → wf_config vers logs k c → wf_config vers' logs' k c.
Proof. intros Hv Hl []. split; naive_solver. Qed.

Lemma wf_next_log (l : list ChangeLog) (x : ChangeLog) (next : Z) :
  cl_id x = next →
  cl_id <$> l = seqZ 1 (Z.of_nat (length l)) ∧ next = Z.of_nat (length l) + 1 →
  cl_id <$> (l ++ [x]) = seqZ 1 (Z.of_nat (length (l ++ [x]))) ∧
  next + 1 = Z.of_nat (length (l ++ [x])) + 1.
Proof.
  intros Hx [Hids Hnext]. rewrite length_app, fmap_app, Hids. cbn [length].
  rewrite Nat2Z.inj_add, seqZ_app by lia. split; [|lia].
  f_equal. rewrite seqZ_cons, seqZ_nil by lia. cbn. f_equal. lia.
Qed.

(** The records [createConfig] and [updateConfig] append, and the row they put. *)
Lemma wf_put_config s ns key c cv (l : Z → ChangeLog) :
  wf fk s →
  ck_pk c = (ns, key) → ck_status c = "draft" ∨ ck_status c = "live" →
  1 ≤ ck_version c ≤ INT32_MAX →
  is_version ns key (ck_version c) cv → cv_value cv = ck_value c →
  (∀ i, cl_id (l i) = i ∧ cl_namespace_id (l i) = ns ∧ cl_key (l i) = key ∧
    cl_version (l i) = ck_version c ∧ cl_new_value (l i) = ck_value c) →
  wf fk (add_log l (add_ver cv (set_cfgs <[(ns, key) := c]> s))).
Proof.
  intros [] Hpk Hst Hver Hcv Hval Hl. split; cbn; try done.
  - apply map_Forall_insert_2.
    + split; [done..| |]; cbn; [exists cv|exists (l (s_next_log s))]; set_solver.
    + eapply map_Forall_impl; [done|]. intros k c'. apply wf_config_mono; set_solver.
  - apply wf_next_log; [apply Hl|done].
Qed.

Lemma wf_add_log s (l : Z → ChangeLog) :
  (∀ i, cl_id (l i) = i) → wf fk s → wf fk (add_log l s).
Proof.
  intros Hl []. split; cbn; try done.
  - eapply map_Forall_impl; [done|]. intros k c'. apply wf_config_mono; set_solver.
  - apply wf_next_log; [apply Hl|done].
Qed.

Lemma wf_set_cfgs s f :
  wf fk s → map_Forall (wf_config (s_vers s) (s_logs s)) (f (s_cfgs s)) → wf fk (set_cfgs f s).
Proof. intros [] Hf. by split. Qed.

Lemma wf_add_rel s r : wf fk s → rel_id r = s_next_rel s → wf fk (add_rel r s).
Proof.
  intros [] Hr. split; cbn; try done. apply map_Forall_insert_2; [split; [done|lia]|].
  eapply map_Forall_impl; [done|]. cbn. intros ? ? []. split; [done|lia].
Qed.

Lemma wf_add_apv s a : wf fk s → apv_id a = s_next_apv s → wf fk (add_apv a s).
Proof.
  intros [] Hr. split; cbn; try done. apply map_Forall_insert_2; [split; [done|lia]|].
  eapply map_Forall_impl; [done|]. cbn. intros ? ? []. split; [done|lia].
Qed.

Lemma map_Forall_alter {K R : Type} `{Countable K} (P : K → R → Prop) f i (m : gmap K R) :
  (∀ k r, P k r → P k (f r)) → map_Forall P m → map_Forall P (alter f i m).
Proof.
  intros Hf Hm k r Hr. destruct (decide (i = k)) as [->|].
  - rewrite lookup_alter_eq in Hr. apply fmap_Some in Hr as (r0 & ? & ->). eauto.
  - rewrite lookup_alter_ne in Hr by done. eauto.
Qed.

Lemma wf_update s ns key c value opr draft now :
  wf fk s → s_cfgs s !! (ns, key) = Some c → in_int32 (ck_version c + 1) →
  wf fk (add_log (update_log ns key (ck_value c) value opr (getTimestamp now) (ck_version c + 1))
    (add_ver (update_version ns key value opr (getTimestamp now) (ck_version c + 1))
      (set_cfgs <[(ns, key) := edit_config c value (ck_version c + 1) draft (getTimestamp now)]> s))).
Proof.
  intros Hwf Hc Hz. destruct (wf_cfgs _ _ Hwf _ _ Hc) as [Hpk _ Hver _ _].
  apply wf_put_config; cbn; try done.
  - destruct draft; cbn; auto.
  - unfold in_int32, INT32_MAX in *. lia.
Qed.
End wf.

Section preservation.
Context {fk : bool}.

Lemma content_step_wf o s s' : content_step fk o s s' → wf fk s → wf fk s'.
Proof.
  intros Hstep Hwf. destruct Hstep as [app s o s' E|i s o s' E|n s o s' E|i s o s' E
    |ns k v opr now s o s' E|ns k v opr d now s o s' E|ns k opr d now s o s' E
    |ns k v opr now cv s o s' Hv Hin E|ns k v opr now s|r now s o s' E|i s o s' E
    |ns note opr now s o s' E|a now s o s' E|i st c now s o s' E|u s o s' E].
  - unfold spec_createApplication in E. case_match; simplify_eq; [done|].
    destruct Hwf. split; cbn; try done; [by apply map_Forall_insert_2|].
    eapply map_Forall_impl; [done|]. cbn. intros j n [? Hn]. split; [done|].
    intros ?%Hn. rewrite lookup_insert_is_Some'. auto.
  - unfold spec_deleteApplication in E. case_decide as Hd; simplify_eq; [done|].
    destruct Hwf. split; cbn; try done; [by apply map_Forall_delete|].
    intros j n Hn. destruct (wf_nss0 j n Hn) as [? Happ]. split; [done|].
    intros Hfk. rewrite lookup_delete_is_Some. split; [|auto]. intros ->.
    apply Hd. split; [done|]. by exists j, n.
  - unfold spec_createNamespace in E. case_decide as Hd; simplify_eq; [|done].
    destruct Hwf. split; cbn; try done. apply map_Forall_insert_2; [|done].
    split; [done|apply Hd].
  - unfold spec_deleteNamespace in E. simplify_eq. destruct Hwf. split; cbn; try done.
    by apply map_Forall_delete.
  - unfold spec_createConfig in E. case_match; simplify_eq; [done|].
    apply wf_put_config; cbn; auto; [by unfold INT32_MAX|done].
  - unfold spec_updateConfig in E. case_match; simplify_eq; [|done].
    case_decide; simplify_eq; [|done]. by apply wf_update.
  - unfold spec_deleteConfig in E. simplify_eq. apply wf_add_log; [done|].
    case_match; [case_match|]; try done. apply wf_set_cfgs; [done|].
    apply map_Forall_delete, Hwf.
  - unfold spec_updateConfig in E. case_match; simplify_eq; [|done].
    case_decide; simplify_eq; [|done]. by apply wf_update.
  - done.
  - unfold spec_createRelease in E. simplify_eq. by apply wf_add_rel.
  - unfold spec_retireRelease in E. simplify_eq. destruct Hwf. split; cbn; try done.
    by apply map_Forall_alter.
  - unfold spec_publishRelease in E. case_decide; simplify_eq; [|done].
    apply wf_add_rel; [|done]. apply wf_set_cfgs; [done|]. apply map_Forall_fmap.
    eapply map_Forall_impl; [apply Hwf|]. intros k c []. unfold compose, go_live.
    case_decide; split; cbn; auto.
  - unfold spec_createApproval in E. simplify_eq. by apply wf_add_apv.
  - unfold spec_updateApprovalStatus in E. simplify_eq. destruct Hwf. split; cbn; try done.
    by apply map_Forall_alter.
  - unfold spec_createUser in E. case_match; simplify_eq; [done|].
    destruct Hwf. split; cbn; try done. by apply map_Forall_insert_2.
Qed.

Lemma store_step_wf o st st' : store_step fk o st st' → wf_store fk st → wf_store fk st'.
Proof. apply on_store_step. intros s s'. apply content_step_wf. Qed.
End preservation.

(** ** The audit trail *)
Definition extends (s s' : content) : Prop :=
  s_vers s `prefix_of` s_vers s' ∧ s_logs s `prefix_of` s_logs s'.

Lemma spec_updateConfig_extends ns k v opr d now s o s' :
  spec_updateConfig ns k v opr d now s = (o, s') → extends s s'.
Proof.
  unfold spec_updateConfig, extends. intros E. repeat case_match; simplify_eq; cbn; try done.
  split; by apply prefix_app_r.
Qed.

Lemma content_step_extends fk o s s' : content_step fk o s s' → extends s s'.
Proof.
  destruct 1 as [app s o s' E|i s o s' E|n s o s' E|i s o s' E
    |ns k v opr now s o s' E|ns k v opr d now s o s' E|ns k opr d now s o s' E
    |ns k v opr now cv s o s' Hv Hin E|ns k v opr now s|r now s o s' E|i s o s' E
    |ns note opr now s o s' E|a now s o s' E|i st c now s o s' E|u s o s' E];
    try (by eapply spec_updateConfig_extends); try done;
    unfold spec_createApplication, spec_deleteApplication, spec_createNamespace,
      spec_deleteNamespace, spec_createConfig, spec_deleteConfig, spec_createRelease,
      spec_retireRelease, spec_publishRelease, spec_createApproval, spec_updateApprovalStatus,
      spec_createUser in E; repeat case_match; simplify_eq; unfold extends; cbn;
    auto using prefix_app_r.
Qed.

(** An operation that is not one of the transaction commands. *)
Definition plain (o : op) : Prop :=
  match o with OpBegin | OpCommit | OpRollback => False | _ => True end.

(** ** The theorems *)
Section theorems.
Context {S : Type} `{!ConfigStore S} {O : Observed S Store} {fk : bool}
  `{Hspec : !ConfigStoreSpec S O fk}.

(** C6: no sequence of operations breaks the invariant.  From a well-formed
    store, after any sequence of the interface's operations (transaction
    commands included, requests that throw included) the store is
    well-formed: rows are stored under their keys, every namespace of an
    enforcing database has its application, each config's current value is
    in its version history and in the change log, and log ids are
    consecutive.  The only escape is the overflow of a 32-bit version. *)
Theorem store_keeps_invariant (l : list op) (s : S) :
  ready s → wf_store fk (view s) →
  wp s (run_ops l) (λ o st', o = Undef ∨ wf_store fk st').
Proof.
  intros Hs Hwf. eapply wp_mono.
  - apply (run_ops_ind (λ _, True) (wf_store fk)); [|by apply Forall_true|done..].
    intros o st st' _ Hst Hstep. by eapply store_step_wf.
  - cbn. intros o st'. naive_solver.
Qed.

(** C24: the version history and the change log are append-only: no operation
    but [ROLLBACK] removes, reorders or rewrites an entry. *)
Theorem audit_append_only (l : list op) (s : S) :
  ready s → OpRollback ∉ l →
  wp s (run_ops l) (λ o st', o = Undef ∨
    (s_vers (cur (view s)) `prefix_of` s_vers (cur st') ∧
     s_logs (cur (view s)) `prefix_of` s_logs (cur st'))).
Proof.
  intros Hs Hl. eapply wp_mono.
  - apply (run_ops_ind (λ o, o ≠ OpRollback) (λ st', extends (cur (view s)) (cur st')));
      [|apply Forall_forall; set_solver|done..].
    intros o st st' Ho Hst Hstep. destruct Hstep; try done; cbn in *.
    destruct Hst, (content_step_extends _ _ _ _ H). split; by etrans.
  - cbn. intros o st' [->|[_ Hst]]; [by left|by right].
Qed.

(** C25: [ROLLBACK] undoes exactly what was done since [BEGIN]: after
    [beginTransaction], any sequence of operations without transaction
    commands, and [rollbackTransaction], the store is the one before. *)
Theorem rollback_restores (l : list op) (s : S) :
  ready s → saved (view s) = None → Forall plain l →
  wp s (_ ← beginTransaction; _ ← run_ops l; rollbackTransaction)
    (λ o st', o = Undef ∨ (o = Ret true ∧ st' = view s)).
Proof.
  intros Hs Hsv Hl. apply wp_bind. eapply wp_mono; [by apply beginTransaction_spec|].
  unfold tx_begin. rewrite Hsv. intros ? ? [-> ->] s1 Hs1 Hv1.
  apply wp_bind. eapply wp_mono.
  - apply (run_ops_ind plain (λ st', saved st' = Some (cur (view s)))); [|done..|by rewrite Hv1].
    intros o st st' Ho Hst Hstep. by destruct Hstep; cbn in *.
  - cbn. intros r st2 [->|[-> H2]]; [by left|]. intros s2 Hs2 Hv2.
    eapply wp_mono; [by apply rollbackTransaction_spec|]. unfold tx_rollback.
    rewrite Hv2, H2. intros ? ? [-> ->]. right. split; [done|].
    by destruct (view s); cbn in *; subst.
Qed.
End theorems.

(** ** Witnesses *)
Definition sample_app : Application := mkApplication "app" "App" None "t0".
Definition sample_ns : Namespace :=
  mkNamespace "app/dev/default/main" "app" "dev" "default" "main" "private" None None "t0".

Definition sample_ops : list op := [
  OpCreateApplication sample_app; OpCreateNamespace sample_ns;
  OpCreateConfig "app/dev/default/main" "k" "v1" "alice" 0;
  OpUpdateConfig "app/dev/default/main" "k" "v2" "bob" false 1;
  OpPublishRelease "app/dev/default/main" "first" "bob" 2;
  OpRollbackConfig "app/dev/default/main" "k" 1 "carol" 3;
  OpDeleteApplication "app"].

Lemma mem_empty_wf : wf_store true (@view _ _ mem_observed mem_empty).
Proof. split; [apply wf_empty|done]. Qed.

Lemma store_keeps_invariant_witness :
  @wp _ _ mem_observed _ mem_empty (@run_ops _ mem_store sample_ops)
    (λ o st', o = Undef ∨ wf_store true st').
Proof.
  apply (@store_keeps_invariant _ mem_store mem_observed true mem_store_spec);
    [apply mem_empty_healthy|apply mem_empty_wf].
Defined.

(** The store after the first five operations of the sample. *)
Definition mem_sample : mem := (@run_ops _ mem_store (take 5 sample_ops) mem_empty).2.

Lemma mem_sample_healthy : mem_healthy true mem_sample.
Proof.
  split; [vm_compute; reflexivity|]. split; [|vm_compute; discriminate].
  apply (bool_decide_unpack _). vm_compute. exact I.
Qed.

Lemma audit_append_only_witness :
  length (s_logs (cur (@view _ _ mem_observed mem_sample))) = 2%nat ∧
  @wp _ _ mem_observed _ mem_sample (@run_ops _ mem_store sample_ops) (λ o st', o = Undef ∨
    (s_vers (cur (@view _ _ mem_observed mem_sample)) `prefix_of` s_vers (cur st') ∧
     s_logs (cur (@view _ _ mem_observed mem_sample)) `prefix_of` s_logs (cur st'))).
Proof.
  split; [vm_compute; reflexivity|].
  apply (@audit_append_only _ mem_store mem_observed true mem_store_spec);
    [apply mem_sample_healthy|set_solver].
Defined.

Lemma rollback_restores_witness :
  @wp _ _ mem_observed _ mem_sample
    (_ ← @beginTransaction _ mem_store; _ ← @run_ops _ mem_store sample_ops;
     @rollbackTransaction _ mem_store)
    (λ o st', o = Undef ∨ (o = Ret true ∧ st' = @view _ _ mem_observed mem_sample)).
Proof.
  apply (@rollback_restores _ mem_store mem_observed true mem_store_spec);
    [apply mem_sample_healthy|done|by repeat constructor].
Defined.

Lemma mem_sample_wf : wf_store true (@view _ _ mem_observed mem_sample).
Proof.
  destruct (@wp_run _ _ mem_observed _ _ _ _
    (@run_ops_ind _ mem_store mem_observed true mem_store_spec (λ _, True) (wf_store true)
      (λ o st st' _ Hst Hstep, store_step_wf o st st' Hstep Hst)
      (take 5 sample_ops) mem_empty (Forall_true _ _ (λ _, I)) (mem_empty_healthy true) mem_empty_wf))
    as [_ [Hu|[_ Ht]]]; [|exact Ht].
  exfalso. vm_compute in Hu. discriminate Hu.
Qed.
