(* ===== verification/StoreTheorems.v ===== *)
(** * What a client of the store sees

    Theorems about short sequences of calls on any implementation of
    [ConfigStore] that keeps the contract: what is read back after a write, a
    publication, a rollback or a deletion. *)
From S2P Require Import Prelude Timestamp DataTypes SqliteOrm MemOrm ConfigStore SqliteConfigStore StoreOps StoreInvariants.

Section client.
Context {S : Type} `{!ConfigStore S} {O : Observed S Store} {fk : bool}
  `{Hspec : !ConfigStoreSpec S O fk}.

(** A computation can be replaced by one that is equal on every state. *)
Lemma wp_ext {A : Type} (m m' : M S A) s (Q : outcome A → Store → Prop) :
  m s = m' s → wp s m' Q → wp s m Q.
Proof. unfold wp. by intros ->. Qed.

(** A call whose contract is a function on the content, followed by the rest. *)
Lemma wp_call {A B : Type} (m : M S A) (f : M content A) (k : A → M S B) (s : S)
    (Q : outcome B → Store → Prop) :
  wp s m (refines f (view s)) →
  match f (cur (view s)) with
  | (Ret a, c') => ∀ s', ready s' → view s' = mkStore c' (saved (view s)) → wp s' (k a) Q
  | (Throw, c') => Q Throw (mkStore c' (saved (view s)))
  | (Undef, _) => ∀ v, Q Undef v
  end →
  wp s (m ≫= k) Q.
Proof.
  intros Hm HQ. apply wp_bind. eapply wp_mono; [exact Hm|]. unfold refines. intros o v Hv.
  destruct (f (cur (view s))) as [[a| |] c'].
  - by destruct Hv as [-> ->].
  - by destruct Hv as [-> ->].
  - subst o. apply HQ.
Qed.

(** The same for a query. *)
Lemma wp_ask {A B : Type} (m : M S A) (R : content → A → Prop) (k : A → M S B) (s : S)
    (Q : outcome B → Store → Prop) :
  wp s m (queries R (view s)) →
  (∀ a s', R (cur (view s)) a → ready s' → view s' = view s → wp s' (k a) Q) →
  wp s (m ≫= k) Q.
Proof.
  intros Hm HQ. apply wp_bind. eapply wp_mono; [exact Hm|].
  intros o v [-> (a & -> & Ha)] s' Hs' Hv. by apply HQ.
Qed.

Lemma wp_getConfig_last {A : Type} ns key i (k : option ConfigKey → A) (s : S)
    (Q : outcome A → Store → Prop) :
  ready s →
  Q (Ret (k (c ← s_cfgs (cur (view s)) !! (ns, key);
    if decide (visible i c) then Some c else None))) (view s) →
  wp s (c ← getConfig ns key i; mret (k c)) Q.
Proof.
  intros Hs HQ. eapply wp_call; [by apply getConfig_spec|]. cbn. intros s' Hs' Hv.
  apply wp_ret; [done|]. rewrite Hv. by destruct (view s).
Qed.

(** What is created is read back, as a draft.  On a key that is not
    there, [createConfig] succeeds and a reader that asks for drafts gets the
    value at version 1, while a reader that does not gets nothing until the
    namespace is published; on a key that is there it fails and both readers
    see what they saw. *)
Theorem create_then_get ns key value opr now (s : S) :
  ready s →
  wp s (ok ← createConfig ns key value opr now;
        d ← getConfig ns key true; c ← getConfig ns key false; mret (ok, d, c))
    (λ o _, o = match s_cfgs (cur (view s)) !! (ns, key) with
      | None => Ret (true, Some (new_config ns key value (getTimestamp now)), None)
      | Some old => Ret (false, Some old, if decide (ck_status old = "draft") then None else Some old)
      end).
Proof.
  intros Hs. eapply wp_call; [by apply createConfig_spec|]. unfold spec_createConfig.
  destruct (s_cfgs (cur (view s)) !! (ns, key)) as [old|] eqn:E; intros s1 Hs1 Hv1;
    (eapply wp_call; [by apply getConfig_spec|]); cbn; intros s2 Hs2 Hv2; rewrite Hv1 in Hv2 |- *;
    (apply (wp_getConfig_last ns key false (λ c, (_, _, c))); [done|]); rewrite Hv2; cbn.
  - rewrite E. cbn. rewrite decide_True by by left. unfold visible.
    do 2 case_decide; try naive_solver.
  - rewrite !lookup_insert_eq. cbn. rewrite decide_True by by left.
    rewrite decide_False; [done|]. unfold visible. cbn. naive_solver.
Qed.

(** C9: publishing makes the drafts of its namespace live, and nothing else.
    Outside a transaction, [publishRelease] succeeds; then every key of the
    namespace, draft or not, is visible with the value and version it had,
    and a reader of any other namespace sees what it saw. *)
Theorem publish_then_get ns note opr out now ns' key (s : S) :
  ready s → saved (view s) = None → wf fk (cur (view s)) →
  wp s (r ← publishRelease ns note opr out now;
        c ← getConfig ns' key false; mret (r.1, c))
    (λ o _, o = Undef ∨ o = Ret (true,
      old ← s_cfgs (cur (view s)) !! (ns', key);
      if decide (ns' = ns) then Some (set_ck_status "live" old)
      else if decide (visible false old) then Some old else None)).
Proof.
  intros Hs Hsv Hwf. apply wp_bind. eapply wp_mono; [by apply publishRelease_spec|].
  rewrite Hsv. unfold refines, spec_publishRelease. case_decide as Hz.
  2: { intros o v ->. auto. }
  intros ? ? [-> ->] s1 Hs1 Hv1. apply (wp_getConfig_last _ _ _ (pair true)); [done|].
  right. rewrite Hv1. cbn. do 2 f_equal. rewrite lookup_fmap.
  destruct (s_cfgs _ !! (ns', key)) as [old|] eqn:E; [|done]. cbn.
  apply (wf_cfgs _ _ Hwf) in E as [[= Hns _] _ _ _ _]. unfold go_live. rewrite Hns.
  destruct (decide (ns' = ns)); [|done]. cbn. rewrite decide_True; [done|]. by right.
Qed.

(** A published release is new: its version is above every version the
    namespace has had, its id was not in use, and it can be read back. *)
Theorem publish_version_fresh ns note opr out now (s : S) :
  ready s → saved (view s) = None → wf fk (cur (view s)) →
  wp s (r ← publishRelease ns note opr out now; c ← getRelease (rel_id r.2); mret (r, c))
    (λ o _, o = Undef ∨ ∃ r,
      o = Ret ((true, r), Some r) ∧
      rel_namespace_id r = ns ∧ rel_status r = "active" ∧
      s_rels (cur (view s)) !! rel_id r = None ∧
      ∀ i r0, s_rels (cur (view s)) !! i = Some r0 → rel_namespace_id r0 = ns →
        rel_release_version r0 < rel_release_version r).
Proof.
  intros Hs Hsv Hwf. apply wp_bind. eapply wp_mono; [by apply publishRelease_spec|].
  rewrite Hsv. unfold refines, spec_publishRelease. case_decide as Hz.
  2: { intros o v ->. auto. }
  intros ? ? [-> ->] s1 Hs1 Hv1. apply wp_bind. eapply wp_mono; [by apply getRelease_spec|].
  rewrite Hv1. cbn. intros ? ? [-> (x & -> & ->)] s2 Hs2 _. apply wp_ret; [done|].
  right. cbn. rewrite lookup_insert_eq. eexists. split; [done|]. cbn. split_and!; [done..| |].
  - apply eq_None_not_Some. intros [r Hr]. apply (wf_rels _ _ Hwf) in Hr as [_ Hlt]. lia.
  - intros i r0 Hr0 Hns. apply Z.lt_succ_r, max_version_le.
    unfold versions_of. apply list_elem_of_fmap_2, list_elem_of_filter. split; [done|].
    apply list_elem_of_fmap. exists (i, r0). by rewrite elem_of_map_to_list.
Qed.
End client.

(** ** Witnesses *)
Lemma create_then_get_witness :
  @wp _ _ mem_observed _ mem_sample
    (ok ← @createConfig _ mem_store "ns" "k" "v" "op" 0;
     d ← @getConfig _ mem_store "ns" "k" true;
     c ← @getConfig _ mem_store "ns" "k" false; mret (ok, d, c))
    (λ o _, o = match s_cfgs (cur (@view _ _ mem_observed mem_sample)) !! ("ns", "k") with
      | None => Ret (true, Some (new_config "ns" "k" "v" (getTimestamp 0)), None)
      | Some old => Ret (false, Some old, if decide (ck_status old = "draft") then None else Some old)
      end).
Proof.
  apply (@create_then_get _ mem_store mem_observed true mem_store_spec). apply mem_sample_healthy.
Defined.

Lemma publish_then_get_witness :
  let s := mem_sample in
  let ns := "app/dev/default/main" in
  @wp _ _ mem_observed _ s
    (r ← @publishRelease _ mem_store ns "n" "op" empty_release 4;
     c ← @getConfig _ mem_store ns "k" false; mret (r.1, c))
    (λ o _, o = Undef ∨ o = Ret (true,
      old ← s_cfgs (cur (@view _ _ mem_observed s)) !! (ns, "k");
      if decide (ns = ns) then Some (set_ck_status "live" old)
      else if decide (visible false old) then Some old else None)).
Proof.
  intros s ns. apply (@publish_then_get _ mem_store mem_observed true mem_store_spec);
    [apply mem_sample_healthy|vm_compute; reflexivity|exact (proj1 mem_sample_wf)].
Defined.

Lemma publish_version_fresh_witness :
  let v := cur (@view _ _ mem_observed mem_sample) in
  let ns := "app/dev/default/main" in
  @wp _ _ mem_observed _ mem_sample
    (r ← @publishRelease _ mem_store ns "n" "op" empty_release 4;
     c ← @getRelease _ mem_store (rel_id r.2); mret (r, c))
    (λ o _, o = Undef ∨ ∃ r,
      o = Ret ((true, r), Some r) ∧ rel_namespace_id r = ns ∧ rel_status r = "active" ∧
      s_rels v !! rel_id r = None ∧
      ∀ i r0, s_rels v !! i = Some r0 → rel_namespace_id r0 = ns →
        rel_release_version r0 < rel_release_version r).
Proof.
  intros v ns. apply (@publish_version_fresh _ mem_store mem_observed true mem_store_spec);
    [apply mem_sample_healthy|vm_compute; reflexivity|exact (proj1 mem_sample_wf)].
Defined.
