(* ===== verification/History.v ===== *)
(** * Version history and rollback

    The version records of a key are found by [makeConfigId], the namespace and
    the key joined with a colon.  Keys without a colon make that id unambiguous,
    and as long as no config is deleted the records of a key are then numbered
    1, 2, ..., up to its current version: a rollback has exactly one target. *)
From S2P Require Import Prelude Timestamp DataTypes SqliteOrm MemOrm ConfigStore SqliteConfigStore StoreOps StoreInvariants StoreTheorems.

Definition colon_free (key : string) : Prop := ":"%char ∉ chars key.
#[export] Instance colon_free_dec key : Decision (colon_free key).
Proof. unfold colon_free. apply _. Defined.

Lemma makeConfigId_inj ns key ns' key' :
  colon_free key → colon_free key' →
  makeConfigId ns key = makeConfigId ns' key' → ns = ns' ∧ key = key'.
Proof.
  unfold makeConfigId, colon_free. revert ns'.
  induction ns as [|a ns IH]; intros [|b ns'] Hk Hk'; autorewrite with str; intros E; injection E; clear E.
  - by intros ->.
  - intros -> <-. rewrite chars_app in Hk. autorewrite with str in Hk. cbn in Hk. set_solver.
  - intros <- ->. rewrite chars_app in Hk'. autorewrite with str in Hk'. cbn in Hk'. set_solver.
  - intros E ->. by apply IH in E as [-> ->].
Qed.

(** The version numbers on record for a key, oldest first. *)
Definition history (ns key : string) (s : content) : list Z :=
  cv_version <$> filter (λ r, cv_config_id r = makeConfigId ns key) (s_vers s).

Definition complete_history (s : content) : Prop :=
  ∀ ns key, colon_free key →
    history ns key s = match s_cfgs s !! (ns, key) with
                       | Some c => seqZ 1 (ck_version c)
                       | None => []
                       end.

(** Operations on configs whose keys have no colon, and no deletion. *)
Definition keeps_history (o : op) : Prop :=
  match o with
  | OpCreateConfig _ k _ _ _ | OpUpdateConfig _ k _ _ _ _ | OpRollbackConfig _ k _ _ _ => colon_free k
  | OpDeleteConfig _ _ _ _ _ => False
  | _ => True
  end.

#[export] Instance keeps_history_dec o : Decision (keeps_history o).
Proof. destruct o; cbn; apply _. Defined.

Section history.
Context {fk : bool}.
Implicit Types s : content.

(** A record and a row put under the same key. *)
Lemma complete_put s ns key c cv (l : Z → ChangeLog) :
  complete_history s → colon_free key →
  cv_config_id cv = makeConfigId ns key → cv_version cv = ck_version c →
  history ns key s ++ [ck_version c] = seqZ 1 (ck_version c) →
  complete_history (add_log l (add_ver cv (set_cfgs <[(ns, key) := c]> s))).
Proof.
  intros Hs Hk Hid Hver Hnew ns' key' Hk'. unfold history in *. cbn.
  rewrite filter_app, fmap_app.
  destruct (decide ((ns, key) = (ns', key'))) as [[= <- <-]|Hne].
  - rewrite lookup_insert_eq, filter_cons_True by done. cbn. by rewrite Hver.
  - rewrite lookup_insert_ne, filter_cons_False by (done || rewrite Hid;
      intros E; apply makeConfigId_inj in E as [-> ->]; done).
    rewrite filter_nil. cbn. rewrite app_nil_r. by apply Hs.
Qed.

Lemma complete_update ns k v opr d now s o s' :
  wf fk s → colon_free k → spec_updateConfig ns k v opr d now s = (o, s') →
  complete_history s → complete_history s'.
Proof.
  intros Hwf Hk E Hs. unfold spec_updateConfig in E.
  destruct (s_cfgs s !! (ns, k)) as [c|] eqn:Hc; [|by simplify_eq].
  case_decide; simplify_eq; [|done]. pose proof (wfc_version _ _ _ _ (wf_cfgs _ _ Hwf _ _ Hc)).
  apply complete_put; cbn; try done. rewrite Hs, Hc, seqZ_app by (done || lia).
  f_equal. rewrite seqZ_cons by lia. cbn.
  f_equal. lia.
Qed.

Lemma content_step_complete o s s' :
  wf fk s → keeps_history o → content_step fk o s s' → complete_history s → complete_history s'.
Proof.
  intros Hwf Ho Hstep Hs. destruct Hstep as [app s o s' E|i s o s' E|n s o s' E|i s o s' E
    |ns k v opr now s o s' E|ns k v opr d now s o s' E|ns k opr d now s o s' E
    |ns k v opr now cv s o s' Hv Hin E|ns k v opr now s|r now s o s' E|i s o s' E
    |ns note opr now s o s' E|a now s o s' E|i st c now s o s' E|u s o s' E];
    try done; try (eapply complete_update; [done|done|exact E|done]);
    unfold spec_createApplication, spec_deleteApplication, spec_createNamespace,
      spec_deleteNamespace, spec_createRelease, spec_retireRelease, spec_createApproval,
      spec_updateApprovalStatus, spec_createUser in E; try (repeat case_match; by simplify_eq).
  - unfold spec_createConfig in E. case_match eqn:Hc; simplify_eq; [done|].
    apply complete_put; cbn; try done. by rewrite Hs, Hc.
  - unfold spec_publishRelease in E. case_decide; simplify_eq; [|done].
    intros ns' key' Hk'. cbn. rewrite lookup_fmap. specialize (Hs ns' key' Hk').
    unfold history in *. cbn. rewrite Hs. destruct (s_cfgs s !! (ns', key')) as [c|]; [|done].
    cbn. unfold go_live. by case_decide.
Qed.

(** A well-formed content with complete histories. *)
Definition tracked s : Prop := wf fk s ∧ complete_history s.

Lemma store_step_tracked o st st' :
  keeps_history o → store_step fk o st st' → on_store tracked st → on_store tracked st'.
Proof.
  intros Ho. apply on_store_step. intros s s' Hstep [Hwf Hs].
  split; [by eapply content_step_wf|by eapply content_step_complete].
Qed.
End history.

(** ** The theorems *)
Section theorems.
Context {S : Type} `{!ConfigStore S} {O : Observed S Store} {fk : bool}
  `{Hspec : !ConfigStoreSpec S O fk}.

(** C15: versions are numbered without gaps or repetitions.  Along every
    sequence of operations that deletes no config and uses keys without
    a colon, the version records of each key are, in order of insertion, 1,
    2, ..., up to the key's current version, and a key that is not there
    has none. *)
Theorem versions_numbered (l : list op) (s : S) :
  ready s → on_store (tracked (fk := fk)) (view s) → Forall keeps_history l →
  wp s (run_ops l) (λ o st', o = Undef ∨
    ∀ ns key, colon_free key →
      history ns key (cur st') = match s_cfgs (cur st') !! (ns, key) with
                                 | Some c => seqZ 1 (ck_version c)
                                 | None => []
                                 end).
Proof.
  intros Hs Ht Hl. eapply wp_mono.
  - apply (run_ops_ind keeps_history (on_store (tracked (fk := fk)))); [|done..].
    intros o st st' Ho Hst Hstep. by eapply store_step_tracked.
  - cbn. intros o st' [->|[_ [[_ Hc] _]]]; auto.
Qed.

Lemma history_elem ns key v s :
  v ∈ history ns key s ↔ ∃ cv, cv ∈ s_vers s ∧ is_version ns key v cv.
Proof.
  unfold history, is_version. rewrite list_elem_of_fmap.
  setoid_rewrite list_elem_of_filter. naive_solver.
Qed.

Lemma history_unique ns key v s cv cv' :
  NoDup (history ns key s) → cv ∈ s_vers s → cv' ∈ s_vers s →
  is_version ns key v cv → is_version ns key v cv' → cv = cv'.
Proof.
  intros Hnd Hin Hin' [Hid Hv] [Hid' Hv'].
  assert (∀ x, x ∈ s_vers s → cv_config_id x = makeConfigId ns key →
    keyed cv_version (filter (λ r, cv_config_id r = makeConfigId ns key) (s_vers s)) !!
      cv_version x = Some x) as Hlook.
  { intros x Hx Hxid. apply keyed_lookup; [done|]. by rewrite list_elem_of_filter. }
  pose proof (Hlook cv Hin Hid) as E. pose proof (Hlook cv' Hin' Hid') as E'.
  rewrite Hv in E. rewrite Hv' in E'. congruence.
Qed.

End theorems.

(** ** Witnesses *)
Lemma empty_tracked : on_store (tracked (fk := true)) (@view _ _ mem_observed mem_empty).
Proof. split; [split; [apply wf_empty|done]|done]. Qed.

Lemma versions_numbered_witness :
  @wp _ _ mem_observed _ mem_empty (@run_ops _ mem_store sample_ops) (λ o st', o = Undef ∨
    ∀ ns key, colon_free key →
      history ns key (cur st') = match s_cfgs (cur st') !! (ns, key) with
                                 | Some c => seqZ 1 (ck_version c)
                                 | None => []
                                 end).
Proof.
  apply (@versions_numbered _ mem_store mem_observed true mem_store_spec);
    [apply mem_empty_healthy|apply empty_tracked|].
  apply (bool_decide_unpack _). vm_compute. exact I.
Defined.

(** The sample store was reached by such operations. *)
Lemma mem_sample_tracked : on_store (tracked (fk := true)) (@view _ _ mem_observed mem_sample).
Proof.
  assert (Forall keeps_history (take 5 sample_ops)) as Hk
    by (apply (bool_decide_unpack _); vm_compute; exact I).
  destruct (@wp_run _ _ mem_observed _ _ _ _
    (@run_ops_ind _ mem_store mem_observed true mem_store_spec keeps_history
      (on_store (tracked (fk := true)))
      (λ o st st' Ho Hst Hstep, store_step_tracked o st st' Ho Hstep Hst)
      (take 5 sample_ops) mem_empty Hk (mem_empty_healthy true) empty_tracked))
    as [_ [Hu|[_ Ht]]]; [|exact Ht].
  exfalso. vm_compute in Hu. discriminate Hu.
Qed.


(** A deleted and recreated key has two records of version 1, and a rollback to
    version 1 may bring back the deleted value: here it does. *)
Example recreated_key_is_ambiguous :
  let prog :=
    _ ← @createConfig _ mem_store "ns" "k" "old" "op" 0;
    _ ← @deleteConfig _ mem_store "ns" "k" "op" false 1;
    _ ← @createConfig _ mem_store "ns" "k" "new" "op" 2;
    _ ← @rollbackConfig _ mem_store "ns" "k" 1 "op" 3;
    vs ← @getConfigVersions _ mem_store "ns" "k";
    c ← @getConfig _ mem_store "ns" "k" true;
    mret (cv_version <$> vs, ck_value <$> c) in
  (prog mem_empty).1 = Ret ([2; 1; 1], Some "old").
Proof. vm_compute. reflexivity. Qed.

(** A colon makes two keys share their history. *)
Example colon_keys_share_history :
  let prog :=
    _ ← @createConfig _ mem_store "a" "b:c" "1" "op" 0;
    _ ← @createConfig _ mem_store "a:b" "c" "2" "op" 1;
    @getConfigVersions _ mem_store "a" "b:c" in
  match (prog mem_empty).1 with Ret vs => cv_value <$> vs = ["1"; "2"] | _ => False end.
Proof. vm_compute. reflexivity. Qed.
