(* ===== verification/NamespaceManager.v ===== *)
(** * Applications, environments, clusters and namespaces

    [NamespaceManager] of [src/storage/namespace_manager.cpp], over any
    implementation of [ConfigStore].  The manager's own state is the list of
    custom environments; the methods that only use [store_] are computations on
    the store.  [resolveConfig] recurses along the parents of a namespace,
    which nothing keeps from forming a cycle, so it takes fuel, and [None]
    is the call that has not returned when the fuel is used up. *)
From S2P Require Import Prelude Timestamp DataTypes SqliteOrm MemOrm ConfigStore SqliteConfigStore StoreOps StoreInvariants StoreTheorems History.

Module NamespaceManager.
Definition kDefaultEnvironments : list string := ["DEV"; "FAT"; "UAT"; "PROD"].

Definition makeNamespaceId (appId env cluster name : string) : string :=
  appId +:+ "/" +:+ env +:+ "/" +:+ cluster +:+ "/" +:+ name.

(** ** Environments: the state is [customEnvironments_] *)
Definition listEnvironments : M (list string) (list string) :=
  λ custom, (Ret (kDefaultEnvironments ++ custom), custom).

Definition addCustomEnvironment (envName : string) : M (list string) bool := λ custom,
  if bool_decide (envName ∈ kDefaultEnvironments) then (Ret false, custom)
  else if bool_decide (envName ∈ custom) then (Ret false, custom)
  else (Ret true, custom ++ [envName]).

Section manager.
Context {T : Type} `{!ConfigStore T}.

(** ** Applications *)
Definition registerApplication (appId name : string) (description : option string) (now : Z)
    : M T bool :=
  existing ← getApplication appId;
  match existing with
  | Some _ => mret false
  | None => createApplication (mkApplication appId name description (getTimestamp now))
  end.

Definition removeApplication (appId : string) : M T bool := deleteApplication appId.
Definition listApplications : M T (list Application) := ConfigStore.listApplications.
Definition getApplication (appId : string) : M T (option Application) :=
  ConfigStore.getApplication appId.

(** ** Clusters *)
Definition createCluster (appId env cluster : string) (now : Z) : M T bool :=
  app ← ConfigStore.getApplication appId;
  match app with
  | None => mret false
  | Some _ =>
    existing ← ConfigStore.listNamespaces appId env cluster;
    match existing with
    | _ :: _ => mret true
    | [] =>
      ConfigStore.createNamespace
        (mkNamespace (makeNamespaceId appId env cluster "application") appId env cluster
          "application" "private" None None (getTimestamp now))
    end
  end.

(** [for (ns : namespaces) if (not found) clusters.push_back(ns.cluster)] *)
Definition collectClusters (namespaces : list Namespace) : list string :=
  foldl (λ clusters ns,
    if bool_decide (ns_cluster ns ∈ clusters) then clusters else clusters ++ [ns_cluster ns])
    [] namespaces.

Definition listClusters (appId env : string) : M T (list string) :=
  namespaces ← ConfigStore.listNamespaces appId env "";
  let clusters := collectClusters namespaces in
  mret (match clusters with [] => ["default"] | _ => clusters end).

(** ** Namespaces *)
Definition createNamespace (appId env cluster name type : string)
    (parentNamespaceId : option string) (now : Z) : M T bool :=
  app ← ConfigStore.getApplication appId;
  match app with
  | None => mret false
  | Some _ =>
    ConfigStore.createNamespace
      (mkNamespace (makeNamespaceId appId env cluster name) appId env cluster name type
        parentNamespaceId (Some false) (getTimestamp now))
  end.

Definition deleteNamespace (namespaceId : string) : M T bool :=
  ConfigStore.deleteNamespace namespaceId.
Definition getNamespace (namespaceId : string) : M T (option Namespace) :=
  ConfigStore.getNamespace namespaceId.
Definition listNamespaces (appId env cluster : string) : M T (list Namespace) :=
  ConfigStore.listNamespaces appId env cluster.

(** ** Inheritance *)
Fixpoint resolveConfig (fuel : nat) (namespaceId key : string) : M T (option (option ConfigKey)) :=
  match fuel with
  | O => mret None
  | S fuel =>
    config ← getConfig namespaceId key false;
    match config with
    | Some c => mret (Some (Some c))
    | None =>
      ns ← ConfigStore.getNamespace namespaceId;
      match ns with
      | None => mret (Some None)
      | Some n =>
        match ns_parent_namespace_id n with
        | Some parent => resolveConfig fuel parent key
        | None => mret (Some None)
        end
      end
    end
  end.
End manager.

(** ** Validation: the result and what the call leaves in [error] *)

(** The class [[a-zA-Z0-9._-]] of [kKeyNamePattern]. *)
Definition key_char (c : ascii) : bool :=
  let n := N_of_ascii c in
  ((97 <=? n)%N && (n <=? 122)%N) || ((65 <=? n)%N && (n <=? 90)%N) ||
  ((48 <=? n)%N && (n <=? 57)%N) ||
  bool_decide (c = "."%char) || bool_decide (c = "_"%char) || bool_decide (c = "-"%char).

(** [std::regex_match(key, kKeyNamePattern)]: one or more characters of the class. *)
Definition kKeyNamePattern (key : string) : bool :=
  negb (bool_decide (key = "")) && forallb key_char (chars key).

Definition validateKeyName (key error : string) : bool * string :=
  if bool_decide (key = "") then (false, "Key name cannot be empty")
  else if (128 <? String.length key)%nat then
    (false, "Key name exceeds maximum length of 128 characters")
  else if negb (kKeyNamePattern key) then
    (false, "Key name contains invalid characters. Allowed: [a-zA-Z0-9._-]")
  else (true, error).

Definition kMaxValueBytes : N := 1048576.

Definition validateValueSize (value : string) (maxBytes : N) (error : string) : bool * string :=
  if (maxBytes <? N.of_nat (String.length value))%N then
    (false, "Config value exceeds maximum size of " +:+ pretty maxBytes +:+ " bytes")
  else (true, error).
End NamespaceManager.
Import NamespaceManager.

(** ** Identifiers *)
Definition slash_free (s : string) : Prop := "/"%char ∉ chars s.
#[export] Instance slash_free_dec s : Decision (slash_free s).
Proof. unfold slash_free. apply _. Defined.

(** The part before the first separator is determined by the whole. *)
Lemma split_at_slash a t a' t' :
  slash_free a → slash_free a' → a +:+ "/" +:+ t = a' +:+ "/" +:+ t' → a = a' ∧ t = t'.
Proof.
  unfold slash_free. revert a'.
  induction a as [|x a IH]; intros [|x' a'] Ha Ha'; autorewrite with str; intros E; injection E; clear E.
  - by intros ->.
  - intros _ <-. cbn in Ha'. set_solver.
  - intros _ ->. cbn in Ha. set_solver.
  - intros E ->. cbn in Ha, Ha'. apply IH in E as [-> ->]; set_solver.
Qed.

(** Namespace ids are unambiguous: application, environment and cluster
    names without a slash and the namespace's name are recovered from the id. *)
Theorem makeNamespaceId_inj a e c n a' e' c' n' :
  slash_free a → slash_free e → slash_free c → slash_free a' → slash_free e' → slash_free c' →
  makeNamespaceId a e c n = makeNamespaceId a' e' c' n' →
  a = a' ∧ e = e' ∧ c = c' ∧ n = n'.
Proof.
  unfold makeNamespaceId. intros ? ? ? ? ? ? E.
  apply split_at_slash in E as [-> E]; [|done..].
  apply split_at_slash in E as [-> E]; [|done..].
  by apply split_at_slash in E as [-> ->].
Qed.

Lemma makeNamespaceId_inj_witness :
  slash_free "shop" ∧ "shop" = "shop" ∧ "DEV" = "DEV" ∧ "default" = "default" ∧ "a/b" = "a/b".
Proof.
  assert (slash_free "shop" ∧ slash_free "DEV" ∧ slash_free "default") as (? & ? & ?).
  { split_and!; apply (bool_decide_unpack _); vm_compute; exact I. }
  split; [done|]. by apply makeNamespaceId_inj.
Defined.

(** ** Validation *)
Lemma validateKeyName_accepts key error :
  (validateKeyName key error).1 = true ↔
    (1 ≤ String.length key ≤ 128)%nat ∧ Forall key_char (chars key).
Proof.
  unfold validateKeyName, kKeyNamePattern. rewrite <- forallb_True, Is_true_true.
  destruct key as [|a k]; [cbn; split; [done|intros [? _]; cbn in *; lia]|].
  rewrite (bool_decide_eq_false_2 (String a k = "")) by done. cbn [negb andb].
  destruct (128 <? _)%nat eqn:E1.
  - apply Nat.ltb_lt in E1. split; [done|]. lia.
  - apply Nat.ltb_ge in E1. cbn [String.length] in *.
    destruct (forallb key_char (chars (String a k))); cbn; split; try done.
    + split; [lia|done].
    + by intros [_ ?].
Qed.

Lemma validateKeyName_colon_free key error :
  (validateKeyName key error).1 = true → colon_free key.
Proof.
  intros [_ Hall]%validateKeyName_accepts Hin. rewrite Forall_forall in Hall.
  by apply Hall in Hin.
Qed.

(** [validateKeyName] accepts exactly the names of 1 to 128 characters from
    [a-zA-Z0-9._-]; it leaves the error string alone then and sets it
    otherwise; and an accepted name has no colon, so that the version records
    of accepted names never mix. *)
Theorem validateKeyName_correct key error :
  (validateKeyName key error = (true, error) ↔
    (1 ≤ String.length key ≤ 128)%nat ∧ Forall key_char (chars key)) ∧
  ((validateKeyName key error).1 = false → (validateKeyName key error).2 ≠ "") ∧
  ((validateKeyName key error).1 = true →
    ∀ ns ns' key' error', (validateKeyName key' error').1 = true →
      makeConfigId ns key = makeConfigId ns' key' → ns = ns' ∧ key = key').
Proof.
  split_and!.
  - rewrite <- (validateKeyName_accepts key error). unfold validateKeyName.
    repeat case_match; cbn; naive_solver.
  - unfold validateKeyName. repeat case_match; cbn; naive_solver.
  - intros Hk ns ns' key' error' Hk'. apply makeConfigId_inj; eauto using validateKeyName_colon_free.
Qed.

(** ** Inheritance *)

(** What a reader that does not ask for drafts finds under a key. *)
Definition live_config (c : content) (ns key : string) : option ConfigKey :=
  x ← s_cfgs c !! (ns, key); if decide (visible false x) then Some x else None.

Definition parent (c : content) (ns : string) : option string :=
  n ← s_nss c !! ns; ns_parent_namespace_id n.

Definition parent_rel (c : content) (ns ns' : string) : Prop := parent c ns = Some ns'.

(** The value a key has in a namespace by inheritance: its own, or the one it
    has in the parent. *)
Inductive resolves (c : content) (key : string) : string → option ConfigKey → Prop :=
  | resolves_own ns x : live_config c ns key = Some x → resolves c key ns (Some x)
  | resolves_root ns : live_config c ns key = None → parent c ns = None → resolves c key ns None
  | resolves_inherited ns ns' r : live_config c ns key = None → parent c ns = Some ns' →
      resolves c key ns' r → resolves c key ns r.

Lemma resolves_det c key ns r r' : resolves c key ns r → resolves c key ns r' → r = r'.
Proof. intros H1. revert r'. induction H1; intros r' H2; inversion H2; simplify_eq; eauto. Qed.

(** The same by recursion on fuel, on the content. *)
Fixpoint resolve (c : content) (fuel : nat) (ns key : string) : option (option ConfigKey) :=
  match fuel with
  | O => None
  | S fuel =>
    match live_config c ns key, parent c ns with
    | Some x, _ => Some (Some x)
    | None, Some ns' => resolve c fuel ns' key
    | None, None => Some None
    end
  end.

Lemma resolve_sound c fuel ns key r : resolve c fuel ns key = Some r → resolves c key ns r.
Proof.
  revert ns. induction fuel as [|fuel IH]; intros ns; cbn; [done|].
  destruct (live_config c ns key) eqn:?, (parent c ns) eqn:?; intros E; simplify_eq;
    eauto using resolves.
Qed.

Definition acyclic (c : content) : Prop := ∀ ns, ¬ tc (parent_rel c) ns ns.

(** The fuel a walk needs: one call per namespace not yet visited, and one more. *)
Lemma resolve_fuel c key (X : gset string) fuel ns :
  acyclic c → X ⊆ dom (s_nss c) → (∀ x, x ∈ X → tc (parent_rel c) x ns) →
  (size (dom (s_nss c) ∖ X) < fuel)%nat → is_Some (resolve c fuel ns key).
Proof.
  intros Hac. revert X ns. induction fuel as [|fuel IH]; intros X ns HX Hlead Hsz; [lia|].
  cbn. destruct (live_config c ns key); [done|]. destruct (parent c ns) as [ns'|] eqn:Hp; [|done].
  assert (ns ∈ dom (s_nss c)) as Hdom.
  { apply elem_of_dom. unfold parent in Hp. by destruct (s_nss c !! ns). }
  assert (ns ∉ X) as Hnew by (intros Hin; by apply (Hac ns), Hlead).
  apply (IH (X ∪ {[ns]})).
  - set_solver.
  - intros x [Hx|Hx%elem_of_singleton]%elem_of_union; [|subst; by apply tc_once].
    eapply tc_r; [by apply Hlead|done].
  - assert (dom (s_nss c) ∖ (X ∪ {[ns]}) ⊂ dom (s_nss c) ∖ X) as Hlt%subset_size by set_solver.
    lia.
Qed.

Section resolve.
Context {T : Type} `{!ConfigStore T} {O : Observed T Store} {fk : bool}
  `{Hspec : !ConfigStoreSpec T O fk}.

Lemma wp_resolveConfig fuel ns key (s : T) :
  ready s →
  wp s (resolveConfig fuel ns key) (λ o st', o = Ret (resolve (cur (view s)) fuel ns key) ∧ st' = view s).
Proof.
  revert ns s. induction fuel as [|fuel IH]; intros ns s Hs; [by apply wp_ret|]. cbn.
  eapply wp_call; [by apply getConfig_spec|]. cbn. fold (live_config (cur (view s)) ns key).
  intros s1 Hs1 Hv1. destruct (live_config _ _ _) as [x|].
  { apply wp_ret; [done|]. rewrite Hv1. by destruct (view s). }
  assert (view s1 = view s) as E1 by (rewrite Hv1; by destruct (view s)).
  eapply wp_ask; [by apply getNamespace_spec|]. cbn. rewrite E1.
  intros ? s2 -> Hs2 E. unfold parent. destruct (s_nss (cur (view s)) !! ns) as [n|]; cbn.
  - destruct (ns_parent_namespace_id n) as [p|].
    + eapply wp_mono; [by apply IH|]. by rewrite E.
    + apply wp_ret; [done|]. by rewrite E.
  - apply wp_ret; [done|]. by rewrite E.
Qed.

(** C10: inheritance resolves to the nearest ancestor.  When no namespace is
    its own ancestor, [resolveConfig] returns within one call more than there
    are namespaces, changes nothing, and returns the visible config of the
    first namespace on the parent chain that has one, or nothing if the
    chain ends without one. *)
Theorem resolveConfig_correct fuel ns key (s : T) :
  ready s → acyclic (cur (view s)) → (size (s_nss (cur (view s))) < fuel)%nat →
  wp s (resolveConfig fuel ns key) (λ o st',
    st' = view s ∧ ∃ r, o = Ret (Some r) ∧
      ∀ r', resolves (cur (view s)) key ns r' ↔ r' = r).
Proof.
  intros Hs Hac Hf. eapply wp_mono; [by apply wp_resolveConfig|]. intros o st' [-> ->].
  split; [done|]. destruct (resolve_fuel (cur (view s)) key ∅ fuel ns) as [r Hr];
    [done|set_solver|set_solver| |].
  - rewrite difference_empty_L. by rewrite size_dom.
  - exists r. rewrite Hr. split; [done|]. apply resolve_sound in Hr. intros r'.
    split; [|by intros ->]. intros Hr'. by eapply resolves_det.
Qed.

(** A cycle of parents makes the call run forever.  If every namespace of
    a set has its parent in the set and none has the key, then no number of
    calls is enough: [resolveConfig] never returns. *)
Theorem resolveConfig_cycle (C : gset string) ns key (s : T) :
  ready s → ns ∈ C →
  (∀ n, n ∈ C → live_config (cur (view s)) n key = None ∧
    ∃ p, p ∈ C ∧ parent (cur (view s)) n = Some p) →
  ∀ fuel, wp s (resolveConfig fuel ns key) (λ o _, o = Ret None).
Proof.
  intros Hs Hns HC fuel. eapply wp_mono; [by apply wp_resolveConfig|]. intros o st' [-> _].
  f_equal. revert ns Hns. induction fuel as [|fuel IH]; intros ns Hns; [done|]. cbn.
  destruct (HC ns Hns) as (-> & p & Hp & ->). by apply IH.
Qed.
End resolve.

(** ** Registration *)
Section registration.
Context {T : Type} `{!ConfigStore T} {O : Observed T Store} {fk : bool}
  `{Hspec : !ConfigStoreSpec T O fk}.

(** [createNamespace] stores what it was given, once, under its id, and
    only for a registered application; the result says whether it did. *)
Theorem createNamespace_then_get a e c n ty par now (s : T) :
  ready s →
  let id := makeNamespaceId a e c n in
  wp s (ok ← createNamespace a e c n ty par now; x ← getNamespace id; mret (ok, x))
    (λ o _, o = match s_apps (cur (view s)) !! a, s_nss (cur (view s)) !! id with
      | Some _, None => Ret (true,
          Some (mkNamespace id a e c n ty par (Some false) (getTimestamp now)))
      | _, old => Ret (false, old)
      end).
Proof.
  intros Hs id. unfold createNamespace. apply wp_bind.
  eapply wp_ask; [by apply getApplication_spec|]. cbn. intros ? s1 -> Hs1 Hv1.
  assert (∀ (ok : bool) (s2 : T), ready s2 → wp s2 (x ← getNamespace id; mret (ok, x))
    (λ o _, o = Ret (ok, s_nss (cur (view s2)) !! id))) as Hget.
  { intros ok s2 Hs2. eapply wp_ask; [by apply getNamespace_spec|]. cbn.
    intros ? s3 -> Hs3 _. by apply wp_ret. }
  destruct (s_apps (cur (view s)) !! a) eqn:Ha.
  - eapply wp_mono; [by apply createNamespace_spec|]. unfold refines, spec_createNamespace. cbn.
    rewrite Hv1. fold id. destruct (s_nss (cur (view s)) !! id) eqn:Hid.
    + rewrite decide_False by naive_solver. intros ? ? [-> ->] s2 Hs2 Hv2.
      eapply wp_mono; [by apply Hget|]. cbn. rewrite Hv2. cbn. intros ? _ ->. by rewrite Hid.
    + rewrite decide_True by (rewrite Ha; naive_solver). intros ? ? [-> ->] s2 Hs2 Hv2.
      eapply wp_mono; [by apply Hget|]. cbn. rewrite Hv2. cbn. intros ? _ ->.
      by rewrite lookup_insert_eq.
  - apply wp_ret; [done|]. intros s2 Hs2 Hv2. eapply wp_mono; [by apply Hget|]. cbn.
    intros ? _ ->. by rewrite Hv2, Hv1.
Qed.

(** A cluster that was created can be found.  [createCluster] answers
    [true] only for a registered application, and the cluster then has
    a namespace: the one it had, or the new namespace [application]. *)
Theorem createCluster_creates a e c now (s : T) :
  ready s →
  wp s (ok ← createCluster a e c now; l ← listNamespaces a e c; mret (ok, l))
    (λ o _, ∃ ok l, o = Ret (ok, l) ∧
      (ok = true → is_Some (s_apps (cur (view s)) !! a) ∧ l ≠ []) ∧
      (s_apps (cur (view s)) !! a = None → ok = false)).
Proof.
  intros Hs. unfold createCluster. apply wp_bind.
  eapply wp_ask; [by apply getApplication_spec|]. cbn. intros ? s1 -> Hs1 Hv1.
  destruct (s_apps (cur (view s)) !! a) as [app|] eqn:Ha.
  2: { apply wp_ret; [done|]. intros s2 Hs2 Hv2.
    eapply wp_ask; [by apply listNamespaces_spec|]. intros l s3 _ Hs3 _.
    apply wp_ret; [done|]. by exists false, l. }
  eapply wp_ask; [by apply listNamespaces_spec|]. cbn. rewrite Hv1.
  intros [|n ns] s2 [Hnd Hl] Hs2 Hv2.
  - eapply wp_mono; [by apply createNamespace_spec|]. unfold refines, spec_createNamespace.
    cbn. case_decide as Hd; intros ? ? [-> ->] s3 Hs3 Hv3;
      (eapply wp_ask; [by apply listNamespaces_spec|]); rewrite Hv3; cbn;
      intros l s4 [_ Hl'] Hs4 _; (apply wp_ret; [done|]); eexists _, l; (split; [done|]);
      split; try done.
    intros _. split; [done|]. intros ->.
    assert (∃ n, n ∈ @nil Namespace) as (? & []%not_elem_of_nil).
    eexists. apply Hl'. split; [eexists; apply lookup_insert_eq|done].
  - apply wp_ret; [done|]. intros s3 Hs3 Hv3. eapply wp_ask; [by apply listNamespaces_spec|].
    rewrite Hv3, Hv2. cbn. intros l s4 [_ Hl'] Hs4 _. apply wp_ret; [done|].
    exists true, l. split; [done|]. split; [|done]. intros _. split; [done|]. intros ->.
    assert (n ∈ @nil Namespace) as []%not_elem_of_nil. apply Hl', Hl. by left.
Qed.

Lemma collectClusters_empty (l : list Namespace) :
  Forall (λ n, ns_cluster n = "") l →
  collectClusters l = match l with [] => [] | _ => [""] end.
Proof.
  assert (∀ l, Forall (λ n, ns_cluster n = "") l →
    foldl (λ clusters n, if bool_decide (ns_cluster n ∈ clusters) then clusters
      else clusters ++ [ns_cluster n]) [""] l = [""]) as Hfold.
  { induction 1 as [|n l' Hn _ IH]; cbn; [done|]. rewrite Hn.
    rewrite bool_decide_true by by left. done. }
  intros [|n l' Hn Hl']; [done|]. unfold collectClusters. cbn. rewrite Hn. by apply Hfold.
Qed.

(** [listClusters] does not list the clusters.  It asks the store for the
    namespaces of the cluster named by the empty string, so whatever clusters
    an environment has, the answer is the empty name if a namespace sits in
    that cluster and "default" otherwise. *)
Theorem listClusters_answer a e (s : T) :
  ready s →
  wp s (listClusters a e) (queries (λ c l,
    l = if decide (map_Exists (λ _ n, ns_app_id n = a ∧ ns_env n = e ∧ ns_cluster n = "") (s_nss c))
        then [""] else ["default"]) (view s)).
Proof.
  intros Hs. unfold listClusters. eapply wp_ask; [by apply listNamespaces_spec|].
  intros l s1 [_ Hl] Hs1 Hv1. apply wp_ret; [done|]. split; [done|]. eexists. split; [done|].
  rewrite collectClusters_empty by (apply Forall_forall; intros n Hn; by apply Hl in Hn as (_ & _ & _ & ?)).
  destruct l as [|n l].
  - rewrite decide_False; [done|]. intros (i & n & Hn & HP).
    assert (n ∈ @nil Namespace) as []%not_elem_of_nil. apply Hl. eauto.
  - assert (n ∈ n :: l) as [(i & Hi) HP]%Hl by by left.
    rewrite decide_True by (by exists i, n). done.
Qed.
End registration.

(** Adding an environment keeps the list without repetitions. *)
Lemma addCustomEnvironment_step e custom :
  NoDup (kDefaultEnvironments ++ custom) →
  let custom' := (addCustomEnvironment e custom).2 in
  NoDup (kDefaultEnvironments ++ custom') ∧
  ∀ x, x ∈ kDefaultEnvironments ++ custom' ↔ x ∈ kDefaultEnvironments ++ custom ∨ x = e.
Proof.
  unfold addCustomEnvironment. generalize kDefaultEnvironments as D. intros D Hnd.
  repeat case_bool_decide; cbn; [set_solver..|].
  rewrite (assoc_L (++)), NoDup_snoc. set_solver.
Qed.

Lemma addCustomEnvironments adds custom :
  NoDup (kDefaultEnvironments ++ custom) →
  let custom' := foldl (λ custom e, (addCustomEnvironment e custom).2) custom adds in
  NoDup (kDefaultEnvironments ++ custom') ∧
  ∀ x, x ∈ kDefaultEnvironments ++ custom' ↔ x ∈ kDefaultEnvironments ++ custom ∨ x ∈ adds.
Proof.
  revert custom. induction adds as [|a adds IH]; intros custom Hnd.
  - split; [done|]. intros x. rewrite elem_of_nil. tauto.
  - destruct (addCustomEnvironment_step a custom Hnd) as [Hnd' Hin'].
    destruct (IH _ Hnd') as [Hnd'' Hin'']. split; [done|]. intros x.
    rewrite Hin'', Hin', elem_of_cons. tauto.
Qed.

(** The environments are the four defaults followed by the custom ones, in the
    order they were added and without repetitions, whatever is added. *)
Theorem environments_distinct (adds : list string) :
  let custom := foldl (λ custom e, (addCustomEnvironment e custom).2) [] adds in
  ∃ envs, listEnvironments custom = (Ret envs, custom) ∧
    kDefaultEnvironments `prefix_of` envs ∧ NoDup envs ∧
    ∀ e, e ∈ envs ↔ e ∈ kDefaultEnvironments ∨ e ∈ adds.
Proof.
  destruct (addCustomEnvironments adds []) as [Hnd Hin].
  { apply (bool_decide_unpack _). vm_compute. exact I. }
  eexists. split; [done|]. split; [by apply prefix_app_r|]. split; [done|].
  intros e. by rewrite Hin, app_nil_r.
Qed.

(** ** Witnesses *)

(** A ranking that decreases along parents rules out cycles. *)
Definition ranked (rank : string → nat) (c : content) : Prop :=
  map_Forall (λ i n,
    match ns_parent_namespace_id n with Some p => (rank p < rank i)%nat | None => True end) (s_nss c).

#[export] Instance ranked_dec rank c : Decision (ranked rank c).
Proof. apply map_Forall_dec. intros i n. destruct (ns_parent_namespace_id n); apply _. Defined.

Lemma ranked_acyclic rank c : ranked rank c → acyclic c.
Proof.
  intros Hr. assert (∀ x y, tc (parent_rel c) x y → (rank y < rank x)%nat) as Hdec.
  { assert (∀ x y, parent_rel c x y → (rank y < rank x)%nat) as H1.
    { intros x y Hxy. unfold parent_rel, parent in Hxy. destruct (s_nss c !! x) as [n|] eqn:Hn; [|done].
      cbn in Hxy. specialize (Hr x n Hn). cbn in Hr. by rewrite Hxy in Hr. }
    induction 1 as [x y Hxy|x y z Hxy _ IH]; [by apply H1|]. apply H1 in Hxy. lia. }
  intros ns Hc%Hdec. lia.
Qed.

(** A namespace [child] with the parent [base], and one that is its own parent. *)
Definition base_id : string := "app/DEV/default/base".
Definition child_id : string := "app/DEV/default/child".
Definition loop_id : string := "app/DEV/default/loop".

Definition mem_family : mem := snd (
  (_ ← @registerApplication _ mem_store "app" "App" None 0;
   _ ← @createNamespace _ mem_store "app" "DEV" "default" "base" "public" None 1;
   _ ← @createNamespace _ mem_store "app" "DEV" "default" "child" "private" (Some base_id) 2;
   _ ← @ConfigStore.createConfig _ mem_store base_id "k" "inherited" "op" 3;
   @ConfigStore.publishRelease _ mem_store base_id "n" "op" empty_release 4) mem_empty).

Definition mem_loop : mem := snd (
  (_ ← @registerApplication _ mem_store "app" "App" None 0;
   @createNamespace _ mem_store "app" "DEV" "default" "loop" "public" (Some loop_id) 1) mem_empty).

Lemma mem_healthy_of (c : mem) :
  m_faults c = [] → m_tx c = None → bool_decide (valid true (m_db c)) = true → mem_healthy true c.
Proof.
  intros Hf Ht Hv%bool_decide_eq_true. split; [done|]. split; [done|]. rewrite Ht. done.
Qed.

Lemma mem_family_healthy : mem_healthy true mem_family.
Proof. apply mem_healthy_of; vm_compute; reflexivity. Qed.
Lemma mem_loop_healthy : mem_healthy true mem_loop.
Proof. apply mem_healthy_of; vm_compute; reflexivity. Qed.

Lemma resolveConfig_correct_witness :
  let c := cur (@view _ _ mem_observed mem_family) in
  ck_value <$> mjoin (resolve c 3 child_id "k") = Some "inherited" ∧
  @wp _ _ mem_observed _ mem_family (@resolveConfig _ mem_store 3 child_id "k") (λ o st',
    st' = @view _ _ mem_observed mem_family ∧ ∃ r, o = Ret (Some r) ∧
      ∀ r', resolves c "k" child_id r' ↔ r' = r).
Proof.
  intros c. split; [vm_compute; reflexivity|].
  apply (@resolveConfig_correct _ mem_store mem_observed true mem_store_spec 3 child_id "k" mem_family).
  - apply mem_family_healthy.
  - apply (ranked_acyclic (λ s, if decide (s = child_id) then 1%nat else 0%nat)).
    apply (bool_decide_unpack _). vm_compute. exact I.
  - vm_compute. lia.
Defined.

Lemma resolveConfig_cycle_witness :
  @wp _ _ mem_observed _ mem_loop (@resolveConfig _ mem_store 1000 loop_id "k")
    (λ o _, o = Ret None).
Proof.
  apply (@resolveConfig_cycle _ mem_store mem_observed true mem_store_spec {[ loop_id ]});
    [apply mem_loop_healthy|set_solver|].
  intros n ->%elem_of_singleton. split; [vm_compute; reflexivity|].
  exists loop_id. split; [set_solver|vm_compute; reflexivity].
Defined.

Lemma createNamespace_then_get_witness :
  let v := cur (@view _ _ mem_observed mem_family) in
  let id := makeNamespaceId "app" "DEV" "default" "main" in
  @wp _ _ mem_observed _ mem_family
    (ok ← @createNamespace _ mem_store "app" "DEV" "default" "main" "private" None 5;
     x ← @getNamespace _ mem_store id; mret (ok, x))
    (λ o _, o = match s_apps v !! "app", s_nss v !! id with
      | Some _, None => Ret (true, Some (mkNamespace id "app" "DEV" "default" "main" "private" None
          (Some false) (getTimestamp 5)))
      | _, old => Ret (false, old)
      end).
Proof.
  intros v id. apply (@createNamespace_then_get _ mem_store mem_observed true mem_store_spec).
  apply mem_family_healthy.
Defined.

Lemma createCluster_creates_witness :
  let v := cur (@view _ _ mem_observed mem_family) in
  @wp _ _ mem_observed _ mem_family
    (ok ← @createCluster _ mem_store "app" "DEV" "c2" 5;
     l ← @listNamespaces _ mem_store "app" "DEV" "c2"; mret (ok, l))
    (λ o _, ∃ ok l, o = Ret (ok, l) ∧
      (ok = true → is_Some (s_apps v !! "app") ∧ l ≠ []) ∧ (s_apps v !! "app" = None → ok = false)).
Proof.
  intros v. apply (@createCluster_creates _ mem_store mem_observed true mem_store_spec).
  apply mem_family_healthy.
Defined.

Lemma listClusters_answer_witness :
  @wp _ _ mem_observed _ mem_family (@listClusters _ mem_store "app" "DEV")
    (queries (λ c l, l = if decide (map_Exists
        (λ _ n, ns_app_id n = "app" ∧ ns_env n = "DEV" ∧ ns_cluster n = "") (s_nss c))
      then [""] else ["default"]) (@view _ _ mem_observed mem_family)).
Proof.
  apply (@listClusters_answer _ mem_store mem_observed true mem_store_spec). apply mem_family_healthy.
Defined.
