(* ===== verification/PublishEngine.v ===== *)
(** * Drafts, approvals, releases and grayscale rules

    [PublishEngine] of [src/publish/publish_engine.cpp] over any implementation
    of [ConfigStore], and [ReleaseRuleEngine] of
    [src/publish/release_rule_engine.cpp].

    [json_dump] is the serializer of the JSON library applied to an array of
    strings ([None]: it throws, as it does on a string that is not UTF-8), and
    [std_hash] is [std::hash<std::string>], whose values the language does not
    fix. *)
From S2P Require Import Prelude Timestamp DataTypes SqliteOrm MemOrm ConfigStore SqliteConfigStore StoreOps StoreInvariants StoreTheorems History NamespaceManager.

Module PublishEngine.
Section engine.
Context {T : Type} `{!ConfigStore T}.
Context (json_dump : list string → option string).

Definition getDraftChanges (namespaceId : string) : M T (list ConfigKey) :=
  configs ← listConfigs namespaceId true;
  mret (filter (λ c, ck_status c = "draft") configs).

Definition addDraftChange (namespaceId key value operatorId : string) (now : Z) : M T bool :=
  existing ← getConfig namespaceId key false;
  match existing with
  | Some _ => updateConfig namespaceId key value operatorId true now
  | None => createConfig namespaceId key value operatorId now
  end.

Definition removeDraftChange (namespaceId key operatorId : string) (now : Z) : M T bool :=
  deleteConfig namespaceId key operatorId true now.

Definition publish (namespaceId releaseNote operatorId : string) (outRelease : Release) (now : Z)
    : M T (bool * Release) :=
  publishRelease namespaceId releaseNote operatorId outRelease now.

(** The result is [true] and [outApproval], whatever [createApproval] says. *)
Definition submitForApproval (namespaceId submitterId : string) (now : Z) : M T (bool * Approval) :=
  let approval := mkApproval 0 namespaceId submitterId "" "pending" "" "" "" in
  r ← createApproval approval now;
  mret (true, r.2).

Definition approve (approvalId : Z) (approverId comment : string) (now : Z) : M T bool :=
  updateApprovalStatus approvalId "approved" comment now.

Definition reject (approvalId : Z) (approverId comment : string) (now : Z) : M T bool :=
  updateApprovalStatus approvalId "rejected" comment now.

Definition getPendingApprovals (namespaceId : string) : M T (list Approval) :=
  ConfigStore.getPendingApprovals namespaceId.

(** [release_type = "grayscale"; grayscale_percentage = percentage; whitelist = ..] *)
Definition grayscale (percentage : Z) (whitelist : option string) (r : Release) : Release :=
  mkRelease (rel_id r) (rel_namespace_id r) (rel_release_version r) (rel_release_note r)
    "grayscale" (rel_status r) (Some percentage)
    (match whitelist with Some w => Some w | None => rel_whitelist r end)
    (rel_operator_id r) (rel_created_at r).

(** [Some r]: the method returns [true] with [outRelease = r]; [None]: it
    returns [false] (what [outRelease] then holds is not modelled). *)
Definition publishGrayscale (namespaceId releaseNote operatorId : string) (percentage : Z)
    (whitelist : list string) (outRelease : Release) (now : Z) : M T (option Release) :=
  _ ← beginTransaction;
  try_catch
    (r ← publishRelease namespaceId releaseNote operatorId outRelease now;
     w ← match whitelist with
         | [] => mret None
         | _ => match json_dump whitelist with Some w => mret (Some w) | None => throw end
         end;
     _ ← commitTransaction;
     mret (Some (grayscale percentage w r.2)))
    (_ ← rollbackTransaction; mret None).

(** [Release newRelease; newRelease.namespace_id = ..; ...] of [fullRollout] *)
Definition rollout_release (namespaceId operatorId : string) (releaseId : Z) : Release :=
  mkRelease 0 namespaceId 0 ("Full rollout of release " +:+ pretty releaseId) "full" "active"
    None None operatorId "".

Definition fullRollout (namespaceId operatorId : string) (releaseId : Z) (now : Z) : M T bool :=
  release ← getRelease releaseId;
  match release with
  | None => mret false
  | Some r =>
    if bool_decide (rel_status r ≠ "active") then mret false
    else
      _ ← retireRelease releaseId;
      res ← createRelease (rollout_release namespaceId operatorId releaseId) now;
      mret (res.1)
  end.

Definition getReleaseHistory (namespaceId : string) (page pageSize : Z) : M T (list Release) :=
  getReleases (mkReleaseQuery namespaceId page pageSize).
End engine.
End PublishEngine.

Module ReleaseRuleEngine.
(** [std_hash] ranges over [size_t]; [hash % 100] is below 100 and fits an [int]. *)
Definition evaluateClientMatch (std_hash : string → Z) (instanceId ipAddress : string)
    (grayscalePercentage : Z) (whitelist : list string) : bool :=
  if existsb (λ w, bool_decide (w = instanceId) || bool_decide (w = ipAddress)) whitelist
  then true
  else if 100 <=? grayscalePercentage then true
  else if grayscalePercentage <=? 0 then false
  else
    let hash := std_hash (instanceId +:+ ipAddress) in
    let bucket := hash mod 100 in
    bucket <? grayscalePercentage.
End ReleaseRuleEngine.
Import PublishEngine ReleaseRuleEngine.

Section publish_theorems.
Context {T : Type} `{!ConfigStore T} {O : Observed T Store} {fk : bool}
  `{Hspec : !ConfigStoreSpec T O fk}.

Lemma publish_call ns note opr out now (s : T) :
  ready s → saved (view s) = None →
  wp s (publish ns note opr out now) (refines (spec_publishRelease ns note opr now) (view s)).
Proof.
  intros Hs Hsv. eapply wp_mono; [by apply publishRelease_spec|]. cbn. by rewrite Hsv.
Qed.

(** [addDraftChange] on the content. *)
Definition spec_addDraftChange ns key value opr now : M content bool := λ s,
  match live_config s ns key with
  | Some _ => spec_updateConfig ns key value opr true now s
  | None => spec_createConfig ns key value opr now s
  end.

Lemma addDraftChange_call ns key value opr now (s : T) :
  ready s →
  wp s (addDraftChange ns key value opr now)
    (refines (spec_addDraftChange ns key value opr now) (view s)).
Proof.
  intros Hs. eapply wp_call; [by apply getConfig_spec|]. cbn. intros s1 Hs1 Hv1.
  assert (view s1 = view s) as E by (rewrite Hv1; by destruct (view s)). clear Hv1.
  unfold refines, spec_addDraftChange. fold (live_config (cur (view s)) ns key).
  destruct (live_config _ _ _); rewrite <- E; [by apply updateConfig_spec|by apply createConfig_spec].
Qed.

(** The row an edit leaves: an unpublished draft with the new value, or the
    draft that was there, on which the edit is refused. *)
Lemma spec_addDraftChange_row ns key value opr now (c : content) :
  wf fk c →
  match spec_addDraftChange ns key value opr now c with
  | (Ret ok, c') => ∃ x, s_cfgs c' !! (ns, key) = Some x ∧ ck_pk x = (ns, key) ∧
      ck_status x = "draft" ∧
      ck_value x = match s_cfgs c !! (ns, key) with
        | Some old => if decide (ck_status old = "draft") then ck_value old else value
        | None => value
        end
  | (Throw, _) => False
  | (Undef, _) => True
  end.
Proof.
  intros Hwf. unfold spec_addDraftChange, live_config, spec_updateConfig, spec_createConfig.
  destruct (s_cfgs c !! (ns, key)) as [old|] eqn:Hold; cbn.
  - assert (ck_pk old = (ns, key)) as Hpk by (by apply (wf_cfgs _ _ Hwf) in Hold as [? _ _ _ _]).
    destruct (decide (ck_status old = "draft")).
    + rewrite decide_False by (unfold visible; naive_solver). eauto.
    + rewrite decide_True by by right. case_decide; [|done]. cbn. rewrite lookup_insert_eq. eauto.
  - rewrite lookup_insert_eq. eauto.
Qed.

(** The draft list is exactly the drafts: [getDraftChanges] returns every
    row of the namespace whose status is "draft", once, and nothing else. *)
Theorem getDraftChanges_exact ns (s : T) :
  ready s →
  wp s (getDraftChanges ns) (queries (λ c l, enumerates l (s_cfgs c)
    (λ r, ck_namespace_id r = ns ∧ ck_status r = "draft")) (view s)).
Proof.
  intros Hs. eapply wp_ask; [by apply listConfigs_spec|]. intros l s1 [Hnd Hl] Hs1 Hv1.
  apply wp_ret; [done|]. split; [done|]. eexists. split; [done|]. split; [by apply NoDup_filter|].
  intros r. rewrite list_elem_of_filter, Hl. unfold visible. naive_solver.
Qed.

(** What an edit through the engine does.  A new key becomes a draft; a
    live key becomes a draft with the new value and the next version, and is
    gone for readers that do not ask for drafts; an edit of a key that is
    already a draft is refused and changes nothing. *)
Theorem addDraftChange_then_get ns key value opr now (s : T) :
  ready s →
  wp s (ok ← addDraftChange ns key value opr now;
        d ← getConfig ns key true; r ← getConfig ns key false; mret (ok, d, r))
    (λ o _, match s_cfgs (cur (view s)) !! (ns, key) with
      | None => o = Ret (true, Some (new_config ns key value (getTimestamp now)), None)
      | Some c =>
        if decide (ck_status c = "draft") then o = Ret (false, Some c, None)
        else if decide (in_int32 (ck_version c + 1)) then
          o = Ret (true, Some (edit_config c value (ck_version c + 1) true (getTimestamp now)), None)
        else o = Undef
      end).
Proof.
  intros Hs. eapply wp_call; [by apply addDraftChange_call|].
  assert (∀ (ok : bool) (s1 : T) x, ready s1 → s_cfgs (cur (view s1)) !! (ns, key) = Some x →
    ck_status x = "draft" →
    wp s1 (d ← getConfig ns key true; r ← getConfig ns key false; mret (ok, d, r))
      (λ o _, o = Ret (ok, Some x, None))) as Hget.
  { intros ok s1 x Hs1 Hx Hst. eapply wp_call; [by apply getConfig_spec|]. cbn.
    intros s2 Hs2 Hv2. apply (wp_getConfig_last ns key false (λ r, (ok, _, r))); [done|].
    rewrite Hv2. cbn. rewrite Hx. cbn. rewrite decide_True by by left.
    rewrite decide_False; [done|]. unfold visible. naive_solver. }
  unfold spec_addDraftChange, live_config, spec_updateConfig, spec_createConfig.
  destruct (s_cfgs (cur (view s)) !! (ns, key)) as [c|] eqn:Hc; cbn.
  - destruct (decide (ck_status c = "draft")) as [Hd|Hd].
    + rewrite decide_False by (unfold visible; naive_solver). intros s1 Hs1 Hv1.
      apply Hget; [done| |done]. by rewrite Hv1.
    + rewrite decide_True by by right. case_decide; [|done]. intros s1 Hs1 Hv1.
      apply Hget; [done| |done]. rewrite Hv1. apply lookup_insert_eq.
  - intros s1 Hs1 Hv1. apply Hget; [done| |done]. rewrite Hv1. apply lookup_insert_eq.
Qed.

(** C8: from edit to readers.  Outside a transaction, when an edit of a key
    is accepted, publishing the namespace shows its value to every reader, as
    live. *)
Theorem edit_publish_get ns key value opr note out t1 t2 (s : T) :
  ready s → saved (view s) = None → wf fk (cur (view s)) →
  wp s (ok ← addDraftChange ns key value opr t1;
        p ← publish ns note opr out t2; r ← getConfig ns key false; mret (ok, p.1, r))
    (λ o _, o = Undef ∨ ∃ ok r, o = Ret (ok, true, Some r) ∧ ck_status r = "live" ∧
      (ok = true → ck_value r = value)).
Proof.
  intros Hs Hsv Hwf. eapply wp_call; [by apply addDraftChange_call|].
  assert (∀ (ok : bool) c x (s1 : T), ready s1 → view s1 = mkStore c (saved (view s)) →
    s_cfgs c !! (ns, key) = Some x → ck_namespace_id x = ns → (ok = true → ck_value x = value) →
    wp s1 (p ← publish ns note opr out t2; r ← getConfig ns key false; mret (ok, p.1, r))
      (λ o _, o = Undef ∨ ∃ ok r, o = Ret (ok, true, Some r) ∧ ck_status r = "live" ∧
        (ok = true → ck_value r = value))) as Hpub.
  { intros ok c x s1 Hs1 Hv1 Hx Hns Hval. eapply wp_call;
      [apply publish_call; [done|rewrite Hv1; exact Hsv]|].
    unfold spec_publishRelease. case_decide; [|by left]. intros s2 Hs2 Hv2.
    apply (wp_getConfig_last ns key false (λ r, (ok, true, r))); [done|]. right.
    rewrite Hv2, Hv1. cbn. rewrite lookup_fmap, Hx. cbn. unfold go_live. rewrite (decide_True (P := ck_namespace_id x = ns)) by done.
    rewrite decide_True by by right. by eexists _, _. }
  unfold spec_addDraftChange, live_config, spec_updateConfig, spec_createConfig.
  destruct (s_cfgs (cur (view s)) !! (ns, key)) as [c|] eqn:Hc; cbn.
  - assert (ck_namespace_id c = ns) by (by apply (wf_cfgs _ _ Hwf) in Hc as [[= ? ?] _ _ _ _]).
    case_decide.
    + case_decide; [|by left]. intros s1 Hs1 Hv1.
      eapply Hpub; [done|done|apply lookup_insert_eq|done..].
    + intros s1 Hs1 Hv1. by eapply Hpub.
  - intros s1 Hs1 Hv1. eapply Hpub; [done|done|apply lookup_insert_eq|done..].
Qed.
End publish_theorems.

(** One row taken off an enumeration by a change of that row. *)
Lemma enumerates_take_off {K R : Type} `{Countable K} (key : R → K) (m : gmap K R) i a f
    (P : R → Prop) before after :
  map_Forall (λ k r, key r = k) m → key a = i → m !! i = None → P a → ¬ P (f a) →
  enumerates before (<[i := a]> m) P → enumerates after (alter f i (<[i := a]> m)) P →
  before ≡ₚ a :: after.
Proof.
  intros Hm Ha Hi HPa HPf [Hnd Hb] [Hnd' Hf].
  assert (∀ x, x ∈ after ↔ (∃ k, m !! k = Some x) ∧ P x) as Haft.
  { intros x. rewrite Hf. split; intros [[k Hk] HP]; (split; [|done]); exists k.
    - destruct (decide (k = i)) as [->|].
      + rewrite lookup_alter_eq, lookup_insert_eq in Hk. cbn in Hk. congruence.
      + by rewrite lookup_alter_ne, lookup_insert_ne in Hk.
    - rewrite lookup_alter_ne, lookup_insert_ne by congruence. done. }
  apply NoDup_Permutation; [done|constructor; [|done]|].
  - rewrite Haft. intros [[k Hk] _]. pose proof (Hm k a Hk). cbn in *. congruence.
  - intros x. rewrite Hb, elem_of_cons, Haft. split.
    + intros [[k Hk] HP]. destruct (decide (k = i)) as [->|].
      * rewrite lookup_insert_eq in Hk. left. congruence.
      * rewrite lookup_insert_ne in Hk by done. eauto.
    + intros [->|[[k Hk] HP]]; (split; [|done]).
      * exists i. apply lookup_insert_eq.
      * exists k. rewrite lookup_insert_ne by congruence. done.
Qed.

Section release_theorems.
Context {T : Type} `{!ConfigStore T} {O : Observed T Store} {fk : bool}
  `{Hspec : !ConfigStoreSpec T O fk}.

(** Approving or rejecting, on the content. *)
Lemma decide_call (yes : bool) i who comment now (s : T) :
  ready s →
  wp s (if yes then approve i who comment now else reject i who comment now)
    (refines (spec_updateApprovalStatus i (if yes then "approved" else "rejected") comment now)
      (view s)).
Proof. intros Hs. destruct yes; by apply updateApprovalStatus_spec. Qed.

(** C38: the life of an approval.  A submission is pending under a new id and without
    an approver; approving or rejecting it succeeds and takes exactly it off the
    pending list of the namespace; the approval that is kept then has the status of the
    decision, "approved" or "rejected", the comment and the time of the decision and
    still the namespace and the submitter, but no approver; every other approval is as
    it was. *)
Theorem approval_lifecycle ns who yes approver comment t1 t2 (s : T) :
  ready s → wf fk (cur (view s)) →
  wp s (r ← submitForApproval ns who t1; before ← getPendingApprovals ns;
        ok ← (if yes : bool then approve (apv_id r.2) approver comment t2
              else reject (apv_id r.2) approver comment t2);
        after ← getPendingApprovals ns; mret (r, before, ok, after))
    (λ o st', ∃ i before after,
      let a := mkApproval i ns who "" "pending" "" "" "" in
      o = Ret ((true, a), before, true, after) ∧
      s_apvs (cur (view s)) !! i = None ∧ before ≡ₚ a :: after ∧
      s_apvs (cur st') !! i = Some (mkApproval i ns who "" (if yes then "approved" else "rejected")
        comment "" (getTimestamp t2)) ∧
      ∀ j, j ≠ i → s_apvs (cur st') !! j = s_apvs (cur (view s)) !! j).
Proof.
  intros Hs Hwf. assert (s_apvs (cur (view s)) !! s_next_apv (cur (view s)) = None) as Hnew.
  { apply eq_None_not_Some. intros [a Ha]. apply (wf_apvs _ _ Hwf) in Ha as [_ ?]. lia. }
  unfold submitForApproval. apply wp_bind. eapply wp_call; [by apply createApproval_spec|].
  cbn. intros s1 Hs1 Hv1. apply wp_ret; [done|]. intros s2 Hs2 Hv2.
  eapply wp_ask; [by apply getPendingApprovals_spec|]. rewrite Hv2, Hv1. cbn.
  intros before s3 [Hnd1 Hbefore] Hs3 Hv3.
  eapply wp_call; [by apply decide_call|]. rewrite Hv3. cbn. intros s4 Hs4 Hv4.
  eapply wp_ask; [by apply getPendingApprovals_spec|]. rewrite Hv4. cbn.
  intros after s5 [Hnd2 Hafter] Hs5 Hv5. apply wp_ret; [done|].
  set (a := set_apv_id _ _) in *. exists (s_next_apv (cur (view s))), before, after.
  split; [done|]. split; [done|]. rewrite Hv5. cbn. split; [|split].
  2: { change (apv_id a) with (s_next_apv (cur (view s))).
       by rewrite lookup_alter_eq, lookup_insert_eq; destruct yes. }
  2: { intros j Hj. change (apv_id a) with (s_next_apv (cur (view s))).
       by rewrite lookup_alter_ne, lookup_insert_ne by done. }
  refine (enumerates_take_off apv_id _ _ a _ _ _ _ _ _ Hnew _ _ (conj Hnd1 Hbefore)
    (conj Hnd2 Hafter)); try done.
  - eapply map_Forall_impl; [apply (wf_apvs _ _ Hwf)|]. by intros ? ? [? _].
  - destruct yes; cbn; naive_solver.
Qed.

(** A grayscale publication never happens.  It opens a transaction and
    then calls [publishRelease], which opens one too and is refused: on every
    store that keeps the contract the method returns [false] and the
    store is as it was (no draft published, no release recorded). *)
Theorem publishGrayscale_never_publishes json_dump ns note opr pct wl out now (s : T) :
  ready s → saved (view s) = None →
  wp s (publishGrayscale json_dump ns note opr pct wl out now)
    (λ o st', o = Ret None ∧ st' = view s).
Proof.
  intros Hs Hsv. apply wp_bind. eapply wp_mono; [by apply beginTransaction_spec|].
  unfold tx_begin. rewrite Hsv. intros ? ? [-> ->] s1 Hs1 Hv1.
  apply wp_try, wp_bind. eapply wp_mono; [by apply publishRelease_spec|]. rewrite Hv1. cbn.
  intros ? ? [-> ->] s2 Hs2 Hv2. apply wp_bind.
  eapply wp_mono; [by apply rollbackTransaction_spec|]. unfold tx_rollback. rewrite Hv2. cbn.
  intros ? ? [-> ->] s3 Hs3 Hv3. apply wp_ret; [done|]. split; [done|].
  rewrite Hv3. destruct (view s); cbn in *. by subst.
Qed.

(** A full rollout replaces one release.  Only an active release can be
    rolled out; it is then retired, and a new active release is recorded
    under a new id, with version 0 and no creation time; every other release is as
    it was. *)
Theorem fullRollout_replaces ns opr i now (s : T) :
  ready s → wf fk (cur (view s)) →
  wp s (fullRollout ns opr i now) (λ o st',
    match s_rels (cur (view s)) !! i with
    | Some r =>
      if decide (rel_status r = "active") then
        o = Ret true ∧ ∃ j, s_rels (cur (view s)) !! j = None ∧
          s_rels (cur st') !! j = Some (set_rel_id j (rollout_release ns opr i)) ∧
          s_rels (cur st') !! i = Some (set_rel_status "retired" r) ∧
          ∀ k, k ≠ i → k ≠ j → s_rels (cur st') !! k = s_rels (cur (view s)) !! k
      else o = Ret false ∧ st' = view s
    | None => o = Ret false ∧ st' = view s
    end).
Proof.
  intros Hs Hwf. eapply wp_ask; [by apply getRelease_spec|]. cbn. intros ? s1 -> Hs1 Hv1.
  destruct (s_rels (cur (view s)) !! i) as [r|] eqn:Hr; [|by apply wp_ret].
  destruct (decide (rel_status r = "active")) as [Hact|Hact].
  - rewrite bool_decide_false by naive_solver.
    eapply wp_call; [by apply retireRelease_spec|]. cbn. rewrite Hv1. intros s2 Hs2 Hv2.
    eapply wp_call; [by apply createRelease_spec|]. cbn. rewrite Hv2. cbn. intros s3 Hs3 Hv3.
    apply wp_ret; [done|]. split; [done|]. rewrite Hv3. cbn.
    assert (i < s_next_rel (cur (view s))) as Hlt by (by apply (wf_rels _ _ Hwf) in Hr as [_ ?]).
    exists (s_next_rel (cur (view s))). split_and!.
    + apply eq_None_not_Some. intros [x Hx]. apply (wf_rels _ _ Hwf) in Hx as [_ ?]. lia.
    + apply lookup_insert_eq.
    + rewrite lookup_insert_ne, lookup_alter_eq, Hr by lia. done.
    + intros k Hki Hkj. by rewrite lookup_insert_ne, lookup_alter_ne.
  - rewrite bool_decide_true by naive_solver. by apply wp_ret.
Qed.
End release_theorems.

(** ** Grayscale rules *)

(** Widening a grayscale release keeps the clients it had: a client that
    matches at one percentage and whitelist matches at every larger percentage
    and larger whitelist. *)
Theorem rollout_monotone std_hash inst ip p q wl wl' :
  p ≤ q → wl ⊆ wl' →
  evaluateClientMatch std_hash inst ip p wl = true →
  evaluateClientMatch std_hash inst ip q wl' = true.
Proof.
  intros Hpq Hwl. unfold evaluateClientMatch.
  destruct (existsb _ wl) eqn:E.
  - apply existsb_exists in E as (w & Hin & Hw). intros _.
    assert (existsb (λ w, bool_decide (w = inst) || bool_decide (w = ip)) wl' = true) as ->; [|done].
    apply existsb_exists. exists w. split; [|done]. apply list_elem_of_In. apply Hwl. by apply list_elem_of_In.
  - destruct (existsb _ wl'); [done|].
    destruct (Z.leb_spec 100 p), (Z.leb_spec 100 q), (Z.leb_spec p 0), (Z.leb_spec q 0); try done; try lia.
Qed.

(** Off the whitelist the match is a comparison of the bucket. *)
Lemma evaluateClientMatch_bucket std_hash inst ip p wl :
  inst ∉ wl → ip ∉ wl →
  evaluateClientMatch std_hash inst ip p wl = true ↔ std_hash (inst +:+ ip) mod 100 < p.
Proof.
  intros Hi Hp. unfold evaluateClientMatch. pose proof (Z.mod_pos_bound (std_hash (inst +:+ ip)) 100).
  destruct (existsb _ wl) eqn:E.
  - apply existsb_exists in E as (w & Hin%list_elem_of_In & [->%bool_decide_eq_true
      | ->%bool_decide_eq_true]%orb_true_iff); done.
  - destruct (Z.leb_spec 100 p), (Z.leb_spec p 0); rewrite ?Z.ltb_lt; split; try done; lia.
Qed.

Lemma count_by_image {A : Type} (f : A → Z) (P : A → Prop) `{∀ x, Decision (P x)} p (l : list A) :
  (∀ x, x ∈ l → P x ↔ f x < p) →
  length (filter P l) = length (filter (λ b, b < p) (f <$> l)).
Proof.
  induction l as [|x l IH]; intros Hl; [done|]. cbn [fmap list_fmap].
  rewrite !filter_cons. assert (P x ↔ f x < p) as Hx by (apply Hl; by left).
  do 2 case_decide; try tauto; cbn; [f_equal|]; apply IH; intros y Hy; apply Hl; by right.
Qed.

Lemma count_below (p n : Z) :
  0 ≤ p ≤ n → Z.of_nat (length (filter (λ b, b < p) (seqZ 0 n))) = p.
Proof.
  intros Hp. replace n with (p + (n - p)) by lia. rewrite seqZ_app, filter_app, length_app by lia.
  assert (∀ l : list Z, (∀ x, x ∈ l → x < p) → filter (λ b, b < p) l = l) as Hall.
  { induction l as [|x l IH]; intros Hl; [done|]. rewrite filter_cons_True by set_solver.
    rewrite IH; set_solver. }
  assert (∀ l : list Z, (∀ x, x ∈ l → ¬ x < p) → filter (λ b, b < p) l = []) as Hnone.
  { induction l as [|x l IH]; intros Hl; [done|]. rewrite filter_cons_False by set_solver.
    apply IH. set_solver. }
  rewrite Hall, Hnone; [rewrite length_seqZ; cbn; lia|..]; intros x ?%elem_of_seqZ; lia.
Qed.

(** The percentage is the share of clients.  Of any 100 clients whose hashes
    fall into the 100 different buckets, and who are not on the whitelist,
    exactly the percentage (cut to 0..100) match. *)
Theorem rollout_share std_hash (clients : list (string * string)) p wl :
  ((λ c, std_hash (c.1 +:+ c.2) mod 100) <$> clients) ≡ₚ seqZ 0 100 →
  (∀ c, c ∈ clients → (c.1 ∉ wl) ∧ (c.2 ∉ wl)) →
  Z.of_nat (length (filter (λ c, evaluateClientMatch std_hash c.1 c.2 p wl) clients))
  = Z.max 0 (Z.min p 100).
Proof.
  intros Hb Hwl.
  rewrite (count_by_image (λ c, std_hash (c.1 +:+ c.2) mod 100) _ (Z.max 0 (Z.min p 100))).
  - rewrite Hb. apply count_below. lia.
  - intros c Hc. destruct (Hwl c Hc) as [Hi Hp]. rewrite Is_true_true, evaluateClientMatch_bucket by done.
    pose proof (Z.mod_pos_bound (std_hash (c.1 +:+ c.2)) 100). lia.
Qed.

(** ** Witnesses *)
Definition main_id : string := "app/dev/default/main".

Lemma getDraftChanges_exact_witness :
  @wp _ _ mem_observed _ mem_sample (@getDraftChanges _ mem_store main_id)
    (queries (λ c l, enumerates l (s_cfgs c)
      (λ r, ck_namespace_id r = main_id ∧ ck_status r = "draft")) (@view _ _ mem_observed mem_sample)).
Proof.
  apply (@getDraftChanges_exact _ mem_store mem_observed true mem_store_spec). apply mem_sample_healthy.
Defined.

Lemma addDraftChange_then_get_witness :
  @wp _ _ mem_observed _ mem_sample
    (ok ← @addDraftChange _ mem_store main_id "k" "v3" "op" 9;
     d ← @getConfig _ mem_store main_id "k" true;
     r ← @getConfig _ mem_store main_id "k" false; mret (ok, d, r))
    (λ o _, match s_cfgs (cur (@view _ _ mem_observed mem_sample)) !! (main_id, "k") with
      | None => o = Ret (true, Some (new_config main_id "k" "v3" (getTimestamp 9)), None)
      | Some c =>
        if decide (ck_status c = "draft") then o = Ret (false, Some c, None)
        else if decide (in_int32 (ck_version c + 1)) then
          o = Ret (true, Some (edit_config c "v3" (ck_version c + 1) true (getTimestamp 9)), None)
        else o = Undef
      end).
Proof.
  apply (@addDraftChange_then_get _ mem_store mem_observed true mem_store_spec).
  apply mem_sample_healthy.
Defined.

Lemma edit_publish_get_witness :
  @wp _ _ mem_observed _ mem_sample
    (ok ← @addDraftChange _ mem_store main_id "k" "v3" "op" 9;
     p ← @publish _ mem_store main_id "n" "op" empty_release 10;
     r ← @getConfig _ mem_store main_id "k" false; mret (ok, p.1, r))
    (λ o _, o = Undef ∨ ∃ ok r, o = Ret (ok, true, Some r) ∧ ck_status r = "live" ∧
      (ok = true → ck_value r = "v3")).
Proof.
  apply (@edit_publish_get _ mem_store mem_observed true mem_store_spec);
    [apply mem_sample_healthy|vm_compute; reflexivity|exact (proj1 mem_sample_wf)].
Defined.

Lemma approval_lifecycle_witness :
  let v := cur (@view _ _ mem_observed mem_sample) in
  @wp _ _ mem_observed _ mem_sample
    (r ← @submitForApproval _ mem_store main_id "alice" 9;
     before ← @getPendingApprovals _ mem_store main_id;
     ok ← @approve _ mem_store (apv_id r.2) "bob" "fine" 10;
     after ← @getPendingApprovals _ mem_store main_id; mret (r, before, ok, after))
    (λ o st', ∃ i before after,
      let a := mkApproval i main_id "alice" "" "pending" "" "" "" in
      o = Ret ((true, a), before, true, after) ∧ s_apvs v !! i = None ∧ before ≡ₚ a :: after ∧
      s_apvs (cur st') !! i =
        Some (mkApproval i main_id "alice" "" "approved" "fine" "" (getTimestamp 10)) ∧
      ∀ j, j ≠ i → s_apvs (cur st') !! j = s_apvs v !! j).
Proof.
  intros v.
  apply (@approval_lifecycle _ mem_store mem_observed true mem_store_spec main_id "alice" true "bob"
    "fine" 9 10 mem_sample); [apply mem_sample_healthy|exact (proj1 mem_sample_wf)].
Defined.

Lemma publishGrayscale_never_publishes_witness :
  @wp _ _ mem_observed _ mem_sample
    (@publishGrayscale _ mem_store (λ _, Some "[]") main_id "n" "op" 30 ["10.0.0.1"] empty_release 9)
    (λ o st', o = Ret None ∧ st' = @view _ _ mem_observed mem_sample).
Proof.
  apply (@publishGrayscale_never_publishes _ mem_store mem_observed true mem_store_spec);
    [apply mem_sample_healthy|vm_compute; reflexivity].
Defined.

Lemma fullRollout_replaces_witness :
  let v := cur (@view _ _ mem_observed mem_sample) in
  is_Some (s_rels v !! 1) ∧
  @wp _ _ mem_observed _ mem_sample (@fullRollout _ mem_store main_id "op" 1 9) (λ o st',
    match s_rels v !! 1 with
    | Some r =>
      if decide (rel_status r = "active") then
        o = Ret true ∧ ∃ j, s_rels v !! j = None ∧
          s_rels (cur st') !! j = Some (set_rel_id j (rollout_release main_id "op" 1)) ∧
          s_rels (cur st') !! 1 = Some (set_rel_status "retired" r) ∧
          ∀ k, k ≠ 1 → k ≠ j → s_rels (cur st') !! k = s_rels v !! k
      else o = Ret false ∧ st' = @view _ _ mem_observed mem_sample
    | None => o = Ret false ∧ st' = @view _ _ mem_observed mem_sample
    end).
Proof.
  intros v. split; [vm_compute; eauto|].
  apply (@fullRollout_replaces _ mem_store mem_observed true mem_store_spec);
    [apply mem_sample_healthy|exact (proj1 mem_sample_wf)].
Defined.

(** A hash with 100 clients in 100 buckets: the length of the instance id. *)
Definition length_hash (s : string) : Z := Z.of_nat (String.length s).
Fixpoint name_of (n : nat) : string := match n with O => "" | S n => "a" +:+ name_of n end.
Definition hundred : list (string * string) := (λ n, (name_of n, "")) <$> seq 0 100.

Lemma rollout_monotone_witness :
  evaluateClientMatch length_hash "aaa" "" 5 [] = true ∧
  evaluateClientMatch length_hash "aaa" "" 50 ["b"] = true.
Proof.
  split; [reflexivity|].
  apply (rollout_monotone length_hash "aaa" "" 5 50 [] ["b"]); [lia|set_solver|reflexivity].
Defined.

Lemma rollout_share_witness :
  Z.of_nat (length (filter (λ c, evaluateClientMatch length_hash c.1 c.2 30 []) hundred))
  = Z.max 0 (Z.min 30 100).
Proof.
  apply (rollout_share length_hash hundred 30 []).
  - assert (((λ c, length_hash (c.1 +:+ c.2) mod 100) <$> hundred) = seqZ 0 100) as ->
      by (vm_compute; reflexivity). done.
  - intros c _. split; apply not_elem_of_nil.
Defined.
