(* ===== verification/NotificationChannel.v ===== *)
(** * The notification channel

    [NotificationChannel] of [src/subscription/notification_channel.cpp].  Every
    method holds the mutex from its first statement to its last, except that
    [waitForNotification] gives it up while it is blocked on the condition
    variable; so a method is one atomic step, and a wait is a first step and, if it
    found nothing, a later one each time the predicate is evaluated.  The condition
    variable is the set of the threads that are blocked on it: a thread whose
    predicate is false joins it, [notify_all] empties it, and only a thread that was
    notified, or that a spurious wake-up or the time-out takes out of the set, goes on.

    A callback is code the channel does not know: [throws cb n] says whether it
    throws on [n], and the calls made are recorded in [calls]. *)
From S2P Require Import Prelude.

Record Notification := mkNotification {
  n_namespaceId : string;
  n_releaseId : Z;
  n_changedKeys : list string;
  n_timestamp : Z;
}.
#[export] Instance Notification_eq_dec : EqDecision Notification.
Proof. solve_decision. Defined.

Module NotificationChannel.
Section channel.
Context {Callback : Type} (throws : Callback → Notification → bool).

Record channel := mkChannel {
  subscribers_ : gmap string (list Callback);
  history_ : gmap string (list Notification);
  pending_ : list Notification;
  (* the threads blocked on the condition variable *)
  cv_ : gset nat;
  (* the calls of callbacks so far, an effect outside the channel *)
  calls : list (Callback * Notification);
}.

Definition new_channel : channel := mkChannel ∅ ∅ [] ∅ [].

(** [m[k]], which creates an empty vector for a new key *)
Definition at_key {A : Type} (m : gmap string (list A)) (k : string) : list A := default [] (m !! k).

Definition subscribe (namespaceId : string) (callback : Callback) : M channel () := λ c,
  (Ret (), mkChannel
    (<[namespaceId := at_key (subscribers_ c) namespaceId ++ [callback]]> (subscribers_ c))
    (history_ c) (pending_ c) (cv_ c) (calls c)).

Definition unsubscribe (namespaceId : string) : M channel () := λ c,
  (Ret (), mkChannel (delete namespaceId (subscribers_ c)) (history_ c) (pending_ c)
    (cv_ c) (calls c)).

(** [cb(notification)] *)
Definition call (cb : Callback) (n : Notification) : M channel () := λ c,
  let c' := mkChannel (subscribers_ c) (history_ c) (pending_ c) (cv_ c) (calls c ++ [(cb, n)]) in
  if throws cb n then (Throw, c') else (Ret (), c').

Fixpoint call_all (cbs : list Callback) (n : Notification) : M channel () :=
  match cbs with
  | [] => mret ()
  | cb :: cbs => _ ← call cb n; call_all cbs n
  end.

Definition record (n : Notification) : M channel () := λ c,
  (Ret (), mkChannel (subscribers_ c)
    (<[n_namespaceId n := at_key (history_ c) (n_namespaceId n) ++ [n]]> (history_ c))
    (pending_ c) (cv_ c) (calls c)).

Definition post (n : Notification) : M channel () := λ c,
  (Ret (), mkChannel (subscribers_ c) (history_ c) (pending_ c ++ [n]) (cv_ c) (calls c)).

(** [cv_.notify_all()] *)
Definition notify_all : M channel () := λ c,
  (Ret (), mkChannel (subscribers_ c) (history_ c) (pending_ c) ∅ (calls c)).

Definition publish (n : Notification) : M channel () :=
  _ ← record n;
  cbs ← (λ c, (Ret (at_key (subscribers_ c) (n_namespaceId n)), c));
  _ ← call_all cbs n;
  _ ← post n;
  notify_all.

(** The loop over [pending_]: the first notification of the namespace, and the
    vector without it. *)
Fixpoint take_pending (namespaceId : string) (l : list Notification)
    : option (Notification * list Notification) :=
  match l with
  | [] => None
  | n :: l =>
    if bool_decide (n_namespaceId n = namespaceId) then Some (n, l)
    else '(m, l') ← take_pending namespaceId l; Some (m, n :: l')
  end.

(** One evaluation of the predicate: [Some] is [true] and [outNotification]. *)
Definition wait_check (namespaceId : string) : M channel (option Notification) := λ c,
  match take_pending namespaceId (pending_ c) with
  | Some (n, l) => (Ret (Some n), mkChannel (subscribers_ c) (history_ c) l (cv_ c) (calls c))
  | None => (Ret None, c)
  end.

(** Thread [i] blocks on the condition variable, and stops being blocked. *)
Definition block (i : nat) : M channel () := λ c,
  (Ret (), mkChannel (subscribers_ c) (history_ c) (pending_ c) ({[ i ]} ∪ cv_ c) (calls c)).
Definition unblock (i : nat) : M channel () := λ c,
  (Ret (), mkChannel (subscribers_ c) (history_ c) (pending_ c) (cv_ c ∖ {[ i ]}) (calls c)).

(** The predicate, and the wait if it is false. *)
Definition wait_once (i : nat) (namespaceId : string) : M channel (option Notification) :=
  r ← wait_check namespaceId;
  _ ← match r with Some _ => mret () | None => block i end;
  mret r.

Definition getMissedNotifications (namespaceId : string) (lastReleaseId : Z)
    : M channel (list Notification) := λ c,
  (Ret (match history_ c !! namespaceId with
        | None => []
        | Some l => filter (λ n, lastReleaseId < n_releaseId n) l
        end), c).
End channel.
Arguments channel : clear implicits.
End NotificationChannel.
Import NotificationChannel.

(** ** Threads on one channel *)
Section threads.
Context {Callback : Type} (throws : Callback → Notification → bool).

(** A call of [waitForNotification]: inside [wait_for], blocked or about to evaluate
    the predicate, or returned with the notification or, after the time-out, with [false]. *)
Inductive waiter :=
  | Asleep (ns : string)
  | Woken (ns : string) (n : Notification)
  | TimedOut (ns : string).

Record system := mkSystem {
  chan : channel Callback;
  waiters : gmap nat waiter;
  (* histories, for stating what happened: the notifications [publish] was
     called with, those it posted, those waiters took, each in order *)
  published : list Notification;
  posted : list Notification;
  taken : list Notification;
}.

Definition init : system := mkSystem new_channel ∅ [] [] [].

(** What the result of an evaluation of the predicate makes of a waiter that
    stays asleep or gives up with [otherwise]. *)
Definition after_check (ns : string) (otherwise : waiter) (r : option Notification) : waiter :=
  match r with Some n => Woken ns n | None => otherwise end.

Inductive step : system → system → Prop :=
  | step_subscribe ns cb s c' :
      subscribe ns cb (chan s) = (Ret (), c') →
      step s (mkSystem c' (waiters s) (published s) (posted s) (taken s))
  | step_unsubscribe ns s c' :
      unsubscribe ns (chan s) = (Ret (), c') →
      step s (mkSystem c' (waiters s) (published s) (posted s) (taken s))
  | step_publish n s c' :
      publish throws n (chan s) = (Ret (), c') →
      step s (mkSystem c' (waiters s) (published s ++ [n]) (posted s ++ [n]) (taken s))
  | step_publish_throws n s c' :
      publish throws n (chan s) = (Throw, c') →
      step s (mkSystem c' (waiters s) (published s ++ [n]) (posted s) (taken s))
  (* the loop before the wait, and the first evaluation of the predicate *)
  | step_wait i ns s r c' :
      waiters s !! i = None →
      wait_once i ns (chan s) = (Ret r, c') →
      step s (mkSystem c' (<[i := after_check ns (Asleep ns) r]> (waiters s))
        (published s) (posted s) (taken s ++ option_list r))
  (* a thread that was notified has the mutex again *)
  | step_wake i ns s r c' :
      waiters s !! i = Some (Asleep ns) → i ∉ cv_ (chan s) →
      wait_once i ns (chan s) = (Ret r, c') →
      step s (mkSystem c' (<[i := after_check ns (Asleep ns) r]> (waiters s))
        (published s) (posted s) (taken s ++ option_list r))
  (* a spurious wake-up *)
  | step_spurious i ns s r c' :
      waiters s !! i = Some (Asleep ns) →
      (_ ← unblock i; wait_once i ns) (chan s) = (Ret r, c') →
      step s (mkSystem c' (<[i := after_check ns (Asleep ns) r]> (waiters s))
        (published s) (posted s) (taken s ++ option_list r))
  (* the time-out: the predicate is evaluated once more *)
  | step_timeout i ns s r c' :
      waiters s !! i = Some (Asleep ns) →
      (_ ← unblock i; wait_check ns) (chan s) = (Ret r, c') →
      step s (mkSystem c' (<[i := after_check ns (TimedOut ns) r]> (waiters s))
        (published s) (posted s) (taken s ++ option_list r)).

Definition reachable : system → Prop := rtc step init.
End threads.

(** ** What the operations do *)

(** The notifications of one namespace, in order. *)
Definition of_ns (ns : string) (l : list Notification) : list Notification :=
  filter (λ n, n_namespaceId n = ns) l.
Arguments of_ns : simpl never.

Section operations.
Context {Callback : Type} (throws : Callback → Notification → bool).
Implicit Types c : channel Callback.

Lemma of_ns_snoc ns l n :
  of_ns ns (l ++ [n]) = of_ns ns l ++ (if decide (n_namespaceId n = ns) then [n] else []).
Proof. unfold of_ns. by rewrite filter_app. Qed.

Lemma take_pending_spec ns l :
  match take_pending ns l with
  | Some (n, l') => n_namespaceId n = ns ∧ l ≡ₚ n :: l' ∧ of_ns ns l = n :: of_ns ns l' ∧
      ∀ ns', ns' ≠ ns → of_ns ns' l = of_ns ns' l'
  | None => of_ns ns l = []
  end.
Proof.
  induction l as [|m l IH]; [done|]. cbn [take_pending]. unfold of_ns in *. case_bool_decide as Hm.
  - split; [done|]. split; [done|]. rewrite filter_cons_True by done. split; [done|].
    intros ns' Hns. by rewrite filter_cons_False by congruence.
  - destruct (take_pending ns l) as [[n l']|]; unfold mbind, option_bind.
    + destruct IH as (Hn & Hp & Hl & Hother). split; [done|].
      split; [rewrite Hp; apply Permutation_swap|]. rewrite !(filter_cons_False _ m) by done. split; [done|]. intros ns' Hns.
      rewrite !filter_cons. case_decide; [f_equal|]; by apply Hother.
    + by rewrite filter_cons_False.
Qed.

(** The callbacks that are called: up to the first one that throws. *)
Fixpoint called (cbs : list Callback) (n : Notification) : list Callback :=
  match cbs with
  | [] => []
  | cb :: cbs => cb :: (if throws cb n then [] else called cbs n)
  end.

Lemma call_all_spec cbs n c :
  call_all throws cbs n c =
    (if existsb (λ cb, throws cb n) cbs then Throw else Ret (),
     mkChannel (subscribers_ c) (history_ c) (pending_ c) (cv_ c)
       (calls c ++ ((λ cb, (cb, n)) <$> called cbs n))).
Proof.
  revert c. induction cbs as [|cb cbs IH]; intros c; cbn.
  - rewrite app_nil_r. by destruct c.
  - unfold mbind, M_bind, call. destruct (throws cb n); cbn; [done|].
    rewrite IH. cbn. by rewrite <- (assoc_L (++)).
Qed.

Lemma called_prefix cbs n :
  ∃ rest, cbs = called cbs n ++ rest ∧
    if existsb (λ cb, throws cb n) cbs
    then ∃ cb, last (called cbs n) = Some cb ∧ throws cb n = true
    else rest = [].
Proof.
  induction cbs as [|cb cbs (rest & Hcbs & IH)]; [by exists []|]. cbn.
  destruct (throws cb n) eqn:Ht; cbn; [by exists cbs; eauto|].
  exists rest. split; [by rewrite <- Hcbs|]. destruct (existsb _ cbs); [|done].
  destruct IH as (cb' & Hlast & ?). exists cb'. split; [|done].
  destruct (called cbs n); [done|]. done.
Qed.

(** Subscribing several callbacks in a row. *)
Fixpoint subscribe_all (ns : string) (cbs : list Callback) : M (channel Callback) () :=
  match cbs with
  | [] => mret ()
  | cb :: cbs => _ ← subscribe ns cb; subscribe_all ns cbs
  end.

Lemma subscribe_all_spec ns cbs c :
  ∃ subs, subscribe_all ns cbs c = (Ret (), mkChannel subs (history_ c) (pending_ c) (cv_ c) (calls c)) ∧
    at_key subs ns = at_key (subscribers_ c) ns ++ cbs.
Proof.
  revert c. induction cbs as [|cb cbs IH]; intros c; cbn.
  - exists (subscribers_ c). rewrite app_nil_r. by destruct c.
  - destruct (IH (subscribe ns cb c).2) as (subs & Hsub & Hat).
    exists subs. split; [exact Hsub|]. rewrite Hat. cbn. unfold at_key at 1.
    rewrite lookup_insert_eq. cbn. by rewrite <- (assoc_L (++)).
Qed.

Lemma publish_spec n c :
  let cbs := at_key (subscribers_ c) (n_namespaceId n) in
  let ok := negb (existsb (λ cb, throws cb n) cbs) in
  publish throws n c =
    (if ok then Ret () else Throw,
     mkChannel (subscribers_ c)
       (<[n_namespaceId n := at_key (history_ c) (n_namespaceId n) ++ [n]]> (history_ c))
       (if ok then pending_ c ++ [n] else pending_ c)
       (if ok then ∅ else cv_ c)
       (calls c ++ ((λ cb, (cb, n)) <$> called cbs n))).
Proof.
  unfold publish, mbind, M_bind, record. cbn. rewrite call_all_spec. cbn.
  by destruct (existsb _ _).
Qed.

(** What an evaluation of the predicate with result [r] does, by whatever thread: it
    takes the oldest notification of the namespace, if there is one. *)
Record evaluated (i : nat) (ns : string) c (r : option Notification) c' : Prop := {
  ev_history : history_ c' = history_ c;
  ev_pending : match r with
               | Some n => take_pending ns (pending_ c) = Some (n, pending_ c')
               | None => take_pending ns (pending_ c) = None ∧ pending_ c' = pending_ c
               end;
  ev_blocked : cv_ c' ⊆ {[ i ]} ∪ cv_ c;
}.

Lemma wait_check_evaluated i ns c r c' : wait_check ns c = (Ret r, c') → evaluated i ns c r c'.
Proof.
  unfold wait_check. destruct (take_pending ns (pending_ c)) as [[n l]|] eqn:E; intros [= <- <-];
    (split; [done|done|set_solver]).
Qed.

Lemma wait_once_evaluated i ns c r c' : wait_once i ns c = (Ret r, c') → evaluated i ns c r c'.
Proof.
  unfold wait_once, mbind, M_bind. destruct (wait_check ns c) as [o c1] eqn:E.
  unfold wait_check in E. destruct (take_pending ns (pending_ c)) as [[n l]|] eqn:Et;
    injection E as <- <-; intros [= <- <-]; (split; [done|done|cbn; set_solver]).
Qed.

Lemma unblocked_evaluated {i ns c r c'} (m : M (channel Callback) (option Notification)) :
  (∀ c, m c = (Ret r, c') → evaluated i ns c r c') →
  (_ ← unblock i; m) c = (Ret r, c') → evaluated i ns c r c'.
Proof.
  intros Hm E. destruct (Hm _ E) as [Hh Hp Hb]. split; [done|done|]. cbn in Hb. set_solver.
Qed.

Lemma at_key_insert {A : Type} (m : gmap string (list A)) k l k' :
  at_key (<[k := l]> m) k' = if decide (k = k') then l else at_key m k'.
Proof. unfold at_key. rewrite lookup_insert. by case_decide. Qed.
End operations.

(** ** The invariant *)
Section invariant.
Context {Callback : Type} (throws : Callback → Notification → bool).
Implicit Types s : system (Callback := Callback).

Definition got (w : waiter) : option Notification :=
  match w with Woken _ n => Some n | _ => None end.

Definition received s : list Notification := omap got (map_to_list (waiters s)).*2.

Record inv s : Prop := {
  inv_fifo ns : of_ns ns (posted s) = of_ns ns (taken s) ++ of_ns ns (pending_ (chan s));
  inv_history ns : at_key (history_ (chan s)) ns = of_ns ns (published s);
  inv_perm : posted s ≡ₚ taken s ++ pending_ (chan s);
  inv_received : received s ≡ₚ taken s;
  inv_ns : map_Forall (λ _ w, match w with Woken ns n => n_namespaceId n = ns | _ => True end)
    (waiters s);
  inv_blocked : map_Forall (λ i w, match w with
    | Asleep ns => i ∈ cv_ (chan s) → of_ns ns (pending_ (chan s)) = []
    | _ => True end) (waiters s);
}.

Lemma received_insert (m : gmap nat waiter) i w :
  m !! i = None ∨ (∃ ns, m !! i = Some (Asleep ns)) →
  omap got (map_to_list (<[i := w]> m)).*2
  ≡ₚ option_list (got w) ++ omap got (map_to_list m).*2.
Proof.
  assert (∀ m : gmap nat waiter, m !! i = None →
    omap got (map_to_list (<[i := w]> m)).*2
    ≡ₚ option_list (got w) ++ omap got (map_to_list m).*2) as Hnew.
  { intros m' Hi. rewrite map_to_list_insert by done. cbn. by destruct (got w). }
  intros [Hi|[ns Hi]]; [by apply Hnew|].
  rewrite <- (insert_delete_id m i (Asleep ns)) at 2 by done.
  rewrite <- insert_delete_eq, Hnew by apply lookup_delete_eq.
  rewrite map_to_list_insert by apply lookup_delete_eq. done.
Qed.

(** An evaluation of the predicate by a waiter that has not returned. *)
Lemma inv_check s i ns w r c' :
  inv s → waiters s !! i = None ∨ (∃ ns', waiters s !! i = Some (Asleep ns')) →
  evaluated i ns (chan s) r c' → w = Asleep ns ∨ w = TimedOut ns →
  inv (mkSystem c' (<[i := after_check ns w r]> (waiters s)) (published s) (posted s)
    (taken s ++ option_list r)).
Proof.
  intros [Hf Hh Hp Hr Hn Hb] Hi [Eh Ep Eb] Hw.
  pose proof (take_pending_spec ns (pending_ (chan s))) as Hspec.
  assert (got (after_check ns w r) = r) as Hg by (by destruct r, Hw as [-> | ->]).
  assert (match r with
    | Some n => n_namespaceId n = ns ∧ pending_ (chan s) ≡ₚ n :: pending_ c' ∧
        of_ns ns (pending_ (chan s)) = n :: of_ns ns (pending_ c') ∧
        ∀ ns', ns' ≠ ns → of_ns ns' (pending_ (chan s)) = of_ns ns' (pending_ c')
    | None => of_ns ns (pending_ c') = [] ∧ pending_ (chan s) = pending_ c' end) as Hc.
  { destruct r; [by rewrite Ep in Hspec|]. destruct Ep as [Ep E]. rewrite Ep in Hspec. by rewrite E. }
  clear Ep Hspec. split; cbn.
  - intros ns'. rewrite Hf. destruct r as [n|]; cbn.
    + destruct Hc as (Hns & _ & Hl & Hother). rewrite of_ns_snoc, Hns.
      case_decide; [subst; by rewrite Hl, <- (assoc_L (++))|].
      rewrite app_nil_r. f_equal. by apply Hother.
    + rewrite app_nil_r. by destruct Hc as [_ ->].
  - intros ns'. by rewrite <- Hh, Eh.
  - rewrite Hp. destruct r as [n|]; cbn.
    + destruct Hc as (_ & Hl & _). by rewrite Hl, <- (assoc_L (++)).
    + rewrite app_nil_r. by destruct Hc as [_ ->].
  - unfold received. cbn. rewrite received_insert, Hg by done. fold (received s). rewrite Hr.
    apply Permutation_app_comm.
  - apply map_Forall_insert_2; [|done]. destruct r; [by apply Hc|]. by destruct Hw as [-> | ->].
  - intros j x. rewrite lookup_insert_Some. intros [[<- <-]|[Hij Hj]].
    + destruct r; [done|]. destruct Hw as [-> | ->]; [by intros _; apply Hc|done].
    + pose proof (Hb j x Hj) as Hbj. destruct x as [ns'| |]; try done. intros Hin.
      assert (of_ns ns' (pending_ (chan s)) = []) as E by (apply Hbj; set_solver).
      destruct r as [n|]; [|by destruct Hc as [_ <-]].
      destruct Hc as (_ & _ & Hl & Hother). destruct (decide (ns' = ns)) as [->|Hne]; [congruence|].
      by rewrite <- Hother.
Qed.

Lemma inv_publish s n c' (ok : bool) :
  inv s → publish throws n (chan s) = (if ok then Ret () else Throw, c') →
  inv (mkSystem c' (waiters s) (published s ++ [n])
    (if ok then posted s ++ [n] else posted s) (taken s)).
Proof.
  intros [Hf Hh Hp Hr Hn Hb] E. rewrite publish_spec in E.
  assert (ok = negb (existsb (λ cb, throws cb n)
    (at_key (subscribers_ (chan s)) (n_namespaceId n)))) as Hok.
  { by destruct ok, (existsb _ _). }
  rewrite <- Hok in E. injection E as <-. split; cbn; try done.
  - intros ns. destruct ok; [|apply Hf]. rewrite !of_ns_snoc, Hf. by rewrite (assoc_L (++)).
  - intros ns. rewrite at_key_insert, of_ns_snoc, !Hh. case_decide as Hns; [by rewrite Hns|].
    by rewrite app_nil_r.
  - destruct ok; [|done]. by rewrite Hp, (assoc_L (++)).
  - destruct ok; [|exact Hb]. by intros j [].
Qed.

Lemma inv_step s s' : inv s → step throws s s' → inv s'.
Proof.
  intros Hinv Hstep. destruct Hstep as [ns cb s c' E|ns s c' E|n s c' E|n s c' E
    |i ns s r c' Hi E|i ns s r c' Hi Hcv E|i ns s r c' Hi E|i ns s r c' Hi E].
  - injection E as <-. by destruct Hinv.
  - injection E as <-. by destruct Hinv.
  - by apply (inv_publish s n c' true).
  - by apply (inv_publish s n c' false).
  - apply inv_check; auto using wait_once_evaluated.
  - apply inv_check; eauto using wait_once_evaluated.
  - apply inv_check; eauto. eapply unblocked_evaluated; [|exact E]. eauto using wait_once_evaluated.
  - apply inv_check; eauto. eapply unblocked_evaluated; [|exact E]. eauto using wait_check_evaluated.
Qed.

Lemma inv_reachable s : reachable throws s → inv s.
Proof.
  intros Hr. assert (inv (init (Callback := Callback))) as Hinit.
  { split; try done. }
  revert Hinit. unfold reachable in Hr. induction Hr; eauto using inv_step.
Qed.
End invariant.

(** ** The theorems *)
Section theorems.
Context {Callback : Type} (throws : Callback → Notification → bool).
Implicit Types s : system (Callback := Callback).

(** C16: notifications are handed out once and in order.  Whatever threads
    publish, subscribe, wait, wake up and time out, in every reachable state
    the notifications posted are exactly those waiters returned with and
    those still pending; per namespace waiters got the oldest ones, in the order
    of publication; and a waiter got one of its own namespace. *)
Theorem notifications_fifo s :
  reachable throws s →
  posted s ≡ₚ received s ++ pending_ (chan s) ∧
  (∀ ns, of_ns ns (posted s) = of_ns ns (taken s) ++ of_ns ns (pending_ (chan s))) ∧
  (∀ i ns n, waiters s !! i = Some (Woken ns n) → n_namespaceId n = ns ∧ n ∈ posted s).
Proof.
  intros [Hf _ Hp Hr Hn _]%inv_reachable. assert (posted s ≡ₚ received s ++ pending_ (chan s)) as Hall.
  { by rewrite Hr. }
  split_and!; [done..|]. intros i ns n Hi. split; [exact (Hn i _ Hi)|].
  rewrite Hall. apply elem_of_app. left. apply list_elem_of_omap.
  exists (Woken ns n). split; [|done]. apply list_elem_of_fmap. exists (i, Woken ns n).
  by rewrite elem_of_map_to_list.
Qed.

(** Catching up loses nothing.  A client that asks for what it missed after
    release [last] gets every notification ever published for the namespace
    with a later release id, in order of publication, also one whose
    publication was cut short by a callback that threw. *)
Theorem missed_complete s ns last :
  reachable throws s →
  getMissedNotifications ns last (chan s)
  = (Ret (filter (λ n, last < n_releaseId n) (of_ns ns (published s))), chan s).
Proof.
  intros [_ Hh _ _ _ _]%inv_reachable. unfold getMissedNotifications. rewrite <- Hh. unfold at_key.
  by destruct (history_ (chan s) !! ns).
Qed.

(** C37: no wake-up is lost.  In every reachable state, a thread inside
    [waitForNotification] for whose namespace a posted notification has not been taken
    is not blocked on the condition variable: it has been notified since, without a
    spurious wake-up or the time-out, and its next evaluation of the predicate returns
    the oldest such notification; nor can its call end by the time-out then. *)
Theorem no_lost_wakeup s i ns :
  reachable throws s → waiters s !! i = Some (Asleep ns) →
  of_ns ns (posted s) ≠ of_ns ns (taken s) →
  i ∉ cv_ (chan s) ∧
  (∃ n l c', of_ns ns (posted s) = of_ns ns (taken s) ++ n :: l ∧
    wait_once i ns (chan s) = (Ret (Some n), c')) ∧
  ∀ s', step throws s s' → waiters s' !! i ≠ Some (TimedOut ns).
Proof.
  intros [Hf _ _ _ _ Hb]%inv_reachable Hi Hne. rewrite Hf in Hne |- *.
  pose proof (take_pending_spec ns (pending_ (chan s))) as Hspec.
  assert (of_ns ns (pending_ (chan s)) ≠ []) as Hpend by (intros E; by rewrite E, app_nil_r in Hne).
  destruct (take_pending ns (pending_ (chan s))) as [[n l]|] eqn:Et; [|done].
  split_and!; [intros Hin; by apply Hpend, (Hb i _ Hi)| |].
  - destruct Hspec as (_ & _ & -> & _). eexists n, _, _. split; [done|].
    unfold wait_once, wait_check, mbind, M_bind. by rewrite Et.
  - assert (∀ r c', evaluated i ns (chan s) r c' → r ≠ None) as Hev.
    { intros r c' [_ Ep _] ->. destruct Ep as [Ep _]. congruence. }
    intros s' Hstep Hi'. destruct Hstep as [? ? s c' E|? s c' E|m s c' E|m s c' E|j ns' s r c' Hj E
      |j ns' s r c' Hj _ E|j ns' s r c' Hj E|j ns' s r c' Hj E]; cbn in Hi'; try congruence;
      (destruct (decide (j = i)) as [->|]; [|rewrite lookup_insert_ne in Hi' by done; congruence]);
      rewrite lookup_insert_eq in Hi'; destruct r; cbn in Hi'; simplify_eq.
    eapply (Hev None c'); [|done]. eapply unblocked_evaluated; [|exact E]. eauto using wait_check_evaluated.
Qed.

(** A wait that times out does so only when every notification posted for its
    namespace has been taken by a waiter. *)
Corollary timeout_means_drained s s' i ns :
  reachable throws s → step throws s s' →
  waiters s !! i = Some (Asleep ns) → waiters s' !! i = Some (TimedOut ns) →
  of_ns ns (posted s) = of_ns ns (taken s).
Proof.
  intros [Hf _ _ _ _ _]%inv_reachable Hstep Hi Hi'. rewrite Hf.
  pose proof (take_pending_spec ns (pending_ (chan s))) as Hspec.
  destruct Hstep as [? ? s c' E|? s c' E|m s c' E|m s c' E|j ns' s r c' Hj E
    |j ns' s r c' Hj _ E|j ns' s r c' Hj E|j ns' s r c' Hj E]; cbn in Hi'; try congruence;
    (destruct (decide (j = i)) as [->|]; [|rewrite lookup_insert_ne in Hi' by done; congruence]);
    rewrite lookup_insert_eq in Hi'; destruct r; cbn in Hi'; simplify_eq.
  apply (unblocked_evaluated _ (λ c, wait_check_evaluated i ns c _ _)) in E as [_ [Ep _] _].
  rewrite Ep in Hspec. by rewrite Hspec, app_nil_r.
Qed.

(** Subscribers are called.  Publishing calls the callbacks subscribed to
    the namespace, in order of subscription, and no others; if none throws,
    all of them, and the notification is posted; if one throws, those up
    to it, the exception leaves [publish], and the notification is in
    the history but is not posted to waiters. *)
Theorem publish_calls_subscribers n (cbs : list Callback) (c : channel Callback) :
  subscribers_ c !! n_namespaceId n = None →
  match (_ ← subscribe_all (n_namespaceId n) cbs; publish throws n) c with
  | (o, c') =>
    (∃ made rest, cbs = made ++ rest ∧ calls c' = calls c ++ ((λ cb, (cb, n)) <$> made) ∧
      (o = Ret () → rest = [] ∧ pending_ c' = pending_ c ++ [n]) ∧
      (o ≠ Ret () → pending_ c' = pending_ c ∧
        ∃ cb, last made = Some cb ∧ throws cb n = true)) ∧
    (o = Ret () ↔ ∀ cb, cb ∈ cbs → throws cb n = false) ∧
    at_key (history_ c') (n_namespaceId n) = at_key (history_ c) (n_namespaceId n) ++ [n]
  end.
Proof.
  intros Hnone. destruct (subscribe_all_spec (n_namespaceId n) cbs c) as (subs & Hsub & Hat).
  unfold mbind, M_bind. rewrite Hsub, publish_spec. cbn. rewrite Hat.
  assert (at_key (subscribers_ c) (n_namespaceId n) = []) as -> by (unfold at_key; by rewrite Hnone).
  cbn.
  destruct (called_prefix throws cbs n) as (rest & Hcbs & Hend).
  assert (existsb (λ cb, throws cb n) cbs = false ↔ ∀ cb, cb ∈ cbs → throws cb n = false) as Hex.
  { clear. induction cbs as [|cb cbs IH]; cbn; [set_solver|].
    rewrite orb_false_iff, IH. set_solver. }
  split; [|split].
  - exists (called throws cbs n), rest. split_and!; [done|done|..];
      destruct (existsb _ cbs); cbn; naive_solver.
  - rewrite <- Hex. destruct (existsb _ cbs); cbn; naive_solver.
  - unfold at_key at 1. by rewrite lookup_insert_eq.
Qed.
End theorems.

(** ** Witnesses *)
Definition quiet (_ : nat) (_ : Notification) : bool := false.
Definition note1 : Notification := mkNotification "ns" 7 ["k"] 0.

(** A waiter falls asleep, a notification is published, the waiter wakes up. *)
Definition sys_asleep : system (Callback := nat) :=
  mkSystem (wait_once 0 "ns" new_channel).2 (<[0%nat := Asleep "ns"]> ∅) [] [] [].
Definition sys_posted : system (Callback := nat) :=
  mkSystem (publish quiet note1 (chan sys_asleep)).2 (<[0%nat := Asleep "ns"]> ∅) [note1] [note1] [].
Definition sys_woken : system (Callback := nat) :=
  mkSystem (wait_once 0 "ns" (chan sys_posted)).2
    (<[0%nat := Woken "ns" note1]> (<[0%nat := Asleep "ns"]> ∅)) [note1] [note1] [note1].
Definition sys_timed_out : system (Callback := nat) :=
  mkSystem (unblock 0 (chan sys_asleep)).2 (<[0%nat := TimedOut "ns"]> (<[0%nat := Asleep "ns"]> ∅)) [] [] [].

Lemma sys_asleep_reachable : reachable quiet sys_asleep.
Proof. apply rtc_once. by apply (step_wait quiet 0 "ns" init None (wait_once 0 "ns" new_channel).2). Qed.

Lemma sys_posted_reachable : reachable quiet sys_posted.
Proof.
  unfold reachable. transitivity sys_asleep; [apply sys_asleep_reachable|].
  apply rtc_once. by apply (step_publish quiet note1 sys_asleep (publish quiet note1 (chan sys_asleep)).2).
Qed.

Lemma sys_woken_reachable : reachable quiet sys_woken.
Proof.
  unfold reachable. transitivity sys_posted; [apply sys_posted_reachable|].
  apply rtc_once. apply (step_wake quiet 0 "ns" sys_posted (Some note1)
    (wait_once 0 "ns" (chan sys_posted)).2); [done| |done]. by intros ?%elem_of_empty.
Qed.

Lemma notifications_fifo_witness :
  posted sys_woken ≡ₚ received sys_woken ++ pending_ (chan sys_woken) ∧
  (∀ ns, of_ns ns (posted sys_woken)
    = of_ns ns (taken sys_woken) ++ of_ns ns (pending_ (chan sys_woken))) ∧
  (∀ i ns n, waiters sys_woken !! i = Some (Woken ns n) →
    n_namespaceId n = ns ∧ n ∈ posted sys_woken).
Proof. apply (notifications_fifo quiet). apply sys_woken_reachable. Defined.

Lemma missed_complete_witness :
  getMissedNotifications "ns" 3 (chan sys_woken)
  = (Ret (filter (λ n, 3 < n_releaseId n) (of_ns "ns" (published sys_woken))), chan sys_woken).
Proof. apply (missed_complete quiet). apply sys_woken_reachable. Defined.

Lemma timeout_means_drained_witness :
  of_ns "ns" (posted sys_asleep) = of_ns "ns" (taken sys_asleep).
Proof.
  apply (timeout_means_drained quiet sys_asleep sys_timed_out 0 "ns").
  - apply sys_asleep_reachable.
  - by apply (step_timeout quiet 0 "ns" sys_asleep None (unblock 0 (chan sys_asleep)).2).
  - reflexivity.
  - reflexivity.
Defined.

(** The waiter was blocked before the publication, and is not after it. *)
Lemma no_lost_wakeup_witness :
  0%nat ∈ cv_ (chan sys_asleep) ∧
  0%nat ∉ cv_ (chan sys_posted) ∧
  (∃ n l c', of_ns "ns" (posted sys_posted) = of_ns "ns" (taken sys_posted) ++ n :: l ∧
    wait_once 0 "ns" (chan sys_posted) = (Ret (Some n), c')) ∧
  ∀ s', step quiet sys_posted s' → waiters s' !! 0%nat ≠ Some (TimedOut "ns").
Proof.
  split; [set_solver|].
  apply (no_lost_wakeup quiet sys_posted 0 "ns"); [apply sys_posted_reachable|reflexivity|].
  vm_compute. discriminate.
Defined.

Lemma publish_calls_subscribers_witness :
  let throws (cb : nat) (_ : Notification) := bool_decide (cb = 2%nat) in
  match (_ ← subscribe_all "ns" [1%nat; 2%nat; 3%nat]; publish throws note1) new_channel with
  | (o, c') =>
    (∃ made rest, [1%nat; 2%nat; 3%nat] = made ++ rest ∧
      calls c' = [] ++ ((λ cb, (cb, note1)) <$> made) ∧
      (o = Ret () → rest = [] ∧ pending_ c' = [] ++ [note1]) ∧
      (o ≠ Ret () → pending_ c' = [] ∧ ∃ cb, last made = Some cb ∧ throws cb note1 = true)) ∧
    (o = Ret () ↔ ∀ cb, cb ∈ [1%nat; 2%nat; 3%nat] → throws cb note1 = false) ∧
    at_key (history_ c') "ns" = [] ++ [note1]
  end.
Proof.
  intros throws. apply (publish_calls_subscribers throws note1 [1%nat; 2%nat; 3%nat] new_channel).
  reflexivity.
Defined.

(** Two waiters and one notification: the second waiter is not woken. *)
Example one_notification_wakes_one :
  let c := (publish quiet note1 new_channel).2 in
  (a ← wait_check (Callback := nat) "ns"; b ← wait_check "ns"; mret (a, b)) c
  = (Ret (Some note1, None), (wait_check "ns" c).2).
Proof. vm_compute. reflexivity. Qed.
