(* ===== verification/Auth.v ===== *)
(** * Users, tokens and permissions

    [JwtManager], [UserManager] and [AuthMiddleware] of
    [src/auth/auth_types.cpp].  The JWT library and the digest are not part of
    the repository: [JwtLib] holds the operations that are used, with the
    documented behaviour as [JwtLaws], and [sha256] maps a message to the bytes
    of its digest.  Instants are nanoseconds since 1970, as [system_clock]
    counts them in 64 bits; a token carries whole seconds. *)
From S2P Require Import Prelude Timestamp DataTypes SqliteOrm MemOrm ConfigStore SqliteConfigStore StoreOps StoreInvariants StoreTheorems.

Definition NANOS : Z := 1000000000.
Definition in_int64 (z : Z) : Prop := -9223372036854775808 ≤ z ≤ 9223372036854775807.
#[export] Instance in_int64_dec z : Decision (in_int64 z).
Proof. unfold in_int64. apply _. Defined.

(** The claims of a token; any of them may be missing in a token made elsewhere. *)
Record payload := mkPayload {
  p_iss : option string;
  p_sub : option string;
  p_role : option string;
  p_iat : option Z;
  p_exp : option Z;
}.
#[export] Instance payload_eq_dec : EqDecision payload.
Proof. solve_decision. Defined.

Class JwtLib := {
  decoded : Type;
  jwt_sign : string → payload → string;
  jwt_decode : string → option decoded;
  jwt_payload : decoded → payload;
  (* key, expected issuer, current instant *)
  jwt_verify : string → string → Z → decoded → bool;
}.

(** The time checks of the verifier. *)
Definition in_time (now : Z) (p : payload) : Prop :=
  match p_exp p with Some e => now ≤ e * NANOS | None => True end ∧
  match p_iat p with Some i => i * NANOS ≤ now | None => True end.
#[export] Instance in_time_dec now p : Decision (in_time now p).
Proof. unfold in_time. destruct (p_exp p), (p_iat p); apply _. Defined.

Class JwtLaws (J : JwtLib) : Prop := {
  (* a signed token decodes to its claims, and verifies with its key, the right
     issuer and at the right time *)
  law_signed : ∀ key p, ∃ d, jwt_decode (jwt_sign key p) = Some d ∧ jwt_payload d = p ∧
    ∀ iss now, p_iss p = Some iss → in_time now p → jwt_verify key iss now d = true;
  (* what verifies has the issuer and is in time *)
  law_verified : ∀ key iss now d, jwt_verify key iss now d = true →
    p_iss (jwt_payload d) = Some iss ∧ in_time now (jwt_payload d);
}.

Module JwtManager.
Section jwt.
Context `{!JwtLib}.

Record manager := mkManager { secret_ : string; expiryHours_ : Z }.

(** [now + hours(expiryHours_)] is computed in 64-bit nanoseconds; [to_time_t] cuts an
    instant to whole seconds, towards the epoch. *)
Definition generateToken (m : manager) (username role : string) (now : Z) : outcome string :=
  let expires := now + expiryHours_ m * 3600 * NANOS in
  if decide (in_int64 (expiryHours_ m * 3600 * NANOS) ∧ in_int64 expires) then
    Ret (jwt_sign (secret_ m) (mkPayload (Some "config-center") (Some username) (Some role)
      (Some (Z.quot now NANOS)) (Some (Z.quot expires NANOS))))
  else Undef.

(** The result, and what the call leaves in [username] and [role]: the
    subject is assigned before the role is looked up. *)
Definition validateToken (m : manager) (token username role : string) (now : Z)
    : bool * string * string :=
  match jwt_decode token with
  | None => (false, username, role)
  | Some d =>
    if jwt_verify (secret_ m) "config-center" now d then
      match p_sub (jwt_payload d) with
      | None => (false, username, role)
      | Some sub =>
        match p_role (jwt_payload d) with
        | None => (false, sub, role)
        | Some r => (true, sub, r)
        end
      end
    else (false, username, role)
  end.

Definition isExpired (token : string) (now : Z) : bool :=
  match jwt_decode token with
  | None => true
  | Some d =>
    match p_exp (jwt_payload d) with
    | None => true
    | Some e => bool_decide (e * NANOS < now)
    end
  end.
End jwt.
End JwtManager.

Module UserManager.
Section user.
Context (sha256 : string → list Z).

Definition salt : string := "config-center-salt".

Definition hex_digit (n : Z) : ascii :=
  ascii_of_N (Z.to_N (if n <? 10 then 48 + n else 87 + n)).

(** [ss << std::hex << n] of a byte: no leading zero *)
Definition hex (n : Z) : string :=
  if n <? 16 then String (hex_digit n) "" else String (hex_digit (n / 16)) (String (hex_digit (n mod 16)) "").

Definition hexdump (bytes : list Z) : string := foldr (λ b s, hex b +:+ s) "" bytes.

Definition hashPassword (password : string) : string := hexdump (sha256 (salt +:+ password)).

Definition verifyPassword (password hash : string) : bool := bool_decide (hashPassword password = hash).

Context {T : Type} `{!ConfigStore T}.

Definition createUser (username password role : string) (now : Z) : M T bool :=
  ConfigStore.createUser (mkUser 0 username (hashPassword password) role (getTimestamp now)).

Definition authenticate (username password : string) : M T bool :=
  user ← getUserByUsername username;
  match user with
  | None => mret false
  | Some u => mret (verifyPassword password (usr_password_hash u))
  end.

Definition listUsers : M T string := mret "".
End user.
End UserManager.

Module AuthMiddleware.
Section middleware.
Context `{!JwtLib}.

Definition bearerPrefix : string := "Bearer ".

Definition validateRequest (jwt : JwtManager.manager) (authHeader username role : string) (now : Z)
    : bool * string * string :=
  if bool_decide (authHeader = "") then (false, username, role)
  else if (String.length authHeader <? String.length bearerPrefix)%nat then (false, username, role)
  else if negb (bool_decide (String.substring 0 (String.length bearerPrefix) authHeader = bearerPrefix))
  then (false, username, role)
  else
    let token := String.substring (String.length bearerPrefix)
      (String.length authHeader - String.length bearerPrefix) authHeader in
    JwtManager.validateToken jwt token username role now.
End middleware.

Definition hasPermission (role requiredRole : string) : bool :=
  if bool_decide (role = "admin") then true
  else if bool_decide (role = "operator") && bool_decide (requiredRole = "viewer") then true
  else if bool_decide (role = requiredRole) then true
  else false.
End AuthMiddleware.
Import JwtManager UserManager AuthMiddleware.

(** ** Headers *)
Lemma substring_split (n : nat) (s : string) :
  (n ≤ String.length s)%nat →
  s = String.substring 0 n s +:+ String.substring n (String.length s - n) s.
Proof.
  revert n. induction s as [|a s IH]; intros [|n] Hn; cbn in *; try done; try lia.
  - rewrite str_app_nil. f_equal. clear. induction s as [|b s IH]; cbn; [done|]. by f_equal.
  - rewrite str_app_cons. f_equal. apply IH. lia.
Qed.

Lemma substring_app (p t : string) :
  String.substring 0 (String.length p) (p +:+ t) = p ∧
  String.substring (String.length p) (String.length (p +:+ t) - String.length p) (p +:+ t) = t.
Proof.
  induction p as [|a p [IH1 IH2]].
  - rewrite str_app_nil. cbn. split; [by destruct t|]. rewrite Nat.sub_0_r.
    induction t as [|b t IH]; cbn; [done|]. by f_equal.
  - rewrite str_app_cons. cbn. split; [by f_equal|]. exact IH2.
Qed.

(** Every header is either "Bearer " and a token, or refused. *)
Lemma validateRequest_bearer `{!JwtLib} m token username role now :
  validateRequest m (bearerPrefix +:+ token) username role now
  = validateToken m token username role now.
Proof.
  unfold validateRequest. destruct (substring_app bearerPrefix token) as [E1 E2].
  rewrite bool_decide_false by done.
  rewrite (proj2 (Nat.ltb_ge _ _)).
  2: { unfold bearerPrefix. autorewrite with str. cbn. lia. }
  rewrite E1, E2. by rewrite bool_decide_true.
Qed.

Lemma validateRequest_other `{!JwtLib} m header username role now :
  (∃ token, header = bearerPrefix +:+ token) ∨
  validateRequest m header username role now = (false, username, role).
Proof.
  unfold validateRequest. case_bool_decide; [by right|].
  destruct (_ <? _)%nat eqn:Hlen; [by right|]. apply Nat.ltb_ge in Hlen.
  case_bool_decide as Hp; [|by right]. left. eexists.
  rewrite (substring_split _ _ Hlen) at 1. by rewrite Hp.
Qed.

Section auth_theorems.
Context `{!JwtLib, !JwtLaws _}.

(** C35: a token that was issued is accepted.  The token generated for a user and
    role, sent as a bearer header between the whole second of its issue and that of
    its expiry, is accepted, with that user and role. *)
Theorem bearer_roundtrip m user role now now' token u0 r0 :
  generateToken m user role now = Ret token →
  now ÷ NANOS * NANOS ≤ now' → now' ≤ (now + expiryHours_ m * 3600 * NANOS) ÷ NANOS * NANOS →
  validateRequest m (bearerPrefix +:+ token) u0 r0 now' = (true, user, role) ∧
  isExpired token now' = false.
Proof.
  intros Hgen Hle Hexp. unfold generateToken in Hgen. case_decide as Hr; [|done].
  injection Hgen as <-. rewrite validateRequest_bearer. unfold validateToken, isExpired.
  edestruct law_signed as (d & -> & Hp & Hv). rewrite Hv, Hp; cbn; [|done|by split].
  split; [done|]. apply bool_decide_false. lia.
Qed.

(** C34: nothing else is accepted.  A request is accepted only if the header is
    "Bearer " and a token that decodes, verifies under the manager's
    secret, was issued by the config center and has not expired; the user
    and role it is accepted with are the token's subject and role. *)
Theorem validateRequest_sound m header u0 r0 now u r :
  validateRequest m header u0 r0 now = (true, u, r) →
  ∃ token d, header = bearerPrefix +:+ token ∧ jwt_decode token = Some d ∧
    jwt_verify (secret_ m) "config-center" now d = true ∧
    p_iss (jwt_payload d) = Some "config-center" ∧
    p_sub (jwt_payload d) = Some u ∧ p_role (jwt_payload d) = Some r ∧
    ∀ e, p_exp (jwt_payload d) = Some e → now ≤ e * NANOS ∧ isExpired token now = false.
Proof.
  intros Hok. destruct (validateRequest_other m header u0 r0 now) as [[token ->]|E]; [|congruence].
  rewrite validateRequest_bearer in Hok. exists token. unfold validateToken in Hok.
  unfold isExpired. destruct (jwt_decode token) as [d|] eqn:Hd; [|done]. exists d.
  destruct (jwt_verify _ _ _ _) eqn:Hv; [|done]. apply law_verified in Hv as [Hiss [Hexp _]].
  destruct (p_sub _) eqn:?; [|done]. destruct (p_role _) eqn:?; [|done]. simplify_eq.
  split_and!; try done. intros e He. rewrite He in Hexp |- *. split; [done|].
  apply bool_decide_false. lia.
Qed.
End auth_theorems.

Section user_theorems.
Context (sha256 : string → list Z).
Context {T : Type} `{!ConfigStore T} {O : Observed T Store} {fk : bool}
  `{Hspec : !ConfigStoreSpec T O fk}.

(** Registering and logging in.  A user created under a new name logs in
    with the password (and with exactly the passwords of the same hash); a
    name that is taken is refused, and its password stays what it was. *)
Theorem register_then_login user pass pass' role now (s : T) :
  ready s →
  wp s (ok ← createUser sha256 user pass role now; a ← authenticate sha256 user pass'; mret (ok, a))
    (λ o _, o = match s_users (cur (view s)) !! user with
      | None => Ret (true, bool_decide (hashPassword sha256 pass' = hashPassword sha256 pass))
      | Some u => Ret (false, bool_decide (hashPassword sha256 pass' = usr_password_hash u))
      end).
Proof.
  intros Hs. eapply wp_call; [by apply createUser_spec|]. unfold spec_createUser. cbn.
  destruct (s_users (cur (view s)) !! user) as [u|] eqn:Hu; intros s1 Hs1 Hv1;
    unfold authenticate; apply wp_bind;
    (eapply wp_ask; [by apply getUserByUsername_spec|]); cbn; rewrite Hv1; cbn;
    intros ? s2 -> Hs2 _; [rewrite Hu|rewrite lookup_insert_eq]; (apply wp_ret; [done|]);
    intros s3 Hs3 _; by apply wp_ret.
Qed.
End user_theorems.

(** Permissions form an order with "admin" at the top: [hasPermission] is
    reflexive, transitive and antisymmetric, "admin" has every role's
    permissions, "operator" has those of "viewer", and no other two roles are
    related. *)
Theorem hasPermission_order :
  (∀ r, hasPermission r r = true) ∧
  (∀ a b c, hasPermission a b = true → hasPermission b c = true → hasPermission a c = true) ∧
  (∀ a b, hasPermission a b = true → hasPermission b a = true → a = b) ∧
  (∀ a b, hasPermission a b = true ↔
    a = b ∨ a = "admin" ∨ (a = "operator" ∧ b = "viewer")).
Proof.
  assert (∀ a b, hasPermission a b = true ↔
    a = b ∨ a = "admin" ∨ (a = "operator" ∧ b = "viewer")) as Hspec.
  { intros a b. unfold hasPermission. repeat case_bool_decide; cbn; naive_solver. }
  split_and!; [..|exact Hspec]; intros *; rewrite !Hspec; naive_solver.
Qed.

(** ** Findings and witnesses *)

(** The dump of a digest does not pad its bytes: different digests of 32 bytes
    have the same dump, so that either password opens the account. *)
Example hexdump_ambiguous :
  let d1 := 1 :: 17 :: replicate 30 0 in
  let d2 := 17 :: 1 :: replicate 30 0 in
  d1 ≠ d2 ∧ length d1 = 32%nat ∧ length d2 = 32%nat ∧ hexdump d1 = hexdump d2.
Proof. split_and!; [done|reflexivity..]. Qed.

(** A JWT library that satisfies the laws: a token spells the key and the
    claims out in binary. *)
Definition claims : Type := option string * option string * option string * option Z * option Z.
Definition of_claims (c : claims) : payload :=
  let '(iss, sub, role, iat, exp) := c in mkPayload iss sub role iat exp.
Definition to_claims (p : payload) : claims := (p_iss p, p_sub p, p_role p, p_iat p, p_exp p).

#[export] Instance plain_jwt : JwtLib := {|
  decoded := string * claims;
  jwt_sign key p := to_bits (encode (key, to_claims p));
  jwt_decode t := of_bits t ≫= decode;
  jwt_payload d := of_claims d.2;
  jwt_verify key iss now d := bool_decide (d.1 = key) &&
    bool_decide (p_iss (of_claims d.2) = Some iss) && bool_decide (in_time now (of_claims d.2));
|}.

Lemma plain_jwt_laws : JwtLaws plain_jwt.
Proof.
  split.
  - intros key p. exists (key, to_claims p). cbn. rewrite of_to_bits. cbn. rewrite decode_encode.
    destruct p. split_and!; try done. intros iss now Hi Ht. cbn in *.
    by rewrite !bool_decide_true.
  - intros key iss now d. cbn. rewrite !andb_true_iff, !bool_decide_eq_true. naive_solver.
Qed.

Definition sample_manager : manager := mkManager "secret" 24.
Definition sample_token : string :=
  jwt_sign "secret" (mkPayload (Some "config-center") (Some "alice") (Some "operator")
    (Some 100) (Some 86500)).

Lemma bearer_roundtrip_witness :
  validateRequest sample_manager (bearerPrefix +:+ sample_token) "" "" (200 * NANOS)
    = (true, "alice", "operator") ∧
  isExpired sample_token (200 * NANOS) = false.
Proof.
  apply (@bearer_roundtrip plain_jwt plain_jwt_laws sample_manager "alice" "operator" (100 * NANOS)
    (200 * NANOS) sample_token "" "").
  - vm_compute. reflexivity.
  - vm_compute. discriminate.
  - vm_compute. discriminate.
Defined.

Lemma validateRequest_sound_witness :
  ∃ token d, bearerPrefix +:+ sample_token = bearerPrefix +:+ token ∧ jwt_decode token = Some d ∧
    jwt_verify "secret" "config-center" (200 * NANOS) d = true ∧
    p_iss (jwt_payload d) = Some "config-center" ∧
    p_sub (jwt_payload d) = Some "alice" ∧ p_role (jwt_payload d) = Some "operator" ∧
    ∀ e, p_exp (jwt_payload d) = Some e →
      200 * NANOS ≤ e * NANOS ∧ isExpired token (200 * NANOS) = false.
Proof.
  apply (@validateRequest_sound plain_jwt plain_jwt_laws sample_manager
    (bearerPrefix +:+ sample_token) "" "" (200 * NANOS) "alice" "operator").
  vm_compute. reflexivity.
Defined.

Lemma register_then_login_witness :
  let sha (s : string) := [Z.of_nat (String.length s)] in
  @wp _ _ mem_observed _ mem_sample
    (ok ← @createUser sha _ mem_store "alice" "pw" "viewer" 0;
     a ← @authenticate sha _ mem_store "alice" "other"; mret (ok, a))
    (λ o _, o = match s_users (cur (@view _ _ mem_observed mem_sample)) !! "alice" with
      | None => Ret (true, bool_decide (hashPassword sha "other" = hashPassword sha "pw"))
      | Some u => Ret (false, bool_decide (hashPassword sha "other" = usr_password_hash u))
      end).
Proof.
  intros sha. apply (@register_then_login sha _ mem_store mem_observed true mem_store_spec).
  apply mem_sample_healthy.
Defined.
