(* ===== verification/ConfigClient.v ===== *)
(** * The client SDK

    [ConfigClient] of [sdk/src/config_client.cpp] (with the classes defined in
    it): the cache, the typed accessors, the file the cache is kept in between
    runs, and the reconnection back-off.

    The state is the client's members and the files it can reach.  The JSON
    library and [std::stod] are parameters: [json_dump] serializes the object
    that maps the keys of a map to its strings ([None]: it throws, on a string
    that is not UTF-8), [json_parse] parses ([None]: it throws), and
    [json_items] are the steps of an iteration over a value, each a key with
    a string, or [None] where [it.key()] or [get<std::string>()] throws. *)
From S2P Require Import Prelude Strings.

Class JsonLib := {
  json : Type;
  json_dump : gmap string string → option string;
  json_parse : string → option json;
  json_items : json → list (option (string * string));
}.

Class JsonLaws (J : JsonLib) : Prop := {
  (* what was dumped parses to an object with the same members *)
  law_dump_parse : ∀ m s, json_dump m = Some s →
    ∃ j l, json_parse s = Some j ∧ json_items j = Some <$> l ∧ l ≡ₚ map_to_list m;
}.

Inductive InitResult :=
  | Success
  | ServerUnreachable
  | ServerUnreachableUsingCache
  | Failed.
#[export] Instance InitResult_eq_dec : EqDecision InitResult.
Proof. solve_decision. Defined.

Module ReconnectPolicy.
Record policy := mkPolicy { backoffSeconds_ : Z; maxBackoff_ : Z }.
Definition new_policy : policy := mkPolicy 1 60.

Definition members : M policy policy := λ p, (Ret p, p).
Definition set_backoff (b : Z) : M policy () := λ p, (Ret (), mkPolicy b (maxBackoff_ p)).

Definition nextDelay : M policy Z :=
  p ← members;
  let delay := backoffSeconds_ p in
  doubled ← int32 (backoffSeconds_ p * 2);
  _ ← set_backoff (Z.min doubled (maxBackoff_ p));
  mret delay.

Definition reset : M policy () := set_backoff 1.

(** The delays of [n] rounds of [reconnectLoop]. *)
Fixpoint delays (n : nat) : M policy (list Z) :=
  match n with
  | O => mret []
  | S n => d ← nextDelay; l ← delays n; mret (d :: l)
  end.
End ReconnectPolicy.

Module ConfigClient.
Section client.
Context `{!JsonLib}.
Context {Double : Type} (stod : string → option Double).
Context {Callback : Type}.

(** The members, and the files: what they hold and which can be opened to write. *)
Record client := mkClient {
  serverAddress_ : string;
  appId_ : string;
  env_ : string;
  initialized_ : bool;
  configCache_ : gmap string string;
  callbacks_ : gmap string (list Callback);
  cacheFilePath_ : string;
  files : gmap string string;
}.
Context (writable : string → bool).

(** A new client on a machine with the given files. *)
Definition new_client (fs : gmap string string) : client := mkClient "" "" "" false ∅ ∅ "" fs.

Definition get {A : Type} (f : client → A) : M client A := λ c, (Ret (f c), c).
Definition set_initialized (b : bool) : M client () := λ c,
  (Ret (), mkClient (serverAddress_ c) (appId_ c) (env_ c) b (configCache_ c) (callbacks_ c)
    (cacheFilePath_ c) (files c)).
Definition set_names (server app env path : string) : M client () := λ c,
  (Ret (), mkClient server app env (initialized_ c) (configCache_ c) (callbacks_ c) path (files c)).
Definition set_cache (f : gmap string string → gmap string string) : M client () := λ c,
  (Ret (), mkClient (serverAddress_ c) (appId_ c) (env_ c) (initialized_ c) (f (configCache_ c))
    (callbacks_ c) (cacheFilePath_ c) (files c)).
Definition set_callbacks (f : gmap string (list Callback) → gmap string (list Callback))
    : M client () := λ c,
  (Ret (), mkClient (serverAddress_ c) (appId_ c) (env_ c) (initialized_ c) (configCache_ c)
    (f (callbacks_ c)) (cacheFilePath_ c) (files c)).
Definition write_file (path content : string) : M client () := λ c,
  (Ret (), mkClient (serverAddress_ c) (appId_ c) (env_ c) (initialized_ c) (configCache_ c)
    (callbacks_ c) (cacheFilePath_ c) (<[path := content]> (files c))).

(** ** The cache file *)

(** The stream is opened, and the file emptied, before [cache.dump] may throw. *)
Definition saveToFileCache : M client () :=
  path ← get cacheFilePath_;
  if bool_decide (path = "") then mret ()
  else
    cache ← get configCache_;
    if writable path then
      _ ← write_file path "";
      match json_dump cache with
      | Some s => write_file path s
      | None => throw
      end
    else mret ().

(** [for (it = cache.begin(); ...) configCache_[it.key()] = it.value().get<std::string>()] *)
Fixpoint load_items (l : list (option (string * string))) : M client () :=
  match l with
  | [] => mret ()
  | Some (k, v) :: l => _ ← set_cache <[k := v]>; load_items l
  | None :: _ => throw
  end.

Definition loadFromFileCache : M client bool :=
  path ← get cacheFilePath_;
  fs ← get files;
  match fs !! path with
  | None => mret false
  | Some content =>
    try_catch
      (match json_parse content with
       | None => throw
       | Some j => _ ← load_items (json_items j); mret true
       end)
      (mret false)
  end.

(** ** The subscription: [SubscriptionManager], which a client always has, does nothing *)
Definition subscription_start : M client () := mret ().
Definition subscription_stop : M client () := mret ().

Definition subscribeToServer : M client () := subscription_start.
Definition fetchConfigFromServer (key : string) : M client () := mret ().

(** ** Life cycle: [home] is [getenv("HOME")] *)
Definition cache_path (home : option string) (appId env : string) : string :=
  match home with
  | Some h => h +:+ "/.config-center/cache/" +:+ appId +:+ "-" +:+ env +:+ ".json"
  | None => "config-cache-" +:+ appId +:+ "-" +:+ env +:+ ".json"
  end.

Definition Init (home : option string) (serverAddress appId env : string) : M client InitResult :=
  _ ← set_names serverAddress appId env (cache_path home appId env);
  let serverReachable := false in
  if negb serverReachable then
    loaded ← loadFromFileCache;
    if loaded : bool then
      _ ← subscribeToServer; _ ← set_initialized true; mret ServerUnreachableUsingCache
    else mret Failed
  else
    _ ← subscribeToServer; _ ← set_initialized true; mret Success.

Definition Shutdown : M client () :=
  i ← get initialized_;
  if negb i then mret ()
  else
    _ ← saveToFileCache;
    _ ← subscription_stop;
    set_initialized false.

(** An exception that leaves the destructor ends the program. *)
Definition destructor : M client () := Shutdown.

(** ** Accessors *)
Definition GetConfig (key : string) : M client (option string) :=
  cache ← get configCache_; mret (cache !! key).

Definition GetConfigInt (key : string) : M client (option Z) :=
  val ← GetConfig key; mret (v ← val; stoi v).

Definition GetConfigDouble (key : string) : M client (option Double) :=
  val ← GetConfig key; mret (v ← val; stod v).

Definition parse_bool (v : string) : option bool :=
  let lower := tolower v in
  if bool_decide (lower = "true") || bool_decide (lower = "1") then Some true
  else if bool_decide (lower = "false") || bool_decide (lower = "0") then Some false
  else None.

Definition GetConfigBool (key : string) : M client (option bool) :=
  val ← GetConfig key; mret (v ← val; parse_bool v).

Definition GetConfigJson (key : string) : M client (option json) :=
  val ← GetConfig key; mret (v ← val; json_parse v).

Definition GetAllKeys : M client (list string) :=
  cache ← get configCache_; mret (map_to_list cache).*1.

(** ** Callbacks *)
Definition RegisterCallback (key : string) (callback : Callback) : M client () :=
  set_callbacks (λ m, <[key := default [] (m !! key) ++ [callback]]> m).
Definition RemoveCallbacks (key : string) : M client () := set_callbacks (delete key).
End client.
Arguments client : clear implicits.
End ConfigClient.
Import ConfigClient ReconnectPolicy.

(** ** Back-off *)
Lemma delays_from (n i : nat) :
  delays n (mkPolicy (Z.min (2 ^ Z.of_nat i) 60) 60)
  = (Ret ((λ j, Z.min (2 ^ Z.of_nat j) 60) <$> seq i n),
     mkPolicy (Z.min (2 ^ Z.of_nat (i + n)) 60) 60).
Proof.
  revert i. induction n as [|n IH]; intros i; cbn [delays].
  - by rewrite Nat.add_0_r.
  - assert (1 ≤ 2 ^ Z.of_nat i) by (apply (Z.pow_le_mono_r 2 0); lia).
    unfold nextDelay, mbind, M_bind, members, int32. cbn.
    rewrite decide_True by (unfold in_int32, INT32_MIN, INT32_MAX; lia). cbn.
    replace (Z.min (Z.min (2 ^ Z.of_nat i) 60 * 2) 60) with (Z.min (2 ^ Z.of_nat (S i)) 60).
    2: { rewrite Nat2Z.inj_succ, Z.pow_succ_r by lia. lia. }
    rewrite IH. cbn. by rewrite Nat.add_succ_r.
Qed.

(** Reconnection backs off exponentially.  The delays are 1, 2, 4, ...
    seconds, capped at 60, for any number of attempts and without overflow, and
    start again at 1 after [reset]. *)
Theorem backoff_exponential (k n : nat) :
  (_ ← delays k; _ ← reset; delays n) new_policy
  = (Ret ((λ i, Z.min (2 ^ Z.of_nat i) 60) <$> seq 0 n), mkPolicy (Z.min (2 ^ Z.of_nat n) 60) 60).
Proof.
  unfold mbind, M_bind. rewrite (delays_from k 0 : delays k new_policy = _). cbn.
  apply (delays_from n 0).
Qed.

(** Integers are read back.  [GetConfigInt] of a value that spells an
    integer, after white space and before anything that does not start with a
    digit, is that integer if it is an [int] and nothing otherwise. *)
Theorem GetConfigInt_reads {Callback : Type} (c : client Callback) key ws z rest :
  configCache_ c !! key = Some (ws +:+ pretty z +:+ rest) →
  Forall is_space (chars ws) → no_digit rest →
  GetConfigInt key c = (Ret (if decide (in_int32 z) then Some z else None), c).
Proof.
  intros Hkey Hws Hrest. unfold GetConfigInt, GetConfig, mbind, M_bind, get. cbn. rewrite Hkey.
  cbn. by rewrite stoi_pretty.
Qed.

(** ** The cache file *)
Section cache_file.
Context `{!JsonLib, !JsonLaws _}.
Context {Callback : Type} (writable : string → bool).
Implicit Types c : client Callback.

Lemma load_items_spec (l : list (string * string)) c :
  NoDup l.*1 →
  load_items (Some <$> l) c = set_cache (λ m, list_to_map l ∪ m) c.
Proof.
  revert c. induction l as [|[k v] l IH]; intros c Hnd.
  { cbn. unfold set_cache. rewrite map_empty_union. by destruct c. }
  cbn in Hnd. apply NoDup_cons in Hnd as [Hk Hnd]. cbn. unfold mbind, M_bind. cbn.
  rewrite IH by done. unfold set_cache. cbn. do 2 f_equal.
  rewrite <- insert_union_r by (by apply not_elem_of_list_to_map_1). apply insert_union_l.
Qed.

Lemma cache_path_nonempty home app env : cache_path home app env ≠ "".
Proof.
  destruct home as [h|]; cbn.
  - intros E. apply (f_equal chars) in E. rewrite chars_app in E. cbn in E.
    apply app_eq_nil in E as [_ E]. done.
  - rewrite str_app_cons. done.
Qed.

(** C36: the cache survives a restart.  When a client whose cache file can be
    written and whose values can be serialized shuts down, a new client for the
    same application and environment starts from that file with exactly the
    same keys and values. *)
Theorem cache_roundtrip home server app env s c :
  initialized_ c = true → cacheFilePath_ c = cache_path home app env →
  writable (cache_path home app env) = true → json_dump (configCache_ c) = Some s →
  ∃ c1 c2, Shutdown writable c = (Ret (), c1) ∧ initialized_ c1 = false ∧
    Init home server app env (new_client (files c1) : client Callback)
      = (Ret ServerUnreachableUsingCache, c2) ∧
    initialized_ c2 = true ∧ configCache_ c2 = configCache_ c.
Proof.
  intros Hi Hpath Hw Hs. destruct (law_dump_parse _ _ Hs) as (j & l & Hparse & Hitems & Hl).
  assert (NoDup l.*1) as Hnd by (rewrite Hl; apply NoDup_fst_map_to_list).
  eexists _, _. split_and!.
  - unfold Shutdown, saveToFileCache, mbind, M_bind, get. cbn. rewrite Hi. cbn. rewrite Hpath.
    rewrite bool_decide_false by apply cache_path_nonempty. rewrite Hw. cbn. rewrite Hs. reflexivity.
  - done.
  - unfold Init, loadFromFileCache, mbind, M_bind, get, try_catch. cbn. rewrite lookup_insert_eq.
    rewrite Hparse, Hitems, load_items_spec by done. reflexivity.
  - done.
  - cbn. rewrite map_union_empty. rewrite (list_to_map_proper l (map_to_list (configCache_ c))) by done.
    apply list_to_map_to_list.
Qed.

End cache_file.

Section init.
Context `{!JsonLib} {Callback : Type}.
Implicit Types c : client Callback.

(** What [Init] can return.  It never reports [Success]: it reads the cache
    file, and returns [ServerUnreachableUsingCache] with the client
    initialized, exactly when the file is there and holds a JSON object of
    strings (or null), and [Failed] with the client no more initialized than before
    otherwise. *)
Theorem Init_results home server app env c :
  ∃ r c', Init home server app env c = (Ret r, c') ∧
    (r = ServerUnreachableUsingCache ∧ initialized_ c' = true ∨
     r = Failed ∧ initialized_ c' = initialized_ c) ∧
    (r = ServerUnreachableUsingCache ↔
      ∃ s j, files c !! cache_path home app env = Some s ∧ json_parse s = Some j ∧
        Forall is_Some (json_items j)).
Proof.
  unfold Init, loadFromFileCache, mbind, M_bind, get, try_catch. cbn.
  destruct (files c !! cache_path home app env) as [s|]; [|by eexists _, _; naive_solver].
  destruct (json_parse s) as [j|] eqn:Hj; [|by eexists _, _; naive_solver].
  assert (∀ l c0, ∃ c1, load_items l c0 = (if decide (Forall is_Some l) then Ret () else Throw, c1) ∧
    initialized_ c1 = initialized_ c0) as Hload.
  { induction l as [|[[k v]|] l IH]; intros c0; [by eexists| |].
    - destruct (IH (set_cache <[k := v]> c0).2) as (c1 & Hc1 & Hi). exists c1. split; [|exact Hi].
      cbn. unfold mbind, M_bind. cbn. etrans; [exact Hc1|]. f_equal.
      do 2 case_decide; try done; rewrite Forall_cons in *; naive_solver.
    - eexists. split; [|done]. rewrite decide_False; [done|]. intros [[? [=]] _]%Forall_cons. }
  edestruct Hload as (c1 & -> & Hi). case_decide as Hall; cbn; eexists _, _; (split; [done|]).
  - split; [by left|]. split; [|done]. intros _. by exists s, j.
  - split; [by right|]. split; [done|]. naive_solver.
Qed.
End init.

(** ** Witnesses *)

(** A serializer that satisfies the law: the members in binary. *)
#[export] Instance plain_json : JsonLib := {|
  json := list (string * string);
  json_dump m := Some (to_bits (encode (map_to_list m)));
  json_parse s := of_bits s ≫= decode;
  json_items l := Some <$> l;
|}.

Lemma plain_json_laws : JsonLaws plain_json.
Proof.
  split. intros m s [= <-]. exists (map_to_list m), (map_to_list m). cbn.
  rewrite of_to_bits. cbn. by rewrite decode_encode.
Qed.

Definition sample_client : client nat :=
  mkClient "localhost" "app" "DEV" true {[ "port" := " 8080ms" ]} ∅ "/home/u/.config-center/cache/app-DEV.json" ∅.

Lemma GetConfigInt_reads_witness :
  GetConfigInt "port" sample_client = (Ret (if decide (in_int32 8080) then Some 8080 else None), sample_client).
Proof.
  apply (GetConfigInt_reads sample_client "port" " " 8080 "ms").
  - vm_compute. reflexivity.
  - by repeat constructor.
  - reflexivity.
Defined.

Lemma cache_roundtrip_witness :
  ∃ c1 c2 : client nat, Shutdown (λ _, true) sample_client = (Ret (), c1) ∧ initialized_ c1 = false ∧
    Init (Some "/home/u") "other" "app" "DEV" (new_client (files c1) : client nat)
      = (Ret ServerUnreachableUsingCache, c2) ∧
    initialized_ c2 = true ∧ configCache_ c2 = {[ "port" := " 8080ms" ]}.
Proof.
  eapply (@cache_roundtrip plain_json plain_json_laws nat (λ _, true) (Some "/home/u") "other" "app" "DEV"
    _ sample_client); reflexivity.
Defined.
