(* ===== verification/Json.v ===== *)
(** * JSON values

    The values of [nlohmann::json] that the handlers build and read, with the
    accessors they use.  An object is a finite map from names to values, as the
    library's [std::map] is.  An accessor that throws in the library throws
    here; reading a member that is not there through a constant reference is
    undefined behaviour there and here.  *)
From S2P Require Import Prelude.

Inductive json :=
  | JNull
  | JBool (b : bool)
  | JInt (z : Z)
  | JDouble (bits : Z)
  | JString (s : string)
  | JArray (l : list json)
  | JObject (m : gmap string json).

(** [json{{k, v}, ...}] *)
Definition object (l : list (string * json)) : json := JObject (list_to_map l).

(** [obj[k] = v], on an object *)
Definition set_member (k : string) (v : json) (j : json) : json :=
  match j with
  | JObject m => JObject (<[k := v]> m)
  | JNull => JObject {[ k := v ]}
  | _ => j
  end.

(** [body.contains(k)] *)
Definition contains (body : json) (k : string) : bool :=
  match body with JObject m => bool_decide (is_Some (m !! k)) | _ => false end.

Section accessors.
Context {S : Type}.

(** [body[k]] of a value that may change: a member that is not there is added
    as null.  The handlers do not look at the value again where that shows. *)
Definition json_at (body : json) (k : string) : M S json :=
  match body with
  | JObject m => mret (default JNull (m !! k))
  | JNull => mret JNull
  | _ => throw
  end.

(** [body[k]] of a [const json&] *)
Definition json_at_const (body : json) (k : string) : M S json :=
  match body with
  | JObject m => match m !! k with Some j => mret j | None => undef end
  | _ => throw
  end.

(** the conversion to [std::string] *)
Definition to_string (j : json) : M S string :=
  match j with JString s => mret s | _ => throw end.

(** [std::string(body[k])] *)
Definition string_at (body : json) (k : string) : M S string :=
  j ← json_at body k; to_string j.

Definition string_at_const (body : json) (k : string) : M S string :=
  j ← json_at_const body k; to_string j.

(** [body.value(k, dflt)] *)
Definition value_or (body : json) (k dflt : string) : M S string :=
  match body with
  | JObject m => match m !! k with Some j => to_string j | None => mret dflt end
  | _ => throw
  end.

(** [body.contains(k) ? std::optional<std::string>(body[k]) : std::nullopt] *)
Definition optional_at (body : json) (k : string) : M S (option string) :=
  if contains body k then s ← string_at body k; mret (Some s) else mret None.
End accessors.

(** What the two forms of [body[k]] have in common: where the constant one is
    defined it is the other. *)
Lemma string_at_const_or {S : Type} body k (s : S) :
  string_at_const body k s = (Undef, s) ∨ string_at_const body k s = string_at body k s.
Proof.
  unfold string_at_const, string_at, json_at_const, json_at, mbind, M_bind.
  destruct body as [| | | | | |m]; try by right. destruct (m !! k); [by right|by left].
Qed.

(** Reading the body leaves the state alone. *)
Definition reads_only {S A : Type} (m : M S A) : Prop := ∀ s, (m s).2 = s.
Lemma string_at_reads_only {S : Type} body k : reads_only (@string_at S body k).
Proof.
  intros s. unfold string_at, json_at, mbind, M_bind. destruct body as [| | | | | |m]; try done.
  cbn. by destruct (default JNull (m !! k)).
Qed.
Lemma value_or_reads_only {S : Type} body k d : reads_only (@value_or S body k d).
Proof.
  intros s. unfold value_or. destruct body as [| | | | | |m]; try done.
  destruct (m !! k) as [[]|]; done.
Qed.
Lemma optional_at_reads_only {S : Type} body k : reads_only (@optional_at S body k).
Proof.
  intros s. unfold optional_at. destruct (contains body k); [|done].
  pose proof (string_at_reads_only body k s) as Hs. unfold mbind, M_bind.
  destruct (string_at body k s) as [[] ?]; done.
Qed.
