(* ===== verification/Api.v ===== *)
(** * The handler classes

    [ApiResponse] and the handler classes of [src/api/]: each handler takes the
    parsed body and answers with a JSON value.  The arguments of a call are
    evaluated from left to right here; C++ leaves their order open, which shows
    only where two of them fail in different ways.  [now] is the reading of the
    clock that the store or the namespace manager makes. *)
From S2P Require Import Prelude Timestamp DataTypes SqliteOrm MemOrm ConfigStore SqliteConfigStore StoreOps StoreInvariants StoreTheorems History NamespaceManager PublishEngine Json.

Module ApiResponse.
Definition error (code : Z) (message : string) : json :=
  object [("error", JString message); ("code", JInt code)].
Definition success : json := object [("status", JString "ok")].
End ApiResponse.

(** ** The objects of the answers *)

(** the [description] member is there when the application has one *)
Definition app_json (app : Application) : json :=
  let obj := object [("app_id", JString (app_app_id app)); ("name", JString (app_name app));
                     ("created_at", JString (app_created_at app))] in
  match app_description app with
  | Some d => set_member "description" (JString d) obj
  | None => obj
  end.

Definition ns_json (ns : Namespace) : json :=
  object [("id", JString (ns_id ns)); ("app_id", JString (ns_app_id ns));
          ("env", JString (ns_env ns)); ("cluster", JString (ns_cluster ns));
          ("name", JString (ns_name ns)); ("type", JString (ns_type ns))].

Definition config_json (c : ConfigKey) : json :=
  object [("key", JString (ck_key c)); ("value", JString (ck_value c));
          ("version", JInt (ck_version c))].

Definition published_json (r : Release) : json :=
  object [("release_id", JInt (rel_id r)); ("release_version", JInt (rel_release_version r));
          ("release_note", JString (rel_release_note r));
          ("created_at", JString (rel_created_at r))].

Definition release_json (r : Release) : json :=
  object [("id", JInt (rel_id r)); ("release_version", JInt (rel_release_version r));
          ("release_note", JString (rel_release_note r));
          ("release_type", JString (rel_release_type r)); ("status", JString (rel_status r));
          ("operator_id", JString (rel_operator_id r));
          ("created_at", JString (rel_created_at r))].

Module NamespaceHandler.
Section handlers.
Context {T : Type} `{!ConfigStore T}.

Definition handleCreateApp (body : json) (now : Z) : M T json :=
  if negb (contains body "app_id") || negb (contains body "name") then
    mret (ApiResponse.error 400 "Missing required fields: app_id, name")
  else
    appId ← string_at_const body "app_id";
    name ← string_at_const body "name";
    description ← optional_at body "description";
    ok ← NamespaceManager.registerApplication appId name description now;
    if negb ok then mret (ApiResponse.error 409 "Application already exists")
    else
      i ← json_at_const body "app_id";
      n ← json_at_const body "name";
      mret (object [("app_id", i); ("name", n)]).

Definition handleListApps : M T json :=
  apps ← NamespaceManager.listApplications;
  mret (object [("applications", JArray (app_json <$> apps))]).

Definition handleGetApp (appId : string) : M T json :=
  app ← NamespaceManager.getApplication appId;
  match app with
  | None => mret (ApiResponse.error 404 "Application not found")
  | Some app => mret (app_json app)
  end.

Definition handleDeleteApp (appId : string) : M T json :=
  _ ← NamespaceManager.removeApplication appId;
  mret ApiResponse.success.

Definition handleCreateNamespace (body : json) (now : Z) : M T json :=
  appId ← string_at_const body "app_id";
  env ← string_at_const body "env";
  cluster ← value_or body "cluster" "default";
  name ← string_at_const body "name";
  type ← value_or body "type" "private";
  parent ← optional_at body "parent_namespace_id";
  ok ← NamespaceManager.createNamespace appId env cluster name type parent now;
  if negb ok then mret (ApiResponse.error 400 "Failed to create namespace")
  else
    appId ← string_at_const body "app_id";
    env ← string_at_const body "env";
    cluster ← value_or body "cluster" "default";
    name ← string_at_const body "name";
    mret (object [("id", JString (appId +:+ "/" +:+ env +:+ "/" +:+ cluster +:+ "/" +:+ name))]).

(** the [parent_namespace_id] member is there when the namespace has one *)
Definition ns_parent_json (ns : Namespace) : json :=
  match ns_parent_namespace_id ns with
  | Some p => set_member "parent_namespace_id" (JString p) (ns_json ns)
  | None => ns_json ns
  end.

Definition handleListNamespaces (appId : string) : M T json :=
  namespaces ← ConfigStore.listNamespaces appId "" "";
  mret (object [("namespaces", JArray (ns_parent_json <$> namespaces))]).
End handlers.
End NamespaceHandler.

Module ConfigHandler.
Section handlers.
Context {T : Type} `{!ConfigStore T}.

Definition handleGetConfig (namespaceId key : string) : M T json :=
  config ← getConfig namespaceId key false;
  match config with
  | None => mret (ApiResponse.error 404 "Config not found")
  | Some c => mret (config_json c)
  end.

Definition handleSetConfig (namespaceId key : string) (body : json) (operatorId : string) (now : Z)
    : M T json :=
  value ← value_or body "value" "";
  existing ← getConfig namespaceId key false;
  _ ← match existing with
      | Some _ => updateConfig namespaceId key value operatorId true now
      | None => createConfig namespaceId key value operatorId now
      end;
  mret ApiResponse.success.

Definition handleDeleteConfig (namespaceId key operatorId : string) (now : Z) : M T json :=
  _ ← deleteConfig namespaceId key operatorId true now;
  mret ApiResponse.success.
End handlers.
End ConfigHandler.

Module PublishHandler.
Section handlers.
Context {T : Type} `{!ConfigStore T}.

Definition handlePublish (namespaceId : string) (body : json) (operatorId : string) (now : Z)
    : M T json :=
  releaseNote ← value_or body "release_note" "";
  r ← publishRelease namespaceId releaseNote operatorId empty_release now;
  if negb (r.1) then mret (ApiResponse.error 500 "Publish failed")
  else mret (published_json (r.2)).

Definition handleGetReleases (namespaceId : string) : M T json :=
  releases ← getReleases (release_query namespaceId);
  mret (object [("releases", JArray (release_json <$> releases))]).
End handlers.
End PublishHandler.

Module AuthHandler.
Definition handleLogin (username password : string) : json :=
  ApiResponse.error 501 "Auth not yet configured".
End AuthHandler.

Module HealthHandler.
Definition handleHealth {T : Type} `{!ConfigStore T} : M T json :=
  up ← healthCheck;
  mret (object [("status", JString "UP"); ("uptime_seconds", JInt 0); ("db_connected", JBool up)]).
End HealthHandler.

Module NotificationHandler.
Definition handleLongPoll (namespaceId lastReleaseId : string) (timeout : Z) : json :=
  object [("namespace", JString namespaceId); ("changed", JBool false)].
End NotificationHandler.
