(* ===== verification/HttpServer.v ===== *)
(** * The HTTP server

    [HttpSession] of [src/server/http_server.cpp]: [handleRequest] routes a
    request by its target and method, a handler answers with a JSON value, and
    [sendResponse] serialises it.  [json_parse] and [json_dump] are the parser
    and the serializer of the JSON library ([None]: they throw).  A thrown
    exception leaves [handleRequest] and with it the thread that runs the
    server.  The sockets are not modelled: a response is the status and the
    text that is written.  A request reads the clock at most once, as [now]. *)
From S2P Require Import Prelude Timestamp DataTypes SqliteOrm MemOrm ConfigStore SqliteConfigStore StoreOps StoreInvariants StoreTheorems History NamespaceManager PublishEngine Strings Json Api.

(** [http::verb] *)
Inductive verb := get | post | put | delete_ | other_verb (code : N).
#[export] Instance verb_eq_dec : EqDecision verb.
Proof. solve_decision. Defined.

Record request := mkRequest {
  req_method : verb;
  req_target : string;
  req_body : string;
}.

Module HttpSession.
(** [url.find(suffix, start)] *)
Definition find_from (start : nat) (p s : string) : option nat :=
  (λ i, (start + i)%nat) <$> find p (substr start s).

Definition extractPathParam (url prefix suffix : string) : string :=
  match find prefix url with
  | None => ""
  | Some start =>
    let start := (start + String.length prefix)%nat in
    if bool_decide (suffix = "") then substr start url
    else
      match find_from start suffix url with
      | None => ""
      | Some end_ => str_take (end_ - start) (substr start url)
      end
  end.

(** [target.find(p) != std::string::npos] *)
Definition includes (p target : string) : bool := bool_decide (is_Some (find p target)).
(** [target.find(p) == 0] *)
Definition begins (p target : string) : bool := bool_decide (find p target = Some 0%nat).

Section session.
Context {T : Type} `{!ConfigStore T}.
Context (json_parse : string → option json) (json_dump : json → option string).

(** [json::parse(request_.body())] *)
Definition parse_body (body : string) : M T json :=
  match json_parse body with Some j => mret j | None => throw end.

(** ** Handlers *)
Definition handleHealth : M T json :=
  up ← healthCheck;
  mret (object [("status", JString "UP"); ("uptime_seconds", JInt 0); ("db_connected", JBool up)]).

Definition handleLogin (request : string) : M T json :=
  _ ← parse_body request;
  mret (ApiResponse.error 501 "Not implemented").

Definition handleCreateApp (request : string) (now : Z) : M T json :=
  body ← parse_body request;
  if negb (contains body "app_id") || negb (contains body "name") then
    mret (ApiResponse.error 400 "Missing required fields: app_id, name")
  else
    appId ← string_at body "app_id";
    name ← string_at body "name";
    description ← optional_at body "description";
    ok ← NamespaceManager.registerApplication appId name description now;
    if negb ok then mret (ApiResponse.error 409 "Application already exists")
    else
      i ← json_at body "app_id";
      n ← json_at body "name";
      mret (object [("app_id", i); ("name", n)]).

Definition handleListApps : M T json :=
  apps ← NamespaceManager.listApplications;
  mret (object [("applications", JArray (app_json <$> apps))]).

Definition handleGetApp (appId : string) : M T json :=
  app ← NamespaceManager.getApplication appId;
  match app with
  | None => mret (ApiResponse.error 404 "Application not found")
  | Some app => mret (app_json app)
  end.

Definition handleDeleteApp (appId : string) : M T json :=
  _ ← NamespaceManager.removeApplication appId;
  mret ApiResponse.success.

Definition handleListNamespaces (appId : string) : M T json :=
  _ ← NamespaceManager.listApplications;
  namespaces ← ConfigStore.listNamespaces appId "" "";
  mret (object [("namespaces", JArray (ns_json <$> namespaces))]).

Definition handleCreateNamespace (request : string) (now : Z) : M T json :=
  body ← parse_body request;
  appId ← string_at body "app_id";
  env ← string_at body "env";
  cluster ← value_or body "cluster" "default";
  name ← string_at body "name";
  type ← value_or body "type" "private";
  parent ← optional_at body "parent_namespace_id";
  ok ← NamespaceManager.createNamespace appId env cluster name type parent now;
  if negb ok then mret (ApiResponse.error 400 "Failed to create namespace")
  else
    appId ← string_at body "app_id";
    env ← string_at body "env";
    cluster ← value_or body "cluster" "default";
    name ← string_at body "name";
    mret (object [("id", JString (appId +:+ "/" +:+ env +:+ "/" +:+ cluster +:+ "/" +:+ name))]).

Definition handleGetConfig (ns key : string) : M T json :=
  config ← getConfig ns key false;
  match config with
  | None => mret (ApiResponse.error 404 "Config not found")
  | Some c => mret (config_json c)
  end.

Definition handleSetConfig (ns key request : string) (now : Z) : M T json :=
  body ← parse_body request;
  value ← string_at body "value";
  existing ← getConfig ns key false;
  _ ← match existing with
      | Some _ => updateConfig ns key value "system" true now
      | None => createConfig ns key value "system" now
      end;
  mret ApiResponse.success.

Definition handleDeleteConfig (ns key : string) (now : Z) : M T json :=
  _ ← deleteConfig ns key "system" true now;
  mret ApiResponse.success.

Definition handlePublish (ns request : string) (now : Z) : M T json :=
  body ← parse_body request;
  releaseNote ← value_or body "release_note" "";
  r ← publishRelease ns releaseNote "system" empty_release now;
  if negb (r.1) then mret (ApiResponse.error 500 "Publish failed")
  else mret (published_json (r.2)).

Definition handleGetReleases (ns : string) : M T json :=
  releases ← getReleases (release_query ns);
  mret (object [("releases", JArray (release_json <$> releases))]).

Definition handleNotifications : json :=
  ApiResponse.error 501 "Long-polling not implemented yet".

(** ** Routing: the status and the body of the answer.  A method a route does
    not serve leaves [responseBody] null. *)
Definition ok_json (m : M T json) : M T (Z * json) := j ← m; mret (200, j).

Definition route (req : request) (now : Z) : M T (Z * json) :=
  let target := req_target req in
  let method := req_method req in
  let body := req_body req in
  if bool_decide (target = "/health") then ok_json handleHealth
  else if bool_decide (target = "/api/v1/auth/login" ∧ method = post) then
    ok_json (handleLogin body)
  else if bool_decide (target = "/api/v1/apps") then
    match method with
    | post => ok_json (handleCreateApp body now)
    | get => ok_json handleListApps
    | _ => mret (200, JNull)
    end
  else if begins "/api/v1/apps/" target && negb (includes "/namespaces" target) then
    let appId := extractPathParam target "/api/v1/apps/" "" in
    match method with
    | get => ok_json (handleGetApp appId)
    | delete_ => ok_json (handleDeleteApp appId)
    | _ => mret (200, JNull)
    end
  else if begins "/api/v1/apps/" target && includes "/namespaces" target then
    let appId := extractPathParam target "/api/v1/apps/" "/namespaces" in
    match method with
    | get => ok_json (handleListNamespaces appId)
    | _ => mret (200, JNull)
    end
  else if bool_decide (target = "/api/v1/namespaces" ∧ method = post) then
    ok_json (handleCreateNamespace body now)
  else if begins "/api/v1/namespaces/" target && includes "/keys/" target then
    let ns := extractPathParam target "/api/v1/namespaces/" "/keys/" in
    let key := extractPathParam target "/keys/" "" in
    match method with
    | get => ok_json (handleGetConfig ns key)
    | put => ok_json (handleSetConfig ns key body now)
    | delete_ => ok_json (handleDeleteConfig ns key now)
    | _ => mret (200, JNull)
    end
  else if begins "/api/v1/namespaces/" target && includes "/publish" target then
    let ns := extractPathParam target "/api/v1/namespaces/" "/publish" in
    ok_json (handlePublish ns body now)
  else if begins "/api/v1/namespaces/" target && includes "/releases" target then
    let ns := extractPathParam target "/api/v1/namespaces/" "/releases" in
    ok_json (handleGetReleases ns)
  else if bool_decide (target = "/api/v1/notifications") then mret (200, handleNotifications)
  else mret (404, ApiResponse.error 404 "Not found").

Definition sendResponse (status : Z) (body : json) : M T (Z * string) :=
  match json_dump body with Some text => mret (status, text) | None => throw end.

Definition handleRequest (req : request) (now : Z) : M T (Z * string) :=
  r ← route req now;
  sendResponse r.1 r.2.
End session.
End HttpSession.
Import HttpSession.

(** ** Targets *)
Definition ns_prefix : string := "/api/v1/namespaces/".
Definition keys_target (ns key : string) : string := ns_prefix +:+ ns +:+ "/keys/" +:+ key.
Definition publish_target (ns : string) : string := ns_prefix +:+ ns +:+ "/publish".

(** The namespace can be told from the rest of the target: the separator does
    not occur in the part before it, alone or with a piece of itself. *)
Definition plain_ns (ns : string) : bool :=
  negb (includes "/keys/" (ns_prefix +:+ ns +:+ "/keys")) &&
  negb (includes "/keys/" (ns_prefix +:+ ns +:+ "/publish")) &&
  negb (includes "/publish" (ns_prefix +:+ ns +:+ "/publis")).

(** The same under [/api/v1/apps/]. *)
Definition app_prefix : string := "/api/v1/apps/".
Definition app_target (id : string) : string := app_prefix +:+ id.
Definition namespaces_target (id : string) : string := app_prefix +:+ id +:+ "/namespaces".
Definition plain_app (id : string) : bool :=
  negb (includes "/namespaces" (app_prefix +:+ id +:+ "/namespace")).

Lemma includes_false p s : includes p s = false ↔ find p s = None.
Proof.
  unfold includes. rewrite bool_decide_eq_false, <- not_eq_None_Some. split; [|naive_solver].
  destruct (find p s); naive_solver.
Qed.
Lemma includes_true p s i : find p s = Some i → includes p s = true.
Proof. intros H. unfold includes. rewrite H. by apply bool_decide_true. Qed.
Lemma begins_app p s : begins p (p +:+ s) = true.
Proof. unfold begins. by rewrite find_prefix, bool_decide_true. Qed.

(** A parameter between its prefix and a separator is what was put there. *)
Lemma extractPathParam_between prefix p c a b :
  find (p +:+ String c "") (a +:+ p) = None →
  extractPathParam (prefix +:+ a +:+ p +:+ String c b) prefix (p +:+ String c "") = a.
Proof.
  intros Hn. unfold extractPathParam, find_from. rewrite find_prefix. cbn [Nat.add].
  rewrite bool_decide_false by (by destruct p).
  rewrite substr_app, (find_separator _ _ _ _ Hn). cbn.
  replace (String.length prefix + String.length a - String.length prefix)%nat with (String.length a) by lia.
  apply str_take_app.
Qed.

(** A parameter after a separator is the rest. *)
Lemma extractPathParam_after p c a b :
  find (p +:+ String c "") (a +:+ p) = None →
  extractPathParam (a +:+ p +:+ String c b) (p +:+ String c "") "" = b.
Proof.
  intros Hn. unfold extractPathParam. rewrite (find_separator _ _ _ _ Hn), bool_decide_true by done.
  replace (a +:+ p +:+ String c b) with ((a +:+ p +:+ String c "") +:+ b)
    by (by rewrite !str_app_assoc, str_app_cons, str_app_nil).
  rewrite <- str_length_app. apply substr_app.
Qed.

Lemma begins_starts p s : begins p s = starts_with p s.
Proof.
  unfold begins. case_bool_decide as H; rewrite find_zero in H; [done|]. by destruct (starts_with p s).
Qed.

Section routing.
Context {T : Type} `{!ConfigStore T}.
Context (json_parse : string → option json).
Local Abbreviation route := (@HttpSession.route T _ json_parse).

(** A target under [/api/v1/namespaces/] is past the first six routes. *)
Lemma route_namespaces m rest body now :
  route (mkRequest m (ns_prefix +:+ rest) body) now =
  let target := ns_prefix +:+ rest in
  if bool_decide (target = "/api/v1/namespaces" ∧ m = post) then
    ok_json (handleCreateNamespace json_parse body now)
  else if includes "/keys/" target then
    let ns := extractPathParam target ns_prefix "/keys/" in
    let key := extractPathParam target "/keys/" "" in
    match m with
    | get => ok_json (handleGetConfig ns key)
    | put => ok_json (handleSetConfig json_parse ns key body now)
    | delete_ => ok_json (handleDeleteConfig ns key now)
    | _ => mret (200, JNull)
    end
  else if includes "/publish" target then
    ok_json (handlePublish json_parse (extractPathParam target ns_prefix "/publish") body now)
  else if includes "/releases" target then
    ok_json (handleGetReleases (extractPathParam target ns_prefix "/releases"))
  else mret (404, ApiResponse.error 404 "Not found").
Proof.
  unfold HttpSession.route. cbn [req_target req_method req_body]. rewrite !begins_starts.
  rewrite bool_decide_false by done. rewrite bool_decide_false by (intros [? _]; done).
  rewrite bool_decide_false by done.
  change (starts_with "/api/v1/apps/" (ns_prefix +:+ rest)) with false.
  change (starts_with "/api/v1/namespaces/" (ns_prefix +:+ rest)) with (starts_with ns_prefix (ns_prefix +:+ rest)).
  rewrite starts_with_app. cbn [andb].
  rewrite (bool_decide_false (ns_prefix +:+ rest = "/api/v1/notifications")) by done. done.
Qed.

Lemma route_keys m ns key body now :
  plain_ns ns = true →
  route (mkRequest m (keys_target ns key) body) now =
  match m with
  | get => ok_json (handleGetConfig ns key)
  | put => ok_json (handleSetConfig json_parse ns key body now)
  | delete_ => ok_json (handleDeleteConfig ns key now)
  | _ => mret (200, JNull)
  end.
Proof.
  unfold plain_ns. rewrite !andb_true_iff, !negb_true_iff, !includes_false. intros [[Hk _] _].
  assert (find "/keys/" (ns +:+ "/keys") = None) as Hk' by (by apply find_None_suffix in Hk).
  unfold keys_target. rewrite route_namespaces. cbv zeta.
  rewrite bool_decide_false by (intros [? _]; done).
  assert (includes "/keys/" (ns_prefix +:+ ns +:+ "/keys/" +:+ key) = true) as ->.
  { eapply includes_true. rewrite <- str_app_assoc in Hk |- *.
    exact (find_separator "/keys" "/" _ key Hk). }
  assert (extractPathParam (ns_prefix +:+ ns +:+ "/keys/" +:+ key) "/keys/" "" = key) as ->.
  { rewrite <- str_app_assoc in Hk |- *. exact (extractPathParam_after "/keys" "/" _ key Hk). }
  assert (extractPathParam (ns_prefix +:+ ns +:+ "/keys/" +:+ key) ns_prefix "/keys/" = ns) as ->
    by exact (extractPathParam_between ns_prefix "/keys" "/" ns key Hk').
  done.
Qed.

Lemma route_publish m ns body now :
  plain_ns ns = true →
  route (mkRequest m (publish_target ns) body) now = ok_json (handlePublish json_parse ns body now).
Proof.
  unfold plain_ns. rewrite !andb_true_iff, !negb_true_iff, !includes_false. intros [[_ Hk] Hp].
  assert (find "/publish" (ns +:+ "/publis") = None) as Hp' by (by apply find_None_suffix in Hp).
  unfold publish_target. rewrite route_namespaces. cbv zeta.
  rewrite bool_decide_false by (intros [? _]; done).
  rewrite (proj2 (includes_false _ _) Hk).
  assert (includes "/publish" (ns_prefix +:+ ns +:+ "/publish") = true) as ->.
  { eapply includes_true. rewrite <- str_app_assoc in Hp |- *.
    exact (find_separator "/publis" "h" _ "" Hp). }
  assert (extractPathParam (ns_prefix +:+ ns +:+ "/publish") ns_prefix "/publish" = ns) as ->
    by exact (extractPathParam_between ns_prefix "/publis" "h" ns "" Hp').
  done.
Qed.

(** The targets under [/api/v1/apps/]. *)
Lemma route_app m id body now :
  plain_app id = true →
  route (mkRequest m (app_target id) body) now =
  match m with
  | get => ok_json (handleGetApp id)
  | delete_ => ok_json (handleDeleteApp id)
  | _ => mret (200, JNull)
  end.
Proof.
  unfold plain_app. rewrite negb_true_iff, includes_false. intros Hi.
  unfold HttpSession.route, app_target. cbn [req_target req_method req_body].
  rewrite bool_decide_false by done. rewrite bool_decide_false by (by intros [? _]).
  rewrite bool_decide_false by done. rewrite begins_app.
  assert (includes "/namespaces" (app_prefix +:+ id) = false) as ->.
  { apply includes_false, find_None_prefix with (s := "/namespace"). by rewrite str_app_assoc. }
  cbn [andb negb].
  assert (extractPathParam (app_prefix +:+ id) "/api/v1/apps/" "" = id) as ->
    by exact (extractPathParam_after "/api/v1/apps" "/" "" id eq_refl).
  done.
Qed.

Lemma route_app_namespaces id body now :
  plain_app id = true →
  route (mkRequest get (namespaces_target id) body) now = ok_json (handleListNamespaces id).
Proof.
  unfold plain_app. rewrite negb_true_iff, includes_false. intros Hi.
  unfold HttpSession.route, namespaces_target. cbn [req_target req_method req_body].
  rewrite !(bool_decide_false (_ ∧ get = post)) by (by intros [_ ?]).
  rewrite !bool_decide_false by done. rewrite begins_app.
  assert (includes "/namespaces" (app_prefix +:+ id +:+ "/namespaces") = true) as ->.
  { eapply includes_true. rewrite <- str_app_assoc in Hi |- *.
    exact (find_separator "/namespace" "s" _ "" Hi). }
  cbn [andb negb]. do 2 f_equal. apply find_None_suffix in Hi.
  exact (extractPathParam_between app_prefix "/namespace" "s" id "" Hi).
Qed.
End routing.
