(* ===== verification/HttpTheorems.v ===== *)
(** * What HTTP clients see

    Theorems about requests to [HttpSession.handleRequest] and its routing, over
    every store that keeps the contract of the interface.  The JSON parser and
    serializer are parameters; what a theorem needs of the parser is that a
    body is, or is not, the text of a value. *)
From S2P Require Import Prelude Timestamp DataTypes SqliteOrm MemOrm ConfigStore SqliteConfigStore StoreOps StoreInvariants StoreTheorems History NamespaceManager PublishEngine Strings Json Api HttpServer.
Import NamespaceManager.NamespaceManager PublishEngine.PublishEngine HttpSession.

(** The answer to a GET of a key. *)
Definition config_answer (c : option ConfigKey) : json :=
  match c with
  | Some c => config_json c
  | None => ApiResponse.error 404 "Config not found"
  end.

Section requests.
Context {T : Type} `{!ConfigStore T}.
Context (json_parse : string → option json) (json_dump : json → option string).
Local Abbreviation route := (HttpSession.route json_parse).
Local Abbreviation handleRequest := (HttpSession.handleRequest json_parse json_dump).

(** A PUT whose body has a string value edits the draft of the key. *)
Lemma handleSetConfig_edits ns key b m v now (s : T) :
  json_parse b = Some (JObject m) → m !! "value" = Some (JString v) →
  handleSetConfig json_parse ns key b now s =
  (_ ← addDraftChange ns key v "system" now; mret ApiResponse.success) s.
Proof.
  intros Hb Hv. unfold handleSetConfig, parse_body, addDraftChange, string_at, json_at. rewrite Hb.
  unfold mbind, M_bind, mret, M_ret. cbn. rewrite Hv. cbn.
  by destruct (getConfig ns key false s) as [[[]| |] s'].
Qed.

(** Every answer has the HTTP status 200, whatever the [code] member of its
    body says, but for a target no route serves, which is answered with 404 and
    leaves the store as it was. *)
Theorem http_status req now (s s' : T) status j :
  route req now s = (Ret (status, j), s') →
  status = 200 ∨ status = 404 ∧ j = ApiResponse.error 404 "Not found" ∧ s' = s.
Proof.
  assert (∀ m : M T json, ok_json m s = (Ret (status, j), s') → status = 200) as Hok.
  { intros m. unfold ok_json, mbind, M_bind, mret, M_ret. destruct (m s) as [[a| |] s1]; congruence. }
  unfold HttpSession.route. repeat case_match; intros Hr; try (left; by eapply Hok);
    injection Hr as <- <- <-; auto.
Qed.

(** The documented long-polling target is not served. *)
Theorem longpoll_not_found m query b now (s : T) :
  route (mkRequest m ("/api/v1/notifications" +:+ "?" +:+ query) b) now s =
  (Ret (404, ApiResponse.error 404 "Not found"), s).
Proof.
  unfold HttpSession.route. cbn [req_target req_method req_body]. rewrite !begins_starts.
  rewrite !bool_decide_false by (try done; intros [? _]; done). done.
Qed.

(** A body that is not JSON makes a request that reads its body end in an
    exception, which nothing catches, with the store as it was: a PUT of a key,
    a publication by any method, a POST of an application, of a namespace or of
    a login. *)
Theorem bad_body_escapes ns key m b now (s : T) :
  json_parse b = None → plain_ns ns = true →
  Forall (λ req, handleRequest req now s = (Throw, s))
    [mkRequest put (keys_target ns key) b; mkRequest m (publish_target ns) b;
     mkRequest post "/api/v1/apps" b; mkRequest post "/api/v1/namespaces" b;
     mkRequest post "/api/v1/auth/login" b].
Proof.
  intros Hb Hns. unfold HttpSession.handleRequest, mbind, M_bind.
  repeat apply Forall_cons_2; [..|by constructor].
  - rewrite route_keys by done. unfold ok_json, handleSetConfig, parse_body, mbind, M_bind. by rewrite Hb.
  - rewrite route_publish by done. unfold ok_json, handlePublish, parse_body, mbind, M_bind. by rewrite Hb.
  - change (route (mkRequest post "/api/v1/apps" b) now s) with (ok_json (handleCreateApp json_parse b now) s).
    unfold ok_json, handleCreateApp, parse_body, mbind, M_bind. by rewrite Hb.
  - change (route (mkRequest post "/api/v1/namespaces" b) now s) with (ok_json (handleCreateNamespace json_parse b now) s).
    unfold ok_json, handleCreateNamespace, parse_body, mbind, M_bind. by rewrite Hb.
  - change (route (mkRequest post "/api/v1/auth/login" b) now s) with (ok_json (handleLogin json_parse b) s).
    unfold ok_json, handleLogin, parse_body, mbind, M_bind. by rewrite Hb.
Qed.
End requests.

Section http_theorems.
Context {T : Type} `{!ConfigStore T} {O : Observed T Store} {fk : bool}
  `{Hspec : !ConfigStoreSpec T O fk}.
Context (json_parse : string → option json) (json_dump : json → option string).
Local Abbreviation route := (HttpSession.route json_parse).
Local Abbreviation handleRequest := (HttpSession.handleRequest json_parse json_dump).

Lemma wp_ok_json (m : M T json) s (Q : outcome (Z * json) → Store → Prop) :
  wp s m (λ o v, match o with Ret j => Q (Ret (200, j)) v | Throw => Q Throw v | Undef => Q Undef v end) →
  wp s (ok_json m) Q.
Proof.
  intros Hm. apply wp_bind. eapply wp_mono; [exact Hm|]. intros [j| |] v Hv; [|done..].
  intros s' Hs' <-. by apply wp_ret.
Qed.

(** The answer to a GET of a key, from the content. *)
Lemma handleGetConfig_answer ns key (s : T) :
  ready s →
  wp s (handleGetConfig ns key)
    (queries (λ c j, j = config_answer (live_config c ns key)) (view s)).
Proof.
  intros Hs. eapply wp_call; [by apply getConfig_spec|]. cbn. intros s1 Hs1 Hv1.
  assert (view s1 = view s) as E by (rewrite Hv1; by destruct (view s)).
  fold (live_config (cur (view s)) ns key).
  destruct (live_config _ _ _) as [c|] eqn:Hc; (apply wp_ret; [done|]); (split; [done|]);
    eexists; (split; [done|]); unfold config_answer; by rewrite Hc.
Qed.

(** A PUT leaves a row with the value that was put or with the pending draft's. *)
Lemma put_row ns key pb m v now (s : T) :
  ready s → wf fk (cur (view s)) →
  json_parse pb = Some (JObject m) → m !! "value" = Some (JString v) →
  wp s (handleSetConfig json_parse ns key pb now) (λ o st', o = Undef ∨
    o = Ret ApiResponse.success ∧ saved st' = saved (view s) ∧
    ∃ x, s_cfgs (cur st') !! (ns, key) = Some x ∧ ck_pk x = (ns, key) ∧
      ck_value x = match s_cfgs (cur (view s)) !! (ns, key) with
        | Some old => if decide (ck_status old = "draft") then ck_value old else v
        | None => v
        end).
Proof.
  intros Hs Hwf Hpb Hv. eapply wp_ext; [by eapply handleSetConfig_edits|].
  eapply wp_call; [by apply addDraftChange_call|].
  pose proof (spec_addDraftChange_row ns key v "system" now _ Hwf) as Hrow.
  destruct (spec_addDraftChange ns key v "system" now (cur (view s))) as [[ok| |] c']; [|done|by left].
  destruct Hrow as (x & Hx & Hpk & _ & Hval). intros s1 Hs1 Hv1.
  apply wp_ret; [done|]. right. rewrite Hv1. by split_and!; eauto.
Qed.

(** A publication makes the rows of its namespace live. *)
Lemma publish_rows ns nb n now (s : T) :
  ready s → saved (view s) = None →
  json_parse nb = Some (object [("release_note", JString n)]) →
  wp s (handlePublish json_parse ns nb now) (λ o st', o = Undef ∨
    ∃ r, o = Ret (published_json r) ∧ r = new_release ns n "system" (getTimestamp now)
        (max_version (versions_of ns (cur (view s))) + 1) (s_next_rel (cur (view s))) ∧
      s_cfgs (cur st') = go_live ns <$> s_cfgs (cur (view s))).
Proof.
  intros Hs Hsv Hnb. eapply (wp_ext _ (r ← publish ns n "system" empty_release now;
    if negb (r.1) then mret (ApiResponse.error 500 "Publish failed") else mret (published_json (r.2)))).
  { unfold handlePublish, parse_body. rewrite Hnb. reflexivity. }
  eapply wp_call; [by apply publish_call|]. unfold spec_publishRelease. case_decide; [|by left].
  intros s1 Hs1 Hv1. apply wp_ret; [done|]. right. eexists. split; [done|]. split; [done|]. by rewrite Hv1.
Qed.

(** A value put over HTTP and published over HTTP is what a GET answers.
    A PUT of a key of a namespace, a publication of the namespace (a request of
    any method) and a GET of the key answer with the key and, unless the
    key had an unpublished draft, the value that was put; a PUT on top of an
    unpublished draft is answered the same way and the draft is what is published. *)
Theorem http_put_publish_get ns key pb m v verb_ nb n gb t1 t2 t3 (s : T) :
  ready s → saved (view s) = None → wf fk (cur (view s)) → plain_ns ns = true →
  json_parse pb = Some (JObject m) → m !! "value" = Some (JString v) →
  json_parse nb = Some (object [("release_note", JString n)]) →
  wp s (a ← route (mkRequest put (keys_target ns key) pb) t1;
        _ ← route (mkRequest verb_ (publish_target ns) nb) t2;
        g ← route (mkRequest get (keys_target ns key) gb) t3; mret (a, g))
    (λ o _, o = Undef ∨ ∃ c, o = Ret ((200, ApiResponse.success), (200, config_json c)) ∧
      ck_key c = key ∧
      ck_value c = match s_cfgs (cur (view s)) !! (ns, key) with
        | Some old => if decide (ck_status old = "draft") then ck_value old else v
        | None => v
        end).
Proof.
  intros Hs Hsv Hwf Hns Hpb Hv Hnb. rewrite !route_keys, route_publish by done.
  apply wp_bind, wp_ok_json. eapply wp_mono; [by eapply put_row|].
  intros ? st1 [->|(-> & Hsv1 & x & Hx & [= Hxn Hxk] & Hval)]; [by left|]. intros s1 Hs1 Hv1.
  apply wp_bind, wp_ok_json. eapply wp_mono; [eapply publish_rows; [done| |done]; congruence|].
  intros ? st2 [->|(r & -> & _ & Hrows)]; [by left|]. intros s2 Hs2 Hv2.
  apply wp_bind, wp_ok_json. eapply wp_mono; [by apply handleGetConfig_answer|].
  intros ? ? [-> (j & -> & ->)] s3 Hs3 _. apply wp_ret; [done|]. right.
  assert (live_config (cur (view s2)) ns key = Some (set_ck_status "live" x)) as ->.
  { unfold live_config. rewrite Hv2, Hrows, lookup_fmap, Hv1, Hx. cbn. unfold go_live.
    rewrite (decide_True (P := ck_namespace_id x = ns)) by done. by rewrite decide_True by by right. }
  by exists (set_ck_status "live" x).
Qed.

(** A DELETE does not change what a GET answers.  It is answered with
    "ok" and recorded in the change log, and it removes the row only if that is
    an unpublished draft, which a GET does not show: a live key stays, and no
    later publication removes it. *)
Theorem http_delete_then_get ns key b t1 t2 (s : T) :
  ready s → plain_ns ns = true →
  wp s (d ← route (mkRequest delete_ (keys_target ns key) b) t1;
        g ← route (mkRequest get (keys_target ns key) b) t2; mret (d, g))
    (λ o st', o = Ret ((200, ApiResponse.success),
                       (200, config_answer (live_config (cur (view s)) ns key))) ∧
      (∃ l, s_logs (cur st') = s_logs (cur (view s)) ++ [l] ∧ cl_operation l = "delete") ∧
      ∀ c, s_cfgs (cur (view s)) !! (ns, key) = Some c →
        s_cfgs (cur st') !! (ns, key) = if decide (ck_status c = "draft") then None else Some c).
Proof.
  intros Hs Hns. rewrite !route_keys by done. apply wp_bind, wp_ok_json.
  eapply wp_call; [by apply deleteConfig_spec|]. cbn. intros s1 Hs1 Hv1.
  apply wp_ret; [done|]. intros s2 Hs2 Hv2. apply wp_bind, wp_ok_json.
  eapply wp_mono; [by apply handleGetConfig_answer|]. intros ? ? [-> (j & -> & ->)] s3 Hs3 Hv3.
  apply wp_ret; [done|]. rewrite Hv3, Hv2, Hv1. unfold live_config.
  destruct (s_cfgs (cur (view s)) !! (ns, key)) as [c|] eqn:Hc; cbn.
  - case_bool_decide as Hd; cbn; rewrite ?lookup_delete_eq, ?Hc; cbn; unfold visible.
    + rewrite decide_False by naive_solver. split_and!; [done|by eauto|].
      intros ? [= <-]. by rewrite decide_True.
    + split_and!; [done|by eauto|]. intros ? [= <-]. by rewrite decide_False.
  - rewrite Hc. cbn. split_and!; [done|by eauto|done].
Qed.

(** What a handler that only asks the store leaves: the store as it was, and an answer. *)
Lemma wp_answer (m : M T json) (R : content → json → Prop) (s : T) :
  wp s m (queries R (view s)) →
  wp s (ok_json m) (λ o st', st' = view s ∧ ∃ r, o = Ret r).
Proof.
  intros Hm. apply wp_ok_json. eapply wp_mono; [exact Hm|]. intros o v [-> (j & -> & _)]. eauto.
Qed.

(** A query followed by a conversion of its result. *)
Lemma wp_query_json {A : Type} (m : M T A) (R : content → A → Prop) (f : A → json) (s : T) :
  wp s m (queries R (view s)) →
  wp s (a ← m; mret (f a)) (queries (λ c j, ∃ a, j = f a ∧ R c a) (view s)).
Proof.
  intros Hm. eapply wp_ask; [exact Hm|]. intros a s1 Ha Hs1 Hv1. apply wp_ret; [done|].
  split; [done|]. eauto.
Qed.

Lemma getReleases_page ns (s : T) :
  ready s →
  wp s (getReleases (release_query ns)) (queries (λ c p, ∃ l,
    enumerates l (s_rels c) (λ r, rel_namespace_id r = ns) ∧ page_of release_desc l 1 20 p) (view s)).
Proof.
  intros Hs. eapply wp_mono; [by apply getReleases_spec|]. unfold paged. intros o st'.
  rewrite decide_True; [done|]. by vm_compute.
Qed.

Lemma handleListNamespaces_lists appId (s : T) :
  ready s →
  wp s (handleListNamespaces appId) (queries (λ c j, ∃ l,
    j = object [("namespaces", JArray (ns_json <$> l))] ∧
    enumerates l (s_nss c) (λ n, ns_app_id n = appId ∧ ns_env n = "" ∧ ns_cluster n = "")) (view s)).
Proof.
  intros Hs. eapply wp_ask; [by apply listApplications_spec|]. intros ? s1 _ Hs1 Hv1.
  rewrite <- Hv1. by apply (wp_query_json _ _ (λ l, object [("namespaces", JArray (ns_json <$> l))])),
    listNamespaces_spec.
Qed.

Lemma handleGetApp_answer appId (s : T) :
  ready s →
  wp s (handleGetApp appId) (queries (λ c j, j = match s_apps c !! appId with
    | Some app => app_json app
    | None => ApiResponse.error 404 "Application not found"
    end) (view s)).
Proof.
  intros Hs. eapply wp_ask; [by apply getApplication_spec|]. intros app s1 -> Hs1 Hv1.
  destruct (s_apps (cur (view s)) !! appId) eqn:E; (apply wp_ret; [done|]); (split; [done|]);
    eexists; (split; [done|]); by rewrite E.
Qed.

(** C26: reading is read-only.  A GET of any target but the health check and the
    ones that contain "/publish" leaves the store as it was and is answered;
    only the serialization of the answer can throw. *)
Theorem http_get_read_only target b now (s : T) :
  ready s → target ≠ "/health" → includes "/publish" target = false →
  wp s (handleRequest (mkRequest get target b) now)
    (λ o st', st' = view s ∧ ((∃ r, o = Ret r) ∨ o = Throw ∧ ∃ j, json_dump j = None)).
Proof.
  intros Hs Hh Hp.
  assert (∀ m : M T (Z * json), wp s m (λ o st', st' = view s ∧ ∃ r, o = Ret r) →
    wp s (r ← m; sendResponse json_dump r.1 r.2)
      (λ o st', st' = view s ∧ ((∃ r, o = Ret r) ∨ o = Throw ∧ ∃ j, json_dump j = None))) as Hsend.
  { intros m Hm. apply wp_bind. eapply wp_mono; [exact Hm|]. intros ? ? [-> [[st j] ->]] s1 Hs1 Hv1.
    unfold sendResponse. cbn. destruct (json_dump j) eqn:E.
    - apply wp_ret; [done|]. eauto.
    - exists Throw, s1. eauto 8. }
  apply Hsend. unfold HttpSession.route. cbn [req_target req_method req_body].
  rewrite Hp, andb_false_r. rewrite (bool_decide_false (target = "/health")) by done.
  rewrite !(bool_decide_false (_ ∧ get = post)) by (by intros [_ ?]).
  repeat case_match; try done; try (apply wp_ret; by eauto).
  all: eapply wp_answer.
  - by eapply (wp_query_json _ _ (λ l, object [("applications", JArray (app_json <$> l))])),
      listApplications_spec.
  - by apply handleGetApp_answer.
  - by apply handleListNamespaces_lists.
  - by apply handleGetConfig_answer.
  - by eapply (wp_query_json _ _ (λ l, object [("releases", JArray (release_json <$> l))])), getReleases_page.
Qed.

(** The namespaces listed for an application are those with an empty
    environment and an empty cluster name, each once. *)
Theorem http_list_namespaces appId b now (s : T) :
  ready s → plain_app appId = true →
  wp s (route (mkRequest get (namespaces_target appId) b) now)
    (queries (λ c r, ∃ l, r = (200, object [("namespaces", JArray (ns_json <$> l))]) ∧
      enumerates l (s_nss c) (λ n, ns_app_id n = appId ∧ ns_env n = "" ∧ ns_cluster n = ""))
      (view s)).
Proof.
  intros Hs Hi. rewrite route_app_namespaces by done.
  apply wp_ok_json. eapply wp_mono; [by apply handleListNamespaces_lists|].
  intros ? ? [-> (j & -> & l & -> & Hl)]. split; [done|]. eauto.
Qed.
End http_theorems.

(** ** The handler classes and the session *)
Section agreement.
Context {T : Type} `{!ConfigStore T}.
Context (json_parse : string → option json).

(** Where the member is there, the two forms of [body[k]] are the same. *)
Lemma json_at_const_present body k (s : T) :
  contains body k = true → json_at_const body k s = json_at body k s.
Proof.
  destruct body as [| | | | | |m]; try done. cbn. intros [j Hj]%bool_decide_eq_true. by rewrite Hj.
Qed.

Lemma string_at_const_present body k (s : T) :
  contains body k = true → string_at_const body k s = string_at body k s.
Proof. intros H. unfold string_at_const, string_at, mbind, M_bind. by rewrite json_at_const_present. Qed.

Lemma bind_ext {A B : Type} (m m' : M T A) (k k' : A → M T B) s :
  m s = m' s → (∀ a s', k a s' = k' a s') → (m ≫= k) s = (m' ≫= k') s.
Proof. intros Hm Hk. unfold mbind, M_bind. rewrite Hm. by destruct (m' s) as [[] ?]. Qed.

(** Either undefined or the same: kept by a bind. *)
Definition undef_or {A : Type} (m m' : M T A) : Prop := ∀ s, (m s).1 = Undef ∨ m s = m' s.
Lemma undef_or_refl {A : Type} (m : M T A) : undef_or m m.
Proof. intros s. by right. Qed.
Lemma undef_or_bind {A B : Type} (m m' : M T A) (k k' : A → M T B) :
  undef_or m m' → (∀ a, undef_or (k a) (k' a)) → undef_or (m ≫= k) (m' ≫= k').
Proof.
  intros Hm Hk s. unfold mbind, M_bind. specialize (Hm s). destruct (m s) as [[a| |] s1]; cbn in *.
  - destruct Hm as [|<-]; [done|]. apply Hk.
  - destruct Hm as [|<-]; [done|]. by right.
  - by left.
Qed.
Lemma undef_or_string_at body k : undef_or (string_at_const body k) (string_at body k).
Proof. intros s. destruct (string_at_const_or body k s) as [-> | ->]; [by left|by right]. Qed.
Lemma undef_or_ret {A B : Type} (m : M T B) (a : A) (k : A → M T B) :
  undef_or m (k a) → undef_or m (mret a ≫= k).
Proof. done. Qed.

Lemma handleCreateApp_agree b body now :
  json_parse b = Some body →
  ∀ s : T, handleCreateApp json_parse b now s = NamespaceHandler.handleCreateApp body now s.
Proof.
  intros Hb s. unfold handleCreateApp, NamespaceHandler.handleCreateApp, parse_body. rewrite Hb.
  unfold mbind at 1, M_bind at 1, mret at 1, M_ret at 1.
  destruct (contains body "app_id") eqn:Hi; [|done]. destruct (contains body "name") eqn:Hn; [|done].
  cbn [negb orb]. apply bind_ext; [by rewrite string_at_const_present|]. intros appId s1.
  apply bind_ext; [by rewrite string_at_const_present|]. intros name s2.
  apply bind_ext; [done|]. intros d s3. apply bind_ext; [done|]. intros [] s4; [|done]. cbn [negb].
  apply bind_ext; [by rewrite json_at_const_present|]. intros i s5.
  apply bind_ext; [by rewrite json_at_const_present|]. done.
Qed.

Lemma handleCreateNamespace_agree b body now :
  json_parse b = Some body →
  undef_or (NamespaceHandler.handleCreateNamespace body now) (handleCreateNamespace json_parse b now).
Proof.
  intros Hb. unfold handleCreateNamespace, NamespaceHandler.handleCreateNamespace, parse_body. rewrite Hb.
  apply undef_or_ret.
  repeat (apply undef_or_bind; [apply undef_or_string_at || apply undef_or_refl|intros ?]).
  case_match; [apply undef_or_refl|].
  repeat (apply undef_or_bind; [apply undef_or_string_at || apply undef_or_refl|intros ?]).
  apply undef_or_refl.
Qed.

(** Setting a key whose body has a value, and one whose body has none. *)
Lemma handleSetConfig_agree b body ns key now :
  json_parse b = Some body → contains body "value" = true →
  ∀ s : T, handleSetConfig json_parse ns key b now s = ConfigHandler.handleSetConfig ns key body "system" now s.
Proof.
  intros Hb Hv s. unfold handleSetConfig, ConfigHandler.handleSetConfig, parse_body. rewrite Hb.
  unfold mbind at 1, M_bind at 1, mret at 1, M_ret at 1. apply bind_ext; [|done].
  destruct body as [| | | | | |m]; try done. apply bool_decide_eq_true in Hv as [j Hj].
  unfold string_at, json_at, value_or, mbind, M_bind, mret, M_ret. cbn. by rewrite Hj.
Qed.
Lemma handleSetConfig_no_value b body ns key now :
  json_parse b = Some body → contains body "value" = false →
  ∀ s : T, handleSetConfig json_parse ns key b now s = (Throw, s) ∧
    ConfigHandler.handleSetConfig ns key body "system" now s =
      match body with
      | JObject _ => ConfigHandler.handleSetConfig ns key (object [("value", JString "")]) "system" now s
      | _ => (Throw, s)
      end.
Proof.
  intros Hb Hv s. unfold handleSetConfig, ConfigHandler.handleSetConfig, parse_body. rewrite Hb.
  unfold mbind, M_bind, mret, M_ret, string_at, json_at. destruct body as [| | | | | |m]; try done.
  apply bool_decide_eq_false in Hv. unfold value_or. destruct (m !! "value") eqn:E; [by destruct Hv|].
  split; [by cbn|]. unfold object. cbn. by rewrite lookup_insert_eq.
Qed.

(** The listings of namespaces differ where one of them has a parent. *)
Lemma ns_json_no_parent (n : Namespace) m :
  ns_json n = JObject m → m !! "parent_namespace_id" = None.
Proof. unfold ns_json, object. intros [= <-]. by rewrite !lookup_insert_ne, lookup_empty by done. Qed.
Lemma ns_parent_json_eq (n : Namespace) :
  NamespaceHandler.ns_parent_json n = ns_json n ↔ ns_parent_namespace_id n = None.
Proof.
  unfold NamespaceHandler.ns_parent_json. destruct (ns_parent_namespace_id n) as [p|]; [|done].
  split; [|done]. destruct (ns_json n) as [| | | | | |m] eqn:E; try done. cbn [set_member].
  intros [= Hm]. pose proof (ns_json_no_parent n m E) as Hn. rewrite <- Hm, lookup_insert_eq in Hn. done.
Qed.
Lemma handleListNamespaces_agree app (s s1 s2 : T) apps l :
  NamespaceManager.listApplications s = (Ret apps, s1) → ConfigStore.listNamespaces app "" "" s1 = (Ret l, s2) →
  handleListNamespaces app s = NamespaceHandler.handleListNamespaces app s1 ↔
  Forall (λ n, ns_parent_namespace_id n = None) l.
Proof.
  intros Hs Hs1. unfold handleListNamespaces, NamespaceHandler.handleListNamespaces, mbind, M_bind, mret, M_ret.
  rewrite Hs, Hs1. trans (ns_json <$> l = NamespaceHandler.ns_parent_json <$> l).
  - split; [|by intros ->]. generalize (ns_json <$> l) (NamespaceHandler.ns_parent_json <$> l).
    intros a b E.
    apply (f_equal (λ r, match r.1 with Ret (JObject m) => m !! "namespaces" | _ => None end)) in E.
    unfold object in E. cbn [fst list_to_map foldr] in E. rewrite !lookup_insert_eq in E. by injection E.
  - clear Hs1. induction l as [|n l IH]; [by split|]. rewrite !fmap_cons, Forall_cons, <- IH.
    pose proof (ns_parent_json_eq n) as Hn. split.
    + intros [= E ->]. by rewrite <- Hn, E.
    + intros [->%Hn ->]. done.
Qed.

(** C33: where the handler classes and the session's handlers agree, for each of the
    routes.  On the same body, and for the operator "system", they have the same result
    and effect on every store for the health check, creating, listing, reading and
    removing an application, reading and deleting a key, publishing and listing the
    releases, and for setting a key when the body has a value.  They differ in the
    others: setting a key without a value throws in the session and stores the empty
    text in the class; creating a namespace is the same, or undefined in the class
    (where a required member is missing); the listing of namespaces, which the session
    starts by listing the applications, shows the parents in the class only; and the answers to a login and to a long poll differ. *)
Theorem handlers_agree b body ns key app user password now :
  json_parse b = Some body →
  (∀ s : T,
    handleHealth s = HealthHandler.handleHealth s ∧
    handleCreateApp json_parse b now s = NamespaceHandler.handleCreateApp body now s ∧
    handleListApps s = NamespaceHandler.handleListApps s ∧
    handleGetApp app s = NamespaceHandler.handleGetApp app s ∧
    handleDeleteApp app s = NamespaceHandler.handleDeleteApp app s ∧
    handleGetConfig ns key s = ConfigHandler.handleGetConfig ns key s ∧
    handleDeleteConfig ns key now s = ConfigHandler.handleDeleteConfig ns key "system" now s ∧
    handlePublish json_parse ns b now s = PublishHandler.handlePublish ns body "system" now s ∧
    handleGetReleases ns s = PublishHandler.handleGetReleases ns s ∧
    if contains body "value" then
      handleSetConfig json_parse ns key b now s = ConfigHandler.handleSetConfig ns key body "system" now s
    else
      handleSetConfig json_parse ns key b now s = (Throw, s) ∧
      ConfigHandler.handleSetConfig ns key body "system" now s =
        match body with
        | JObject _ => ConfigHandler.handleSetConfig ns key (object [("value", JString "")]) "system" now s
        | _ => (Throw, s)
        end) ∧
  undef_or (NamespaceHandler.handleCreateNamespace body now) (handleCreateNamespace json_parse b now) ∧
  (∀ (s s1 s2 : T) apps l,
    NamespaceManager.listApplications s = (Ret apps, s1) → ConfigStore.listNamespaces app "" "" s1 = (Ret l, s2) →
    handleListNamespaces app s = NamespaceHandler.handleListNamespaces app s1 ↔
    Forall (λ n, ns_parent_namespace_id n = None) l) ∧
  (∀ s : T, handleLogin json_parse b s ≠ (Ret (AuthHandler.handleLogin user password), s)) ∧
  handleNotifications ≠ NotificationHandler.handleLongPoll ns key now.
Proof.
  intros Hb. split; [|split_and!].
  - intros s. split_and!; try done; [by apply handleCreateApp_agree| |].
    + unfold handlePublish, PublishHandler.handlePublish, parse_body. by rewrite Hb.
    + destruct (contains body "value") eqn:Hv; [by apply handleSetConfig_agree|by apply handleSetConfig_no_value].
  - by apply handleCreateNamespace_agree.
  - intros *. apply handleListNamespaces_agree.
  - intros s. unfold handleLogin, parse_body. rewrite Hb. by intros [=].
  - by intros [=].
Qed.
End agreement.

(** ** Witnesses

    A parser that knows two texts. *)
Definition quoted (s : string) : string := String "034" (s +:+ String "034" "").
Definition member_text (k v : string) : string := "{" +:+ quoted k +:+ ":" +:+ quoted v +:+ "}".
Definition sample_parse (b : string) : option json :=
  if bool_decide (b = member_text "value" "v3") then Some (object [("value", JString "v3")])
  else if bool_decide (b = member_text "release_note" "n") then
    Some (object [("release_note", JString "n")])
  else None.
Definition sample_dump (j : json) : option string := Some "{}".

Lemma http_put_publish_get_witness :
  let s := mem_sample in
  let ns := main_id in
  @wp _ _ mem_observed _ s
    (a ← @HttpSession.route _ mem_store sample_parse
           (mkRequest put (keys_target ns "k") (member_text "value" "v3")) 9;
     _ ← @HttpSession.route _ mem_store sample_parse
           (mkRequest get (publish_target ns) (member_text "release_note" "n")) 10;
     g ← @HttpSession.route _ mem_store sample_parse (mkRequest get (keys_target ns "k") "") 11;
     mret (a, g))
    (λ o _, o = Undef ∨ ∃ c, o = Ret ((200, ApiResponse.success), (200, config_json c)) ∧
      ck_key c = "k" ∧
      ck_value c = match s_cfgs (cur (@view _ _ mem_observed s)) !! (ns, "k") with
        | Some old => if decide (ck_status old = "draft") then ck_value old else "v3"
        | None => "v3"
        end).
Proof.
  intros s ns. eapply (@http_put_publish_get _ mem_store mem_observed true mem_store_spec sample_parse);
    [apply mem_sample_healthy|vm_compute; reflexivity|exact (proj1 mem_sample_wf)
    |vm_compute; reflexivity|reflexivity|reflexivity|reflexivity].
Defined.

Lemma http_delete_then_get_witness :
  let v := cur (@view _ _ mem_observed mem_sample) in
  @wp _ _ mem_observed _ mem_sample
    (d ← @HttpSession.route _ mem_store sample_parse (mkRequest delete_ (keys_target main_id "k") "") 9;
     g ← @HttpSession.route _ mem_store sample_parse (mkRequest get (keys_target main_id "k") "") 10;
     mret (d, g))
    (λ o st', o = Ret ((200, ApiResponse.success), (200, config_answer (live_config v main_id "k"))) ∧
      (∃ l, s_logs (cur st') = s_logs v ++ [l] ∧ cl_operation l = "delete") ∧
      ∀ c, s_cfgs v !! (main_id, "k") = Some c →
        s_cfgs (cur st') !! (main_id, "k") = if decide (ck_status c = "draft") then None else Some c).
Proof.
  intros v. apply (@http_delete_then_get _ mem_store mem_observed true mem_store_spec sample_parse);
    [apply mem_sample_healthy|vm_compute; reflexivity].
Defined.

Lemma http_get_read_only_witness :
  @wp _ _ mem_observed _ mem_sample
    (@HttpSession.handleRequest _ mem_store sample_parse sample_dump (mkRequest get "/api/v1/apps" "") 9)
    (λ o st', st' = @view _ _ mem_observed mem_sample ∧
      ((∃ r, o = Ret r) ∨ o = Throw ∧ ∃ j, sample_dump j = None)).
Proof.
  apply (@http_get_read_only _ mem_store mem_observed true mem_store_spec sample_parse sample_dump);
    [apply mem_sample_healthy|done|vm_compute; reflexivity].
Defined.

Lemma http_list_namespaces_witness :
  @wp _ _ mem_observed _ mem_sample
    (@HttpSession.route _ mem_store sample_parse
      (mkRequest get (namespaces_target "app") "") 9)
    (queries (λ c r, ∃ l, r = (200, object [("namespaces", JArray (ns_json <$> l))]) ∧
      enumerates l (s_nss c) (λ n, ns_app_id n = "app" ∧ ns_env n = "" ∧ ns_cluster n = ""))
      (@view _ _ mem_observed mem_sample)).
Proof.
  apply (@http_list_namespaces _ mem_store mem_observed true mem_store_spec sample_parse "app");
    [apply mem_sample_healthy|vm_compute; reflexivity].
Defined.

Lemma http_status_witness :
  (@HttpSession.route _ mem_store sample_parse (mkRequest get "/nowhere" "") 9 mem_sample).1
    = Ret (404, ApiResponse.error 404 "Not found") ∧
  ((404 : Z) = 200 ∨ (404 : Z) = 404 ∧ ApiResponse.error 404 "Not found" = ApiResponse.error 404 "Not found"
    ∧ mem_sample = mem_sample).
Proof.
  split; [reflexivity|].
  apply (@http_status _ mem_store sample_parse (mkRequest get "/nowhere" "") 9 mem_sample mem_sample).
  reflexivity.
Defined.

Lemma bad_body_escapes_witness :
  Forall (λ req, @HttpSession.handleRequest _ mem_store sample_parse sample_dump req 9 mem_sample
      = (Throw, mem_sample))
    [mkRequest put (keys_target main_id "k") "{"; mkRequest get (publish_target main_id) "{";
     mkRequest post "/api/v1/apps" "{"; mkRequest post "/api/v1/namespaces" "{";
     mkRequest post "/api/v1/auth/login" "{"].
Proof.
  apply (@bad_body_escapes _ mem_store sample_parse sample_dump main_id "k" get "{" 9 mem_sample);
    [reflexivity|vm_compute; reflexivity].
Defined.

(** A body without a value: the session throws, the class stores the empty text. *)
Lemma handlers_agree_witness :
  let b := member_text "release_note" "n" in
  let body := object [("release_note", JString "n")] in
  (@HttpSession.handleSetConfig _ mem_store sample_parse main_id "k" b 9 mem_sample = (Throw, mem_sample) ∧
   @ConfigHandler.handleSetConfig _ mem_store main_id "k" body "system" 9 mem_sample =
     @ConfigHandler.handleSetConfig _ mem_store main_id "k" (object [("value", JString "")]) "system" 9 mem_sample) ∧
  (@ConfigHandler.handleSetConfig _ mem_store main_id "k" body "system" 9 mem_sample).1 = Ret ApiResponse.success.
Proof.
  intros b body. split; [|vm_compute; reflexivity].
  apply (@handlers_agree _ mem_store sample_parse b body main_id "k" "" "" "" 9); reflexivity.
Defined.
