(* ===== verification/GrpcService.v ===== *)
(** * The gRPC services

    [ConfigGrpcService] of [src/server/grpc_server.cpp], the service the server
    registers, and [GrpcServiceImpl] of [src/api/grpc_service.cpp].  The
    messages are those of [proto/config_service.proto]; a method returns the
    status and the response message, which starts empty.  [WatchConfig] is a
    loop that asks the runtime, once a round, whether the call is cancelled and
    whether a write succeeded: it takes those answers as a list, one element a
    round, and has not returned when the list is used up. *)
From S2P Require Import Prelude Timestamp DataTypes SqliteOrm MemOrm ConfigStore SqliteConfigStore StoreOps StoreInvariants StoreTheorems History NamespaceManager PublishEngine.

(** ** Messages *)
Record Config := mkConfig {
  msg_namespace_id : string;
  msg_key : string;
  msg_value : string;
  msg_version : Z;
  msg_status : string;
}.

Record ReleaseMsg := mkReleaseMsg {
  rm_id : Z;
  rm_namespace_id : string;
  rm_release_version : Z;
  rm_release_note : string;
  rm_release_type : string;
  rm_status : string;
  rm_operator_id : string;
  rm_created_at : string;
}.

Record ConfigChangeNotification := mkConfigChangeNotification {
  ccn_namespace_id : string;
  ccn_release_id : Z;
  ccn_changed_keys : list string;
  ccn_timestamp : Z;
}.

Record GetReleaseHistoryResponse := mkGetReleaseHistoryResponse {
  grh_releases : list ReleaseMsg;
  grh_total : Z;
}.

Inductive StatusCode := OK | NOT_FOUND | INTERNAL.
Record Status := mkStatus { code : StatusCode; message : string }.
Definition Status_OK : Status := mkStatus OK "".

(** [static_cast<int32_t>] of a size *)
Definition to_int32 (z : Z) : Z := (z + 2147483648) mod 4294967296 - 2147483648.

(** [c->set_namespace_id(config->namespace_id); ...] *)
Definition set_config (c : ConfigKey) : Config :=
  mkConfig (ck_namespace_id c) (ck_key c) (ck_value c) (ck_version c) (ck_status c).

Definition set_release (r : Release) : ReleaseMsg :=
  mkReleaseMsg (rel_id r) (rel_namespace_id r) (rel_release_version r) (rel_release_note r)
    (rel_release_type r) (rel_status r) (rel_operator_id r) (rel_created_at r).

Definition or_grpc (operator_id : string) : string :=
  if bool_decide (operator_id = "") then "grpc" else operator_id.

Module ConfigGrpcService.
Section service.
Context {T : Type} `{!ConfigStore T}.

Definition GetConfig (namespace_id key : string) : M T (Status * option Config) :=
  config ← getConfig namespace_id key false;
  match config with
  | None => mret (mkStatus NOT_FOUND "Config not found", None)
  | Some c => mret (Status_OK, Some (set_config c))
  end.

Definition SetConfig (namespace_id key value operator_id : string) (now : Z)
    : M T (Status * option Config) :=
  let opId := or_grpc operator_id in
  existing ← getConfig namespace_id key false;
  _ ← match existing with
      | Some _ => updateConfig namespace_id key value opId true now
      | None => createConfig namespace_id key value opId now
      end;
  updated ← getConfig namespace_id key false;
  mret (Status_OK, set_config <$> updated).

Definition DeleteConfig (namespace_id key operator_id : string) (now : Z) : M T (Status * bool) :=
  let opId := or_grpc operator_id in
  ok ← deleteConfig namespace_id key opId true now;
  mret (Status_OK, ok).

Definition PublishRelease (namespace_id release_note operator_id : string) (now : Z)
    : M T (Status * option ReleaseMsg) :=
  let opId := or_grpc operator_id in
  r ← publishRelease namespace_id release_note opId empty_release now;
  if negb (r.1) then mret (mkStatus INTERNAL "Publish failed", None)
  else mret (Status_OK, Some (set_release (r.2))).

Definition GetReleaseHistory (namespace_id : string) (page page_size : Z)
    : M T (Status * GetReleaseHistoryResponse) :=
  let query := mkReleaseQuery namespace_id (if 0 <? page then page else 1)
                 (if 0 <? page_size then page_size else 20) in
  releases ← getReleases query;
  mret (Status_OK, mkGetReleaseHistoryResponse (set_release <$> releases)
                     (to_int32 (Z.of_nat (length releases)))).
End service.

(** A round: [ctx->IsCancelled()] and, if it is not, [writer->Write(..)].  The
    result is the notifications that were written and the status, if the call
    returned. *)
Fixpoint WatchConfig (rounds : list (bool * bool)) : list ConfigChangeNotification * option Status :=
  match rounds with
  | [] => ([], None)
  | (true, _) :: _ => ([], Some Status_OK)
  | (false, true) :: rounds =>
    let r := WatchConfig rounds in (mkConfigChangeNotification "" 0 [] 0 :: r.1, r.2)
  | (false, false) :: _ => ([], Some Status_OK)
  end.
End ConfigGrpcService.

Module GrpcServiceImpl.
Section service.
Context {T : Type} `{!ConfigStore T}.

Definition GetConfig (namespace_id key : string) : M T (Status * option Config) :=
  config ← getConfig namespace_id key false;
  match config with
  | None => mret (mkStatus NOT_FOUND "Config not found", None)
  | Some c => mret (Status_OK, Some (set_config c))
  end.

Definition SetConfig (namespace_id key value operator_id : string) (now : Z)
    : M T (Status * option Config) :=
  let opId := or_grpc operator_id in
  existing ← getConfig namespace_id key false;
  _ ← match existing with
      | Some _ => updateConfig namespace_id key value opId true now
      | None => createConfig namespace_id key value opId now
      end;
  updated ← getConfig namespace_id key false;
  mret (Status_OK, set_config <$> updated).

Definition DeleteConfig (namespace_id key operator_id : string) (now : Z) : M T (Status * bool) :=
  let opId := or_grpc operator_id in
  ok ← deleteConfig namespace_id key opId true now;
  mret (Status_OK, ok).

Definition PublishRelease (namespace_id release_note operator_id : string) (now : Z)
    : M T (Status * option ReleaseMsg) :=
  let opId := or_grpc operator_id in
  r ← publishRelease namespace_id release_note opId empty_release now;
  if negb (r.1) then mret (mkStatus INTERNAL "Publish failed", None)
  else mret (Status_OK, Some (set_release (r.2))).

Definition GetReleaseHistory (namespace_id : string) (page page_size : Z)
    : M T (Status * GetReleaseHistoryResponse) :=
  let query := mkReleaseQuery namespace_id (if 0 <? page then page else 1)
                 (if 0 <? page_size then page_size else 20) in
  releases ← getReleases query;
  mret (Status_OK, mkGetReleaseHistoryResponse (set_release <$> releases)
                     (to_int32 (Z.of_nat (length releases)))).
End service.

(** The result of a write is not looked at. *)
Fixpoint WatchConfig (rounds : list (bool * bool)) : list ConfigChangeNotification * option Status :=
  match rounds with
  | [] => ([], None)
  | (true, _) :: _ => ([], Some Status_OK)
  | (false, written) :: rounds =>
    let r := WatchConfig rounds in
    ((if written then [mkConfigChangeNotification "" 0 [] 0] else []) ++ r.1, r.2)
  end.
End GrpcServiceImpl.

Section service_theorems.
Context {T : Type} `{!ConfigStore T} {O : Observed T Store} {fk : bool}
  `{Hspec : !ConfigStoreSpec T O fk}.
Import ConfigGrpcService.

Lemma SetConfig_edits ns key value opr now (s : T) :
  SetConfig ns key value opr now s =
  (_ ← PublishEngine.addDraftChange ns key value (or_grpc opr) now;
   updated ← getConfig ns key false; mret (Status_OK, set_config <$> updated)) s.
Proof.
  unfold SetConfig, PublishEngine.addDraftChange, mbind, M_bind.
  by destruct (getConfig ns key false s) as [[[]| |] s'].
Qed.

(** Setting a key over gRPC edits its draft, with the request's operator
    or "grpc", and the response never holds the config: the draft is not
    visible to the read that fills it in. *)
Theorem SetConfig_answer ns key value opr now (s : T) :
  ready s → wf fk (cur (view s)) →
  wp s (SetConfig ns key value opr now) (λ o st',
    match spec_addDraftChange ns key value (or_grpc opr) now (cur (view s)) with
    | (Undef, _) => o = Undef
    | (_, c') => o = Ret (Status_OK, None) ∧ st' = mkStore c' (saved (view s))
    end).
Proof.
  intros Hs Hwf. eapply wp_ext; [apply SetConfig_edits|].
  eapply wp_call; [by apply addDraftChange_call|].
  pose proof (spec_addDraftChange_row ns key value (or_grpc opr) now _ Hwf) as Hrow.
  destruct (spec_addDraftChange _ _ _ _ _ _) as [[ok| |] c']; [|done..].
  destruct Hrow as (x & Hx & _ & Hst & _). intros s1 Hs1 Hv1.
  apply (wp_getConfig_last ns key false (λ u, (Status_OK, set_config <$> u))); [done|].
  rewrite Hv1. cbn. rewrite Hx. cbn. rewrite decide_False by (unfold visible; naive_solver). done.
Qed.

(** From a gRPC edit to a gRPC reader: set, publish, get. *)
Theorem grpc_set_publish_get ns key value opr note t1 t2 (s : T) :
  ready s → saved (view s) = None → wf fk (cur (view s)) →
  wp s (_ ← SetConfig ns key value opr t1; p ← PublishRelease ns note opr t2;
        g ← GetConfig ns key; mret (p, g))
    (λ o _, o = Undef ∨ ∃ r c, o = Ret ((Status_OK, Some r), (Status_OK, Some c)) ∧
      rm_namespace_id r = ns ∧ rm_status r = "active" ∧ rm_operator_id r = or_grpc opr ∧
      msg_namespace_id c = ns ∧ msg_key c = key ∧ msg_status c = "live" ∧
      msg_value c = match s_cfgs (cur (view s)) !! (ns, key) with
        | Some old => if decide (ck_status old = "draft") then ck_value old else value
        | None => value
        end).
Proof.
  intros Hs Hsv Hwf. apply wp_bind. eapply wp_ext; [apply SetConfig_edits|].
  eapply wp_call; [by apply addDraftChange_call|].
  pose proof (spec_addDraftChange_row ns key value (or_grpc opr) t1 _ Hwf) as Hrow.
  destruct (spec_addDraftChange _ _ _ _ _ _) as [[ok| |] c']; [|done|by left].
  destruct Hrow as (x & Hx & [= Hxn Hxk] & Hst & Hval). intros s1 Hs1 Hv1.
  apply (wp_getConfig_last ns key false (λ u, (Status_OK, set_config <$> u))); [done|].
  intros s2 Hs2 Hv2. apply wp_bind.
  eapply wp_call; [apply publish_call; [done|rewrite Hv2, Hv1; exact Hsv]|].
  unfold spec_publishRelease. case_decide; [|by left]. intros s3 Hs3 Hv3. apply wp_ret; [done|].
  intros s4 Hs4 Hv4. apply wp_bind. eapply wp_call; [by apply getConfig_spec|]. cbn.
  rewrite Hv4, Hv3, Hv2, Hv1. cbn. rewrite lookup_fmap, Hx. cbn. unfold go_live.
  rewrite (decide_True (P := ck_namespace_id x = ns)), decide_True by (done || by right).
  intros s5 Hs5 _. apply wp_ret; [done|]. intros s6 Hs6 _. apply wp_ret; [done|]. right.
  eexists _, _. by split_and!.
Qed.

(** ** Release history *)
Lemma sql_slice_length {A : Type} (n o : Z) (l : list A) :
  0 ≤ n → Z.of_nat (length (sql_slice (Some (n, o)) l)) ≤ n.
Proof. intros Hn. cbn. destruct (Z.ltb_spec n 0); [lia|]. rewrite length_take. lia. Qed.

Lemma to_int32_id z : in_int32 z → to_int32 z = z.
Proof. unfold in_int32, to_int32, INT32_MIN, INT32_MAX. intros H. rewrite Z.mod_small; lia. Qed.

(** C27: a page of the release history.  The numbers of the request default to
    page 1 and 20 a page when they are not positive.  The response has that page
    of the namespace's releases, latest first, and as its [total] the number of
    releases on the page, however many the namespace has; where the offset of the
    page does not fit an [int] the call is undefined. *)
Theorem GetReleaseHistory_page ns page page_size (s : T) :
  ready s → in_int32 page → in_int32 page_size →
  let p := if 0 <? page then page else 1 in
  let n := if 0 <? page_size then page_size else 20 in
  wp s (GetReleaseHistory ns page page_size) (λ o st',
    if decide (in_int32 ((p - 1) * n)) then
      st' = view s ∧ ∃ l rows,
        enumerates l (s_rels (cur (view s))) (λ r, rel_namespace_id r = ns) ∧
        page_of release_desc l p n rows ∧
        o = Ret (Status_OK,
          mkGetReleaseHistoryResponse (set_release <$> rows) (Z.of_nat (length rows)))
    else o = Undef).
Proof.
  intros Hs Hp Hn p n. unfold in_int32, INT32_MIN, INT32_MAX in Hp, Hn.
  assert (0 < p ≤ 2147483647 ∧ 0 < n ≤ 2147483647) as [Hp' Hn'].
  { subst p n. destruct (Z.ltb_spec 0 page), (Z.ltb_spec 0 page_size); lia. }
  apply wp_bind. eapply wp_mono; [by apply getReleases_spec|]. unfold paged, page_in_range.
  cbn [rq_page rq_page_size rq_namespace_id]. fold p n.
  intros o st'. destruct (decide (in_int32 ((p - 1) * n))) as [Hr|Hr].
  - rewrite decide_True by (split; [unfold in_int32, INT32_MIN, INT32_MAX; lia|done]).
    intros [-> (rows & -> & l & Hl & Hpage)] s1 Hs1 Hv1. apply wp_ret; [done|]. split; [done|].
    exists l, rows. split_and!; [done..|]. do 3 f_equal. apply to_int32_id.
    destruct Hpage as (l0 & _ & _ & ->). pose proof (sql_slice_length n ((p - 1) * n) l0).
    unfold in_int32, INT32_MIN, INT32_MAX. lia.
  - rewrite decide_False by naive_solver. by intros ->.
Qed.
End service_theorems.

(** Both services do the same but for the watch. *)
Lemma services_agree {T : Type} `{!ConfigStore T} :
  ConfigGrpcService.GetConfig = GrpcServiceImpl.GetConfig ∧
  ConfigGrpcService.SetConfig = GrpcServiceImpl.SetConfig ∧
  ConfigGrpcService.DeleteConfig = GrpcServiceImpl.DeleteConfig ∧
  ConfigGrpcService.PublishRelease = GrpcServiceImpl.PublishRelease ∧
  ConfigGrpcService.GetReleaseHistory = GrpcServiceImpl.GetReleaseHistory.
Proof. done. Qed.

(** ** Watching *)

(** A watch ends with the first round in which the call is cancelled or a
    write fails, with the status OK, and not before; until then it writes one
    notification a round, and each of them is empty: no namespace, no release,
    no changed key. *)
Theorem WatchConfig_rounds rounds :
  let goes_on := λ r : bool * bool, negb r.1 && r.2 in
  ∃ k, (∀ r, r ∈ take k rounds → goes_on r = true) ∧
    (∀ r, rounds !! k = Some r → goes_on r = false) ∧
    ConfigGrpcService.WatchConfig rounds =
      (replicate k (mkConfigChangeNotification "" 0 [] 0),
       if decide (k < length rounds)%nat then Some Status_OK else None).
Proof.
  intros goes_on. induction rounds as [|[c w] rounds (k & Hall & Hk & IH)].
  - exists 0%nat. by split_and!; [intros ? ?%not_elem_of_nil| |].
  - destruct c; [|destruct w].
    + exists 0%nat. split_and!; [by intros ? ?%not_elem_of_nil|by intros ? [= <-]|].
      cbn. by rewrite decide_True by lia.
    + exists (S k). split_and!.
      * cbn. intros r [->|Hr]%elem_of_cons; auto.
      * intros r Hr. by apply Hk.
      * cbn [ConfigGrpcService.WatchConfig]. rewrite IH. cbn. repeat case_decide; (done || lia).
    + exists 0%nat. split_and!; [by intros ? ?%not_elem_of_nil|by intros ? [= <-]|].
      cbn. by rewrite decide_True by lia.
Qed.

(** The second service goes on after a failed write: only a cancelled call ends. *)
Lemma Impl_WatchConfig_ends rounds :
  (GrpcServiceImpl.WatchConfig rounds).2 = Some Status_OK ↔ ∃ w, (true, w) ∈ rounds.
Proof.
  induction rounds as [|[c w] rounds IH]; cbn.
  - split; [done|]. by intros [? ?%not_elem_of_nil].
  - destruct c; cbn.
    + split; [|done]. intros _. exists w. by left.
    + rewrite IH. split; intros [v Hv]; exists v; [by right|]. by apply elem_of_cons in Hv as [|].
Qed.

(** ** Witnesses *)
Lemma SetConfig_answer_witness :
  let v := @view _ _ mem_observed mem_sample in
  @wp _ _ mem_observed _ mem_sample
    (@ConfigGrpcService.SetConfig _ mem_store main_id "k" "v3" "" 9) (λ o st',
    match spec_addDraftChange main_id "k" "v3" (or_grpc "") 9 (cur v) with
    | (Undef, _) => o = Undef
    | (_, c') => o = Ret (Status_OK, None) ∧ st' = mkStore c' (saved v)
    end).
Proof.
  intros v. apply (@SetConfig_answer _ mem_store mem_observed true mem_store_spec);
    [apply mem_sample_healthy|exact (proj1 mem_sample_wf)].
Defined.

Lemma grpc_set_publish_get_witness :
  @wp _ _ mem_observed _ mem_sample
    (_ ← @ConfigGrpcService.SetConfig _ mem_store main_id "k" "v3" "" 9;
     p ← @ConfigGrpcService.PublishRelease _ mem_store main_id "n" "" 10;
     g ← @ConfigGrpcService.GetConfig _ mem_store main_id "k"; mret (p, g))
    (λ o _, o = Undef ∨ ∃ r c, o = Ret ((Status_OK, Some r), (Status_OK, Some c)) ∧
      rm_namespace_id r = main_id ∧ rm_status r = "active" ∧ rm_operator_id r = "grpc" ∧
      msg_namespace_id c = main_id ∧ msg_key c = "k" ∧ msg_status c = "live" ∧
      msg_value c = match s_cfgs (cur (@view _ _ mem_observed mem_sample)) !! (main_id, "k") with
        | Some old => if decide (ck_status old = "draft") then ck_value old else "v3"
        | None => "v3"
        end).
Proof.
  apply (@grpc_set_publish_get _ mem_store mem_observed true mem_store_spec main_id "k" "v3" "");
    [apply mem_sample_healthy|vm_compute; reflexivity|exact (proj1 mem_sample_wf)].
Defined.

Lemma GetReleaseHistory_page_witness :
  let v := @view _ _ mem_observed mem_sample in
  @wp _ _ mem_observed _ mem_sample
    (@ConfigGrpcService.GetReleaseHistory _ mem_store main_id 0 5) (λ o st',
    if decide (in_int32 ((1 - 1) * 5)) then
      st' = v ∧ ∃ l rows,
        enumerates l (s_rels (cur v)) (λ r, rel_namespace_id r = main_id) ∧
        page_of release_desc l 1 5 rows ∧
        o = Ret (Status_OK,
          mkGetReleaseHistoryResponse (set_release <$> rows) (Z.of_nat (length rows)))
    else o = Undef).
Proof.
  intros v. apply (@GetReleaseHistory_page _ mem_store mem_observed true mem_store_spec main_id 0 5);
    [apply mem_sample_healthy|split; vm_compute; discriminate|split; vm_compute; discriminate].
Defined.
