(* ===== verification/Concurrency.v ===== *)
(** * Several threads on one store

    The worker threads of the HTTP server and of the gRPC server share one store.
    Every method of [SqliteConfigStore] that touches a table holds [mutex_] for its
    whole body, so between two calls that one thread makes the other threads have
    made whole calls of their own, any number of them.  [shared] is the store as one
    thread sees it: [moves] says what the others do before each of its calls, and a
    call is their moves followed by its own.  Since the moves are arbitrary, up to
    the condition [rely] on the operations the others may use, a theorem about a
    thread on [shared] holds in every interleaving.

    [StoreKeeps] is what a component needs of a store to keep a property of the
    content: a store that keeps its contract provides it, a store shared between
    threads provides it when the store behind it does, and the components are
    shown to keep what the store keeps against that interface alone.

    [rollbackConfig] does not hold the mutex itself: it is two calls that do.  The
    transaction commands do not take it at all, so they may fall inside a call of
    another thread; [between_calls] is the case in which they do not, and
    [TransactionRaces] has the others.  The operations that take the mutex are the
    [plain] ones: with [rely] at most [plain], and a thread that uses no transaction
    command, the interleavings of [shared] are those of the code. *)
From S2P Require Import Prelude Timestamp DataTypes SqliteOrm MemOrm ConfigStore SqliteConfigStore StoreOps StoreInvariants StoreTheorems.

Record shared (rely : op → Prop) (T : Type) := mkShared {
  inner : T;
  moves : list (list op);
}.
Arguments mkShared {rely T} _ _.
Arguments inner {rely T} _.
Arguments moves {rely T} _.

Section shared.
Context {rely : op → Prop} {T : Type} `{!ConfigStore T}.

(** What the other threads do until this one gets the mutex. *)
Definition others : M (shared rely T) () := λ s,
  match moves s with
  | [] => (Ret (), s)
  | l :: ms => let '(o, t) := run_ops l (inner s) in (o, mkShared t ms)
  end.

Definition lift {A : Type} (m : M T A) : M (shared rely T) A := λ s,
  let '(o, t) := m (inner s) in (o, mkShared t (moves s)).

(** [std::lock_guard<std::mutex> lock(mutex_)] around the body of a method *)
Definition locked {A : Type} (m : M T A) : M (shared rely T) A := _ ← others; lift m.

(** [beginTransaction], [commitTransaction] and [rollbackTransaction] take no lock:
    this is such a command where it falls between the calls of the others. *)
Definition between_calls {A : Type} (m : M T A) : M (shared rely T) A := _ ← others; lift m.

Definition locked_rollbackConfig (namespaceId key : string) (targetVersion : Z)
    (operatorId : string) (now : Z) : M (shared rely T) bool :=
  target ← locked (getConfigVersion namespaceId key targetVersion);
  match target with
  | None => mret false
  | Some cv => locked (updateConfig namespaceId key (cv_value cv) operatorId true now)
  end.

#[export] Instance shared_store : ConfigStore (shared rely T) := {
  healthCheck := locked healthCheck;
  createApplication app := locked (createApplication app);
  getApplication i := locked (getApplication i);
  listApplications := locked listApplications;
  deleteApplication i := locked (deleteApplication i);
  createNamespace ns := locked (createNamespace ns);
  getNamespace i := locked (getNamespace i);
  listNamespaces app env cl := locked (listNamespaces app env cl);
  deleteNamespace i := locked (deleteNamespace i);
  createConfig ns key v opr now := locked (createConfig ns key v opr now);
  updateConfig ns key v opr d now := locked (updateConfig ns key v opr d now);
  deleteConfig ns key opr d now := locked (deleteConfig ns key opr d now);
  getConfig ns key i := locked (getConfig ns key i);
  listConfigs ns i := locked (listConfigs ns i);
  getConfigVersions ns key := locked (getConfigVersions ns key);
  getConfigVersion ns key v := locked (getConfigVersion ns key v);
  rollbackConfig := locked_rollbackConfig;
  getChangeHistory q := locked (getChangeHistory q);
  createRelease r now := locked (createRelease r now);
  getReleases q := locked (getReleases q);
  getRelease i := locked (getRelease i);
  retireRelease i := locked (retireRelease i);
  publishRelease ns note opr out now := locked (publishRelease ns note opr out now);
  createApproval a now := locked (createApproval a now);
  updateApprovalStatus i st c now := locked (updateApprovalStatus i st c now);
  getPendingApprovals ns := locked (getPendingApprovals ns);
  createUser u := locked (createUser u);
  getUserByUsername n := locked (getUserByUsername n);
  listUsers := locked listUsers;
  beginTransaction := between_calls beginTransaction;
  commitTransaction := between_calls commitTransaction;
  rollbackTransaction := between_calls rollbackTransaction;
}.

#[export] Instance shared_observed {O : Observed T Store} : Observed (shared rely T) Store := {
  view s := view (inner s);
  ready s := ready (inner s) ∧ Forall (Forall rely) (moves s);
}.
End shared.
Arguments shared_store {rely T _}.
Arguments shared_observed {rely T O}.

(** ** What a computation keeps *)
Section keeps.
Context {T : Type} {O : Observed T Store} (I : Store → Prop).

(** From a state where [I] holds, [m] ends, and [I] holds then too, unless the end
    is undefined behaviour. *)
Definition keeps {A : Type} (m : M T A) : Prop :=
  ∀ s, ready s → I (view s) → wp s m (λ o st', o ≠ Undef → I st').

Lemma keeps_ret {A : Type} (a : A) : keeps (mret a).
Proof. intros s Hs HI. by apply wp_ret. Qed.
Lemma keeps_throw {A : Type} : keeps (throw (A := A)).
Proof. intros s Hs HI. exists Throw, s. auto. Qed.
Lemma keeps_undef {A : Type} : keeps (undef (A := A)).
Proof. intros s Hs HI. exists Undef, s. auto. Qed.
Lemma keeps_bind {A B : Type} (m : M T A) (k : A → M T B) :
  keeps m → (∀ a, keeps (k a)) → keeps (m ≫= k).
Proof.
  intros Hm Hk s Hs HI. apply wp_bind. eapply wp_mono; [by apply Hm|].
  intros [a| |] st' Hst'; [|by intros _; apply Hst'|done]. intros s' Hs' <-. apply Hk; [done|]. by apply Hst'.
Qed.
Lemma keeps_try {A : Type} (m h : M T A) : keeps m → keeps h → keeps (try_catch m h).
Proof.
  intros Hm Hh s Hs HI. apply wp_try. eapply wp_mono; [by apply Hm|].
  intros [a| |] st' Hst'; [done| |done]. intros s' Hs' <-. apply Hh; [done|]. by apply Hst'.
Qed.
(** What is kept, in front of the rest. *)
Lemma wp_keeps {A B : Type} (m : M T A) (k : A → M T B) (s : T) (Q : outcome B → Store → Prop) :
  keeps m → (m s).1 ≠ Throw → ready s → I (view s) → (∀ st, Q Undef st) →
  (∀ a s', ready s' → I (view s') → wp s' (k a) Q) →
  wp s (m ≫= k) Q.
Proof.
  intros Hm Ht Hs HI HU Hk. apply wp_bind. destruct (Hm s Hs HI) as (o & s' & E & Hr & Hv).
  exists o, s'. split_and!; [done..|]. rewrite E in Ht. destruct o as [a| |]; [|done|apply HU].
  intros s'' Hs'' Hv''. apply Hk; [done|]. rewrite Hv''. by apply Hv.
Qed.
Lemma keeps_undrop {A : Type} (m : M T A) : keeps (drop_result m) → keeps m.
Proof.
  intros Hm s Hs HI. destruct (Hm s Hs HI) as (o & s' & E & Hr & HQ). unfold wp.
  unfold drop_result, mbind, M_bind, mret, M_ret in E.
  destruct (m s) as [[a| |] s1]; injection E as <- <-; eexists _, _; (split; [done|]); (split; [done|]); auto.
Qed.
End keeps.

(** Rules for the pieces of a component, and the database that finds them. *)
Create HintDb keeps.
#[export] Hint Resolve keeps_ret keeps_throw keeps_undef : keeps.

(** A computation is taken apart along its binds, handlers and branches; the calls
    at its leaves are left to the database. *)
Ltac keeping :=
  repeat first
    [ match goal with |- ∀ _, _ => intros ? end
    | match goal with |- keeps _ (match ?x with _ => _ end) => destruct x end
    | apply keeps_bind | apply keeps_try | solve [eauto with keeps] ].

(** The operations [P] lets a thread use keep [I]. *)
Class Stable (fk : bool) (P : op → Prop) (I : Store → Prop) : Prop :=
  stable o st st' : P o → store_step fk o st st' → I st → I st'.

Class StoreKeeps (T : Type) `{!ConfigStore T} (O : Observed T Store) (P : op → Prop)
    (I : Store → Prop) : Prop := {
  createApplication_keeps app : P (OpCreateApplication app) → keeps I (createApplication app);
  getApplication_keeps i : keeps I (getApplication i);
  listApplications_keeps : keeps I listApplications;
  deleteApplication_keeps i : P (OpDeleteApplication i) → keeps I (deleteApplication i);
  createNamespace_keeps ns : P (OpCreateNamespace ns) → keeps I (createNamespace ns);
  getNamespace_keeps i : keeps I (getNamespace i);
  listNamespaces_keeps app env cl : keeps I (listNamespaces app env cl);
  deleteNamespace_keeps i : P (OpDeleteNamespace i) → keeps I (deleteNamespace i);
  createConfig_keeps ns key v opr now :
    P (OpCreateConfig ns key v opr now) → keeps I (createConfig ns key v opr now);
  updateConfig_keeps ns key v opr d now :
    P (OpUpdateConfig ns key v opr d now) → keeps I (updateConfig ns key v opr d now);
  deleteConfig_keeps ns key opr d now :
    P (OpDeleteConfig ns key opr d now) → keeps I (deleteConfig ns key opr d now);
  getConfig_keeps ns key i : keeps I (getConfig ns key i);
  listConfigs_keeps ns i : keeps I (listConfigs ns i);
  getConfigVersions_keeps ns key : keeps I (getConfigVersions ns key);
  getConfigVersion_keeps ns key v : keeps I (getConfigVersion ns key v);
  rollbackConfig_keeps ns key v opr now :
    P (OpRollbackConfig ns key v opr now) → keeps I (rollbackConfig ns key v opr now);
  getChangeHistory_keeps q : keeps I (getChangeHistory q);
  createRelease_keeps r now : P (OpCreateRelease r now) → keeps I (createRelease r now);
  getReleases_keeps q : keeps I (getReleases q);
  getRelease_keeps i : keeps I (getRelease i);
  retireRelease_keeps i : P (OpRetireRelease i) → keeps I (retireRelease i);
  publishRelease_keeps ns note opr out now :
    P (OpPublishRelease ns note opr now) → keeps I (publishRelease ns note opr out now);
  createApproval_keeps a now : P (OpCreateApproval a now) → keeps I (createApproval a now);
  updateApprovalStatus_keeps i st c now :
    P (OpUpdateApprovalStatus i st c now) → keeps I (updateApprovalStatus i st c now);
  getPendingApprovals_keeps ns : keeps I (getPendingApprovals ns);
  createUser_keeps u : P (OpCreateUser u) → keeps I (createUser u);
  getUserByUsername_keeps n : keeps I (getUserByUsername n);
  listUsers_keeps : keeps I listUsers;
  beginTransaction_keeps : P OpBegin → keeps I beginTransaction;
  commitTransaction_keeps : P OpCommit → keeps I commitTransaction;
  rollbackTransaction_keeps : P OpRollback → keeps I rollbackTransaction;
}.
#[export] Hint Resolve createApplication_keeps getApplication_keeps listApplications_keeps
  deleteApplication_keeps createNamespace_keeps getNamespace_keeps listNamespaces_keeps
  deleteNamespace_keeps createConfig_keeps updateConfig_keeps deleteConfig_keeps getConfig_keeps
  listConfigs_keeps getConfigVersions_keeps getConfigVersion_keeps rollbackConfig_keeps
  getChangeHistory_keeps createRelease_keeps getReleases_keeps getRelease_keeps retireRelease_keeps
  publishRelease_keeps createApproval_keeps updateApprovalStatus_keeps getPendingApprovals_keeps
  createUser_keeps getUserByUsername_keeps listUsers_keeps beginTransaction_keeps
  commitTransaction_keeps rollbackTransaction_keeps : keeps.

(** ** A store that keeps its contract keeps what its operations keep *)
Section contract.
Context {T : Type} `{!ConfigStore T} {O : Observed T Store} {fk : bool}
  `{Hspec : !ConfigStoreSpec T O fk}.
Context (P : op → Prop) (I : Store → Prop) `{HI : !Stable fk P I}.

Lemma keeps_queries {A : Type} (m : M T A) (R : content → A → Prop) :
  (∀ s, ready s → wp s m (queries R (view s))) → keeps I m.
Proof. intros Hm s Hs Hv. eapply wp_mono; [by apply Hm|]. by intros o st' [-> _]. Qed.

Lemma keeps_paged {A : Type} (m : M T (list A)) (R : content → list A → Prop) page size :
  (∀ s, ready s → wp s m (paged R page size (view s))) → keeps I m.
Proof.
  intros Hm s Hs Hv. eapply wp_mono; [by apply Hm|]. unfold paged. intros o st'.
  case_decide; [by intros [-> _]|by intros ->].
Qed.

Lemma keeps_exec (o : op) : P o → keeps I (exec o).
Proof.
  intros Ho s Hs Hv. eapply wp_mono; [by apply exec_step|]. cbn. intros r st' Hstep Hr.
  eapply HI; [done|by apply Hstep|done].
Qed.

Lemma keeps_op {A : Type} (o : op) (m : M T A) : exec o = drop_result m → P o → keeps I m.
Proof. intros E Ho. apply keeps_undrop. rewrite <- E. by apply keeps_exec. Qed.

#[export] Instance contract_keeps : StoreKeeps T O P I.
Proof.
  split; intros; try match goal with H : P ?o |- keeps I ?m => exact (keeps_op o m eq_refl H) end;
    try (eapply keeps_queries; intros; first [by apply getApplication_spec|by apply listApplications_spec
      |by apply getNamespace_spec|by apply listNamespaces_spec|by apply listConfigs_spec
      |by apply getConfigVersions_spec|by apply getConfigVersion_spec|by apply getRelease_spec
      |by apply getPendingApprovals_spec|by apply getUserByUsername_spec|by apply listUsers_spec]);
    try (eapply keeps_paged; intros; first [by apply getChangeHistory_spec|by apply getReleases_spec]).
  - intros s Hs Hv. eapply wp_mono; [by apply getConfig_spec|]. intros o st' [-> ->] _. cbn.
    by destruct (view s).
  - intros s Hs Hv. eapply wp_mono; [by apply publishRelease_spec|]. cbn. intros o st' Href Hr.
    destruct (view s) as [c [sv|]] eqn:E; cbn in *; [by destruct Href as [_ ->]|].
    unfold refines in Href. cbn in Href.
    destruct (spec_publishRelease ns note opr now c) as [x c'] eqn:Ep.
    assert (store_step fk (OpPublishRelease ns note opr now) (mkStore c None) (mkStore c' None))
      by (constructor; [by econstructor|done]).
    destruct x; [destruct Href as [_ ->]|destruct Href as [_ ->]|by destruct Hr]; by eapply HI.
Qed.
End contract.

(** ** A store shared between threads keeps what the store behind it keeps *)

(** Who may roll a config back may update it. *)
Class Rely (P : op → Prop) : Prop :=
  rely_rollback ns key v opr now value :
    P (OpRollbackConfig ns key v opr now) → P (OpUpdateConfig ns key value opr true now).

Definition any_op (o : op) : Prop := True.
Definition no_rollback (o : op) : Prop := o ≠ OpRollback.
#[export] Instance any_op_rely : Rely any_op.
Proof. done. Qed.
#[export] Instance no_rollback_rely : Rely no_rollback.
Proof. done. Qed.
#[export] Instance plain_rely : Rely plain.
Proof. done. Qed.

Section shared_keeps.
Context {T : Type} `{!ConfigStore T} {O : Observed T Store}.
Context (P : op → Prop) (I : Store → Prop) `{HP : !Rely P} `{HK : !StoreKeeps T O P I}.

Lemma run_ops_no_throw (l : list op) (t : T) : (run_ops l t).1 ≠ Throw.
Proof.
  revert t. induction l as [|o l IH]; intros t; [done|]. cbn. unfold mbind, M_bind, try_catch.
  destruct (exec o t) as [[]]; cbn; auto.
Qed.

Lemma exec_keeps (o : op) : P o → keeps I (exec o).
Proof. intros Ho. destruct o; cbn [exec]; unfold drop_result; keeping. Qed.

Lemma run_ops_keeps (l : list op) : Forall P l → keeps I (run_ops l).
Proof. induction 1; cbn [run_ops]; keeping. by apply exec_keeps. Qed.

Lemma others_no_throw (s : shared P T) : (others s).1 ≠ Throw.
Proof.
  unfold others. destruct (moves s) as [|l ms]; [done|]. pose proof (run_ops_no_throw l (inner s)).
  by destruct (run_ops l (inner s)).
Qed.

Lemma others_keeps : keeps I (others (rely := P) (T := T)).
Proof.
  intros s [Hs Hms] HI. unfold wp, others. destruct (moves s) as [|l ms] eqn:E.
  { exists (Ret ()), s. cbn. rewrite E. auto. }
  apply Forall_cons in Hms as [Hl Hms].
  destruct (run_ops_keeps l Hl (inner s) Hs HI) as (o & t & Hm & Hr & HQ).
  exists o, (mkShared t ms). by rewrite Hm.
Qed.

Lemma lift_keeps {A : Type} (m : M T A) : keeps I m → keeps I (lift (rely := P) m).
Proof.
  intros Hm s [Hs Hms] HI. destruct (Hm (inner s) Hs HI) as (o & t & E & Hr & HQ).
  exists o, (mkShared t (moves s)). unfold lift. by rewrite E.
Qed.

Lemma locked_keeps {A : Type} (m : M T A) : keeps I m → keeps I (locked (rely := P) m).
Proof. intros Hm. apply keeps_bind; [apply others_keeps|]. intros []. by apply lift_keeps. Qed.

Lemma between_calls_keeps {A : Type} (m : M T A) : keeps I m → keeps I (between_calls (rely := P) m).
Proof. apply locked_keeps. Qed.

(** A call of a thread: whatever the others have done first kept [I]. *)
Lemma wp_locked {A : Type} (m : M T A) (s : shared P T) (Q : outcome A → Store → Prop) :
  ready s → I (view s) → (∀ st, Q Undef st) →
  (∀ t : T, ready t → I (view t) → wp t m Q) →
  wp s (locked m) Q.
Proof.
  intros Hs HI HU HQ. eapply wp_keeps; [apply others_keeps|apply others_no_throw|done..|].
  intros [] s' [Hr Hms] HI'. destruct (HQ (inner s')) as (o & t & Et & Ht & Hq); [done..|].
  exists o, (mkShared t (moves s')). unfold lift. by rewrite Et.
Qed.

(** The same with what the others do first given. *)
Lemma wp_locked_after {A : Type} (m : M T A) (l : list op) ms (t : T) (Q : outcome A → Store → Prop) :
  wp t (run_ops l) (λ o st', o = Undef ∨ o = Ret ()) → Forall (Forall P) ms → (∀ st, Q Undef st) →
  (ready (run_ops l t).2 → (run_ops l t).1 = Ret () → wp (run_ops l t).2 m Q) →
  wp (mkShared (rely := P) t (l :: ms)) (locked m) Q.
Proof.
  intros (o & t1 & E & Ht & Ho) Hms HU HQ. rewrite E in HQ. unfold wp, locked, mbind, M_bind, others. cbn. rewrite E.
  destruct Ho as [->| ->]; [by eexists _, _|].
  destruct (HQ Ht eq_refl) as (o & t2 & E2 & Ht2 & Hq). unfold lift. cbn in *. rewrite E2. by eexists _, _.
Qed.

#[export] Instance shared_keeps : StoreKeeps (shared P T) shared_observed P I.
Proof.
  split; intros; cbn; try (apply locked_keeps; by eauto with keeps);
    try (apply between_calls_keeps; by eauto with keeps).
  apply keeps_bind; [apply locked_keeps; eauto with keeps|]. intros [cv|]; [|apply keeps_ret].
  by eapply locked_keeps, updateConfig_keeps, rely_rollback.
Qed.
End shared_keeps.

(** ** Atomic computations *)
Lemma bind_eval {S A B : Type} (m : M S A) (k : A → M S B) (s s' : S) (o : outcome A) :
  m s = (o, s') →
  (m ≫= k) s = match o with Ret a => k a s' | Throw => (Throw, s') | Undef => (Undef, s') end.
Proof. unfold mbind, M_bind. by intros ->. Qed.

Section atomic.
Context {P : op → Prop} {T : Type} `{!ConfigStore T}.
Local Abbreviation shared := (shared P T).

(** [m] on the shared store is [m'] alone on the store at one moment: after what the
    others do first, [m'] is run from its beginning to its end.  Or [m] does not
    touch the store, and [m'] does not either and has the same outcome. *)
Definition atomic {A : Type} (m : M shared A) (m' : M T A) : Prop :=
  ∀ s, Forall (Forall P) (moves s) → m s = locked m' s ∨ ∃ o, m s = (o, s) ∧ ∀ t, m' t = (o, t).

(** Neither touches the store, and they have the same outcome. *)
Definition same_local {A : Type} (m : M shared A) (m' : M T A) : Prop :=
  ∃ o, (∀ s, m s = (o, s)) ∧ ∀ t, m' t = (o, t).

Lemma local_ret {A : Type} (a : A) : same_local (mret a) (mret a).
Proof. by exists (Ret a). Qed.
Lemma local_throw {A : Type} : same_local (A := A) throw throw.
Proof. by exists Throw. Qed.
Lemma local_bind {A B : Type} (m : M shared A) m' (k : A → M shared B) k' :
  same_local m m' → (∀ a, same_local (k a) (k' a)) → same_local (m ≫= k) (m' ≫= k').
Proof.
  intros (o & Hm & Hm') Hk. unfold same_local, mbind, M_bind. setoid_rewrite Hm. setoid_rewrite Hm'.
  destruct o as [a| |]; [apply Hk|by exists Throw|by exists Undef].
Qed.

Lemma atomic_locked {A : Type} (m : M T A) : atomic (locked m) m.
Proof. intros s _. by left. Qed.
Lemma atomic_local {A : Type} (m : M shared A) m' : same_local m m' → atomic m m'.
Proof. intros (o & Hm & Hm') s _. right. eauto. Qed.
Lemma atomic_before {A B : Type} (m : M shared A) m' (k : A → M shared B) k' :
  same_local m m' → (∀ a, atomic (k a) (k' a)) → atomic (m ≫= k) (m' ≫= k').
Proof.
  intros (o & Hm & Hm') Hk s Hs. rewrite (bind_eval _ _ _ _ _ (Hm s)).
  destruct o as [a| |]; [destruct (Hk a s Hs) as [->|(o & -> & Hk')]; [left|right]|right..].
  - unfold locked. destruct (others s) as [o1 s1] eqn:Eo. rewrite !(bind_eval _ _ _ _ _ Eo).
    destruct o1; [|done..]. unfold lift. by rewrite (bind_eval _ _ _ _ _ (Hm' _)).
  - exists o. split; [done|]. intros t. by rewrite (bind_eval _ _ _ _ _ (Hm' t)).
  - exists Throw. split; [done|]. intros t. by rewrite (bind_eval _ _ _ _ _ (Hm' t)).
  - exists Undef. split; [done|]. intros t. by rewrite (bind_eval _ _ _ _ _ (Hm' t)).
Qed.
Lemma atomic_after {A B : Type} (m : M shared A) m' (k : A → M shared B) k' :
  atomic m m' → (∀ a, same_local (k a) (k' a)) → atomic (m ≫= k) (m' ≫= k').
Proof.
  intros Hm Hk s Hs. destruct (Hm s Hs) as [E|(o & E & Hm')]; [left|right].
  - unfold mbind at 1, M_bind at 1. rewrite E. unfold locked, mbind, M_bind, lift.
    destruct (others s) as [[] s1]; [|done..].
    destruct (m' (inner s1)) as [[b| |] t1]; [|done..]. destruct (Hk b) as (o & -> & ->). done.
  - rewrite (bind_eval _ _ _ _ _ E). destruct o as [b| |].
    + destruct (Hk b) as (o & Ho & Hk'). exists o. split; [done|]. intros t.
      by rewrite (bind_eval _ _ _ _ _ (Hm' t)).
    + exists Throw. split; [done|]. intros t. by rewrite (bind_eval _ _ _ _ _ (Hm' t)).
    + exists Undef. split; [done|]. intros t. by rewrite (bind_eval _ _ _ _ _ (Hm' t)).
Qed.
End atomic.

Create HintDb atomic.
#[export] Hint Resolve local_ret local_throw : atomic.

(** Steps that stay local, then the one call, then steps that stay local. *)
Ltac locally :=
  repeat first
    [ match goal with |- ∀ _, _ => intros ? end
    | match goal with |- same_local (match ?x with _ => _ end) _ => destruct x end
    | solve [eauto with atomic] | apply local_bind ].
Ltac atomically :=
  repeat first
    [ match goal with |- ∀ _, _ => intros ? end
    | match goal with |- atomic (match ?x with _ => _ end) _ => destruct x end
    | exact (atomic_locked _) | solve [eauto with atomic] | solve [apply atomic_local; locally]
    | apply atomic_before; [solve [locally]|] | apply atomic_after; [|solve [locally]] ].
