(* ===== verification/ConcurrencyTheorems.v ===== *)
(** * Requests of several threads at once

    [service] lists what the threads of the program do with the store: the requests
    of the HTTP server, the calls of the gRPC service, the operations of the
    publish engine, of the namespace manager and of the user manager.  Against the
    interface [StoreKeeps] each keeps what the store keeps, so on a store that
    threads share no interleaving of their calls breaks an invariant of the store;
    the rest of the file says which requests are atomic, what an editor can rely on
    while others edit, and what a transaction does to the others.

    Every service but the grayscale release uses only methods that hold the mutex of
    the store, and no server calls the grayscale release; the theorems on invariants
    and atomicity are of threads that all keep to these ([plain], [uses_plain]). *)
From S2P Require Import Prelude Timestamp DataTypes SqliteOrm MemOrm ConfigStore SqliteConfigStore StoreOps StoreInvariants StoreTheorems History NamespaceManager PublishEngine Auth Strings Json Api HttpServer HttpTheorems GrpcService Concurrency.
Import NamespaceManager.NamespaceManager PublishEngine.PublishEngine HttpSession.

Inductive service :=
  | Http (req : request) (now : Z)
  | GrpcGetConfig (ns key : string)
  | GrpcSetConfig (ns key value operator : string) (now : Z)
  | GrpcDeleteConfig (ns key operator : string) (now : Z)
  | GrpcPublishRelease (ns note operator : string) (now : Z)
  | GrpcGetReleaseHistory (ns : string) (page size : Z)
  | RegisterApplication (app name : string) (description : option string) (now : Z)
  | RemoveApplication (app : string)
  | CreateCluster (app env cluster : string) (now : Z)
  | ListClusters (app env : string)
  | CreateNamespace (app env cluster name type : string) (parent : option string) (now : Z)
  | DeleteNamespace (ns : string)
  | ResolveConfig (fuel : nat) (ns key : string)
  | GetDraftChanges (ns : string)
  | AddDraftChange (ns key value operator : string) (now : Z)
  | RemoveDraftChange (ns key operator : string) (now : Z)
  | Publish (ns note operator : string) (now : Z)
  | SubmitForApproval (ns submitter : string) (now : Z)
  | Approve (i : Z) (approver comment : string) (now : Z)
  | Reject (i : Z) (approver comment : string) (now : Z)
  | GetPendingApprovals (ns : string)
  | PublishGrayscale (ns note operator : string) (percentage : Z) (whitelist : list string) (now : Z)
  | FullRollout (ns operator : string) (release : Z) (now : Z)
  | GetReleaseHistory (ns : string) (page size : Z)
  | CreateUser (username password role : string) (now : Z)
  | Authenticate (username password : string)
  | RollbackConfig (ns key : string) (version : Z) (operator : string) (now : Z).

Section serve.
Context {T : Type} `{!ConfigStore T}.
Context (json_parse : string → option json) (json_dump : json → option string).
Context (dump_strings : list string → option string) (sha256 : string → list Z).

Definition perform (c : service) : M T () :=
  match c with
  | Http req now => drop_result (handleRequest json_parse json_dump req now)
  | GrpcGetConfig ns key => drop_result (ConfigGrpcService.GetConfig ns key)
  | GrpcSetConfig ns key v opr now => drop_result (ConfigGrpcService.SetConfig ns key v opr now)
  | GrpcDeleteConfig ns key opr now => drop_result (ConfigGrpcService.DeleteConfig ns key opr now)
  | GrpcPublishRelease ns note opr now => drop_result (ConfigGrpcService.PublishRelease ns note opr now)
  | GrpcGetReleaseHistory ns p n => drop_result (ConfigGrpcService.GetReleaseHistory ns p n)
  | RegisterApplication a n d now => drop_result (registerApplication a n d now)
  | RemoveApplication a => drop_result (removeApplication a)
  | CreateCluster a e c now => drop_result (createCluster a e c now)
  | ListClusters a e => drop_result (listClusters a e)
  | CreateNamespace a e c n ty par now =>
    drop_result (NamespaceManager.createNamespace a e c n ty par now)
  | DeleteNamespace ns => drop_result (NamespaceManager.deleteNamespace ns)
  | ResolveConfig fuel ns key => drop_result (resolveConfig fuel ns key)
  | GetDraftChanges ns => drop_result (getDraftChanges ns)
  | AddDraftChange ns key v opr now => drop_result (addDraftChange ns key v opr now)
  | RemoveDraftChange ns key opr now => drop_result (removeDraftChange ns key opr now)
  | Publish ns note opr now => drop_result (publish ns note opr empty_release now)
  | SubmitForApproval ns sub now => drop_result (submitForApproval ns sub now)
  | Approve i who c now => drop_result (approve i who c now)
  | Reject i who c now => drop_result (reject i who c now)
  | GetPendingApprovals ns => drop_result (PublishEngine.getPendingApprovals ns)
  | PublishGrayscale ns note opr p wl now =>
    drop_result (publishGrayscale dump_strings ns note opr p wl empty_release now)
  | FullRollout ns opr i now => drop_result (fullRollout ns opr i now)
  | GetReleaseHistory ns p n => drop_result (getReleaseHistory ns p n)
  | CreateUser u pw r now => drop_result (UserManager.createUser sha256 u pw r now)
  | Authenticate u pw => drop_result (UserManager.authenticate sha256 u pw)
  | RollbackConfig ns key v opr now => drop_result (rollbackConfig ns key v opr now)
  end.

(** One thread, one thing after the other; an exception ends what raised it. *)
Fixpoint serve (l : list service) : M T () :=
  match l with
  | [] => mret ()
  | c :: l => _ ← try_catch (perform c) (mret ()); serve l
  end.

Lemma serve_no_throw (l : list service) (s : T) : (serve l s).1 ≠ Throw.
Proof.
  revert s. induction l as [|c l IH]; intros s; [done|]. cbn. unfold mbind, M_bind, try_catch.
  destruct (perform c s) as [[]]; cbn; auto.
Qed.
End serve.

(** The health check asks the storage object for an allocator, of which nothing is known. *)
Definition no_health (c : service) : Prop :=
  match c with Http req _ => req_target req ≠ "/health" | _ => True end.
(** The transaction commands are used by grayscale releases only. *)
Definition uses_plain (c : service) : Prop :=
  match c with PublishGrayscale _ _ _ _ _ _ => False | _ => True end.

(** ** Every component keeps what the store keeps *)
Section components.
Context {T : Type} `{!ConfigStore T} {O : Observed T Store}.
Context (P : op → Prop) (I : Store → Prop) `{HK : !StoreKeeps T O P I}.
Context (HP : ∀ o, plain o → P o).
Context (json_parse : string → option json) (json_dump : json → option string).
Context (dump_strings : list string → option string) (sha256 : string → list Z).

Local Abbreviation keep := (keeps (T := T) (O := O) I).

#[local] Hint Extern 2 (P _) => apply HP; exact Logic.I : keeps.

Lemma json_at_keeps j k : keep (json_at j k).
Proof. unfold json_at. keeping. Qed.
Lemma to_string_keeps j : keep (to_string j).
Proof. unfold to_string. keeping. Qed.
#[local] Hint Resolve json_at_keeps to_string_keeps : keeps.
Lemma string_at_keeps j k : keep (string_at j k).
Proof. unfold string_at. keeping. Qed.
#[local] Hint Resolve string_at_keeps : keeps.
Lemma value_or_keeps j k d : keep (value_or j k d).
Proof. unfold value_or. keeping. Qed.
Lemma optional_at_keeps j k : keep (optional_at j k).
Proof. unfold optional_at. keeping. Qed.
Lemma parse_body_keeps b : keep (parse_body json_parse b).
Proof. unfold parse_body. keeping. Qed.
#[local] Hint Resolve value_or_keeps optional_at_keeps parse_body_keeps : keeps.

Lemma registerApplication_keeps a n d now : keep (registerApplication a n d now).
Proof.
  unfold registerApplication. keeping.
Qed.
Lemma manager_createNamespace_keeps a e c n ty par now :
  keep (NamespaceManager.createNamespace a e c n ty par now).
Proof. unfold NamespaceManager.createNamespace. keeping. Qed.
#[local] Hint Resolve registerApplication_keeps manager_createNamespace_keeps : keeps.

Lemma handleRequest_keeps req now :
  req_target req ≠ "/health" → keep (handleRequest json_parse json_dump req now).
Proof.
  intros Hreq. unfold handleRequest, sendResponse, route. rewrite (bool_decide_false (req_target req = "/health")) by done.
  unfold ok_json, handleLogin, handleCreateApp, handleListApps, handleGetApp, handleDeleteApp,
    handleListNamespaces, handleCreateNamespace, handleGetConfig, handleSetConfig, handleDeleteConfig,
    handlePublish, handleGetReleases, listApplications, NamespaceManager.getApplication, removeApplication.
  keeping.
Qed.

Lemma resolveConfig_keeps fuel ns key : keep (resolveConfig fuel ns key).
Proof. revert ns. induction fuel as [|fuel IH]; intros ns; cbn [resolveConfig]; keeping. Qed.

Lemma addDraftChange_keeps ns key v opr now : keep (addDraftChange ns key v opr now).
Proof. unfold addDraftChange. keeping. Qed.

Lemma publishGrayscale_keeps ns note opr p wl out now :
  P OpBegin → P OpCommit → P OpRollback →
  keep (publishGrayscale dump_strings ns note opr p wl out now).
Proof. intros Hb Hc Hr. unfold publishGrayscale. keeping. Qed.
#[local] Hint Resolve resolveConfig_keeps addDraftChange_keeps : keeps.

Lemma perform_keeps c :
  no_health c → (uses_plain c ∨ ∀ o, P o) →
  keep (perform json_parse json_dump dump_strings sha256 c).
Proof.
  intros Hh Hp. destruct c; cbn [perform]; apply keeps_bind; try (by intros; apply keeps_ret);
    try (by apply handleRequest_keeps);
    try (destruct Hp as [[]|Hp]; apply publishGrayscale_keeps; apply Hp);
    unfold ConfigGrpcService.GetConfig, ConfigGrpcService.SetConfig, ConfigGrpcService.DeleteConfig,
      ConfigGrpcService.PublishRelease, ConfigGrpcService.GetReleaseHistory, removeApplication,
      createCluster, listClusters, NamespaceManager.deleteNamespace, getDraftChanges,
      removeDraftChange, publish, submitForApproval, approve, reject,
      PublishEngine.getPendingApprovals, fullRollout, getReleaseHistory, UserManager.createUser,
      UserManager.authenticate; keeping.
Qed.

Lemma serve_keeps l :
  Forall no_health l → (Forall uses_plain l ∨ ∀ o, P o) →
  keep (serve json_parse json_dump dump_strings sha256 l).
Proof.
  intros Hl Hp. induction Hl as [|c l Hc Hl IH]; cbn [serve]; [apply keeps_ret|].
  rewrite Forall_cons in Hp. keeping; [apply perform_keeps; tauto|apply IH; tauto].
Qed.
End components.

(** ** Atomic requests *)

(** The requests whose handlers make at most one call of the store: all but the
    registration of an application, the creation of a namespace, the listing of the
    namespaces of an application and the edit of a key. *)
Definition one_call (req : request) : bool :=
  let target := req_target req in
  negb (bool_decide (target = "/api/v1/apps" ∧ req_method req = post)) &&
  negb (bool_decide (target = "/api/v1/namespaces" ∧ req_method req = post)) &&
  negb (begins "/api/v1/apps/" target && includes "/namespaces" target) &&
  negb (begins "/api/v1/namespaces/" target && includes "/keys/" target && bool_decide (req_method req = put)).

Section atomic_requests.
Context {T : Type} `{!ConfigStore T}.
Context (json_parse : string → option json) (json_dump : json → option string).
Local Abbreviation alone := (atomic (P := plain) (T := T)).

Lemma parse_body_local b :
  same_local (P := plain) (T := T) (parse_body json_parse b) (parse_body json_parse b).
Proof. unfold parse_body. locally. Qed.
Lemma to_string_local j : same_local (P := plain) (T := T) (to_string j) (to_string j).
Proof. unfold to_string. locally. Qed.
#[local] Hint Resolve parse_body_local to_string_local : atomic.
Lemma value_or_local j k d : same_local (P := plain) (T := T) (value_or j k d) (value_or j k d).
Proof. unfold value_or. locally. Qed.
#[local] Hint Resolve value_or_local : atomic.

(** C12: These requests are linearizable: while the other threads make any calls that
    hold the mutex of the store (every call but the three transaction commands), a
    request on the store that threads share is the same request run alone, from its
    beginning to its end, at one moment between the calls of the others; so is every
    call of the gRPC service but [SetConfig]. *)
Theorem requests_atomic req ns key note opr page size now :
  one_call req = true →
  alone (handleRequest json_parse json_dump req now)
    (handleRequest json_parse json_dump req now) ∧
  alone (ConfigGrpcService.GetConfig ns key) (ConfigGrpcService.GetConfig ns key) ∧
  alone (ConfigGrpcService.DeleteConfig ns key opr now)
    (ConfigGrpcService.DeleteConfig ns key opr now) ∧
  alone (ConfigGrpcService.PublishRelease ns note opr now)
    (ConfigGrpcService.PublishRelease ns note opr now) ∧
  alone (ConfigGrpcService.GetReleaseHistory ns page size)
    (ConfigGrpcService.GetReleaseHistory ns page size).
Proof.
  unfold one_call. rewrite !andb_true_iff, !negb_true_iff. intros [[[Ha Hn] Hl] Hk].
  split_and!; [|unfold ConfigGrpcService.GetConfig, ConfigGrpcService.DeleteConfig,
    ConfigGrpcService.PublishRelease, ConfigGrpcService.GetReleaseHistory; atomically..].
  unfold handleRequest. apply atomic_after; [|unfold sendResponse; locally].
  unfold route. rewrite Hl, Hn. repeat case_match;
    unfold ok_json, handleHealth, handleLogin, handleListApps, handleGetApp, handleDeleteApp,
      handleGetConfig, handleDeleteConfig, handlePublish, handleGetReleases, listApplications,
      NamespaceManager.getApplication, removeApplication; atomically.
  all: exfalso; rewrite ?bool_decide_eq_true, ?bool_decide_eq_false, ?andb_true_iff, ?andb_false_iff in *;
    naive_solver.
Qed.
End atomic_requests.

(** ** Invariants *)
#[export] Instance wf_store_stable fk P : Stable fk P (wf_store fk).
Proof. intros o st st' _. apply store_step_wf. Qed.

(** An entry of the history and an entry of the log are there. *)
Definition recorded (v : ConfigVersion) (l : ChangeLog) (st : Store) : Prop :=
  v ∈ s_vers (cur st) ∧ l ∈ s_logs (cur st).

(** The entries an edit of a key leaves. *)
Definition edit_entries (ns key value opr : string) (v : ConfigVersion) (e : ChangeLog) : Prop :=
  cv_config_id v = makeConfigId ns key ∧ cv_value v = value ∧ cv_operator_id v = opr ∧
  cl_namespace_id e = ns ∧ cl_key e = key ∧ cl_new_value e = value ∧ cl_operator_id e = opr ∧
  cl_version e = cv_version v.

(** An edit that was answered with [ok] is on record if it succeeded. *)
Definition edit_kept (ns key value opr : string) (ok : bool) (st : Store) : Prop :=
  ok = true → ∃ v e, recorded v e st ∧ edit_entries ns key value opr v e.

Lemma recorded_step fk v l o st st' :
  no_rollback o → store_step fk o st st' → recorded v l st → recorded v l st'.
Proof.
  intros Ho Hstep [Hv Hl]. destruct Hstep as [o s s' sv Hc _| | | | | |s s0|]; try done.
  apply content_step_extends in Hc as [[? Ev] [? El]]. split; cbn in *; [rewrite Ev|rewrite El]; set_solver.
Qed.

#[export] Instance edit_kept_stable fk ns key value opr ok :
  Stable fk no_rollback (edit_kept ns key value opr ok).
Proof.
  intros o st st' Ho Hstep Hk Hok. destruct (Hk Hok) as (v & e & Hr & He).
  eauto using recorded_step.
Qed.

Section interference.
Context {T : Type} `{!ConfigStore T} {O : Observed T Store} {fk : bool}
  `{Hspec : !ConfigStoreSpec T O fk}.

Lemma any_stable P : Stable fk P (λ _, True).
Proof. done. Qed.
#[local] Existing Instance any_stable.

(** An edit among the edits of others: when it succeeds the key holds the value as a
    draft, and the value is on record. *)
Lemma addDraftChange_shared {P} `{!Rely P} ns key value opr now (s : shared P T) :
  ready s →
  wp s (addDraftChange ns key value opr now) (λ o st', o = Undef ∨ ∃ ok, o = Ret ok ∧
    (ok = true → ∃ c v e, s_cfgs (cur st') !! (ns, key) = Some c ∧ ck_value c = value ∧
      ck_status c = "draft" ∧ ck_version c = cv_version v ∧
      recorded v e st' ∧ edit_entries ns key value opr v e)).
Proof.
  intros Hs. apply wp_bind, (wp_locked P (λ _, True)); [done|done|by left|]. intros t1 Ht1 _.
  eapply wp_mono; [by apply getConfig_spec|]. intros ? ? [-> _] s1 Hs1 _.
  destruct (_ ≫= _) as [x|]; apply (wp_locked P (λ _, True)); try done; try (by left); intros t Ht _.
  - eapply wp_mono; [by apply updateConfig_spec|]. unfold refines, spec_updateConfig. intros o st'.
    destruct (s_cfgs (cur (view t)) !! (ns, key)) as [c|]; [case_decide|].
    + intros [-> ->]. right. eexists. split; [done|]. intros _. eexists _,
        (update_version ns key value opr (getTimestamp now) (ck_version c + 1)),
        (update_log ns key (ck_value c) value opr (getTimestamp now) (ck_version c + 1)
          (s_next_log (cur (view t)))). cbn.
      rewrite lookup_insert_eq. unfold recorded, edit_entries. cbn. split_and!; done || set_solver.
    + intros ->. by left.
    + intros [-> ->]. right. by eexists.
  - eapply wp_mono; [by apply createConfig_spec|]. unfold refines, spec_createConfig. intros o st'.
    destruct (s_cfgs (cur (view t)) !! (ns, key)) as [c|]; intros [-> ->]; right; eexists; (split; [done|]); [done|].
    intros _. eexists _, (create_version ns key value opr (getTimestamp now)),
      (create_log ns key value opr (getTimestamp now) (s_next_log (cur (view t)))). cbn.
    rewrite lookup_insert_eq. unfold recorded, edit_entries. cbn. split_and!; done || set_solver.
Qed.

(** C31: A grayscale release undoes the work of the other threads: it begins a
    transaction on the connection all threads share, its publication is refused
    inside it, and its [ROLLBACK] restores the content at its [BEGIN], so that
    every write that another thread was told had succeeded in between is gone. *)
Theorem grayscale_undoes_others (dump_strings : list string → option string) ns note opr p wl out now
    before (during : list (list op)) (t : T) :
  ready t → saved (view t) = None → Forall (Forall plain) (before :: during) →
  wp (mkShared (rely := plain) t (before :: during))
    (publishGrayscale dump_strings ns note opr p wl out now)
    (λ o st', o = Undef ∨ o = Ret None ∧ st' = view (run_ops before t).2).
Proof.
  intros Ht Hsv [Hb Hd]%Forall_cons.
  pose proof (run_ops_ind plain (λ st', saved st' = None)
    ltac:(intros o st st' Ho Hst Hstep; by destruct Hstep) before t Hb Ht Hsv) as Hrun.
  apply wp_bind, (wp_locked_after plain); [|done|by left|].
  { eapply wp_mono; [exact Hrun|]. naive_solver. }
  intros Ht1 Er. apply wp_run in Hrun as [_ [Hu|[_ Hsv1]]]; [congruence|].
  set (t1 := (run_ops before t).2) in *. set (c0 := cur (view t1)).
  assert (Stable fk plain (λ st, saved st = Some c0)) as HI by
    (intros o st st' Ho Hstep Hst; by destruct Hstep).
  eapply wp_mono; [by apply beginTransaction_spec|]. unfold tx_begin. rewrite Hsv1.
  intros ? ? [-> ->] s2 Hs2 Hv2.
  apply wp_try, wp_bind, (wp_locked plain (λ st, saved st = Some c0)); [done|by rewrite Hv2|by left|].
  intros t3 Ht3 Hsv3. eapply wp_mono; [by apply publishRelease_spec|]. cbn. rewrite Hsv3.
  intros ? ? [-> ->] s4 Hs4 Hv4.
  apply wp_bind, (wp_locked plain (λ st, saved st = Some c0)); [done|by cbn; rewrite Hv4|by left|].
  intros t5 Ht5 Hsv5. eapply wp_mono; [by apply rollbackTransaction_spec|]. unfold tx_rollback.
  rewrite Hsv5. intros ? ? [-> ->] s6 Hs6 Hv6. apply wp_ret; [done|]. right. split; [done|].
  rewrite Hv6. unfold c0. destruct (view t1). cbn in *. by subst.
Qed.

(** C32: The answer to a creation is right when it is given, whatever other threads do
    between the two calls it makes.  For an application and for a namespace, [true]
    means that the row is there and is the caller's own, and for a namespace, where
    the database enforces foreign keys, that its application is there although it was
    looked up in an earlier call; [false] that a row is there, or that the
    application is not. *)
Theorem creation_answer app name descr env cluster type parent now (s : shared any_op T) :
  ready s →
  wp s (registerApplication app name descr now) (λ o st', o = Undef ∨
    o = Ret true ∧ s_apps (cur st') !! app = Some (mkApplication app name descr (getTimestamp now)) ∨
    o = Ret false ∧ is_Some (s_apps (cur st') !! app)) ∧
  wp s (NamespaceManager.createNamespace app env cluster name type parent now) (λ o st', o = Undef ∨
    o = Ret true ∧ (fk = true → is_Some (s_apps (cur st') !! app)) ∧
      s_nss (cur st') !! makeNamespaceId app env cluster name =
        Some (mkNamespace (makeNamespaceId app env cluster name) app env cluster name type parent
          (Some false) (getTimestamp now)) ∨
    o = Ret false ∧ (is_Some (s_nss (cur st') !! makeNamespaceId app env cluster name) ∨
      s_apps (cur st') !! app = None)).
Proof.
  intros Hs. split; apply wp_bind, (wp_locked any_op (λ _, True)); try done; try (by left); intros t Ht _;
    (eapply wp_mono; [by apply getApplication_spec|]); intros ? ? [-> (r & -> & ->)] s1 Hs1 Hv1;
    destruct (s_apps (cur (view t)) !! app) as [a|] eqn:Ea.
  - apply wp_ret; [done|]. right; right. split; [done|]. rewrite Hv1. eauto.
  - apply (wp_locked any_op (λ _, True)); [done|done|by left|]. intros t2 Ht2 _.
    eapply wp_mono; [by apply createApplication_spec|]. unfold refines, spec_createApplication. cbn.
    intros o st'. destruct (s_apps (cur (view t2)) !! app) as [a|] eqn:Ea2; intros [-> ->]; right.
    + right. split; [done|]. cbn. by rewrite Ea2.
    + left. cbn. by rewrite lookup_insert_eq.
  - apply (wp_locked any_op (λ _, True)); [done|done|by left|]. intros t2 Ht2 _.
    eapply wp_mono; [by apply createNamespace_spec|]. unfold refines, spec_createNamespace. cbn.
    intros o st'. case_decide as Hd; intros [-> ->]; right.
    + left. cbn. rewrite lookup_insert_eq. by destruct Hd.
    + right. split; [done|]. cbn in *. destruct (s_nss (cur (view t2)) !! _); [eauto|].
      destruct (s_apps (cur (view t2)) !! app); [|by right]. destruct Hd; eauto.
  - apply wp_ret; [done|]. right; right. split; [done|]. rewrite Hv1. by right.
Qed.
End interference.

Section concurrent.
Context {T : Type} `{!ConfigStore T} {O : Observed T Store} {fk : bool}
  `{Hspec : !ConfigStoreSpec T O fk}.
Context (json_parse : string → option json) (json_dump : json → option string).
Context (dump_strings : list string → option string) (sha256 : string → list Z).
Local Abbreviation serve := (serve json_parse json_dump dump_strings sha256).

(** C11: No interleaving of calls that hold the mutex breaks the invariant of the
    store: while a thread serves any sequence of requests and operations of the
    components except grayscale releases, and the other threads make any calls but
    the transaction commands between any two of its calls, the store is well-formed
    after each, unless a version overflows. *)
Theorem requests_keep_invariant (l : list service) (s : shared plain T) :
  ready s → wf_store fk (view s) → Forall no_health l → Forall uses_plain l →
  wp s (serve l) (λ o st', o = Undef ∨ wf_store fk st').
Proof.
  intros Hs Hwf Hl Hp. eapply wp_mono.
  - apply (serve_keeps plain (wf_store fk)); [done|exact Hl|by left|done..].
  - intros [[]| |] st' Hst'; [right; by apply Hst'|right; by apply Hst'|by left].
Qed.

(** What a thread and the others do to the content together is a sequence of
    operations again, so that it is covered by the moves another thread may see. *)
Lemma serve_guarantee (l : list service) (s : shared any_op T) :
  ready s → Forall no_health l →
  wp s (serve l) (λ o st', o = Undef ∨ rtc (λ st1 st2, ∃ o, store_step fk o st1 st2) (view s) st').
Proof.
  intros Hs Hl.
  assert (Stable fk any_op (rtc (λ st1 st2, ∃ o, store_step fk o st1 st2) (view s))) as HI.
  { intros o st st' _ Hstep Hst. eapply rtc_r; eauto. }
  eapply wp_mono; [apply (serve_keeps any_op _ (HK := shared_keeps _ _)); [done|exact Hl|by right|done|constructor]|].
  intros [[]| |] st' Hst'; [right; by apply Hst'|right; by apply Hst'|by left].
Qed.

(** C13: An edit that was acknowledged is never lost, whatever the other threads do
    during it and after it and whatever its thread does next, short of a [ROLLBACK]:
    when the edit returns [true], its value, with its operator, is in the version
    history and in the log from then on. *)
Theorem acknowledged_edit_kept ns key value opr now (l : list service) (s : shared no_rollback T) :
  ready s → Forall no_health l → Forall uses_plain l →
  wp s (ok ← addDraftChange ns key value opr now; _ ← serve l; mret ok)
    (λ o st', o = Undef ∨ ∃ ok, o = Ret ok ∧
      edit_kept ns key value opr ok st').
Proof.
  intros Hs Hh Hp. apply wp_bind. eapply wp_mono; [by apply addDraftChange_shared|].
  intros o st [->|(ok & -> & Hok)]; [by left|]. intros s1 Hs1 Hv1.
  apply (wp_keeps (edit_kept ns key value opr ok)); [|apply serve_no_throw|done| |by left|].
  - apply (serve_keeps no_rollback (edit_kept ns key value opr ok)); [by intros [] ?|done|by left].
  - rewrite Hv1. intros [c (v & e & ? & ? & ? & ? & ? & ?)]%Hok. by exists v, e.
  - intros _ s2 Hs2 Hk. apply wp_ret; [done|]. right. by exists ok.
Qed.

End concurrent.

(** ** Races, and witnesses

    The sample store shared with threads that make the given moves. *)
Definition among {P : op → Prop} (ms : list (list op)) : shared P mem := mkShared mem_sample ms.
#[local] Existing Instance mem_store.
#[local] Existing Instance mem_observed.

(** The row of a key at the end of a run. *)
Definition row_after {P : op → Prop} {A : Type} (r : outcome A * shared P mem) (key : string) :=
  (λ c, (ck_value c, ck_status c)) <$> s_cfgs (cur (view r.2)) !! (main_id, key).

(** A PUT of a key that another thread creates and publishes in the meantime is
    answered with 200, and its value is nowhere: alone, before or after the other
    thread, it would have made or changed the draft. *)
Example put_lost_in_race :
  let put_n := handleRequest sample_parse sample_dump
    (mkRequest put (keys_target main_id "n") (member_text "value" "v3")) 9 in
  let theirs := [OpCreateConfig main_id "n" "theirs" "bob" 5; OpPublishRelease main_id "" "bob" 6] in
  let r := put_n (among (P := any_op) [[]; theirs]) in
  r.1 = Ret (200, "{}") ∧ row_after r "n" = Some ("theirs", "live") ∧
  row_after (put_n (among (P := any_op) [theirs])) "n" = Some ("v3", "draft").
Proof. vm_compute. auto. Qed.

(** Two rollouts of one release at the same time both succeed, and leave two releases
    in its place; one after the other, the second is refused. *)
Example rollout_twice_in_race :
  let rollout := fullRollout main_id "op" 1 9 in
  let theirs := [OpRetireRelease 1; OpCreateRelease (rollout_release main_id "bob" 1) 8] in
  let actives (r : outcome bool * shared any_op mem) :=
    length (filter (λ x, rel_status x = "active") (map_to_list (s_rels (cur (view r.2)))).*2) in
  (rollout (among [[]; theirs])).1 = Ret true ∧ actives (rollout (among [[]; theirs])) = 2%nat ∧
  (rollout (among [theirs])).1 = Ret false ∧ actives (rollout (among [theirs])) = 1%nat.
Proof. vm_compute. auto. Qed.

(** A rollback of a key while another thread edits it: the version is looked up in one
    call and written in another. *)
Example rollback_over_edit :
  let r := rollbackConfig main_id "k" 1 "carol" 9
    (among (P := any_op) [[]; [OpUpdateConfig main_id "k" "v9" "bob" true 8]]) in
  r.1 = Ret true ∧ row_after r "k" = Some ("v1", "draft") ∧
  (cv_value <$> s_vers (cur (view r.2))) = ["v1"; "v2"; "v9"; "v1"].
Proof. vm_compute. auto. Qed.

Lemma requests_keep_invariant_witness :
  let s : shared plain mem := among [[]; sample_ops; [OpDeleteNamespace main_id]] in
  wp s (serve sample_parse sample_dump (λ _, Some "[]") (λ _, [])
    [Http (mkRequest put (keys_target main_id "k") (member_text "value" "v3")) 9;
     GrpcPublishRelease main_id "n" "op" 10; FullRollout main_id "op" 1 11])
    (λ o st', o = Undef ∨ wf_store true st').
Proof.
  intros s. apply (@requests_keep_invariant _ mem_store mem_observed true mem_store_spec);
    [split; [apply mem_sample_healthy|by repeat constructor]|apply mem_sample_wf|by repeat constructor..].
Defined.

Lemma acknowledged_edit_kept_witness :
  let s : shared no_rollback mem := among [[]; [OpUpdateConfig main_id "k" "v9" "bob" true 8]; sample_ops] in
  (addDraftChange main_id "k" "v3" "alice" 9 s).1 = Ret true ∧
  wp s (ok ← addDraftChange main_id "k" "v3" "alice" 9;
        _ ← serve sample_parse sample_dump (λ _, Some "[]") (λ _, []) [Publish main_id "n" "op" 10]; mret ok)
    (λ o st', o = Undef ∨ ∃ ok, o = Ret ok ∧ edit_kept main_id "k" "v3" "alice" ok st').
Proof.
  intros s. split; [vm_compute; reflexivity|].
  apply (@acknowledged_edit_kept _ mem_store mem_observed true mem_store_spec);
    [split; [apply mem_sample_healthy|by repeat constructor]|by repeat constructor..].
Defined.

(** The others publish a key while the grayscale release holds its transaction. *)
Lemma grayscale_undoes_others_witness :
  let theirs := [OpCreateConfig main_id "n" "v1" "bob" 5] in
  let s : shared plain mem := mkShared mem_sample [[]; theirs] in
  row_after (publishGrayscale (λ _, Some "[]") main_id "n" "op" 30 [] empty_release 9 s) "n" = None ∧
  wp s (publishGrayscale (λ _, Some "[]") main_id "n" "op" 30 [] empty_release 9)
    (λ o st', o = Undef ∨ o = Ret None ∧ st' = view (run_ops [] mem_sample).2).
Proof.
  intros theirs s. split; [vm_compute; reflexivity|].
  apply (@grayscale_undoes_others _ mem_store mem_observed true mem_store_spec);
    [apply mem_sample_healthy|vm_compute; reflexivity|by repeat constructor].
Defined.

Lemma requests_atomic_witness :
  let req := mkRequest post (publish_target main_id) (member_text "release_note" "n") in
  one_call req = true ∧
  atomic (P := plain) (T := mem) (handleRequest sample_parse sample_dump req 9)
    (handleRequest sample_parse sample_dump req 9).
Proof.
  intros req. split; [vm_compute; reflexivity|].
  apply (requests_atomic sample_parse sample_dump req "" "" "" "" 0 0 9). vm_compute. reflexivity.
Defined.

Lemma creation_answer_witness :
  let s : shared any_op mem := among [[]; [OpCreateApplication (mkApplication "new" "theirs" None "t")]] in
  (registerApplication "new" "mine" None 9 s).1 = Ret false ∧
  wp s (registerApplication "new" "mine" None 9) (λ o st', o = Undef ∨
    o = Ret true ∧ s_apps (cur st') !! "new" = Some (mkApplication "new" "mine" None (getTimestamp 9)) ∨
    o = Ret false ∧ is_Some (s_apps (cur st') !! "new")).
Proof.
  intros s. split; [vm_compute; reflexivity|].
  apply (@creation_answer _ mem_store mem_observed true mem_store_spec "new" "mine" None "" "" "" None 9 s).
  apply (conj mem_sample_healthy). by repeat constructor.
Defined.
