(* ===== verification/Scripts.v ===== *)
(** * Handlers between their calls of the store

    On a pool of worker threads the handler of one request stops at every call of the
    store until it gets the mutex, and the handlers of other requests go on meanwhile.
    [script] is a store that shows where: it holds the answers a handler has had so
    far, and when they are used up it stops the handler and keeps the call it makes
    next.  The handlers are the ones of [HttpSession], run on a script from their
    beginning each time; [next] is the call a handler makes after some answers, or how
    it ends.

    [follows] says that a handler on a store is its script played on that store, with
    at most the given number of calls; [handleRequest_follows] shows it of every
    request. *)
From S2P Require Import Prelude Timestamp DataTypes SqliteOrm MemOrm ConfigStore SqliteConfigStore StoreOps StoreInvariants StoreTheorems History NamespaceManager PublishEngine Strings Json Api HttpServer HttpTheorems GrpcService Concurrency ConcurrencyTheorems.
Import HttpSession.

(** ** Calls and answers

    The calls the handlers of the HTTP server make. *)
Module Script.
Inductive call :=
  | HealthCheck
  | CreateApplication (app : Application)
  | GetApplication (i : string)
  | ListApplications
  | DeleteApplication (i : string)
  | CreateNamespace (ns : Namespace)
  | ListNamespaces (app env cluster : string)
  | CreateConfig (ns key value operator : string) (now : Z)
  | UpdateConfig (ns key value operator : string) (draft : bool) (now : Z)
  | DeleteConfig (ns key operator : string) (draft : bool) (now : Z)
  | GetConfig (ns key : string) (include_draft : bool)
  | GetReleases (q : ReleaseQuery)
  | PublishRelease (ns note operator : string) (out : Release) (now : Z).

Inductive answer :=
  | Flag (b : bool)
  | AnApplication (o : option Application)
  | Applications (l : list Application)
  | Namespaces (l : list Namespace)
  | AConfig (o : option ConfigKey)
  | Releases (l : list Release)
  | Published (r : bool * Release).

Definition as_flag (a : answer) := match a with Flag b => Some b | _ => None end.
Definition as_application (a : answer) := match a with AnApplication o => Some o | _ => None end.
Definition as_applications (a : answer) := match a with Applications l => Some l | _ => None end.
Definition as_namespaces (a : answer) := match a with Namespaces l => Some l | _ => None end.
Definition as_config (a : answer) := match a with AConfig o => Some o | _ => None end.
Definition as_releases (a : answer) := match a with Releases l => Some l | _ => None end.
Definition as_published (a : answer) := match a with Published r => Some r | _ => None end.

(** A call on a store *)
Definition perform {T : Type} `{!ConfigStore T} (c : call) : M T answer :=
  match c with
  | HealthCheck => b ← healthCheck; mret (Flag b)
  | CreateApplication app => b ← createApplication app; mret (Flag b)
  | GetApplication i => o ← getApplication i; mret (AnApplication o)
  | ListApplications => l ← listApplications; mret (Applications l)
  | DeleteApplication i => b ← deleteApplication i; mret (Flag b)
  | CreateNamespace ns => b ← createNamespace ns; mret (Flag b)
  | ListNamespaces app env cl => l ← listNamespaces app env cl; mret (Namespaces l)
  | CreateConfig ns key v opr now => b ← createConfig ns key v opr now; mret (Flag b)
  | UpdateConfig ns key v opr d now => b ← updateConfig ns key v opr d now; mret (Flag b)
  | DeleteConfig ns key opr d now => b ← deleteConfig ns key opr d now; mret (Flag b)
  | GetConfig ns key i => o ← getConfig ns key i; mret (AConfig o)
  | GetReleases q => l ← getReleases q; mret (Releases l)
  | PublishRelease ns note opr out now => r ← publishRelease ns note opr out now; mret (Published r)
  end.

(** ** The store that replays answers *)
Record script := mkScript {
  given : list (outcome answer);
  asked : option call;
}.

(** What a handler makes of the outcome of its call *)
Definition read_as {A : Type} (decode : answer → option A) (o : outcome answer) : outcome A :=
  match o with
  | Ret a => match decode a with Some x => Ret x | None => Undef end
  | Throw => Throw
  | Undef => Undef
  end.

(** The next answer; without one the handler stops at the call. *)
Definition ask {A : Type} (decode : answer → option A) (c : call) : M script A := λ s,
  match given s with
  | [] => (Undef, mkScript [] (Some c))
  | o :: g => (read_as decode o, mkScript g (asked s))
  end.

(** The methods no handler of the HTTP server calls have no script. *)
#[export] Instance script_store : ConfigStore script := {|
  healthCheck := ask as_flag HealthCheck;
  createApplication app := ask as_flag (CreateApplication app);
  getApplication i := ask as_application (GetApplication i);
  listApplications := ask as_applications ListApplications;
  deleteApplication i := ask as_flag (DeleteApplication i);
  createNamespace ns := ask as_flag (CreateNamespace ns);
  getNamespace _ := undef;
  listNamespaces app env cl := ask as_namespaces (ListNamespaces app env cl);
  deleteNamespace _ := undef;
  createConfig ns key v opr now := ask as_flag (CreateConfig ns key v opr now);
  updateConfig ns key v opr d now := ask as_flag (UpdateConfig ns key v opr d now);
  deleteConfig ns key opr d now := ask as_flag (DeleteConfig ns key opr d now);
  getConfig ns key i := ask as_config (GetConfig ns key i);
  listConfigs _ _ := undef;
  getConfigVersions _ _ := undef;
  getConfigVersion _ _ _ := undef;
  rollbackConfig _ _ _ _ _ := undef;
  getChangeHistory _ := undef;
  createRelease _ _ := undef;
  getReleases q := ask as_releases (GetReleases q);
  getRelease _ := undef;
  retireRelease _ := undef;
  publishRelease ns note opr out now := ask as_published (PublishRelease ns note opr out now);
  createApproval _ _ := undef;
  updateApprovalStatus _ _ _ _ := undef;
  getPendingApprovals _ := undef;
  createUser _ := undef;
  getUserByUsername _ := undef;
  listUsers := undef;
  beginTransaction := undef;
  commitTransaction := undef;
  rollbackTransaction := undef;
|}.

(** How a computation goes on after the answers [g]. *)
Inductive event (A : Type) :=
  | Asks (c : call)
  | Ends (o : outcome A).
Arguments Asks {A} _.
Arguments Ends {A} _.

Definition event_of {A : Type} (m : M script A) (g : list (outcome answer)) : event A :=
  let '(o, s) := m (mkScript g None) in
  match asked s with Some c => Asks c | None => Ends o end.
End Script.
Import Script.

(** ** Playing a script *)
Section plays.
Context {T : Type} `{!ConfigStore T} {A : Type}.

(** After the answers [pre], the computation makes the calls whose answers are [g], one
    after the other with nothing between them, and the store goes from [t] to [t']. *)
Fixpoint plays (m : M script A) (pre g : list (outcome answer)) (t t' : T) : Prop :=
  match g with
  | [] => t' = t
  | a :: g => ∃ c t1, event_of m pre = Asks c ∧ perform c t = (a, t1) ∧ plays m (pre ++ [a]) g t1 t'
  end.

Lemma plays_snoc (m : M script A) pre g a c t t1 t2 :
  plays m pre g t t1 → event_of m (pre ++ g) = Asks c → perform c t1 = (a, t2) →
  plays m pre (g ++ [a]) t t2.
Proof.
  revert pre t. induction g as [|b g IH]; intros pre t; cbn.
  - intros -> Hc Hp. rewrite app_nil_r in Hc. eauto.
  - intros (c' & t' & Hc' & Hp' & Hg) Hc Hp. eexists _, _. split_and!; [done..|].
    apply IH; [done| |done]. by rewrite <- (assoc_L (++)).
Qed.

(** [m] on the store is [m'] played on it, with at most [n] calls. *)
Inductive follows : nat → M T A → M script A → Prop :=
  | follows_done n (m : M T A) (m' : M script A) o :
      (∀ t, m t = (o, t)) → (∀ s, m' s = (o, s)) → follows n m m'
  | follows_asks n (m : M T A) (m' : M script A) c (k : outcome answer → M T A) k' :
      (∀ t, m t = k (perform c t).1 (perform c t).2) →
      m' (mkScript [] None) = (Undef, mkScript [] (Some c)) →
      (∀ a g, m' (mkScript (a :: g) None) = k' a (mkScript g None)) →
      (∀ a, follows n (k a) (k' a)) →
      follows (S n) m m'.

(** A computation that ran to its end with nothing between its calls is the computation
    run on the store. *)
Lemma follows_plays_after n (m : M T A) (m' : M script A) : follows n m m' →
  ∀ (whole : M script A) pre g t t' o,
  (∀ g, whole (mkScript (pre ++ g) None) = m' (mkScript g None)) →
  plays whole pre g t t' → event_of whole (pre ++ g) = Ends o → m t = (o, t').
Proof.
  induction 1 as [n m m' x Hm Hm'|n m m' c k k' Hm Hc Hk Hf IH]; intros whole pre g t t' o Hw Hg He.
  - rewrite Hm. destruct g as [|a g]; cbn in Hg.
    + unfold event_of in He. rewrite Hw, Hm' in He. cbn in He. congruence.
    + destruct Hg as (c & t1 & Hc & _). unfold event_of in Hc. rewrite <- (app_nil_r pre), Hw, Hm' in Hc. done.
  - destruct g as [|a g]; cbn in Hg.
    + unfold event_of in He. rewrite Hw, Hc in He. done.
    + destruct Hg as (c' & t1 & Hc' & Hp & Hg). unfold event_of in Hc'.
      rewrite <- (app_nil_r pre), Hw, Hc in Hc'. cbn in Hc'. injection Hc' as <-. rewrite Hm, Hp. cbn.
      apply (IH a whole (pre ++ [a]) g); [|done|by rewrite <- (assoc_L (++))].
      intros g'. rewrite <- (assoc_L (++)), Hw. apply Hk.
Qed.
Lemma follows_plays n (m : M T A) m' g t t' o :
  follows n m m' → plays m' [] g t t' → event_of m' g = Ends o → m t = (o, t').
Proof. intros Hf. by apply (follows_plays_after n m m' Hf). Qed.

(** And the computation run on the store is such a run. *)
Lemma follows_total n (m : M T A) m' t : follows n m m' →
  ∃ g, plays m' [] g t (m t).2 ∧ event_of m' g = Ends (m t).1.
Proof.
  intros Hf. enough (∀ (whole : M script A) pre,
    (∀ g, whole (mkScript (pre ++ g) None) = m' (mkScript g None)) →
    ∃ g, plays whole pre g t (m t).2 ∧ event_of whole (pre ++ g) = Ends (m t).1) as H by by apply (H m' []).
  revert t. induction Hf as [n m m' x Hm Hm'|n m m' c k k' Hm Hc Hk Hf IH]; intros t whole pre Hw.
  - exists []. unfold event_of. by rewrite Hm, Hw, Hm'.
  - destruct (perform c t) as [a t1] eqn:Hp.
    destruct (IH a t1 whole (pre ++ [a])) as (g & Hg & He).
    { intros g. rewrite <- (assoc_L (++)), Hw. apply Hk. }
    rewrite Hm, Hp. exists (a :: g). rewrite <- (assoc_L (++)) in He. split; [|done].
    exists c, t1. split; [|done]. unfold event_of. by rewrite <- (app_nil_r pre), Hw, Hc.
Qed.

(** It makes no more calls than it may. *)
Lemma follows_bound n (m : M T A) m' g c :
  follows n m m' → (n ≤ length g)%nat → event_of m' g ≠ Asks c.
Proof.
  intros Hf. revert g. unfold event_of.
  induction Hf as [n m m' x Hm Hm'|n m m' c' k k' Hm Hc Hk Hf IH]; intros g Hg; [by rewrite Hm'|].
  destruct g as [|a g]; cbn in Hg; [lia|]. rewrite Hk. apply IH. lia.
Qed.

Lemma follows_ext n (m1 m2 : M T A) (m1' m2' : M script A) :
  (∀ t, m1 t = m2 t) → (∀ s, m1' s = m2' s) → follows n m1 m1' → follows n m2 m2'.
Proof.
  intros Hm Hm' Hf. destruct Hf as [n m m' x H H'|n m m' c k k' H Hc Hk Hf].
  - eapply follows_done; intros; rewrite <- ?Hm, <- ?Hm'; auto.
  - eapply follows_asks; [intros; by rewrite <- Hm|by rewrite <- Hm'|intros; by rewrite <- Hm'|done].
Qed.

Lemma follows_weaken n p m m' : follows n m m' → (n ≤ p)%nat → follows p m m'.
Proof.
  intros Hf. revert p. induction Hf as [n m m' x H H'|n m m' c k k' H Hc Hk Hf IH]; intros p Hp.
  - by eapply follows_done.
  - destruct p as [|p]; [lia|]. eapply follows_asks; [done..|]. intros a. apply IH. lia.
Qed.

Lemma follows_ret n (a : A) : follows n (mret a) (mret a).
Proof. by apply follows_done with (Ret a). Qed.
Lemma follows_throw n : follows n throw throw.
Proof. by apply follows_done with Throw. Qed.
Lemma follows_undef n : follows n undef undef.
Proof. by apply follows_done with Undef. Qed.

(** A call, with its encoding as an answer *)
Lemma follows_ask n (m : M T A) c (encode : A → answer) decode :
  (∀ t, perform c t = (x ← m; mret (encode x)) t) → (∀ x, decode (encode x) = Some x) →
  follows (S n) m (ask decode c).
Proof.
  intros Hc Hd. eapply (follows_asks _ _ _ c (λ o t, (read_as decode o, t)) (λ o s, (read_as decode o, s)));
    [|done|done|intros a; by eapply follows_done].
  intros t. rewrite Hc. unfold mbind, M_bind. destruct (m t) as [[x| |] t']; cbn; [by rewrite Hd|done..].
Qed.
End plays.

Lemma follows_bind {T A B : Type} `{!ConfigStore T} n p (m : M T A) m' (k : A → M T B) k' :
  follows n m m' → (∀ a, follows p (k a) (k' a)) → follows (n + p) (m ≫= k) (m' ≫= k').
Proof.
  intros Hf Hk. induction Hf as [n m m' o Hm Hm'|n m m' c q q' Hm Hc Hq Hf IH].
  - destruct o as [a| |].
    + eapply follows_ext, (follows_weaken p); [| |apply (Hk a)|lia];
        intros; unfold mbind, M_bind; by rewrite ?Hm, ?Hm'.
    + apply follows_done with Throw; intros; unfold mbind, M_bind; by rewrite ?Hm, ?Hm'.
    + apply follows_done with Undef; intros; unfold mbind, M_bind; by rewrite ?Hm, ?Hm'.
  - cbn. eapply (follows_asks _ _ _ c (λ a, q a ≫= k) (λ a, q' a ≫= k')).
    + intros t. unfold mbind, M_bind. by rewrite Hm.
    + unfold mbind, M_bind. by rewrite Hc.
    + intros a g. unfold mbind, M_bind. by rewrite Hq.
    + intros a. apply IH.
Qed.

(** ** The scripts of the handlers *)
Section rules.
Context {T : Type} `{!ConfigStore T} {A B : Type}.
Lemma follows_before n (m : M T A) m' (k : A → M T B) k' :
  follows 0 m m' → (∀ a, follows n (k a) (k' a)) → follows n (m ≫= k) (m' ≫= k').
Proof. apply (follows_bind 0). Qed.
Lemma follows_after n (m : M T A) m' (k : A → M T B) k' :
  follows n m m' → (∀ a, follows 0 (k a) (k' a)) → follows n (m ≫= k) (m' ≫= k').
Proof. intros Hm Hk. rewrite <- (Nat.add_0_r n). by apply follows_bind. Qed.
Lemma follows_call n (m : M T A) m' (k : A → M T B) k' :
  follows 1 m m' → (∀ a, follows n (k a) (k' a)) → follows (S n) (m ≫= k) (m' ≫= k').
Proof. apply (follows_bind 1). Qed.
End rules.

Create HintDb script.
#[export] Hint Resolve follows_ret follows_throw follows_undef : script.

(** A computation that makes no call, and one whose calls are at its leaves. *)
Ltac local_script :=
  repeat first
    [ match goal with |- ∀ _, _ => intros ? end
    | match goal with |- follows _ (match ?x with _ => _ end) _ => destruct x end
    | solve [eauto with script] | apply follows_before ].
Ltac scripting :=
  repeat first
    [ match goal with |- ∀ _, _ => intros ? end
    | match goal with |- follows _ (match ?x with _ => _ end) _ => destruct x end
    | solve [eauto with script]
    | apply follows_before; [solve [local_script]|]
    | apply follows_call; [solve [eauto with script]|]
    | apply follows_after; [|solve [local_script]] ].

Section handlers.
Context {T : Type} `{!ConfigStore T}.
Context (json_parse : string → option json) (json_dump : json → option string).
Local Abbreviation scripted n m := (follows (T := T) n m m).

Lemma json_at_script n j k : scripted n (json_at j k).
Proof. unfold json_at. local_script. Qed.
Lemma to_string_script n j : scripted n (to_string j).
Proof. unfold to_string. local_script. Qed.
#[local] Hint Resolve json_at_script to_string_script : script.
Lemma string_at_script n j k : scripted n (string_at j k).
Proof. unfold string_at. local_script. Qed.
Lemma value_or_script n j k d : scripted n (value_or j k d).
Proof. unfold value_or. local_script. Qed.
#[local] Hint Resolve string_at_script value_or_script : script.
Lemma optional_at_script n j k : scripted n (optional_at j k).
Proof. unfold optional_at. local_script. Qed.
Lemma parse_body_script n b : scripted n (parse_body json_parse b).
Proof. unfold parse_body. local_script. Qed.
#[local] Hint Resolve optional_at_script parse_body_script : script.

Lemma healthCheck_script n : scripted (S n) healthCheck.
Proof. by apply (follows_ask _ _ _ Flag). Qed.
Lemma createApplication_script n app : scripted (S n) (createApplication app).
Proof. by apply (follows_ask _ _ _ Flag). Qed.
Lemma getApplication_script n i : scripted (S n) (getApplication i).
Proof. by apply (follows_ask _ _ _ AnApplication). Qed.
Lemma listApplications_script n : scripted (S n) listApplications.
Proof. by apply (follows_ask _ _ _ Applications). Qed.
Lemma deleteApplication_script n i : scripted (S n) (deleteApplication i).
Proof. by apply (follows_ask _ _ _ Flag). Qed.
Lemma createNamespace_script n ns : scripted (S n) (createNamespace ns).
Proof. by apply (follows_ask _ _ _ Flag). Qed.
Lemma listNamespaces_script n app env cl : scripted (S n) (listNamespaces app env cl).
Proof. by apply (follows_ask _ _ _ Namespaces). Qed.
Lemma createConfig_script n ns key v opr now : scripted (S n) (createConfig ns key v opr now).
Proof. by apply (follows_ask _ _ _ Flag). Qed.
Lemma updateConfig_script n ns key v opr d now : scripted (S n) (updateConfig ns key v opr d now).
Proof. by apply (follows_ask _ _ _ Flag). Qed.
Lemma deleteConfig_script n ns key opr d now : scripted (S n) (deleteConfig ns key opr d now).
Proof. by apply (follows_ask _ _ _ Flag). Qed.
Lemma getConfig_script n ns key i : scripted (S n) (getConfig ns key i).
Proof. by apply (follows_ask _ _ _ AConfig). Qed.
Lemma getReleases_script n q : scripted (S n) (getReleases q).
Proof. by apply (follows_ask _ _ _ Releases). Qed.
Lemma publishRelease_script n ns note opr out now : scripted (S n) (publishRelease ns note opr out now).
Proof. by apply (follows_ask _ _ _ Published). Qed.
#[local] Hint Resolve healthCheck_script createApplication_script getApplication_script
  listApplications_script deleteApplication_script createNamespace_script listNamespaces_script
  createConfig_script updateConfig_script deleteConfig_script getConfig_script getReleases_script
  publishRelease_script : script.

(** Every request is answered after two calls at most, those of [one_call] after one. *)
Lemma handleRequest_script req now :
  scripted (if one_call req then 1 else 2) (handleRequest json_parse json_dump req now).
Proof.
  unfold handleRequest. apply follows_after; [|unfold sendResponse; local_script].
  assert (∀ n m m', follows (T := T) (A := Z * json) 1 m m' → follows (S n) m m') as Hmore
    by (intros n m m' H; eapply follows_weaken; [done|lia]).
  unfold route, ok_json, handleHealth, handleLogin, handleCreateApp, handleListApps, handleGetApp,
    handleDeleteApp, handleListNamespaces, handleCreateNamespace, handleGetConfig, handleSetConfig,
    handleDeleteConfig, handlePublish, handleGetReleases, NamespaceManager.listApplications,
    NamespaceManager.getApplication, NamespaceManager.removeApplication,
    NamespaceManager.registerApplication, NamespaceManager.createNamespace.
  destruct (one_call req) eqn:Hone; [|repeat case_match; scripting].
  unfold one_call in Hone. rewrite !andb_true_iff, !negb_true_iff in Hone.
  destruct Hone as [[[Ha Hn] Hl] Hk]. rewrite Hl, Hn. repeat case_match; try (clear Ha Hn Hl Hk; by scripting).
  all: exfalso; rewrite ?bool_decide_eq_true, ?bool_decide_eq_false, ?andb_true_iff, ?andb_false_iff in *;
    naive_solver.
Qed.

(** The next call of a request after the answers [g], or its end. *)
Definition next (req : request) (now : Z) (g : list (outcome answer)) : event (Z * string) :=
  event_of (handleRequest json_parse json_dump req now) g.

(** The calls of a request with nothing between them are the request run on the store. *)
Lemma next_ends req now g (t t' : T) o :
  plays (handleRequest json_parse json_dump req now) [] g t t' → next req now g = Ends o →
  handleRequest json_parse json_dump req now t = (o, t').
Proof. intros Hp Hn. eapply follows_plays; [apply handleRequest_script|done|done]. Qed.
Lemma next_total req now (t : T) :
  ∃ g, plays (handleRequest json_parse json_dump req now) [] g t (handleRequest json_parse json_dump req now t).2 ∧
    next req now g = Ends (handleRequest json_parse json_dump req now t).1.
Proof. eapply follows_total. apply handleRequest_script. Qed.
Lemma next_bound req now g c :
  next req now g = Asks c → (length g < if one_call req then 1 else 2)%nat.
Proof.
  intros Hn. apply Nat.nle_gt. intros Hg. by eapply follows_bound; [apply handleRequest_script|exact Hg|].
Qed.
End handlers.
