(* ===== verification/TransactionRaces.v ===== *)
(** * Transaction commands between statements

    [beginTransaction], [commitTransaction] and [rollbackTransaction] of the SQLite
    store do not take the mutex, so those of one thread may fall between the
    statements of a method that another thread runs under it, on the one connection
    they share.  [racing_orm] is the storage as the statements of that method see it:
    [between] says which commands other threads run before each of them.  The
    methods of [Sqlite] run on it unchanged, with what becomes of their promises. *)
From S2P Require Import Prelude Timestamp DataTypes SqliteOrm MemOrm ConfigStore SqliteConfigStore StoreOps StoreInvariants StoreTheorems.

Inductive command := Begin | Commit | Rollback.

Section racing.
Context {O : SqliteOrm}.

Record racing := mkRacing {
  base : conn;
  between : list (list command);
}.

Definition run_command (x : command) : M conn () :=
  match x with Begin => orm_begin_transaction | Commit => orm_commit | Rollback => orm_rollback end.

(** A refused command is the other thread's affair. *)
Fixpoint run_commands (l : list command) : M conn () :=
  match l with
  | [] => mret ()
  | x :: l => _ ← try_catch (run_command x) (mret ()); run_commands l
  end.

(** A statement, after the commands of the others. *)
Definition after_others {A : Type} (m : M conn A) : M racing A := λ r,
  let l := match between r with l :: _ => l | [] => [] end in
  let '(_, c) := run_commands l (base r) in
  let '(o, c) := m c in
  (o, mkRacing c (tail (between r))).

Instance racing_orm : SqliteOrm := {|
  SqliteOrm.conn := racing;
  db_of r := db_of (base r);
  tx_of r := tx_of (base r);
  healthy r := healthy (base r);
  fk_enabled := fk_enabled;
  writes_keys := writes_keys;
  orm_insert R _ x := after_others (orm_insert x);
  orm_get_all R _ P _ := after_others (orm_get_all P);
  orm_get_all_by R _ P _ le _ lim := after_others (orm_get_all_by P le lim);
  orm_update k := after_others (orm_update k);
  orm_update_all R _ f P _ := after_others (orm_update_all f P);
  orm_remove_all R _ P _ := after_others (orm_remove_all P);
  orm_begin_transaction := after_others orm_begin_transaction;
  orm_commit := after_others orm_commit;
  orm_rollback := after_others orm_rollback;
  orm_get_allocator := after_others orm_get_allocator;
|}.
End racing.

(** ** What becomes of the methods *)
Definition racing_mem : SqliteOrm := @racing_orm (mem_orm true).
Definition racing_sample (l : list (list command)) : @racing (mem_orm true) :=
  @mkRacing (mem_orm true) mem_sample l.
Definition database_of (r : @racing (mem_orm true)) : database := m_db (@base (mem_orm true) r).
Definition main_ns : string := "app/dev/default/main".

(** What is left of a key: its value, its version records and its log entries. *)
Definition traces (key : string) (d : database) : option string * nat * nat :=
  (ck_value <$> head (filter (λ c, ck_pk c = (main_ns, key)) (configs d)),
   length (filter (λ v, cv_config_id v = makeConfigId main_ns key) (config_versions d)),
   length (filter (λ l, cl_key l = key) (change_logs d))).

(** A creation during which another thread begins and rolls back a transaction
    succeeds and leaves the records of a key that is not there; alone it leaves the
    row and one record of each kind. *)
Example create_half_undone :
  let create l := @Sqlite.createConfig racing_mem main_ns "n" "v" "op" 9 (racing_sample l) in
  let left l := ((create l).1, traces "n" (database_of (create l).2)) in
  left [] = (Ret true, (Some "v", 1%nat, 1%nat)) ∧
  left [[Begin]; [Rollback]] = (Ret true, (None, 1%nat, 1%nat)).
Proof. vm_compute. auto. Qed.

(** A publication whose transaction another thread rolls back, before it begins one of
    its own, succeeds: there is a new release, and the draft it should have published
    is still a draft. *)
Example publish_half_undone :
  let publish l :=
    let '(_, r) := @Sqlite.updateConfig racing_mem main_ns "k" "v3" "op" true 9 (racing_sample []) in
    @Sqlite.publishRelease racing_mem main_ns "n" "op" empty_release 10
      (@mkRacing (mem_orm true) (@base (mem_orm true) r) l) in
  let left l :=
    let d := database_of (publish l).2 in
    ((x ← (publish l).1; Ret x.1), ck_status <$> configs d, length (releases d)) in
  left [] = (Ret true, ["live"], 2%nat) ∧
  left [[]; []; []; [Rollback; Begin]] = (Ret true, ["draft"], 2%nat).
Proof. vm_compute. auto. Qed.
