(* ===== verification/SqliteFaults.v ===== *)
(** * The server when statements fail

    [SqliteAtomic] says what a publication and a creation leave when statements
    fail.  Here nothing is assumed of the health of the connection: any statement of
    any request may fail, and a failure inside a transaction may roll it back.  [sound]
    is what every method keeps then, so that by the interface [StoreKeeps] every
    component and every interleaving of calls that hold the mutex keeps it; and [put_under_faults]
    follows an edit over HTTP to what its client is told. *)
From S2P Require Import Prelude Timestamp DataTypes SqliteOrm MemOrm ConfigStore SqliteConfigStore SqliteAtomic StoreOps StoreInvariants StoreTheorems History NamespaceManager PublishEngine Auth Strings Json Api HttpServer HttpTheorems GrpcService Concurrency ConcurrencyTheorems.
Import PublishEngine.PublishEngine HttpSession.

(** ** What failing statements cannot break *)

(** The entry of the log has its version record. *)
Definition has_version (vers : list ConfigVersion) (l : ChangeLog) : Prop :=
  cl_operation l ≠ "delete" →
  Exists (λ v, cv_config_id v = cl_config_id l ∧ cv_version v = cl_version l ∧
    cv_value v = cl_new_value l) vers.

(** The history and the log start with [vers0] and [logs0], and the log tells of no
    value that the history does not have. *)
Record audited (vers0 : list ConfigVersion) (logs0 : list ChangeLog) (d : database) : Prop := {
  au_vers : vers0 `prefix_of` config_versions d;
  au_logs : logs0 `prefix_of` change_logs d;
  au_recorded : Forall (has_version (config_versions d)) (change_logs d);
}.

Lemma has_version_mono vers vers' l : vers ⊆ vers' → has_version vers l → has_version vers' l.
Proof. unfold has_version. rewrite !Exists_exists. intros Hv Hl Hop. destruct (Hl Hop) as (v & ? & ?). eauto. Qed.

Section sound.
Context `{!SqliteOrm, !SqliteOrmLaws _}.
Context (vers0 : list ConfigVersion) (logs0 : list ChangeLog).
Local Abbreviation audited := (audited vers0 logs0).

(** The schema's constraints and the audit trail, now and at [BEGIN]. *)
Definition intact (d : database) : Prop := valid fk_enabled d ∧ audited d.
Definition sound (c : conn) : Prop := intact (db_of c) ∧ ∀ d, tx_of c = Some d → intact d.

#[export] Instance fault_observed : Observed conn Store := {|
  view c := abs_view (db_of c, tx_of c);
  ready := sound;
|}.
Local Abbreviation keep := (keeps (T := conn) (O := fault_observed) (λ _, True)).

Lemma aborted_sound c c' : sound c → aborted c c' → sound c'.
Proof.
  intros [Hd Ht] [[Ed Et]|(d & Et & Ed & Et')]; unfold sound; rewrite Ed; rewrite ?Et, ?Et'; [done|].
  split; [by apply Ht|done].
Qed.

Lemma keeps_run {A : Type} (m : M conn A) :
  (∀ c, sound c → run m c (λ _ c', sound c')) → keep m.
Proof.
  intros Hm c Hc _. specialize (Hm c Hc). unfold run in Hm. exists (m c).1, (m c).2.
  split_and!; [by destruct (m c)|done..].
Qed.

(** A statement that keeps the audit trail keeps [sound], failed or not. *)
Lemma statement_keeps {A : Type} (m : M conn A) eff res :
  statement m eff res → (∀ d, audited d → audited (eff d)) → keep m.
Proof.
  intros [Hs _ _ Hval] Heff c Hc _. specialize (Hs c). unfold wp.
  destruct (m c) as [[a| |] c'] eqn:E; [|exists Throw, c'; split_and!; [done|by eapply aborted_sound|done]|done].
  destruct Hs as (Ed & Et & _), Hc as [[Hv Ha] Ht]. exists (Ret a), c'. split; [done|].
  split; [|done]. cbn. unfold sound, intact. rewrite Ed, Et. split; [|done]. split; [|by apply Heff]. by eapply Hval.
Qed.

Lemma refused_keeps {A : Type} (m : M conn A) : refused m → keep m.
Proof.
  intros [Hs _] c Hc _. destruct (Hs c) as (c' & E & Hx). exists Throw, c'.
  split_and!; [done|by eapply aborted_sound|done].
Qed.

Lemma control_keeps (m : M conn ()) eff :
  control m eff →
  (∀ d tx d' tx', eff d tx = Some (d', tx') → intact d → (∀ x, tx = Some x → intact x) →
    intact d' ∧ ∀ x, tx' = Some x → intact x) →
  keep m.
Proof.
  intros [Hs _ _] Heff c Hc _. specialize (Hs c). unfold wp.
  destruct (m c) as [[a| |] c'] eqn:E; [|exists Throw, c'; split_and!; [done|by eapply aborted_sound|done]|done].
  destruct Hc as [Hd Ht]. exists (Ret a), c'. split; [done|]. split; [|done]. cbn. by eapply Heff.
Qed.

Lemma int32_keeps z : keep (int32 z).
Proof. unfold int32. case_decide; [apply keeps_ret|apply keeps_undef]. Qed.

(** *** The statements of the store *)
Lemma audited_same d d' :
  config_versions d' = config_versions d → change_logs d' = change_logs d → audited d → audited d'.
Proof. intros Ev El []. split; by rewrite ?Ev, ?El. Qed.

Lemma get_all_keeps {R : Type} `{Table R} (P : R → Prop) `{∀ r, Decision (P r)} : keep (orm_get_all P).
Proof. eapply statement_keeps; [apply law_get_all|done]. Qed.
Lemma get_all_by_keeps {R : Type} `{Table R} (P : R → Prop) `{∀ r, Decision (P r)} (le : relation R)
    `{RelDecision R R le} lim : Transitive le → Total le → keep (orm_get_all_by P le lim).
Proof. intros ??. eapply statement_keeps; [by apply law_get_all_by|done]. Qed.
Lemma update_keeps k : keep (orm_update k).
Proof. eapply statement_keeps; [apply law_update|]. intros d. by apply audited_same. Qed.
Lemma begin_keeps : keep orm_begin_transaction.
Proof. eapply control_keeps; [apply law_begin|]. intros d [] d' tx' [=]; subst. naive_solver. Qed.
Lemma commit_keeps : keep orm_commit.
Proof. eapply control_keeps; [apply law_commit|]. intros d [] d' tx' [=]; subst. naive_solver. Qed.
Lemma rollback_keeps : keep orm_rollback.
Proof. eapply control_keeps; [apply law_rollback|]. intros d [] d' tx' [=]; subst. naive_solver. Qed.

Lemma insert_keeps {R : Type} `{Table R} (r : R) :
  (∀ d, config_versions (insert_row r d) = config_versions d) →
  (∀ d, change_logs (insert_row r d) = change_logs d) → keep (orm_insert r).
Proof.
  intros Hv Hl. assert (insertable R ∨ own_key = true ∧ writes_keys = false) as [Hi|[Hown Hk]].
  { unfold insertable. destruct own_key, writes_keys; auto. }
  - eapply statement_keeps; [by apply law_insert|]. intros d. by apply audited_same.
  - apply refused_keeps. by apply law_insert_refused.
Qed.
Lemma update_all_keeps {R : Type} `{Table R} (f : R → R) (P : R → Prop) `{∀ r, Decision (P r)} :
  (∀ d, config_versions (update_rows P f d) = config_versions d) →
  (∀ d, change_logs (update_rows P f d) = change_logs d) → keep (orm_update_all f P).
Proof. intros Hv Hl. eapply statement_keeps; [apply law_update_all|]. intros d. by apply audited_same. Qed.
Lemma remove_all_keeps {R : Type} `{Table R} (P : R → Prop) `{∀ r, Decision (P r)} :
  (∀ d, config_versions (remove_rows P d) = config_versions d) →
  (∀ d, change_logs (remove_rows P d) = change_logs d) → keep (orm_remove_all P).
Proof. intros Hv Hl. eapply statement_keeps; [apply law_remove_all|]. intros d. by apply audited_same. Qed.

Lemma audited_version (v : ConfigVersion) d : audited d → audited (insert_row v d).
Proof.
  intros [Hv Hl Hr]. unfold insert_row. split; cbn; [by apply prefix_app_r|done|].
  eapply Forall_impl; [exact Hr|]. intros l. apply has_version_mono. set_solver.
Qed.
Lemma audited_log (l : ChangeLog) d :
  has_version (config_versions d) (inserted l d) → audited d → audited (insert_row l d).
Proof.
  intros Hn [Hv Hl Hr]. unfold insert_row. split; cbn; [done|by apply prefix_app_r|].
  apply Forall_app. split; [done|]. by apply Forall_singleton.
Qed.

(** The record of a deletion names no version. *)
Lemma insert_delete_log_keeps ci ns key opr ts :
  keep (orm_insert (mkChangeLog 0 ci ns key 0 "" "" "delete" opr ts)).
Proof. eapply statement_keeps; [by apply law_insert|]. intros d. apply audited_log. intros []. done. Qed.

(** A version record and, after it, the entry of the log that tells of it. *)
Lemma version_then_log_keeps {A : Type} n ci ns key old value op opr ts (a : A) :
  keep (_ ← orm_insert (mkConfigVersion n ci value op opr ts);
        _ ← orm_insert (mkChangeLog 0 ci ns key n old value op opr ts); mret a).
Proof.
  apply keeps_run. intros c Hc. eapply run_statement; [by apply law_insert| |].
  2: { intros c'. by apply aborted_sound. }
  intros _ c1 Hd1 Ht1 _ Hv1. destruct Hc as [[Hv Ha] Ht].
  assert (sound c1) as Hc1.
  { unfold sound, intact. rewrite Hd1, Ht1. split; [|done]. split; [auto|by apply audited_version]. }
  eapply run_statement; [by apply law_insert| |].
  2: { intros c'. by apply aborted_sound. }
  intros _ c2 Hd2 Ht2 _ Hv2. destruct Hc1 as [[Hv' Ha'] Ht']. unfold run, sound, intact. cbn.
  rewrite Hd2, Ht2. split; [|done]. split; [auto|]. apply audited_log; [|done].
  intros _. rewrite Hd1. unfold insert_row. cbn. apply Exists_app. right. by apply Exists_cons_hd.
Qed.

(** ** The methods of the store *)
#[local] Hint Resolve int32_keeps get_all_keeps update_keeps begin_keeps commit_keeps rollback_keeps
  insert_delete_log_keeps version_then_log_keeps : keeps.
#[local] Hint Extern 1 (keeps _ (orm_insert _)) => by apply insert_keeps : keeps.
#[local] Hint Extern 1 (keeps _ (orm_get_all_by _ _ _)) => apply get_all_by_keeps; apply _ : keeps.
#[local] Hint Extern 1 (keeps _ (orm_update_all _ _)) => by apply update_all_keeps : keeps.
#[local] Hint Extern 1 (keeps _ (orm_remove_all _)) => by apply remove_all_keeps : keeps.

Lemma sqlite_createConfig_keeps ns key v opr now : keep (Sqlite.createConfig ns key v opr now).
Proof. apply keeps_bind; [keeping|]. intros []; [apply version_then_log_keeps|keeping]. Qed.
Lemma sqlite_updateConfig_keeps ns key v opr d now :
  keep (Sqlite.updateConfig ns key v opr d now).
Proof.
  apply keeps_bind; [keeping|]. intros [|r l]; [keeping|].
  do 2 (apply keeps_bind; [keeping|intros ?]). apply version_then_log_keeps.
Qed.

(** Whatever statements fail, each method keeps [sound]. *)
#[export] Instance faults_keeps P : StoreKeeps conn fault_observed P (λ _, True).
Proof.
  split; intros; cbn;
    try first [apply sqlite_createConfig_keeps|apply sqlite_updateConfig_keeps
      |apply get_all_by_keeps; apply _|solve [keeping]].
  apply keeps_bind; [keeping|]. intros [cv|]; [apply sqlite_updateConfig_keeps|keeping].
Qed.
End sound.

(** ** An edit among failing statements *)

(** The row without its log entry, and perhaps without its version record. *)
Definition half_written (row : ConfigKey) (ver : ConfigVersion) (s s' : content) : Prop :=
  s' = set_cfgs <[ck_pk row := row]> s ∨ s' = add_ver ver (set_cfgs <[ck_pk row := row]> s).

Definition half_edited (ns key value op : string) (draft : bool) (now : Z) (s s' : content) : Prop :=
  let ts := getTimestamp now in
  match s_cfgs s !! (ns, key) with
  | Some old =>
    let v := ck_version old + 1 in
    half_written (edit_config old value v draft ts) (update_version ns key value op ts v) s s'
  | None => half_written (new_config ns key value ts) (create_version ns key value op ts) s s'
  end.

(** What the outcome of an edit tells of the content it left. *)
Definition edit_left (edit : M content bool) (half : content → content → Prop)
    (s : content) (o : outcome bool) (s' : content) : Prop :=
  match o with
  | Ret true => edit s = (Ret true, s')
  | Ret false | Undef => s' = s
  | Throw => s' = s ∨ half s s'
  end.

Section edits.
Context `{!SqliteOrm, !SqliteOrmLaws _}.
Implicit Types c : conn.

(** [m] outside a transaction leaves what [Q] says of the contents. *)
Definition leaves {A : Type} (m : M conn A) c (Q : content → outcome A → content → Prop) : Prop :=
  run m c (λ o c', Q (abs (db_of c)) o (abs (db_of c'))).

(** The rows a statement by key finds. *)
Lemma run_find_config {B : Type} ns key (k : list ConfigKey → M conn B) c (Q : outcome B → conn → Prop) :
  valid fk_enabled (db_of c) → tx_of c = None →
  (∀ l c', db_of c' = db_of c → tx_of c' = None →
    head l = s_cfgs (abs (db_of c)) !! (ns, key) → run (k l) c' Q) →
  (∀ c', db_of c' = db_of c → Q Throw c') →
  run (orm_get_all (λ r, ck_namespace_id r = ns ∧ ck_key r = key) ≫= k) c Q.
Proof.
  intros Hv Htx Hk Hab. eapply run_statement; [apply law_get_all| |].
  - intros l c' Hd Ht Hl _. apply Hk; [done|congruence|]. autorewrite with abs.
    eapply keyed_head; [|apply Hv|exact Hl]. intros r. unfold ck_pk. naive_solver.
  - intros c' [? ?]%aborted_outside; auto.
Qed.

(** The version record and the log entry after the row [row] is written. *)
Lemma run_record_edit row ci ns key n old v op opr ts c (s : content) (Q : outcome bool → conn → Prop) :
  tx_of c = None → abs (db_of c) = set_cfgs <[ck_pk row := row]> s →
  (∀ c', abs (db_of c') = add_log (λ i, mkChangeLog i ci ns key n old v op opr ts)
     (add_ver (mkConfigVersion n ci v op opr ts) (set_cfgs <[ck_pk row := row]> s)) → Q (Ret true) c') →
  (∀ c', half_written row (mkConfigVersion n ci v op opr ts) s (abs (db_of c')) → Q Throw c') →
  run (_ ← orm_insert (mkConfigVersion n ci v op opr ts);
       _ ← orm_insert (mkChangeLog 0 ci ns key n old v op opr ts); mret true) c Q.
Proof.
  intros Htx E HR HT. eapply run_statement; [by apply law_insert| |].
  2: { intros c' [Hd _]%aborted_outside; [|done]. apply HT. left. by rewrite Hd. }
  intros _ c1 Hd1 Ht1 _ _. eapply run_statement; [by apply law_insert| |].
  2: { intros c' [Hd _]%aborted_outside; [|by rewrite Ht1]. apply HT. right. by rewrite Hd, Hd1, abs_insert_version, E. }
  intros _ c2 Hd2 _ _ _. apply (HR c2). by rewrite Hd2, Hd1, abs_insert_log, abs_insert_version, E.
Qed.

Lemma updateConfig_faults ns key v op draft now c :
  valid fk_enabled (db_of c) → tx_of c = None →
  leaves (Sqlite.updateConfig ns key v op draft now) c
    (edit_left (spec_updateConfig ns key v op draft now) (half_edited ns key v op draft now)).
Proof.
  intros Hv Htx. apply run_find_config; [done..| |intros c' ->; by left].
  intros l c0 Hd0 Ht0 Hl. unfold edit_left, spec_updateConfig, half_edited. rewrite <- Hl.
  destruct l as [|config l]; [unfold run; cbn; by rewrite Hd0|]. cbn [head] in *. symmetry in Hl.
  assert (ck_pk config = (ns, key)) as Hpk.
  { autorewrite with abs in Hl. by apply (keyed_lookup ck_pk) in Hl as [_ ?]; [|apply Hv]. }
  apply run_int32; intros Hz; [rewrite decide_True by done|by rewrite Hd0].
  eapply run_statement; [apply law_update| |].
  2: { intros c' [Hd _]%aborted_outside; [|done]. left. by rewrite Hd, Hd0. }
  intros _ c1 Hd1 Ht1 _ _. rewrite <- Hpk.
  eapply (run_record_edit (edit_config config v _ draft _)); [by rewrite Ht1| |intros c' ->|].
  - rewrite Hd1, Hd0. apply (abs_update_config (fk := fk_enabled) _ _ config); [done|].
    change (s_cfgs (abs (db_of c)) !! ck_pk config = Some config). by rewrite Hpk.
  - done.
  - intros c'. by right.
Qed.

Lemma createConfig_edit_faults ns key v op now c :
  valid fk_enabled (db_of c) → tx_of c = None →
  leaves (Sqlite.createConfig ns key v op now) c
    (edit_left (spec_createConfig ns key v op now) (half_edited ns key v op true now)).
Proof.
  intros Hv Htx. eapply run_mono; [by apply createConfig_faults|]. unfold createConfig_left, edit_left.
  intros [[]| |] c' [Hl _]; [done|by rewrite Hl| |done]. destruct Hl as [Hfresh Hl]. right.
  unfold half_edited. autorewrite with abs. rewrite (proj2 (keyed_None ck_pk _ (ns, key))) by done.
  destruct Hl as [->| ->]; [left|right]; rewrite ?abs_insert_version; by rewrite abs_insert_config.
Qed.

Lemma addDraftChange_faults ns key v op now c :
  valid fk_enabled (db_of c) → tx_of c = None →
  leaves (addDraftChange ns key v op now) c
    (edit_left (spec_addDraftChange ns key v op now) (half_edited ns key v op true now)).
Proof.
  intros Hv Htx. apply run_bind. cbn. apply run_find_config; [done..| |intros c' ->; by left].
  intros l c1 Hd1 Ht1 Hl. unfold edit_left, spec_addDraftChange, live_config. rewrite <- Hl.
  pose proof (createConfig_edit_faults ns key v op now c1) as Hc. unfold leaves in Hc.
  pose proof (updateConfig_faults ns key v op true now c1) as Hu. unfold leaves in Hu. rewrite Hd1 in Hc, Hu.
  unfold run at 1. destruct l as [|config l]; cbn; [by apply Hc|].
  destruct (decide (ck_status config = "draft")) as [E|E].
  - rewrite (bool_decide_true _ E), decide_False by (intros []; done). by apply Hc.
  - rewrite (bool_decide_false _ E), decide_True by by right. by apply Hu.
Qed.

(** Where [insert] leaves out the key columns, an edit of a key that has no live row
    changes nothing, and does not say so by an exception of its own. *)
Lemma addDraftChange_unwritten ns key v op now c :
  writes_keys = false → valid fk_enabled (db_of c) → tx_of c = None →
  live_config (abs (db_of c)) ns key = None →
  run (addDraftChange ns key v op now) c (λ o c', o ≠ Ret true ∧ abs (db_of c') = abs (db_of c)).
Proof.
  intros Hk Hv Htx Hlive. apply run_bind. cbn. apply run_find_config; [done..| |by intros c' ->].
  intros l c1 Hd1 Ht1 Hl. unfold live_config in Hlive. rewrite <- Hl in Hlive. unfold run at 1.
  assert (∀ o c', o = Ret false ∧ aborted c1 c' → o ≠ Ret true ∧ abs (db_of c') = abs (db_of c)) as Hdone.
  { intros o c' [-> [Hd _]%aborted_outside]; [|done]. by rewrite Hd, Hd1. }
  pose proof (run_mono _ _ _ _ (createConfig_refused ns key v op now c1 Hk) Hdone) as Hrun.
  destruct l as [|config l]; cbn in *; [exact Hrun|]. 
  destruct (bool_decide (ck_status config = "draft")) eqn:E; [exact Hrun|].
  apply bool_decide_eq_false in E. rewrite decide_True in Hlive by by right. done.
Qed.
End edits.

(** ** The theorems *)
Section theorems.
Context `{!SqliteOrm, !SqliteOrmLaws _}.
Context (json_parse : string → option json) (json_dump : json → option string).
Context (dump_strings : list string → option string) (sha256 : string → list Z).
Local Abbreviation serve := (serve json_parse json_dump dump_strings sha256).


(** C29: What a PUT of a key tells its client when statements fail.  An answer of a
    PUT is always "ok" with status 200, and then either the edit is stored in full or
    nothing is changed; without an answer, nothing is changed or the row is written
    without its log entry and perhaps without its version record.  Where [insert]
    leaves out the columns of the primary key, as it is documented, a PUT of a key that
    has no published row never changes anything, whatever it answers. *)
Theorem put_under_faults ns key v b m now (c : conn) :
  valid fk_enabled (db_of c) → tx_of c = None → plain_ns ns = true →
  json_parse b = Some (JObject m) → m !! "value" = Some (JString v) →
  let '(o, c') := HttpSession.route json_parse (mkRequest put (keys_target ns key) b) now c in
  let s := abs (db_of c) in
  let s' := abs (db_of c') in
  match o with
  | Ret a => a = (200, ApiResponse.success) ∧
      (s' = s ∨ spec_addDraftChange ns key v "system" now s = (Ret true, s'))
  | Throw => s' = s ∨ half_edited ns key v "system" true now s s'
  | Undef => s' = s
  end ∧ (writes_keys = false → live_config s ns key = None → s' = s).
Proof.
  intros Hv Htx Hns Hb Hm. rewrite route_keys by done. unfold ok_json.
  pose proof (addDraftChange_faults ns key v "system" now c Hv Htx) as Hrun.
  pose proof (λ Hk, addDraftChange_unwritten ns key v "system" now c Hk Hv Htx) as Hno.
  unfold mbind at 1, M_bind at 1. rewrite (handleSetConfig_edits json_parse ns key b m v) by done.
  unfold leaves, run in Hrun, Hno. unfold mbind, M_bind, mret, M_ret.
  destruct (addDraftChange _ _ _ _ _ c) as [[[]| |] c']; cbn in Hrun, Hno;
    (split; [auto|]; intros Hk Hl; by destruct (Hno Hk Hl)).
Qed.
End theorems.

(** ** Witnesses *)
#[local] Instance faulty_orm : SqliteOrm := mem_orm true.
Definition documented_orm : SqliteOrm := mem_storage false true.
Definition faulty (faults : list bool) : mem := mkMem (m_db mem_sample) None faults.

Lemma faulty_valid faults : valid true (m_db (faulty faults)).
Proof. apply (bool_decide_unpack _). vm_compute. exact I. Qed.
Lemma faulty_recorded faults :
  Forall (has_version (config_versions (m_db (faulty faults)))) (change_logs (m_db (faulty faults))).
Proof. apply (bool_decide_unpack _). vm_compute. exact I. Qed.


(** The log entry fails: no answer, and the row is left with its version record.  On
    the storage that is documented, a PUT of a new key is answered "ok" and stores
    nothing. *)
Lemma put_under_faults_witness :
  let put_v3 storage key := @HttpSession.route _ (@sqlite_store storage) sample_parse
    (mkRequest put (keys_target main_id key) (member_text "value" "v3")) 9 in
  let told (storage : SqliteOrm) key (c : @conn storage) :=
    let '(o, c') := put_v3 storage key c in
    let s := abs (db_of c) in
    let s' := abs (db_of c') in
    match o with
    | Ret a => a = (200, ApiResponse.success) ∧
        (s' = s ∨ spec_addDraftChange main_id key "v3" "system" 9 s = (Ret true, s'))
    | Throw => s' = s ∨ half_edited main_id key "v3" "system" true 9 s s'
    | Undef => s' = s
    end ∧ (@writes_keys storage = false → live_config s main_id key = None → s' = s) in
  let c := faulty [false; false; false; false; true] in
  let r := put_v3 faulty_orm "k" c in
  let r' := put_v3 documented_orm "n" (faulty []) in
  told faulty_orm "k" c ∧ told documented_orm "n" (faulty []) ∧
  r.1 = Throw ∧ length (config_versions (m_db r.2)) = 3%nat ∧ length (change_logs (m_db r.2)) = 2%nat ∧
  r'.1 = Ret (200, ApiResponse.success) ∧ m_db r'.2 = m_db (faulty []).
Proof.
  intros put_v3 told c r r'. split; [|split; [|vm_compute; done]].
  - eapply (@put_under_faults faulty_orm (mem_orm_laws true) sample_parse);
      [apply faulty_valid|reflexivity|vm_compute; reflexivity|reflexivity..].
  - eapply (@put_under_faults documented_orm (mem_storage_laws false true) sample_parse);
      [apply faulty_valid|reflexivity|vm_compute; reflexivity|reflexivity..].
Defined.
