(* ===== verification/ConfigParser.v ===== *)
(** * The server's configuration file

    [ConfigParser] of [src/config/config_parser.cpp].  A document is the tree
    yaml-cpp loads: [yaml_load] is the loader ([None]: it throws), [at] is
    the [operator[]] of a node, and the conversions [as<T>()] are the class
    [YamlConv], with the documented behaviour the parser relies on as
    [YamlConvLaws].  A parser returns [None] where the code throws; the struct
    it was filling is then gone with the call. *)
From S2P Require Import Prelude Strings.

(** ** The configuration *)
Record ServerHttpConfig := mkServerHttpConfig {
  http_host : string; http_port : Z; http_threads : Z }.
Record ServerGrpcConfig := mkServerGrpcConfig {
  grpc_host : string; grpc_port : Z; grpc_threads : Z }.
Record ServerConfig := mkServerConfig { sv_http : ServerHttpConfig; sv_grpc : ServerGrpcConfig }.
Record SqliteConfig := mkSqliteConfig { sqlite_path : string }.
Record MysqlConfig := mkMysqlConfig {
  mysql_host : string; mysql_port : Z; mysql_user : string; mysql_password : string;
  mysql_database : string; mysql_pool_size : Z; mysql_timeout_seconds : Z }.
Record StorageConfig := mkStorageConfig {
  st_backend : string; st_sqlite : SqliteConfig; st_mysql : MysqlConfig }.
Record JwtConfig := mkJwtConfig { jwt_secret : string; jwt_expiry_hours : Z }.
Record AuthConfig := mkAuthConfig {
  au_enabled : bool; au_jwt : JwtConfig; au_read_auth_required : bool }.
Record NamespaceConfig := mkNamespaceConfig { nc_default_environments : list string }.
Record ApprovalConfig := mkApprovalConfig { ap_default_enabled : bool }.
Record GrayscaleConfig := mkGrayscaleConfig { gs_default_percentage : Z }.
Record PublishConfig := mkPublishConfig { pb_approval : ApprovalConfig; pb_grayscale : GrayscaleConfig }.
Record LongPollingConfig := mkLongPollingConfig {
  lp_max_timeout_seconds : Z; lp_default_timeout_seconds : Z }.
Record GrpcNotifyConfig := mkGrpcNotifyConfig { gn_keepalive_seconds : Z }.
Record NotificationConfig := mkNotificationConfig {
  nf_long_polling : LongPollingConfig; nf_grpc : GrpcNotifyConfig }.
Record LimitsConfig := mkLimitsConfig {
  lm_config_key_max_length : Z; lm_config_value_max_bytes : Z; lm_release_note_max_length : Z }.
Record LoggingConfig := mkLoggingConfig { lg_level : string; lg_file : string; lg_format : string }.
Record AppConfig := mkAppConfig {
  ac_server : ServerConfig; ac_storage : StorageConfig; ac_auth : AuthConfig;
  ac_namespace : NamespaceConfig; ac_publish : PublishConfig;
  ac_notification : NotificationConfig; ac_limits : LimitsConfig; ac_logging : LoggingConfig }.

(** [AppConfig config;]: the member initialisers of the structs *)
Definition default_config : AppConfig :=
  mkAppConfig
    (mkServerConfig (mkServerHttpConfig "0.0.0.0" 8080 0) (mkServerGrpcConfig "0.0.0.0" 9090 0))
    (mkStorageConfig "sqlite" (mkSqliteConfig "data/config-center.db")
      (mkMysqlConfig "127.0.0.1" 3306 "root" "" "config_center" 10 30))
    (mkAuthConfig true (mkJwtConfig "change-me-in-production" 24) false)
    (mkNamespaceConfig ["DEV"; "FAT"; "UAT"; "PROD"])
    (mkPublishConfig (mkApprovalConfig false) (mkGrayscaleConfig 100))
    (mkNotificationConfig (mkLongPollingConfig 120 60) (mkGrpcNotifyConfig 30))
    (mkLimitsConfig 128 1048576 4096)
    (mkLoggingConfig "info" "" "text").

(** ** Nodes *)
Inductive node :=
  | Null
  | Scalar (text : string)
  | Sequence (l : list node)
  | Map (l : list (string * node)).

Fixpoint assoc (k : string) (l : list (string * node)) : option node :=
  match l with
  | [] => None
  | (k', n) :: l => if bool_decide (k = k') then Some n else assoc k l
  end.

(** [node[k]]: [None] throws ([BadSubscript], on a scalar), [Some None] is a
    node that is not defined. *)
Definition at_key (n : node) (k : string) : option (option node) :=
  match n with
  | Scalar _ => None
  | Map l => Some (assoc k l)
  | Null | Sequence _ => Some None
  end.

(** The children an iteration over a node visits, as values: none for a node
    that is not a sequence or a map; an iteration over a map yields pairs,
    which are not scalars. *)
Definition children (n : node) : list node :=
  match n with
  | Sequence l => l
  | Map l => (λ kn, Map [kn]) <$> l
  | Null | Scalar _ => []
  end.

Class YamlConv := {
  as_string : node → option string;
  as_int : node → option Z;
  as_uint16 : node → option Z;
  as_bool : node → option bool;
}.

Definition in_uint16 (z : Z) : Prop := 0 ≤ z ≤ 65535.
Definition bool_text (b : bool) : string := if b then "true" else "false".

Class YamlConvLaws `{!YamlConv} : Prop := {
  as_string_scalar s : as_string (Scalar s) = Some s;
  as_int_text z : in_int32 z → as_int (Scalar (pretty z)) = Some z;
  as_int_range n z : as_int n = Some z → in_int32 z;
  as_uint16_text z : in_uint16 z → as_uint16 (Scalar (pretty z)) = Some z;
  as_uint16_range n z : as_uint16 n = Some z → in_uint16 z;
  as_bool_text b : as_bool (Scalar (bool_text b)) = Some b;
}.

Module ConfigParser.
Section parser.
Context `{!YamlConv}.

(** [if (node[k]) field = node[k].as<T>();] *)
Definition read {A : Type} (n : node) (k : string) (conv : node → option A) (field : A) : option A :=
  c ← at_key n k;
  match c with Some m => conv m | None => Some field end.

(** [if (node[k]) { auto& sub = node[k]; ... }] *)
Definition enter {A : Type} (n : node) (k : string) (parse : node → A → option A) (config : A)
    : option A :=
  c ← at_key n k;
  match c with Some m => parse m config | None => Some config end.

Definition parseHttp (http : node) (c : ServerHttpConfig) : option ServerHttpConfig :=
  host ← read http "host" as_string (http_host c);
  port ← read http "port" as_uint16 (http_port c);
  threads ← read http "threads" as_int (http_threads c);
  Some (mkServerHttpConfig host port threads).

Definition parseGrpc (grpc : node) (c : ServerGrpcConfig) : option ServerGrpcConfig :=
  host ← read grpc "host" as_string (grpc_host c);
  port ← read grpc "port" as_uint16 (grpc_port c);
  threads ← read grpc "threads" as_int (grpc_threads c);
  Some (mkServerGrpcConfig host port threads).

Definition parseServer (n : node) (c : ServerConfig) : option ServerConfig :=
  http ← enter n "http" parseHttp (sv_http c);
  grpc ← enter n "grpc" parseGrpc (sv_grpc c);
  Some (mkServerConfig http grpc).

Definition parseSqlite (n : node) (c : SqliteConfig) : option SqliteConfig :=
  path ← read n "path" as_string (sqlite_path c);
  Some (mkSqliteConfig path).

Definition parseMysql (n : node) (c : MysqlConfig) : option MysqlConfig :=
  host ← read n "host" as_string (mysql_host c);
  port ← read n "port" as_uint16 (mysql_port c);
  user ← read n "user" as_string (mysql_user c);
  password ← read n "password" as_string (mysql_password c);
  database ← read n "database" as_string (mysql_database c);
  pool_size ← read n "pool_size" as_int (mysql_pool_size c);
  timeout_seconds ← read n "timeout_seconds" as_int (mysql_timeout_seconds c);
  Some (mkMysqlConfig host port user password database pool_size timeout_seconds).

Definition parseStorage (n : node) (c : StorageConfig) : option StorageConfig :=
  backend ← read n "backend" as_string (st_backend c);
  sqlite ← enter n "sqlite" parseSqlite (st_sqlite c);
  mysql ← enter n "mysql" parseMysql (st_mysql c);
  Some (mkStorageConfig backend sqlite mysql).

Definition parseJwt (n : node) (c : JwtConfig) : option JwtConfig :=
  secret ← read n "secret" as_string (jwt_secret c);
  expiry_hours ← read n "expiry_hours" as_int (jwt_expiry_hours c);
  Some (mkJwtConfig secret expiry_hours).

Definition parseAuth (n : node) (c : AuthConfig) : option AuthConfig :=
  enabled ← read n "enabled" as_bool (au_enabled c);
  read_auth_required ← read n "read_auth_required" as_bool (au_read_auth_required c);
  jwt ← enter n "jwt" parseJwt (au_jwt c);
  Some (mkAuthConfig enabled jwt read_auth_required).

(** [clear] and [push_back] in a loop: the list is what the children say *)
Definition parseNamespace (n : node) (c : NamespaceConfig) : option NamespaceConfig :=
  envs ← read n "default_environments" (λ m, mapM as_string (children m)) (nc_default_environments c);
  Some (mkNamespaceConfig envs).

(** [if (node[k] && node[k][k']) field = node[k][k'].as<T>();] *)
Definition read2 {A : Type} (n : node) (k k' : string) (conv : node → option A) (field : A)
    : option A :=
  enter n k (λ m, read m k' conv) field.

Definition parsePublish (n : node) (c : PublishConfig) : option PublishConfig :=
  default_enabled ← read2 n "approval" "default_enabled" as_bool (ap_default_enabled (pb_approval c));
  default_percentage ← read2 n "grayscale" "default_percentage" as_int
    (gs_default_percentage (pb_grayscale c));
  Some (mkPublishConfig (mkApprovalConfig default_enabled) (mkGrayscaleConfig default_percentage)).

Definition parseLongPolling (n : node) (c : LongPollingConfig) : option LongPollingConfig :=
  max_timeout ← read n "max_timeout_seconds" as_int (lp_max_timeout_seconds c);
  default_timeout ← read n "default_timeout_seconds" as_int (lp_default_timeout_seconds c);
  Some (mkLongPollingConfig max_timeout default_timeout).

Definition parseNotification (n : node) (c : NotificationConfig) : option NotificationConfig :=
  long_polling ← enter n "long_polling" parseLongPolling (nf_long_polling c);
  keepalive ← read2 n "grpc" "keepalive_seconds" as_int (gn_keepalive_seconds (nf_grpc c));
  Some (mkNotificationConfig long_polling (mkGrpcNotifyConfig keepalive)).

Definition parseLimits (n : node) (c : LimitsConfig) : option LimitsConfig :=
  key_max ← read n "config_key_max_length" as_int (lm_config_key_max_length c);
  value_max ← read n "config_value_max_bytes" as_int (lm_config_value_max_bytes c);
  note_max ← read n "release_note_max_length" as_int (lm_release_note_max_length c);
  Some (mkLimitsConfig key_max value_max note_max).

Definition parseLogging (n : node) (c : LoggingConfig) : option LoggingConfig :=
  level ← read n "level" as_string (lg_level c);
  file ← read n "file" as_string (lg_file c);
  format ← read n "format" as_string (lg_format c);
  Some (mkLoggingConfig level file format).

Definition parseRoot (root : node) : option AppConfig :=
  let c := default_config in
  server ← enter root "server" parseServer (ac_server c);
  storage ← enter root "storage" parseStorage (ac_storage c);
  auth ← enter root "auth" parseAuth (ac_auth c);
  namespace ← enter root "namespace" parseNamespace (ac_namespace c);
  publish ← enter root "publish" parsePublish (ac_publish c);
  notification ← enter root "notification" parseNotification (ac_notification c);
  limits ← enter root "limits" parseLimits (ac_limits c);
  logging ← enter root "logging" parseLogging (ac_logging c);
  Some (mkAppConfig server storage auth namespace publish notification limits logging).

Context (yaml_load : string → option node).

Definition parseString (yamlContent : string) : option AppConfig :=
  root ← yaml_load yamlContent; parseRoot root.

(** [read_file path]: the content of a file that can be opened *)
Definition parseFile (read_file : string → option string) (path : string) : option AppConfig :=
  content ← read_file path; parseString content.
End parser.
End ConfigParser.
Import ConfigParser.

(** ** Documents

    [emit keep c] is the document that gives the fields of [c] for which [keep]
    says so, by their path in the document; [overlay keep c] is [c] for those
    fields and the default configuration for the others. *)
Section documents.
Context (keep : string → bool).

Definition leaf (path k : string) (n : node) : list (string * node) :=
  if keep path then [(k, n)] else [].
Definition text (s : string) : node := Scalar s.
Definition number (z : Z) : node := Scalar (pretty z).
Definition flag (b : bool) : node := Scalar (bool_text b).

Definition emit_http (c : ServerHttpConfig) : node := Map (
  leaf "server.http.host" "host" (text (http_host c)) ++
  leaf "server.http.port" "port" (number (http_port c)) ++
  leaf "server.http.threads" "threads" (number (http_threads c)) ++ []).
Definition emit_grpc (c : ServerGrpcConfig) : node := Map (
  leaf "server.grpc.host" "host" (text (grpc_host c)) ++
  leaf "server.grpc.port" "port" (number (grpc_port c)) ++
  leaf "server.grpc.threads" "threads" (number (grpc_threads c)) ++ []).
Definition emit_mysql (c : MysqlConfig) : node := Map (
  leaf "storage.mysql.host" "host" (text (mysql_host c)) ++
  leaf "storage.mysql.port" "port" (number (mysql_port c)) ++
  leaf "storage.mysql.user" "user" (text (mysql_user c)) ++
  leaf "storage.mysql.password" "password" (text (mysql_password c)) ++
  leaf "storage.mysql.database" "database" (text (mysql_database c)) ++
  leaf "storage.mysql.pool_size" "pool_size" (number (mysql_pool_size c)) ++
  leaf "storage.mysql.timeout_seconds" "timeout_seconds" (number (mysql_timeout_seconds c)) ++ []).
Definition emit_storage (c : StorageConfig) : node := Map (
  leaf "storage.backend" "backend" (text (st_backend c)) ++
  [("sqlite", Map (leaf "storage.sqlite.path" "path" (text (sqlite_path (st_sqlite c))) ++ []));
   ("mysql", emit_mysql (st_mysql c))]).
Definition emit_auth (c : AuthConfig) : node := Map (
  leaf "auth.enabled" "enabled" (flag (au_enabled c)) ++
  leaf "auth.read_auth_required" "read_auth_required" (flag (au_read_auth_required c)) ++
  [("jwt", Map (
    leaf "auth.jwt.secret" "secret" (text (jwt_secret (au_jwt c))) ++
    leaf "auth.jwt.expiry_hours" "expiry_hours" (number (jwt_expiry_hours (au_jwt c))) ++ []))]).
Definition emit_namespace (c : NamespaceConfig) : node := Map (
  leaf "namespace.default_environments" "default_environments"
    (Sequence (text <$> nc_default_environments c)) ++ []).
Definition emit_publish (c : PublishConfig) : node := Map
  [("approval", Map (leaf "publish.approval.default_enabled" "default_enabled"
      (flag (ap_default_enabled (pb_approval c))) ++ []));
   ("grayscale", Map (leaf "publish.grayscale.default_percentage" "default_percentage"
      (number (gs_default_percentage (pb_grayscale c))) ++ []))].
Definition emit_notification (c : NotificationConfig) : node := Map
  [("long_polling", Map (
      leaf "notification.long_polling.max_timeout_seconds" "max_timeout_seconds"
        (number (lp_max_timeout_seconds (nf_long_polling c))) ++
      leaf "notification.long_polling.default_timeout_seconds" "default_timeout_seconds"
        (number (lp_default_timeout_seconds (nf_long_polling c))) ++ []));
   ("grpc", Map (leaf "notification.grpc.keepalive_seconds" "keepalive_seconds"
      (number (gn_keepalive_seconds (nf_grpc c))) ++ []))].
Definition emit_limits (c : LimitsConfig) : node := Map (
  leaf "limits.config_key_max_length" "config_key_max_length" (number (lm_config_key_max_length c)) ++
  leaf "limits.config_value_max_bytes" "config_value_max_bytes" (number (lm_config_value_max_bytes c)) ++
  leaf "limits.release_note_max_length" "release_note_max_length"
    (number (lm_release_note_max_length c)) ++ []).
Definition emit_logging (c : LoggingConfig) : node := Map (
  leaf "logging.level" "level" (text (lg_level c)) ++
  leaf "logging.file" "file" (text (lg_file c)) ++
  leaf "logging.format" "format" (text (lg_format c)) ++ []).
Definition emit_server (c : ServerConfig) : node := Map
  [("http", emit_http (sv_http c)); ("grpc", emit_grpc (sv_grpc c))].
Definition emit (c : AppConfig) : node := Map
  [("server", emit_server (ac_server c));
   ("storage", emit_storage (ac_storage c)); ("auth", emit_auth (ac_auth c));
   ("namespace", emit_namespace (ac_namespace c)); ("publish", emit_publish (ac_publish c));
   ("notification", emit_notification (ac_notification c));
   ("limits", emit_limits (ac_limits c)); ("logging", emit_logging (ac_logging c))].

(** The value of a field: the one given, or the default. *)
Definition pick {A : Type} (path : string) (f : AppConfig → A) (c : AppConfig) : A :=
  if keep path then f c else f default_config.

Definition overlay (c : AppConfig) : AppConfig :=
  let http := λ c, sv_http (ac_server c) in
  let grpc := λ c, sv_grpc (ac_server c) in
  let mysql := λ c, st_mysql (ac_storage c) in
  let jwt := λ c, au_jwt (ac_auth c) in
  mkAppConfig
    (mkServerConfig
      (mkServerHttpConfig (pick "server.http.host" (λ c, http_host (http c)) c)
        (pick "server.http.port" (λ c, http_port (http c)) c)
        (pick "server.http.threads" (λ c, http_threads (http c)) c))
      (mkServerGrpcConfig (pick "server.grpc.host" (λ c, grpc_host (grpc c)) c)
        (pick "server.grpc.port" (λ c, grpc_port (grpc c)) c)
        (pick "server.grpc.threads" (λ c, grpc_threads (grpc c)) c)))
    (mkStorageConfig (pick "storage.backend" (λ c, st_backend (ac_storage c)) c)
      (mkSqliteConfig (pick "storage.sqlite.path" (λ c, sqlite_path (st_sqlite (ac_storage c))) c))
      (mkMysqlConfig (pick "storage.mysql.host" (λ c, mysql_host (mysql c)) c)
        (pick "storage.mysql.port" (λ c, mysql_port (mysql c)) c)
        (pick "storage.mysql.user" (λ c, mysql_user (mysql c)) c)
        (pick "storage.mysql.password" (λ c, mysql_password (mysql c)) c)
        (pick "storage.mysql.database" (λ c, mysql_database (mysql c)) c)
        (pick "storage.mysql.pool_size" (λ c, mysql_pool_size (mysql c)) c)
        (pick "storage.mysql.timeout_seconds" (λ c, mysql_timeout_seconds (mysql c)) c)))
    (mkAuthConfig (pick "auth.enabled" (λ c, au_enabled (ac_auth c)) c)
      (mkJwtConfig (pick "auth.jwt.secret" (λ c, jwt_secret (jwt c)) c)
        (pick "auth.jwt.expiry_hours" (λ c, jwt_expiry_hours (jwt c)) c))
      (pick "auth.read_auth_required" (λ c, au_read_auth_required (ac_auth c)) c))
    (mkNamespaceConfig (pick "namespace.default_environments"
      (λ c, nc_default_environments (ac_namespace c)) c))
    (mkPublishConfig
      (mkApprovalConfig (pick "publish.approval.default_enabled"
        (λ c, ap_default_enabled (pb_approval (ac_publish c))) c))
      (mkGrayscaleConfig (pick "publish.grayscale.default_percentage"
        (λ c, gs_default_percentage (pb_grayscale (ac_publish c))) c)))
    (mkNotificationConfig
      (mkLongPollingConfig
        (pick "notification.long_polling.max_timeout_seconds"
          (λ c, lp_max_timeout_seconds (nf_long_polling (ac_notification c))) c)
        (pick "notification.long_polling.default_timeout_seconds"
          (λ c, lp_default_timeout_seconds (nf_long_polling (ac_notification c))) c))
      (mkGrpcNotifyConfig (pick "notification.grpc.keepalive_seconds"
        (λ c, gn_keepalive_seconds (nf_grpc (ac_notification c))) c)))
    (mkLimitsConfig
      (pick "limits.config_key_max_length" (λ c, lm_config_key_max_length (ac_limits c)) c)
      (pick "limits.config_value_max_bytes" (λ c, lm_config_value_max_bytes (ac_limits c)) c)
      (pick "limits.release_note_max_length" (λ c, lm_release_note_max_length (ac_limits c)) c))
    (mkLoggingConfig (pick "logging.level" (λ c, lg_level (ac_logging c)) c)
      (pick "logging.file" (λ c, lg_file (ac_logging c)) c)
      (pick "logging.format" (λ c, lg_format (ac_logging c)) c)).
End documents.

(** The numbers fit the types of the fields. *)
Definition in_range (c : AppConfig) : Prop :=
  in_uint16 (http_port (sv_http (ac_server c))) ∧ in_int32 (http_threads (sv_http (ac_server c))) ∧
  in_uint16 (grpc_port (sv_grpc (ac_server c))) ∧ in_int32 (grpc_threads (sv_grpc (ac_server c))) ∧
  in_uint16 (mysql_port (st_mysql (ac_storage c))) ∧
  in_int32 (mysql_pool_size (st_mysql (ac_storage c))) ∧
  in_int32 (mysql_timeout_seconds (st_mysql (ac_storage c))) ∧
  in_int32 (jwt_expiry_hours (au_jwt (ac_auth c))) ∧
  in_int32 (gs_default_percentage (pb_grayscale (ac_publish c))) ∧
  in_int32 (lp_max_timeout_seconds (nf_long_polling (ac_notification c))) ∧
  in_int32 (lp_default_timeout_seconds (nf_long_polling (ac_notification c))) ∧
  in_int32 (gn_keepalive_seconds (nf_grpc (ac_notification c))) ∧
  in_int32 (lm_config_key_max_length (ac_limits c)) ∧
  in_int32 (lm_config_value_max_bytes (ac_limits c)) ∧
  in_int32 (lm_release_note_max_length (ac_limits c)).

Section parse_theorems.
Context `{!YamlConv} {laws : YamlConvLaws}.
Context (keep : string → bool).

Lemma assoc_leaf_skip p k k' n l : k ≠ k' → assoc k (leaf keep p k' n ++ l) = assoc k l.
Proof. intros Hk. unfold leaf. destruct (keep p); [|done]. cbn. by rewrite bool_decide_false. Qed.

Lemma read_skip {A : Type} p k k' n l (conv : node → option A) f :
  k ≠ k' → read (Map (leaf keep p k' n ++ l)) k conv f = read (Map l) k conv f.
Proof. intros Hk. unfold read. cbn. by rewrite assoc_leaf_skip. Qed.

Lemma read_leaf {A : Type} p k n l (conv : node → option A) v f :
  conv n = Some v → assoc k l = None →
  read (Map (leaf keep p k n ++ l)) k conv f = Some (if keep p then v else f).
Proof.
  intros Hv Hl. unfold read, leaf. cbn. destruct (keep p); cbn.
  - rewrite bool_decide_true by done. exact Hv.
  - by rewrite Hl.
Qed.

Lemma enter_leaf {A : Type} p k k' n l (parse : node → A → option A) c :
  k ≠ k' → enter (Map (leaf keep p k' n ++ l)) k parse c = enter (Map l) k parse c.
Proof. intros Hk. unfold enter. cbn. by rewrite assoc_leaf_skip. Qed.

(** Reads a field of a document of leaves: pass the leaves with other keys, take
    the one with this key. *)
Ltac read_field :=
  repeat (rewrite read_skip by done);
  erewrite read_leaf;
  [ cbn [mbind option_bind]
  | first [apply as_string_scalar | by apply as_int_text | by apply as_uint16_text | apply as_bool_text]
  | repeat (rewrite assoc_leaf_skip by done); reflexivity ].

Lemma parseHttp_emit c d :
  in_uint16 (http_port c) → in_int32 (http_threads c) →
  parseHttp (emit_http keep c) d = Some (mkServerHttpConfig
    (if keep "server.http.host" then http_host c else http_host d)
    (if keep "server.http.port" then http_port c else http_port d)
    (if keep "server.http.threads" then http_threads c else http_threads d)).
Proof. intros Hp Ht. unfold parseHttp, emit_http. do 3 read_field. done. Qed.

Lemma parseGrpc_emit c d :
  in_uint16 (grpc_port c) → in_int32 (grpc_threads c) →
  parseGrpc (emit_grpc keep c) d = Some (mkServerGrpcConfig
    (if keep "server.grpc.host" then grpc_host c else grpc_host d)
    (if keep "server.grpc.port" then grpc_port c else grpc_port d)
    (if keep "server.grpc.threads" then grpc_threads c else grpc_threads d)).
Proof. intros Hp Ht. unfold parseGrpc, emit_grpc. do 3 read_field. done. Qed.

Lemma parseMysql_emit c d :
  in_uint16 (mysql_port c) → in_int32 (mysql_pool_size c) → in_int32 (mysql_timeout_seconds c) →
  parseMysql (emit_mysql keep c) d = Some (mkMysqlConfig
    (if keep "storage.mysql.host" then mysql_host c else mysql_host d)
    (if keep "storage.mysql.port" then mysql_port c else mysql_port d)
    (if keep "storage.mysql.user" then mysql_user c else mysql_user d)
    (if keep "storage.mysql.password" then mysql_password c else mysql_password d)
    (if keep "storage.mysql.database" then mysql_database c else mysql_database d)
    (if keep "storage.mysql.pool_size" then mysql_pool_size c else mysql_pool_size d)
    (if keep "storage.mysql.timeout_seconds" then mysql_timeout_seconds c else mysql_timeout_seconds d)).
Proof. intros Hp Hs Ht. unfold parseMysql, emit_mysql. do 7 read_field. done. Qed.

Lemma mapM_text l : mapM as_string (text <$> l) = Some l.
Proof.
  induction l as [|s l IH]; [done|]. cbn. change (text s) with (Scalar s). rewrite as_string_scalar.
  cbn. by rewrite IH.
Qed.

(** A section that is there is parsed. *)
Lemma enter_map {A : Type} l k m (parse : node → A → option A) c :
  assoc k l = Some m → enter (Map l) k parse c = parse m c.
Proof. intros Hm. unfold enter. cbn. by rewrite Hm. Qed.

(** Enters a section of a document, past the leaves before it. *)
Ltac enter_section :=
  repeat (rewrite enter_leaf by done); erewrite enter_map by reflexivity; cbn [mbind option_bind].

Lemma parseServer_emit c d :
  in_uint16 (http_port (sv_http c)) → in_int32 (http_threads (sv_http c)) →
  in_uint16 (grpc_port (sv_grpc c)) → in_int32 (grpc_threads (sv_grpc c)) →
  parseServer (emit_server keep c) d = Some (mkServerConfig
    (mkServerHttpConfig
      (if keep "server.http.host" then http_host (sv_http c) else http_host (sv_http d))
      (if keep "server.http.port" then http_port (sv_http c) else http_port (sv_http d))
      (if keep "server.http.threads" then http_threads (sv_http c) else http_threads (sv_http d)))
    (mkServerGrpcConfig
      (if keep "server.grpc.host" then grpc_host (sv_grpc c) else grpc_host (sv_grpc d))
      (if keep "server.grpc.port" then grpc_port (sv_grpc c) else grpc_port (sv_grpc d))
      (if keep "server.grpc.threads" then grpc_threads (sv_grpc c) else grpc_threads (sv_grpc d)))).
Proof.
  intros. unfold parseServer, emit_server. do 2 enter_section.
  by rewrite parseHttp_emit, parseGrpc_emit.
Qed.

Lemma parseStorage_emit c d :
  in_uint16 (mysql_port (st_mysql c)) → in_int32 (mysql_pool_size (st_mysql c)) →
  in_int32 (mysql_timeout_seconds (st_mysql c)) →
  parseStorage (emit_storage keep c) d = Some (mkStorageConfig
    (if keep "storage.backend" then st_backend c else st_backend d)
    (mkSqliteConfig (if keep "storage.sqlite.path" then sqlite_path (st_sqlite c)
                     else sqlite_path (st_sqlite d)))
    (mkMysqlConfig
      (if keep "storage.mysql.host" then mysql_host (st_mysql c) else mysql_host (st_mysql d))
      (if keep "storage.mysql.port" then mysql_port (st_mysql c) else mysql_port (st_mysql d))
      (if keep "storage.mysql.user" then mysql_user (st_mysql c) else mysql_user (st_mysql d))
      (if keep "storage.mysql.password" then mysql_password (st_mysql c) else mysql_password (st_mysql d))
      (if keep "storage.mysql.database" then mysql_database (st_mysql c) else mysql_database (st_mysql d))
      (if keep "storage.mysql.pool_size" then mysql_pool_size (st_mysql c)
       else mysql_pool_size (st_mysql d))
      (if keep "storage.mysql.timeout_seconds" then mysql_timeout_seconds (st_mysql c)
       else mysql_timeout_seconds (st_mysql d)))).
Proof.
  intros. unfold parseStorage, emit_storage. do 2 enter_section. rewrite parseMysql_emit by done.
  unfold parseSqlite. do 2 read_field. done.
Qed.

Lemma parseAuth_emit c d :
  in_int32 (jwt_expiry_hours (au_jwt c)) →
  parseAuth (emit_auth keep c) d = Some (mkAuthConfig
    (if keep "auth.enabled" then au_enabled c else au_enabled d)
    (mkJwtConfig (if keep "auth.jwt.secret" then jwt_secret (au_jwt c) else jwt_secret (au_jwt d))
      (if keep "auth.jwt.expiry_hours" then jwt_expiry_hours (au_jwt c) else jwt_expiry_hours (au_jwt d)))
    (if keep "auth.read_auth_required" then au_read_auth_required c else au_read_auth_required d)).
Proof.
  intros. unfold parseAuth, emit_auth. enter_section. unfold parseJwt. do 4 read_field. done.
Qed.

Lemma parseNamespace_emit c d :
  parseNamespace (emit_namespace keep c) d = Some (mkNamespaceConfig
    (if keep "namespace.default_environments" then nc_default_environments c
     else nc_default_environments d)).
Proof.
  unfold parseNamespace, emit_namespace. erewrite read_leaf; [done|apply mapM_text|done].
Qed.

Lemma parsePublish_emit c d :
  in_int32 (gs_default_percentage (pb_grayscale c)) →
  parsePublish (emit_publish keep c) d = Some (mkPublishConfig
    (mkApprovalConfig (if keep "publish.approval.default_enabled"
      then ap_default_enabled (pb_approval c) else ap_default_enabled (pb_approval d)))
    (mkGrayscaleConfig (if keep "publish.grayscale.default_percentage"
      then gs_default_percentage (pb_grayscale c) else gs_default_percentage (pb_grayscale d)))).
Proof.
  intros. unfold parsePublish, emit_publish, read2. do 2 enter_section. do 2 read_field. done.
Qed.

Lemma parseNotification_emit c d :
  in_int32 (lp_max_timeout_seconds (nf_long_polling c)) →
  in_int32 (lp_default_timeout_seconds (nf_long_polling c)) →
  in_int32 (gn_keepalive_seconds (nf_grpc c)) →
  parseNotification (emit_notification keep c) d = Some (mkNotificationConfig
    (mkLongPollingConfig
      (if keep "notification.long_polling.max_timeout_seconds"
       then lp_max_timeout_seconds (nf_long_polling c) else lp_max_timeout_seconds (nf_long_polling d))
      (if keep "notification.long_polling.default_timeout_seconds"
       then lp_default_timeout_seconds (nf_long_polling c)
       else lp_default_timeout_seconds (nf_long_polling d)))
    (mkGrpcNotifyConfig (if keep "notification.grpc.keepalive_seconds"
      then gn_keepalive_seconds (nf_grpc c) else gn_keepalive_seconds (nf_grpc d)))).
Proof.
  intros. unfold parseNotification, emit_notification, read2. do 2 enter_section.
  unfold parseLongPolling. do 3 read_field. done.
Qed.

Lemma parseLimits_emit c d :
  in_int32 (lm_config_key_max_length c) → in_int32 (lm_config_value_max_bytes c) →
  in_int32 (lm_release_note_max_length c) →
  parseLimits (emit_limits keep c) d = Some (mkLimitsConfig
    (if keep "limits.config_key_max_length" then lm_config_key_max_length c else lm_config_key_max_length d)
    (if keep "limits.config_value_max_bytes" then lm_config_value_max_bytes c
     else lm_config_value_max_bytes d)
    (if keep "limits.release_note_max_length" then lm_release_note_max_length c
     else lm_release_note_max_length d)).
Proof. intros. unfold parseLimits, emit_limits. do 3 read_field. done. Qed.

Lemma parseLogging_emit c d :
  parseLogging (emit_logging keep c) d = Some (mkLoggingConfig
    (if keep "logging.level" then lg_level c else lg_level d)
    (if keep "logging.file" then lg_file c else lg_file d)
    (if keep "logging.format" then lg_format c else lg_format d)).
Proof. unfold parseLogging, emit_logging. do 3 read_field. done. Qed.

(** C40: what a document says is what the server gets.  Given the document with
    any selection of the fields of a configuration, the parser returns the
    given values for the fields that were selected and the documented
    defaults for the others. *)
Theorem parse_overlay yaml_load t (c : AppConfig) :
  in_range c → yaml_load t = Some (emit keep c) →
  parseString yaml_load t = Some (overlay keep c).
Proof.
  intros (? & ? & ? & ? & ? & ? & ? & ? & ? & ? & ? & ? & ? & ? & ?) Ht.
  unfold parseString. rewrite Ht. cbn [mbind option_bind]. unfold parseRoot, emit.
  do 8 enter_section. rewrite parseServer_emit, parseStorage_emit, parseAuth_emit, parseNamespace_emit,
    parsePublish_emit, parseNotification_emit, parseLimits_emit, parseLogging_emit by done.
  reflexivity.
Qed.
End parse_theorems.

(** ** Witness

    Conversions of plain scalars: decimal numbers, "true" and "false". *)
Definition plain (n : node) : option string := match n with Scalar s => Some s | _ => None end.
Definition plain_conv : YamlConv := {|
  as_string := plain;
  as_int n := s ← plain n; stoi s;
  as_uint16 n := s ← plain n; z ← stoi s; if decide (in_uint16 z) then Some z else None;
  as_bool n := s ← plain n; if bool_decide (s = "true") then Some true
                            else if bool_decide (s = "false") then Some false else None;
|}.

Lemma plain_conv_laws : @YamlConvLaws plain_conv.
Proof.
  split; cbn.
  - done.
  - apply stoi_number.
  - intros [] z; cbn; try done. apply stoi_range.
  - intros z Hz. rewrite stoi_number by (unfold in_int32, in_uint16, INT32_MIN, INT32_MAX in *; lia).
    cbn. by rewrite decide_True.
  - intros [] z; cbn; try done. destruct (stoi _); [|done]. cbn. case_decide; congruence.
  - by intros [].
Qed.

(** A document with the HTTP port and the backend only. *)
Definition sample_keep (p : string) : bool :=
  bool_decide (p = "server.http.port") || bool_decide (p = "storage.backend").
Definition sample_config : AppConfig :=
  mkAppConfig
    (mkServerConfig (mkServerHttpConfig "h" 8081 4) (mkServerGrpcConfig "g" 9091 5))
    (mkStorageConfig "mysql" (mkSqliteConfig "p") (mkMysqlConfig "m" 3307 "u" "w" "d" 11 31))
    (mkAuthConfig false (mkJwtConfig "s" 25) true) (mkNamespaceConfig ["X"])
    (mkPublishConfig (mkApprovalConfig true) (mkGrayscaleConfig 50))
    (mkNotificationConfig (mkLongPollingConfig 121 61) (mkGrpcNotifyConfig 31))
    (mkLimitsConfig 129 7 8) (mkLoggingConfig "l" "f" "j").

Lemma parse_overlay_witness :
  let load := λ _ : string, Some (emit sample_keep sample_config) in
  http_port (sv_http (ac_server (overlay sample_keep sample_config))) = 8081 ∧
  @parseString plain_conv load "doc" = Some (overlay sample_keep sample_config).
Proof.
  intros load. split; [reflexivity|].
  apply (@parse_overlay plain_conv plain_conv_laws sample_keep load "doc" sample_config);
    [|reflexivity].
  unfold in_range. cbn. unfold in_uint16, in_int32, INT32_MIN, INT32_MAX. lia.
Defined.
