(* ===== verification/Server.v ===== *)
(** * The server process

    [HttpServer] and the asynchronous part of [HttpSession] of
    [src/server/http_server.cpp] as the steps of an event loop on a pool of worker
    threads, and [main] of [src/main.cpp].  The completion of an accept or of a write
    is handled in one step.  The completion of a read makes a free worker run
    [HttpSession.handleRequest]: one step to its first call of the store, one for each
    call with what follows it up to the next call, and the last of these starts the
    write.  The completions arrive in any order, and between two calls of a handler the
    other workers make any steps of their own; a call itself holds the mutex of the
    store from its beginning to its end.  [workers] is the number of threads, and
    [clients] says which requests clients send. *)
From S2P Require Import Prelude DataTypes SqliteOrm MemOrm ConfigStore SqliteConfigStore StoreOps StoreInvariants StoreTheorems History NamespaceManager PublishEngine Strings Json Api HttpServer HttpTheorems GrpcService Concurrency ConcurrencyTheorems Scripts ConfigParser.
Import Script.

(** ** The event loop *)

(** A session waits for its request; or a worker runs its handler, which has had some
    answers of the store and is at its next call; or it writes its response; or it has
    written it and shut down its side; or it was dropped without a response. *)
Inductive session :=
  | Reading
  | Running (req : request) (now : Z) (given : list (outcome answer))
  | Writing (r : Z * string)
  | Sent (r : Z * string)
  | Dropped.

Definition running (x : session) : Prop := match x with Running _ _ _ => True | _ => False end.
#[export] Instance running_dec x : Decision (running x).
Proof. destruct x; apply _. Defined.

(** An exception that leaves a handler leaves [ioc.run()] and its thread, and ends
    the process. *)
Inductive status := Serving | Terminated | Undefined.
#[export] Instance status_eq_dec : EqDecision status.
Proof. solve_decision. Defined.

(** A request as it is handled: the session, the request, the reading of the clock. *)
Definition handled : Type := nat * request * Z.

Module Loop.
Section loop.
Context {T : Type} `{!ConfigStore T}.
Context (json_parse : string → option json) (json_dump : json → option string).
Context (workers : nat) (clients : request → Prop).
Local Abbreviation handleRequest := (HttpSession.handleRequest json_parse json_dump).
Local Abbreviation next := (next json_parse json_dump).

Record loop := mkLoop {
  store : T;
  sessions : list session;
  pending : nat;       (* accepts that were started and have not completed *)
  is_open : bool;      (* the acceptor *)
  status_of : status;
}.

(** [doAccept] starts an accept. *)
Definition doAccept (l : loop) : loop :=
  mkLoop (store l) (sessions l) (S (pending l)) (is_open l) (status_of l).
(** [start] after the constructor has opened the acceptor *)
Definition start (t : T) : loop := doAccept (mkLoop t [] 0 true Serving).
Definition stop (l : loop) : loop :=
  mkLoop (store l) (sessions l) (pending l) false (status_of l).

(** The handler of an accept: a session for the socket, if there is one, and the
    next accept. *)
Definition accepted (ok : bool) (l : loop) : loop :=
  doAccept (mkLoop (store l) (if ok then sessions l ++ [Reading] else sessions l)
    (pred (pending l)) (is_open l) (status_of l)).

Definition set_session (i : nat) (x : session) (l : loop) : loop :=
  mkLoop (store l) (<[i := x]> (sessions l)) (pending l) (is_open l) (status_of l).
Definition set_store (t : T) (l : loop) : loop :=
  mkLoop t (sessions l) (pending l) (is_open l) (status_of l).
Definition set_status (st : status) (l : loop) : loop :=
  mkLoop (store l) (sessions l) (pending l) (is_open l) st.

(** The end of a handler *)
Definition ended (i : nat) (o : outcome (Z * string)) (l : loop) : loop :=
  match o with
  | Ret r => set_session i (Writing r) l
  | Throw => set_status Terminated (set_session i Dropped l)
  | Undef => set_status Undefined (set_session i Dropped l)
  end.

(** A handler goes on after the answers [g], to its next call or to its end. *)
Definition settle (i : nat) (req : request) (now : Z) (g : list (outcome answer)) (l : loop) : loop :=
  match next req now g with
  | Asks _ => set_session i (Running req now g) l
  | Ends o => ended i o l
  end.
Definition finished (i : nat) (req : request) (now : Z) (g : list (outcome answer)) : option handled :=
  match next req now g with Asks _ => None | Ends _ => Some (i, req, now) end.

(** The workers that run a handler, and a worker that can take a completion *)
Definition busy (l : loop) : nat := length (filter running (sessions l)).
Definition free (l : loop) : Prop := status_of l = Serving ∧ (busy l < workers)%nat.

(** A step, the session that made a call of the store in it, and the request whose
    handler ended in it *)
Inductive step : loop → option nat → option handled → loop → Prop :=
  | step_accept l : free l → is_open l = true → pending l ≠ 0%nat →
      step l None None (accepted true l)
  | step_accept_error l : free l → pending l ≠ 0%nat →
      step l None None (accepted false l)
  | step_read l i req now : free l → sessions l !! i = Some Reading → clients req →
      step l None (finished i req now []) (settle i req now [] l)
  | step_call l i req now g c a t :
      status_of l = Serving → sessions l !! i = Some (Running req now g) →
      next req now g = Asks c → perform c (store l) = (a, t) →
      step l (Some i) (finished i req now (g ++ [a])) (settle i req now (g ++ [a]) (set_store t l))
  | step_read_error l i : free l → sessions l !! i = Some Reading →
      step l None None (set_session i Dropped l)
  | step_written l i r : free l → sessions l !! i = Some (Writing r) →
      step l None None (set_session i (Sent r) l).

(** Steps, with the requests whose handlers ended, in that order; [P] restricts the
    moments at which a session calls the store. *)
Inductive steps (P : nat → loop → Prop) : loop → list handled → loop → Prop :=
  | steps_refl l : steps P l [] l
  | steps_snoc l1 tr l2 c h l3 :
      steps P l1 tr l2 → step l2 c h l3 → (∀ i, c = Some i → P i l2) →
      steps P l1 (tr ++ option_list h) l3.

Definition anyhow (i : nat) (l : loop) : Prop := True.

(** No handler but that of [i] is between two of its calls. *)
Definition undisturbed (i : nat) (l : loop) : Prop :=
  ∀ j req now g, j ≠ i → sessions l !! j = Some (Running req now g) → g = [].

(** No handler is between two of its calls. *)
Definition between_requests (l : loop) : Prop :=
  ∀ j req now g, sessions l !! j = Some (Running req now g) → g = [].

(** The requests, handled one after the other without a loop. *)
Fixpoint replay (tr : list handled) (t : T) : option (list (nat * (Z * string)) * T) :=
  match tr with
  | [] => Some ([], t)
  | (i, req, now) :: tr =>
    match handleRequest req now t with
    | (Ret r, t) => '(rs, t) ← replay tr t; Some ((i, r) :: rs, t)
    | _ => None
    end
  end.

Lemma replay_snoc tr i req now t rs t' r t'' :
  replay tr t = Some (rs, t') → handleRequest req now t' = (Ret r, t'') →
  replay (tr ++ [(i, req, now)]) t = Some (rs ++ [(i, r)], t'').
Proof.
  revert t rs. induction tr as [|[[j req'] now'] tr IH]; intros t rs; cbn.
  - intros [= <- <-] ->. done.
  - destruct (handleRequest req' now' t) as [[r'| |] t1]; [|done..].
    destruct (replay tr t1) as [[rs1 t2]|] eqn:E; [|done]. cbn. intros [= <- <-] Hh.
    by rewrite (IH t1 rs1).
Qed.

(** *** Sequences of steps *)
Lemma steps_app P l1 tr l2 tr' l3 : steps P l1 tr l2 → steps P l2 tr' l3 → steps P l1 (tr ++ tr') l3.
Proof.
  intros H12 H23. induction H23 as [|l2 tr' l3 c h l4 H23 IH Hs HP]; [by rewrite app_nil_r|].
  rewrite (assoc_L (++)). eapply steps_snoc; eauto.
Qed.
Lemma steps_once (P : nat → loop → Prop) l c h l' : step l c h l' → (∀ i, c = Some i → P i l) → steps P l (option_list h) l'.
Proof. intros Hs HP. exact (steps_snoc P l [] l c h l' (steps_refl P l) Hs HP). Qed.

(** A process that does not serve any more makes no step. *)
Lemma step_serving l c h l' : step l c h l' → status_of l = Serving.
Proof. by destruct 1 as [? []|? []|? ? ? ? []| |? ? []|? ? ? []]. Qed.
Lemma steps_final P l tr l' : status_of l ≠ Serving → steps P l tr l' → l' = l.
Proof.
  intros Hst H. induction H as [l|l1 tr l2 c h l3 H12 IH H23 _]; [done|].
  rewrite IH in H23 by done. by apply step_serving in H23.
Qed.

(** *** What every state of the loop has *)

(** Every handler that runs is at a call, for a request of a client. *)
Record sound (l : loop) : Prop := {
  sound_pending : pending l = 1%nat;
  sound_busy : (busy l <= workers)%nat;
  sound_running i req now g : status_of l = Serving → sessions l !! i = Some (Running req now g) →
    clients req ∧ is_Some (match next req now g with Asks c => Some c | Ends _ => None end);
}.

Lemma busy_insert (l : list session) i x y :
  l !! i = Some x →
  (length (filter running (<[i := y]> l)) + (if decide (running x) then 1 else 0) =
   length (filter running l) + (if decide (running y) then 1 else 0))%nat.
Proof.
  revert i. induction l as [|z l IH]; intros i; [done|]. destruct i as [|i].
  - intros [= ->]. change (<[0%nat := y]> (x :: l)) with (y :: l). rewrite !filter_cons.
    repeat case_decide; cbn [length]; lia.
  - intros Hi. specialize (IH i Hi). change (<[S i := y]> (z :: l)) with (z :: <[i := y]> l).
    rewrite !filter_cons. destruct (decide (running z)); cbn [length]; lia.
Qed.

Lemma sound_set l i x y st t :
  sound l → status_of l = Serving → sessions l !! i = Some x →
  (running y → running x ∨ (busy l < workers)%nat) →
  (∀ req now g, st = Serving → y = Running req now g →
    clients req ∧ is_Some (match next req now g with Asks c => Some c | Ends _ => None end)) →
  sound (mkLoop t (<[i := y]> (sessions l)) (pending l) (is_open l) st).
Proof.
  intros [Hp Hb Hr] Hst Hi Hy Hn. split; cbn; [done| |].
  - unfold busy in *. cbn. pose proof (busy_insert (sessions l) i x y Hi) as E.
    repeat case_decide; [lia..| |lia]. destruct Hy; [done..|]. lia.
  - intros j req now g Hs Hj. destruct (decide (i = j)) as [<-|Hne].
    + rewrite list_lookup_insert_eq in Hj by by eapply lookup_lt_Some. injection Hj as ->. by apply Hn.
    + rewrite list_lookup_insert_ne in Hj by done. by apply (Hr j).
Qed.

Lemma sound_settle l i x req now g t :
  sound l → status_of l = Serving → sessions l !! i = Some x → clients req →
  (running x ∨ (busy l < workers)%nat) → sound (settle i req now g (set_store t l)).
Proof.
  intros Hl Hst Hi Hc Hx. unfold settle.
  destruct (next req now g) as [c|[r| |]] eqn:En; unfold ended, set_status, set_session, set_store; cbn;
    eapply sound_set; try done.
  all: intros req' now' g' Hs [=]; subst. by rewrite En.
Qed.

Lemma sound_step l c h l' : sound l → step l c h l' → sound l'.
Proof.
  intros Hl Hstep. destruct Hstep as [l Hf Ho Hp|l Hf Hp|l i req now [Hst Hb] Hi Hc
    |l i req now g c a t Hst Hi En Ep|l i [Hst Hb] Hi|l i r [Hst Hb] Hi].
  - destruct Hl as [Hp1 Hb Hr]. split; cbn; [lia| |].
    + unfold busy in *. cbn [sessions accepted doAccept]. rewrite filter_app, length_app.
      change (filter running [Reading]) with (@nil session). cbn [length]. lia.
    + intros i req now g Hs [Hi|[_ Hi]]%lookup_snoc_Some; [|done]. by eapply Hr; [|apply Hi].
  - destruct Hl as [Hp1 Hb Hr]. split; cbn; [lia|done|done].
  - replace l with (set_store (store l) l) by by destruct l. eapply sound_settle; eauto.
  - destruct (sound_running l Hl i req now g Hst Hi) as [Hc _]. eapply sound_settle; [done..|by left].
  - by eapply sound_set.
  - by eapply sound_set.
Qed.

Lemma sound_start t : sound (start t).
Proof. split; cbn; [done|unfold busy; cbn; lia|done]. Qed.
Lemma sound_steps P l tr l' : sound l → steps P l tr l' → sound l'.
Proof. intros Hl. induction 1; eauto using sound_step. Qed.

(** A loop with a worker that serves always has a step. *)
Lemma sound_progress l : sound l → (0 < workers)%nat → status_of l = Serving → ∃ c h l', step l c h l'.
Proof.
  intros Hl Hw Hst. destruct (filter running (sessions l)) as [|x xs] eqn:E.
  - eexists _, _, _. apply step_accept_error; [split; [done|]; unfold busy; by rewrite E|].
    by rewrite (sound_pending l Hl).
  - assert (x ∈ filter running (sessions l)) as [Hx [i Hi]%list_elem_of_lookup]%list_elem_of_filter
      by (rewrite E; by left).
    destruct x as [|req now g| | |]; try done.
    destruct (sound_running l Hl i req now g Hst Hi) as [_ [c Hn]].
    destruct (next req now g) as [c'|] eqn:En; [|done].
    destruct (perform c' (store l)) as [a t] eqn:Ep. eexists _, _, _. by eapply step_call.
Qed.

(** *** When handlers do not disturb each other *)

(** One worker thread, or clients whose requests are answered with one call *)
Definition no_races : Prop := workers = 1%nat ∨ ∀ req, clients req → one_call req = true.

Lemma no_races_undisturbed l i req now g c :
  no_races → sound l → status_of l = Serving →
  sessions l !! i = Some (Running req now g) → next req now g = Asks c → undisturbed i l.
Proof.
  intros Hnr Hl Hst Hi Hn j req' now' g' Hne Hj. destruct Hnr as [Hw|Hone].
  - pose proof (sound_busy l Hl) as Hb. unfold busy in Hb. exfalso.
    pose proof (busy_insert (sessions l) i _ Dropped Hi) as E.
    rewrite (decide_True _ _ I), (decide_False (P := running Dropped)) in E by by intros [].
    assert (Running req' now' g' ∈ filter running (<[i := Dropped]> (sessions l))) as Hin.
    { apply list_elem_of_filter. split; [done|]. apply list_elem_of_lookup. exists j.
      by rewrite list_lookup_insert_ne. }
    destruct (filter running (<[i:=Dropped]> _)); [by apply not_elem_of_nil in Hin|]. cbn [length] in E. lia.
  - destruct (sound_running l Hl j req' now' g' Hst Hj) as [Hc [c' Hn']].
    destruct (Scripts.next json_parse json_dump req' now' g') as [c1|] eqn:En; [|done].
    pose proof (next_bound (T := T) json_parse json_dump _ _ _ _ En) as Hlen.
    rewrite Hone in Hlen by done. destruct g'; [done|cbn in Hlen; lia].
Qed.

Lemma steps_undisturbed t tr l : no_races → steps anyhow (start t) tr l → steps undisturbed (start t) tr l.
Proof.
  intros Hnr H. remember (start t) as l0 eqn:E0. induction H as [|l1 tr l2 c h l3 H12 IH H23 _]; subst; [constructor|].
  eapply steps_snoc; [by apply IH|done|]. intros i ->.
  pose proof (sound_steps _ _ _ _ (sound_start t) H12) as Hl.
  inversion H23; subst. by eapply no_races_undisturbed.
Qed.

(** *** The order of the requests *)

(** A session was answered with [r]. *)
Definition answers (x : session) (r : Z * string) : Prop := x = Writing r ∨ x = Sent r.
Definition answered (l : list session) (i : nat) (r : Z * string) : Prop :=
  ∃ x, l !! i = Some x ∧ answers x r.

(** The store is [t0], or what the calls of the one handler that has made some since
    then made of it. *)
Definition in_progress (t0 : T) (l : loop) : Prop :=
  ∃ cur : option nat,
    (∀ i req now g, sessions l !! i = Some (Running req now g) → cur ≠ Some i → g = []) ∧
    match cur with
    | None => store l = t0
    | Some i => ∃ req now g, sessions l !! i = Some (Running req now g) ∧
        plays (HttpSession.handleRequest json_parse json_dump req now) [] g t0 (store l)
    end.

(** The loop so far is the replay of the requests whose handlers ended. *)
Definition serial (t : T) (tr : list handled) (l : loop) : Prop :=
  ∃ rs t0, replay tr t = Some (rs, t0) ∧ NoDup rs.*1 ∧
    (∀ i r, answered (sessions l) i r ↔ (i, r) ∈ rs) ∧ in_progress t0 l.

(** Why a loop does not serve any more: the last request whose handler ended. *)
Definition stopped (t : T) (tr : list handled) (l : loop) : Prop :=
  ∃ tr' i req now rs t0, tr = tr' ++ [(i, req, now)] ∧ replay tr' t = Some (rs, t0) ∧
    match (handleRequest req now t0).1 with
    | Ret _ => False
    | Throw => status_of l = Terminated
    | Undef => status_of l = Undefined
    end.

(** A session that has no answer yet gets one, or none still. *)
Lemma answered_insert l i x y j r :
  l !! i = Some x → (∀ r, ¬ answers x r) →
  answered (<[i := y]> l) j r ↔ answered l j r ∨ i = j ∧ answers y r.
Proof.
  intros Hi Hx. unfold answered. destruct (decide (i = j)) as [<-|Hne].
  - rewrite list_lookup_insert_eq by by eapply lookup_lt_Some. rewrite Hi. specialize (Hx r). naive_solver.
  - rewrite list_lookup_insert_ne by done. naive_solver.
Qed.

Lemma in_progress_call t0 l i req now g :
  in_progress t0 l → undisturbed i l → sessions l !! i = Some (Running req now g) →
  plays (HttpSession.handleRequest json_parse json_dump req now) [] g t0 (store l).
Proof.
  intros (cur & Hcur & Hp) Hu Hi. destruct (decide (cur = Some i)) as [->|Hne].
  - destruct Hp as (req' & now' & g' & Hi' & Hp). congruence.
  - assert (g = []) as -> by by eapply Hcur. cbn. destruct cur as [j|]; [|done].
    destruct Hp as (req' & now' & g' & Hj & Hp). by rewrite (Hu j req' now' g') in Hp by congruence.
Qed.

(** A session that does not run, or is at its first call, leaves the store alone. *)
Lemma in_progress_quiet t0 l i x y :
  in_progress t0 l → sessions l !! i = Some x → ¬ running x →
  (∀ req now g, y = Running req now g → g = []) → in_progress t0 (set_session i y l).
Proof.
  intros (cur & Hcur & Hp) Hi Hx Hy. exists cur. split; cbn.
  - intros j req now g Hj Hne. destruct (decide (i = j)) as [<-|Hij].
    + rewrite list_lookup_insert_eq in Hj by by eapply lookup_lt_Some. injection Hj as ->. by eapply Hy.
    + rewrite list_lookup_insert_ne in Hj by done. by eapply Hcur.
  - destruct cur as [j|]; [|done]. destruct Hp as (req & now & g & Hj & Hp). exists req, now, g.
    split; [|done]. rewrite list_lookup_insert_ne; [done|]. intros ->. rewrite Hi in Hj. by injection Hj as ->.
Qed.

(** The one handler that has made calls makes another, and goes on or ends. *)
Lemma in_progress_running t0 l i req now g t :
  undisturbed i l → (i < length (sessions l))%nat →
  plays (HttpSession.handleRequest json_parse json_dump req now) [] g t0 t →
  in_progress t0 (set_session i (Running req now g) (set_store t l)).
Proof.
  intros Hu Hi Hp. exists (Some i). split; cbn.
  - intros j req' now' g' Hj Hne. rewrite list_lookup_insert_ne in Hj by congruence.
    eapply Hu; [|exact Hj]. congruence.
  - exists req, now, g. split; [by apply list_lookup_insert_eq|done].
Qed.
Lemma in_progress_ended l i r t :
  undisturbed i l → (i < length (sessions l))%nat →
  in_progress t (set_session i (Writing r) (set_store t l)).
Proof.
  intros Hu Hi. exists None. split; [|done]. cbn. intros j req now g Hj _.
  destruct (decide (i = j)) as [<-|Hne]; [by rewrite list_lookup_insert_eq in Hj|].
  rewrite list_lookup_insert_ne in Hj by done. by eapply Hu.
Qed.

(** A handler ends that, as a whole, was run on [t0]. *)
Lemma serial_ended t tr l i x req now o t0 t1 rs :
  replay tr t = Some (rs, t0) → NoDup rs.*1 → (∀ i r, answered (sessions l) i r ↔ (i, r) ∈ rs) →
  status_of l = Serving → sessions l !! i = Some x → (∀ r, ¬ answers x r) →
  handleRequest req now t0 = (o, t1) → (∀ r, in_progress t1 (set_session i (Writing r) l)) →
  let l' := ended i o l in
  (status_of l' = Serving → serial t (tr ++ [(i, req, now)]) l') ∧
  (status_of l' ≠ Serving → stopped t (tr ++ [(i, req, now)]) l').
Proof.
  intros Hr Hnd Hans Hst Hi Hx Eh Hp l'. unfold l'. destruct o as [r| |]; cbn.
  - split; [|done]. intros _. exists (rs ++ [(i, r)]), t1. split; [by eapply replay_snoc|].
    split; [|split; [|apply Hp]].
    + rewrite fmap_app, NoDup_app. split_and!; [done| |apply NoDup_singleton].
      intros j [[j' r'] [-> Hin%Hans]]%list_elem_of_fmap. cbn. intros ->%list_elem_of_singleton.
      destruct Hin as (x' & Hx' & Ha). rewrite Hi in Hx'. injection Hx' as <-. by eapply Hx.
    + intros j r'. cbn. rewrite answered_insert, Hans, elem_of_app, list_elem_of_singleton by done.
      unfold answers. naive_solver.
  - split; [done|]. intros _. exists tr, i, req, now, rs, t0. by rewrite Eh.
  - split; [done|]. intros _. exists tr, i, req, now, rs, t0. by rewrite Eh.
Qed.

(** Steps that change no answer *)
Lemma serial_same t tr l l' :
  serial t tr l → (∀ i r, answered (sessions l') i r ↔ answered (sessions l) i r) →
  (∀ t0, in_progress t0 l → in_progress t0 l') → serial t tr l'.
Proof.
  intros (rs & t0 & Hr & Hnd & Hans & Hp) Ha Hp'. exists rs, t0. split_and!; [done..| |by apply Hp'].
  intros i r. by rewrite Ha, Hans.
Qed.
Lemma serial_set t tr l i x y :
  serial t tr l → sessions l !! i = Some x → ¬ running x → (∀ r, answers x r ↔ answers y r) →
  (∀ req now g, y = Running req now g → g = []) → serial t tr (set_session i y l).
Proof.
  intros Hs Hi Hx Hxy Hy. eapply serial_same; [done| |intros t0 Hp; by eapply in_progress_quiet].
  intros j r. cbn. unfold answered. destruct (decide (i = j)) as [<-|Hne]; [|by rewrite list_lookup_insert_ne].
  rewrite list_lookup_insert_eq by by eapply lookup_lt_Some. rewrite Hi. specialize (Hxy r). naive_solver.
Qed.
Lemma serial_accepted t tr l ok : serial t tr l → serial t tr (accepted ok l).
Proof.
  intros Hs. destruct ok; [|by eapply serial_same]. eapply serial_same; [done|..].
  - intros i r. unfold answered. cbn. split.
    + intros (x & [Hx|[_ <-]]%lookup_snoc_Some & Ha); [by exists x; destruct Hx|]. by destruct Ha.
    + intros (x & Hx & Ha). exists x. split; [by apply lookup_app_l_Some|done].
  - intros t0 (cur & Hcur & Hp). exists cur. split; cbn.
    + intros i req now g [[_ Hi]|[_ Hi]]%lookup_snoc_Some; [by eapply Hcur|done].
    + destruct cur as [i|]; [|done]. destruct Hp as (req & now & g & Hi & Hp). exists req, now, g.
      split; [by apply lookup_app_l_Some|done].
Qed.

Lemma serial_step t tr l c h l' :
  serial t tr l → step l c h l' → (∀ i, c = Some i → undisturbed i l) →
  (status_of l' = Serving → serial t (tr ++ option_list h) l') ∧
  (status_of l' ≠ Serving → stopped t (tr ++ option_list h) l').
Proof.
  intros Hs Hstep Hu. destruct Hstep as [l [Hst _] _ _|l [Hst _] _|l i req now [Hst _] Hi _
    |l i req now g c a t1 Hst Hi En Ep|l i [Hst _] Hi|l i r [Hst _] Hi].
  - cbn [option_list]. rewrite app_nil_r. split; [intros _; by apply serial_accepted|by intros []].
  - cbn [option_list]. rewrite app_nil_r. split; [intros _; by apply serial_accepted|by intros []].
  - unfold finished, settle. destruct (next req now []) as [c|o] eqn:En; cbn [option_list]; rewrite ?app_nil_r.
    + split; [intros _|by intros []]. eapply serial_set; [done|done|by intros []|intros r; unfold answers; naive_solver|naive_solver].
    + destruct Hs as (rs & t0 & Hr & Hnd & Hans & Hp).
      eapply serial_ended; [done..|intros r []; congruence| |].
      * by eapply (next_ends _ _ _ _ []).
      * intros r. eapply in_progress_quiet; [done|done|by intros []|done].
  - specialize (Hu i eq_refl). destruct Hs as (rs & t0 & Hr & Hnd & Hans & Hp).
    pose proof (in_progress_call _ _ _ _ _ _ Hp Hu Hi) as Hg.
    pose proof (plays_snoc _ _ _ _ _ _ _ _ Hg En Ep) as Hga.
    assert (∀ r, ¬ answers (Running req now g) r) as Hna by (intros r []; congruence).
    pose proof (lookup_lt_Some _ _ _ Hi) as Hlen.
    unfold finished, settle. destruct (next req now (g ++ [a])) as [c'|o] eqn:En'; cbn [option_list].
    + rewrite app_nil_r. split; [intros _|by intros []]. exists rs, t0. split_and!; [done..| |by apply in_progress_running].
      intros j r. cbn. rewrite answered_insert, Hans by done. unfold answers. naive_solver.
    + eapply (serial_ended t tr (set_store t1 l)); [done..| |].
      * by eapply next_ends.
      * intros r. by apply in_progress_ended.
  - cbn [option_list]. rewrite app_nil_r. split; [intros _|by intros []].
    eapply serial_set; [done|done|by intros []|intros r; unfold answers; naive_solver|naive_solver].
  - cbn [option_list]. rewrite app_nil_r. split; [intros _|by intros []].
    eapply serial_set; [done|done|by intros []|intros r'; unfold answers; naive_solver|naive_solver].
Qed.

Lemma steps_serial t tr l :
  steps undisturbed (start t) tr l →
  (status_of l = Serving → serial t tr l) ∧ (status_of l ≠ Serving → stopped t tr l).
Proof.
  intros H. remember (start t) as l0 eqn:E0. induction H as [l|l1 tr l2 c h l3 H12 IH H23 Hu]; subst.
  - split; [intros _|by intros []]. exists [], t. split_and!; [done|constructor| |by exists None].
    intros i r. rewrite elem_of_nil. unfold answered. naive_solver.
  - destruct (IH eq_refl) as [Hs _]. eapply serial_step; [|done..]. eapply Hs, step_serving, H23.
Qed.

Lemma in_progress_between t0 l : in_progress t0 l → between_requests l → store l = t0.
Proof.
  intros (cur & _ & Hp) Hb. destruct cur as [i|]; [|done].
  destruct Hp as (req & now & g & Hi & Hp). by rewrite (Hb _ _ _ _ Hi) in Hp.
Qed.

(** C23: The HTTP server handles requests as if one after the other when it has one
    worker thread, or when its clients send only requests that are answered with one
    call of the store (all but the registration of an application, the creation and
    the listing of namespaces, and the edit of a key): in every state the event loop
    can reach while it serves, every session was answered at most once, with the
    answer its request has when the requests are handled one after the other in the
    order in which their handlers ended; the store is what they make of it, unless a
    handler is between two of its calls; and the loop can go on. *)
Theorem http_serial t tr l :
  (0 < workers)%nat → no_races →
  steps anyhow (start t) tr l → status_of l = Serving →
  (∃ rs t0, replay tr t = Some (rs, t0) ∧ NoDup rs.*1 ∧
    (∀ i r, answered (sessions l) i r ↔ (i, r) ∈ rs) ∧
    (between_requests l → store l = t0)) ∧
  ∃ c h l', step l c h l'.
Proof.
  intros Hw Hnr Hs Hst. split.
  - destruct (proj1 (steps_serial _ _ _ (steps_undisturbed _ _ _ Hnr Hs)) Hst) as (rs & t0 & Hr & Hnd & Hans & Hp).
    exists rs, t0. split_and!; [done..|by apply in_progress_between].
  - apply sound_progress; [|done..]. eapply sound_steps; [apply sound_start|done].
Qed.

(** *** A request that is handled with nothing between its calls *)
Definition received (i : nat) (req : request) (now : Z) (l : loop) : loop :=
  let '(o, t) := handleRequest req now (store l) in ended i o (set_store t l).

Lemma ended_again i o t x t1 l :
  ended i o (set_store t (set_session i x (set_store t1 l))) = ended i o (set_store t l).
Proof. destruct o; cbn; unfold set_session, set_store, set_status; cbn; by rewrite list_insert_insert_eq. Qed.

Lemma plays_steps i req now o (t : T) g pre l :
  status_of l = Serving → sessions l !! i = Some (Running req now pre) → g ≠ [] →
  plays (HttpSession.handleRequest json_parse json_dump req now) pre g (store l) t →
  next req now (pre ++ g) = Ends o →
  steps anyhow l [(i, req, now)] (ended i o (set_store t l)).
Proof.
  revert pre l. induction g as [|a g IH]; intros pre l Hst Hi Hne Hg Hn; [done|].
  destruct Hg as (c & t1 & Hc & Hp & Hg).
  pose proof (step_call l i req now pre c a t1 Hst Hi Hc Hp) as Hstep.
  pose proof (lookup_lt_Some _ _ _ Hi) as Hlen. unfold finished, settle in Hstep.
  destruct g as [|b g].
  - cbn in Hg. subst t1. rewrite Hn in Hstep. by apply (steps_once _ _ _ _ _ Hstep).
  - pose proof Hg as (c' & _ & Hc' & _). change (next req now (pre ++ [a]) = Asks c') in Hc'.
    rewrite Hc' in Hstep. rewrite <- (ended_again i o t (Running req now (pre ++ [a])) t1 l).
    eapply (steps_app _ _ []); [by apply (steps_once _ _ _ _ _ Hstep)|].
    apply (IH (pre ++ [a])); [done|by apply list_lookup_insert_eq|done|done|by rewrite <- (assoc_L (++))].
Qed.

Lemma received_steps i req now l :
  free l → clients req → sessions l !! i = Some Reading →
  steps anyhow l [(i, req, now)] (received i req now l).
Proof.
  intros Hf Hc Hi. pose proof Hf as [Hst _]. pose proof (lookup_lt_Some _ _ _ Hi) as Hlen.
  destruct (next_total json_parse json_dump req now (store l)) as (g & Hg & Hn). unfold received.
  destruct (handleRequest req now (store l)) as [o t]. cbn in Hg, Hn.
  pose proof (step_read l i req now Hf Hi Hc) as Hstep. unfold finished, settle in Hstep.
  destruct g as [|a g].
  - cbn in Hg. subst t. rewrite Hn in Hstep. replace (set_store (store l) l) with l by by destruct l.
    by apply (steps_once _ _ _ _ _ Hstep).
  - pose proof Hg as (c & _ & Hc' & _). change (next req now [] = Asks c) in Hc'. rewrite Hc' in Hstep.
    replace (ended i o (set_store t l)) with (ended i o (set_store t (set_session i (Running req now []) (set_store (store l) l))))
      by apply ended_again. replace (set_store (store l) l) with l by by destruct l.
    eapply (steps_app _ _ []); [by apply (steps_once _ _ _ _ _ Hstep)|].
    apply (plays_steps i req now o t (a :: g) []); [done|by apply list_lookup_insert_eq|done..].
Qed.

(** A PUT of a key whose body is not JSON ends the whole server: from any
    state in which it is received, the next state has no further step, the store is
    as it was, and no session that is still waiting gets an answer. *)
Theorem bad_request_terminates l i ns key b now :
  json_parse b = None → plain_ns ns = true → clients (mkRequest put (keys_target ns key) b) →
  free l → sessions l !! i = Some Reading →
  ∃ l', step l None (Some (i, mkRequest put (keys_target ns key) b, now)) l' ∧
    store l' = store l ∧ ∀ tr l'', steps anyhow l' tr l'' → l'' = l'.
Proof.
  intros Hb Hns Hc Hf Hi. set (req := mkRequest put (keys_target ns key) b) in *.
  assert (next req now [] = Ends Throw) as Hn.
  { unfold Scripts.next, event_of.
    pose proof (bad_body_escapes json_parse json_dump ns key put b now (mkScript [] None) Hb Hns) as Hall.
    apply Forall_cons in Hall as [E _]. unfold req. by rewrite E. }
  pose proof (step_read l i req now Hf Hi Hc) as Hstep. unfold finished, settle in Hstep. rewrite Hn in Hstep.
  eexists. split; [exact Hstep|]. split; [done|]. intros tr l''. by apply steps_final.
Qed.

(** [stop] closes the acceptor, but the handler of the accept that fails then starts
    the next one: the loop never runs out of work. *)
Lemma stop_never_quiet t tr l tr' l' :
  (0 < workers)%nat → steps anyhow (start t) tr l → steps anyhow (stop l) tr' l' →
  status_of l' = Serving → ∃ c h l'', step l' c h l''.
Proof.
  intros Hw Hs Hs' Hst. apply sound_progress; [|done..].
  apply (sound_steps anyhow (stop l) tr' l'); [|done].
  pose proof (sound_steps _ _ _ _ (sound_start t) Hs) as [Hp Hb Hr]. by split.
Qed.

(** ** Running the loop

    What happens next, chosen by the caller. *)
Inductive move :=
  | Accept
  | Read (i : nat) (req : request) (now : Z)
  | Call (i : nat)
  | Written (i : nat).

Definition act (x : move) (l : loop) : option (option handled * loop) :=
  match x with
  | Accept =>
    if decide (status_of l = Serving ∧ (busy l < workers)%nat ∧ is_open l = true ∧ pending l ≠ 0%nat)
    then Some (None, accepted true l) else None
  | Read i req now =>
    if decide (status_of l = Serving ∧ (busy l < workers)%nat) then
      match sessions l !! i with
      | Some Reading => Some (finished i req now [], settle i req now [] l)
      | _ => None
      end
    else None
  | Call i =>
    if decide (status_of l = Serving) then
      match sessions l !! i with
      | Some (Running req now g) =>
        match next req now g with
        | Asks c => let '(a, t) := perform c (store l) in
          Some (finished i req now (g ++ [a]), settle i req now (g ++ [a]) (set_store t l))
        | Ends _ => None
        end
      | _ => None
      end
    else None
  | Written i =>
    if decide (status_of l = Serving ∧ (busy l < workers)%nat) then
      match sessions l !! i with Some (Writing r) => Some (None, set_session i (Sent r) l) | _ => None end
    else None
  end.

Fixpoint acts (xs : list move) (l : loop) : option (list handled * loop) :=
  match xs with
  | [] => Some ([], l)
  | x :: xs => '(h, l) ← act x l; '(tr, l) ← acts xs l; Some (option_list h ++ tr, l)
  end.

Lemma act_step x l h l' : (∀ req, clients req) → act x l = Some (h, l') → ∃ c, step l c h l'.
Proof.
  intros Hc Ha. destruct x as [|i req now|i|i]; cbn in Ha; case_decide as Hd; try done.
  - injection Ha as <- <-. exists None. by apply step_accept; [split|..]; apply Hd.
  - destruct (sessions l !! i) as [[]|] eqn:Hi; try done. injection Ha as <- <-. exists None. by apply step_read.
  - destruct (sessions l !! i) as [[|req now g| | |]|] eqn:Hi; try done.
    destruct (Scripts.next json_parse json_dump req now g) as [c|] eqn:En; [|done].
    destruct (perform c (store l)) as [a t] eqn:Ep. injection Ha as <- <-. exists (Some i). by eapply step_call.
  - destruct (sessions l !! i) as [[]|] eqn:Hi; try done. injection Ha as <- <-. exists None. by apply step_written.
Qed.

Lemma acts_steps xs l tr l' : (∀ req, clients req) → acts xs l = Some (tr, l') → steps anyhow l tr l'.
Proof.
  intros Hc. revert l tr. induction xs as [|x xs IH]; intros l tr; cbn; [intros [= <- <-]; constructor|].
  destruct (act x l) as [[h l1]|] eqn:Ea; [|done]. cbn.
  destruct (acts xs l1) as [[tr1 l2]|] eqn:Es; [|done]. cbn. intros [= <- <-].
  destruct (act_step _ _ _ _ Hc Ea) as [c Hs]. eapply steps_app; [by apply (steps_once _ _ _ _ _ Hs)|by apply IH].
Qed.
End loop.
End Loop.
Import Loop.

(** ** Start-up: [main] *)

(** What [main] does, in order; the managers, the channel and the middleware it makes
    get the store and the settings of the tokens, and nothing else of the configuration. *)
Inductive action :=
  | OpenStore (path : string)
  | MakeManagers (jwt_secret : string) (jwt_expiry_hours : Z)
  | ListenHttp (host : string) (port : Z)
  | RunWorkers (n : nat)
  | ListenGrpc (address : string)
  | JoinWorkers
  | StopGrpc.
Inductive exit := ExitCode (n : Z) | Uncaught.

Section main.
(** The parser of the configuration file, the storage object of a file and its
    [sync_schema], the constructor of the acceptor ([false]: it throws), and
    [std::thread::hardware_concurrency]. *)
Context (parse_file : string → option AppConfig).
Context `{!SqliteOrm} (createStorage : string → outcome conn) (sync_schema : M conn ()).
Context (bind_http : string → Z → bool).
Context (hardware_concurrency : Z).

Definition config_path (argv : list string) : string :=
  match argv with _ :: path :: _ => path | _ => "config-server.yaml" end.

(** [static_cast<int>] of an unsigned number *)
Definition numThreads (c : AppConfig) : Z :=
  let threads := http_threads (sv_http (ac_server c)) in
  if 0 <? threads then threads else (hardware_concurrency + 2 ^ 31) mod 2 ^ 32 - 2 ^ 31.

(** [GrpcServer::start] *)
Definition serverAddress (host : string) (port : Z) : string := host +:+ ":" +:+ pretty port.

(** The result of [initialize] is not looked at, and the join of the workers comes
    back only when [ioc.run()] does. *)
Definition main (argv : list string) : list action * exit :=
  match parse_file (config_path argv) with
  | None => ([], Uncaught)
  | Some c =>
    if bool_decide (st_backend (ac_storage c) = "sqlite") then
      let path := sqlite_path (st_sqlite (ac_storage c)) in
      match Sqlite.initialize createStorage sync_schema path with
      | Ret _ =>
        let http := sv_http (ac_server c) in
        let grpc := sv_grpc (ac_server c) in
        let jwt := au_jwt (ac_auth c) in
        let managers := MakeManagers (jwt_secret jwt) (jwt_expiry_hours jwt) in
        if bind_http (http_host http) (http_port http) then
          ([OpenStore path; managers; ListenHttp (http_host http) (http_port http);
            RunWorkers (Z.to_nat (numThreads c));
            ListenGrpc (serverAddress (grpc_host grpc) (grpc_port grpc)); JoinWorkers; StopGrpc], ExitCode 0)
        else ([OpenStore path; managers], Uncaught)
      | _ => ([OpenStore path], Uncaught)
      end
    else ([], ExitCode 1)
  end.

(** The configuration decides: any backend but SQLite is refused before anything is
    opened; otherwise the two servers listen where the file says. *)
Lemma main_backend argv c :
  parse_file (config_path argv) = Some c → st_backend (ac_storage c) ≠ "sqlite" →
  main argv = ([], ExitCode 1).
Proof. intros Hp Hb. unfold main. rewrite Hp. by rewrite bool_decide_false. Qed.

Lemma main_without_workers argv c actions :
  parse_file (config_path argv) = Some c → hardware_concurrency = 0 →
  http_threads (sv_http (ac_server c)) ≤ 0 → main argv = (actions, ExitCode 0) → RunWorkers 0 ∈ actions.
Proof.
  intros Hp Hh Ht. unfold main. rewrite Hp. case_bool_decide; [|congruence]. destruct (Sqlite.initialize _ _ _); [|congruence..].
  destruct (bind_http _ _); [|congruence]. intros [= <-]. unfold numThreads.
  destruct (Z.ltb_spec 0 (http_threads (sv_http (ac_server c)))); [lia|]. rewrite Hh. cbn. set_solver.
Qed.
End main.

(** ** Runs on the sample store *)
Section samples.
#[local] Existing Instance mem_store.
#[local] Existing Instance mem_observed.

Definition anyone (req : request) : Prop := True.
(** A parser that takes any body but one for the object with that value. *)
Definition value_parse (b : string) : option json :=
  if bool_decide (b = "{") then None else Some (object [("value", JString b)]).
Definition put_k (v : string) : request := mkRequest put (keys_target main_id "k") v.
Definition get_k : request := mkRequest get (keys_target main_id "k") "".

Definition sample_acts (workers : nat) (xs : list move) : list handled * loop :=
  default ([], start mem_sample) (acts value_parse sample_dump workers xs (start mem_sample)).

(** The row of the key at the end. *)
Definition row_of (t : mem) : option (string * Z) :=
  (λ c, (ck_value c, ck_version c)) <$> s_cfgs (cur (view t)) !! (main_id, "k").
Definition replayed (tr : list handled) : option (list nat * option (string * Z)) :=
  (λ x, (x.1.*1, row_of x.2)) <$> replay value_parse sample_dump tr mem_sample.

(** Two workers that handle a PUT of the same key each: both look the published row up
    before either writes, and then both write.  Both are answered, and the second value
    is stored as version 4.  One after the other, in either order, the second PUT finds a
    draft and stores nothing, though it is answered in the same way. *)
Example two_puts_race :
  let r := sample_acts 2 [Accept; Accept; Read 0 (put_k "a") 9; Read 1 (put_k "b") 9;
    Call 0; Call 1; Call 0; Call 1] in
  let one := (0%nat, put_k "a", 9) in
  let two := (1%nat, put_k "b", 9) in
  r.1 = [one; two] ∧ sessions r.2 = [Writing (200, "{}"); Writing (200, "{}")] ∧
  row_of (store r.2) = Some ("b", 4) ∧
  replayed [one; two] = Some ([0%nat; 1%nat], Some ("a", 3)) ∧
  replayed [two; one] = Some ([1%nat; 0%nat], Some ("b", 3)).
Proof. vm_compute. auto. Qed.

(** One worker: a PUT with its two calls, then a GET on another connection. *)
Definition one_worker : list move :=
  [Accept; Accept; Read 0 (put_k "a") 9; Call 0; Call 0; Read 1 get_k 10; Call 1; Written 0].
Definition sample_loop : list handled := [(0%nat, put_k "a", 9); (1%nat, get_k, 10)].
Definition sample_end : loop := (sample_acts 1 one_worker).2.

Lemma sample_steps : steps value_parse sample_dump 1 anyone anyhow (start mem_sample) sample_loop sample_end.
Proof. apply (acts_steps _ _ _ _ one_worker); [done|]. vm_compute. reflexivity. Qed.

Lemma http_serial_witness :
  status_of sample_end = Serving ∧ sessions sample_end = [Sent (200, "{}"); Writing (200, "{}")] ∧
  (∃ rs t0, replay value_parse sample_dump sample_loop mem_sample = Some (rs, t0) ∧ NoDup rs.*1 ∧
    (∀ i r, answered (sessions sample_end) i r ↔ (i, r) ∈ rs) ∧
    (between_requests sample_end → store sample_end = t0)) ∧
  ∃ c h l', step value_parse sample_dump 1 anyone sample_end c h l'.
Proof.
  split; [vm_compute; reflexivity|]. split; [vm_compute; reflexivity|].
  apply (http_serial value_parse sample_dump 1 anyone mem_sample sample_loop sample_end);
    [lia|by left|apply sample_steps|vm_compute; reflexivity].
Defined.

(** A third connection sends a body that is no JSON. *)
Lemma bad_request_terminates_witness :
  let l := accepted true sample_end in
  ∃ l', step value_parse sample_dump 1 anyone l None
      (Some (2%nat, mkRequest put (keys_target main_id "k") "{", 9)) l' ∧
    store l' = store l ∧
    ∀ tr l'', steps value_parse sample_dump 1 anyone anyhow l' tr l'' → l'' = l'.
Proof.
  intros l. apply (bad_request_terminates value_parse sample_dump 1 anyone);
    [reflexivity|vm_compute; reflexivity|exact I| |vm_compute; reflexivity].
  split; [vm_compute; reflexivity|]. apply Nat.ltb_lt. vm_compute. reflexivity.
Defined.
End samples.
