(* ===== verification/GrpcServer.v ===== *)
(** * The life cycle of the gRPC server

    [GrpcServer] of [src/server/grpc_server.cpp]: constructor, [start], [stop] and
    destructor, and what becomes of a call that arrives.  The gRPC runtime is not
    part of the repository: [GrpcRuntime] holds the operations of
    [grpc::ServerBuilder] and [grpc::Server] the code calls, and [GrpcRuntimeLaws]
    what their documentation says of them: a server that was built listens on the
    port that was added and calls the service that was registered, by its address,
    until it is shut down.  [reaches] says which addresses lead a client to a server
    listening on a given one: for the default "0.0.0.0" every address of the machine.

    The service object is made by [start] and owned by a local variable of it, so
    the addresses of the objects that are alive are part of the state: a call into
    an object that was destroyed is undefined behaviour. *)
From S2P Require Import Prelude DataTypes SqliteOrm MemOrm ConfigStore SqliteConfigStore StoreOps StoreInvariants StoreTheorems History NamespaceManager PublishEngine Strings Json Api HttpServer HttpTheorems GrpcService ConfigParser Server.

(** ** The objects *)
Definition loc : Type := positive.

(** The service objects that are alive. *)
Definition heap : Type := gset loc.

(** [std::make_unique<ConfigGrpcService>(context_)], at an address not in use, and the
    end of its owner's life *)
Definition make_unique (h : heap) : loc * heap := let p := fresh h in (p, {[ p ]} ∪ h).
Definition destroy (p : loc) (h : heap) : heap := h ∖ {[ p ]}.

(** ** The runtime *)
Class GrpcRuntime := {
  ServerBuilder : Type;
  Server : Type;
  new_builder : ServerBuilder;
  AddListeningPort : string → ServerBuilder → ServerBuilder;
  RegisterService : loc → ServerBuilder → ServerBuilder;
  BuildAndStart : ServerBuilder → option Server;   (* [None]: a null pointer *)
  Shutdown : Server → Server;
  (* the service that takes the calls to an address *)
  takes : Server → string → option loc;
  (* a server listening on the first address is found under the second *)
  reaches : string → string → bool;
}.

Class GrpcRuntimeLaws `{!GrpcRuntime} : Prop := {
  started a p s :
    BuildAndStart (RegisterService p (AddListeningPort a new_builder)) = Some s →
    ∀ b, takes s b = if reaches a b then Some p else None;
  shut_down s b : takes (Shutdown s) b = None;
}.

(** ** Calls *)
Inductive rpc :=
  | RpcGetConfig (namespace_id key : string)
  | RpcSetConfig (namespace_id key value operator_id : string)
  | RpcDeleteConfig (namespace_id key operator_id : string)
  | RpcPublishRelease (namespace_id release_note operator_id : string)
  | RpcGetReleaseHistory (namespace_id : string) (page page_size : Z).

Inductive response :=
  | GotConfig (r : Status * option Config)
  | SetConfigDone (r : Status * option Config)
  | DeleteConfigDone (r : Status * bool)
  | Published (r : Status * option ReleaseMsg)
  | GotHistory (r : Status * GetReleaseHistoryResponse).

Module GrpcServer.
Section server.
Context `{!GrpcRuntime}.

(** The members but for the context, which is the store. *)
Record state := mkState {
  host_ : string;
  port_ : Z;
  server_ : option Server;
}.

Definition construct (host : string) (port : Z) : state := mkState host port None.

(** The variable [service] of [start] owns the object and is gone when it returns. *)
Definition start (g : state) (h : heap) : state * heap :=
  let address := serverAddress (host_ g) (port_ g) in
  let builder := AddListeningPort address new_builder in
  let '(service, h) := make_unique h in
  let builder := RegisterService service builder in
  let g := mkState (host_ g) (port_ g) (BuildAndStart builder) in
  (g, destroy service h).

Definition stop (g : state) : state :=
  match server_ g with
  | Some s => mkState (host_ g) (port_ g) (Some (Shutdown s))
  | None => g
  end.

(** The body of the destructor; the members end after it. *)
Definition destructor (g : state) : state := stop g.

Section calls.
Context {T : Type} `{!ConfigStore T}.

(** The method of the service the call names *)
Definition handle (c : rpc) (now : Z) : M T response :=
  match c with
  | RpcGetConfig ns key => r ← ConfigGrpcService.GetConfig ns key; mret (GotConfig r)
  | RpcSetConfig ns key v opr => r ← ConfigGrpcService.SetConfig ns key v opr now; mret (SetConfigDone r)
  | RpcDeleteConfig ns key opr => r ← ConfigGrpcService.DeleteConfig ns key opr now; mret (DeleteConfigDone r)
  | RpcPublishRelease ns note opr =>
    r ← ConfigGrpcService.PublishRelease ns note opr now; mret (Published r)
  | RpcGetReleaseHistory ns p n => r ← ConfigGrpcService.GetReleaseHistory ns p n; mret (GotHistory r)
  end.

(** A call to the address [a]: [None] when nothing takes it there; otherwise the
    runtime calls the service it was given. *)
Definition call (a : string) (c : rpc) (now : Z) (g : state) (h : heap) (t : T)
    : option (outcome response * T) :=
  s ← server_ g;
  p ← takes s a;
  if decide (p ∈ h) then Some (handle c now t) else Some (Undef, t).
End calls.
End server.
End GrpcServer.
Import GrpcServer.

(** ** What becomes of calls *)
Section life_cycle.
Context `{!GrpcRuntime} `{!GrpcRuntimeLaws} {T : Type} `{!ConfigStore T}.

(** With its service alive the server would hand a call to the method it names. *)
Lemma call_alive g h a p s c now (t : T) :
  server_ g = Some s → takes s a = Some p → p ∈ h → call a c now g h t = Some (handle c now t).
Proof. intros Hg Ha Hp. unfold call. rewrite Hg. cbn. rewrite Ha. cbn. by rewrite decide_True. Qed.

Lemma call_stopped g h a c now (t : T) : call a c now (stop g) h t = None.
Proof.
  unfold call, stop. destruct (server_ g) as [s|] eqn:E; cbn; [|by rewrite E]. by rewrite shut_down.
Qed.

(** C30: The gRPC server never answers a call.  [start] leaves no service object
    behind, and once it has returned, whatever the call, whatever the store and
    whatever was alive before, a call to any address under which the server is found
    runs into the object that [start] destroyed on its return; a call to an address
    that does not lead to it, or after the address could not be bound, which [start]
    does not report, is taken by nothing, and after [stop] none is. *)
Theorem grpc_calls_dangle g h a c now (t : T) :
  let '(g', h') := start g h in
  h' = h ∧
  call a c now g' h' t =
    (if bool_decide (is_Some (server_ g')) && reaches (serverAddress (host_ g) (port_ g)) a
     then Some (Undef, t) else None) ∧
  call a c now (stop g') h' t = None.
Proof.
  pose proof (is_fresh h) as Hf. unfold start. cbn [make_unique].
  assert (destroy (fresh h) ({[fresh h]} ∪ h) = h) as -> by (unfold destroy; set_solver).
  split; [done|]. split; [|apply call_stopped]. unfold call. cbn [server_ mbind option_bind].
  destruct (BuildAndStart _) as [s|] eqn:E; cbn [mbind option_bind]; [|done].
  rewrite (started _ _ _ E), (bool_decide_true (is_Some _)) by eauto. cbn [andb].
  destruct (reaches _ a); cbn [mbind option_bind]; [|done]. by rewrite decide_False.
Qed.
End life_cycle.

(** ** A runtime that binds every address but one

    A server on "0.0.0.0" is found under every address with its port. *)
Fixpoint port_of (a : string) : string :=
  match a with
  | EmptyString => ""
  | String c a => if bool_decide (c = ":"%char) then a else port_of a
  end.

Definition sample_reaches (a b : string) : bool :=
  bool_decide (a = b) ||
  String.prefix "0.0.0.0:" a && bool_decide (port_of a = port_of b).

#[local] Instance sample_runtime : GrpcRuntime := {|
  ServerBuilder := list string * list loc;
  Server := string * list loc * bool;
  new_builder := ([], []);
  AddListeningPort a b := (b.1 ++ [a], b.2);
  RegisterService p b := (b.1, b.2 ++ [p]);
  BuildAndStart b :=
    match b.1 with [a] => if bool_decide (a = "taken:1") then None else Some (a, b.2, true) | _ => None end;
  Shutdown s := (s.1, false);
  takes s b := if s.2 && sample_reaches s.1.1 b then head s.1.2 else None;
  reaches := sample_reaches;
|}.
#[local] Instance sample_laws : GrpcRuntimeLaws.
Proof.
  split.
  - cbn. intros a p s. case_bool_decide; [done|]. by intros [= <-] b.
  - by intros [s b] a.
Qed.

(** The address of the default configuration, called under an address of the machine:
    a read of a key that is there. *)
Lemma grpc_calls_dangle_witness :
  let '(g, h) := start (construct "0.0.0.0" 9090) ∅ in
  is_Some (server_ g) ∧ h = ∅ ∧
  @call _ _ mem_store "10.0.0.7:9090" (RpcGetConfig main_id "k") 9 g h mem_sample = Some (Undef, mem_sample) ∧
  @call _ _ mem_store "10.0.0.7:9090" (RpcGetConfig main_id "k") 9 (stop g) h mem_sample = None.
Proof.
  split; [vm_compute; eauto|].
  apply (@grpc_calls_dangle sample_runtime sample_laws _ mem_store (construct "0.0.0.0" 9090) ∅
    "10.0.0.7:9090" (RpcGetConfig main_id "k") 9 mem_sample).
Defined.
