(* ===== verification/KeyValue.v ===== *)
(** * The server as a key-value store

    What a client of the two servers can observe, without tables, histories and
    transactions: a map from keys to a value, its version and whether it is a draft
    that waits for publication, and the number of the last release of each
    namespace.  [kv_step] says what the four commands do to it and what they
    answer; [server_refines_kv] shows that a sequence of requests, each made over
    HTTP or over gRPC, is answered as the map would. *)
From S2P Require Import Prelude Timestamp DataTypes SqliteOrm MemOrm ConfigStore SqliteConfigStore StoreOps StoreInvariants StoreTheorems History NamespaceManager PublishEngine Strings Json Api HttpServer HttpTheorems GrpcService ConfigParser Server GrpcServer.
Import PublishEngine.PublishEngine HttpSession.

(** ** The specification *)
Record entry := mkEntry {
  e_value : string;
  e_version : Z;
  e_draft : bool;
}.

Record kv := mkKv {
  entries : gmap (string * string) entry;
  last_version : string → Z;
  next_id : Z;
}.

Inductive cmd :=
  | Put (ns key value : string)
  | Get (ns key : string)
  | Delete (ns key : string)
  | Publish (ns note : string).

Inductive answer :=
  | Done
  | Value (value : string) (version : Z)
  | NotFound
  | Released (id version : Z).

Definition set_entries (f : gmap (string * string) entry → gmap (string * string) entry) (k : kv) : kv :=
  mkKv (f (entries k)) (last_version k) (next_id k).

Definition publish_entry (ns : string) (p : string * string) (e : entry) : option entry :=
  Some (if decide (p.1 = ns) then mkEntry (e_value e) (e_version e) false else e).

(** [None]: a 32-bit number overflows. *)
Definition kv_step (c : cmd) (k : kv) : option (answer * kv) :=
  match c with
  | Put ns key v =>
    match entries k !! (ns, key) with
    | None => Some (Done, set_entries <[(ns, key) := mkEntry v 1 true]> k)
    | Some e =>
      if e_draft e then Some (Done, k)
      else if decide (in_int32 (e_version e + 1)) then
        Some (Done, set_entries <[(ns, key) := mkEntry v (e_version e + 1) true]> k)
      else None
    end
  | Get ns key =>
    Some (match entries k !! (ns, key) with
          | Some e => if e_draft e then NotFound else Value (e_value e) (e_version e)
          | None => NotFound
          end, k)
  | Delete ns key =>
    Some (Done, match entries k !! (ns, key) with
                | Some e => if e_draft e then set_entries (delete (ns, key)) k else k
                | None => k
                end)
  | Publish ns note =>
    let v := last_version k ns + 1 in
    if decide (in_int32 v) then
      Some (Released (next_id k) v,
        mkKv (map_imap (publish_entry ns) (entries k))
          (λ n, if decide (n = ns) then v else last_version k n) (next_id k + 1))
    else None
  end.

Fixpoint kv_run (l : list cmd) (k : kv) : option (list answer * kv) :=
  match l with
  | [] => Some ([], k)
  | c :: l => '(a, k) ← kv_step c k; '(r, k) ← kv_run l k; Some (a :: r, k)
  end.

(** Two states are the same when they have the same entries and the same numbers. *)
#[export] Instance kv_equiv : Equiv kv := λ k k',
  entries k = entries k' ∧ (∀ ns, last_version k ns = last_version k' ns) ∧ next_id k = next_id k'.
#[export] Instance kv_equivalence : Equivalence (≡@{kv}).
Proof.
  split.
  - by intros k.
  - intros k k' (? & ? & ?). done.
  - intros k1 k2 k3 (E1 & H1 & N1) (E2 & H2 & N2). split_and!; [congruence| |congruence].
    intros ns. by rewrite H1, H2.
Qed.
#[export] Instance answer_equiv : Equiv answer := eq.
#[export] Instance answer_leibniz : LeibnizEquiv answer.
Proof. by intros a b. Qed.

#[export] Instance kv_step_proper c : Proper ((≡) ==> (≡)) (kv_step c).
Proof.
  intros [m f n] [m' f' n'] (Hm & Hf & Hn). cbn in *. subst m' n'. destruct c as [ns key v|ns key|ns key|ns note]; cbn.
  - destruct (m !! (ns, key)) as [e|]; [destruct (e_draft e); [|case_decide; [|constructor]]|]; by repeat constructor.
  - by repeat constructor.
  - destruct (m !! (ns, key)) as [e|]; [destruct (e_draft e)|]; by repeat constructor.
  - rewrite Hf. case_decide; [|constructor]. do 2 constructor; [done|]. split_and!; [done| |done].
    intros x. cbn. by case_decide.
Qed.

#[export] Instance kv_run_proper l : Proper ((≡) ==> (≡)) (kv_run l).
Proof.
  induction l as [|c l IH]; intros k k' Hk; cbn; [constructor; by split|].
  pose proof (kv_step_proper c k k' Hk) as Hstep.
  destruct (kv_step c k) as [[b k2]|], (kv_step c k') as [[b' k2']|]; try by inversion Hstep.
  apply Some_equiv_inj in Hstep as [Hb Hk2]. specialize (IH k2 k2' Hk2). cbn in *.
  destruct (kv_run l k2) as [[r k3]|], (kv_run l k2') as [[r' k3']|]; try by inversion IH.
  apply Some_equiv_inj in IH as [Hr Hk3]. constructor. split; [by constructor|done].
Qed.

(** ** The store as a state of the specification *)
Definition entry_of (c : ConfigKey) : entry :=
  mkEntry (ck_value c) (ck_version c) (bool_decide (ck_status c = "draft")).

Definition kv_of (c : content) : kv :=
  mkKv (entry_of <$> s_cfgs c) (λ ns, max_version (versions_of ns c)) (s_next_rel c).

(** A result of the specification holds of an outcome and the content it leaves. *)
Definition agrees {A B : Type} (f : A → B) (r : option (A * kv)) (o : outcome B) (c' : content) : Prop :=
  match r with
  | Some (a, k') => o = Ret (f a) ∧ kv_of c' ≡ k'
  | None => o = Undef
  end.

Section content.
Context {fk : bool}.

(** An edit, by either protocol. *)
Lemma put_agrees ns key v opr now (c : content) :
  match spec_addDraftChange ns key v opr now c with
  | (Undef, _) => kv_step (Put ns key v) (kv_of c) = None
  | (Throw, _) => False
  | (Ret _, c') => ∃ k', kv_step (Put ns key v) (kv_of c) = Some (Done, k') ∧ kv_of c' ≡ k'
  end.
Proof.
  unfold spec_addDraftChange, live_config, spec_updateConfig, spec_createConfig, kv_of. cbn.
  rewrite lookup_fmap. destruct (s_cfgs c !! (ns, key)) as [old|] eqn:Hold; cbn.
  - destruct (decide (ck_status old = "draft")) as [Hd|Hd].
    + rewrite decide_False by (unfold visible; naive_solver). rewrite bool_decide_true by done. eauto.
    + rewrite decide_True by by right. rewrite bool_decide_false by done. case_decide; [|done].
      eexists. split; [done|]. split_and!; [|done..]. cbn. by rewrite fmap_insert.
  - eexists. split; [done|]. split_and!; [|done..]. cbn. by rewrite fmap_insert.
Qed.

(** A release with a new id and the next version. *)
Lemma versions_of_add_rel c r ns :
  s_rels c !! s_next_rel c = None →
  versions_of ns (add_rel r c) ≡ₚ
    (if decide (rel_namespace_id r = ns) then [rel_release_version r] else []) ++ versions_of ns c.
Proof.
  intros Hn. unfold versions_of. cbn [add_rel s_rels]. rewrite map_to_list_insert by done.
  rewrite fmap_cons, filter_cons. cbn [snd]. by case_decide.
Qed.

Lemma publish_agrees ns note opr now (c : content) :
  wf fk c →
  match spec_publishRelease ns note opr now c with
  | (Undef, _) => kv_step (Publish ns note) (kv_of c) = None
  | (Throw, _) => False
  | (Ret (ok, r), c') => ok = true ∧
    r = new_release ns note opr (getTimestamp now) (max_version (versions_of ns c) + 1) (s_next_rel c) ∧
    ∃ k', kv_step (Publish ns note) (kv_of c) = Some (Released (rel_id r) (rel_release_version r), k') ∧
      kv_of c' ≡ k'
  end.
Proof.
  intros Hwf. unfold spec_publishRelease. cbn. case_decide; [|done]. split_and!; [done..|].
  eexists. split; [done|]. split_and!; cbn; [| |done].
  - apply map_eq. intros [ns' key]. rewrite map_lookup_imap, !lookup_fmap.
    destruct (s_cfgs c !! (ns', key)) as [x|] eqn:Hx; [|done]. cbn. f_equal.
    apply (wf_cfgs _ _ Hwf) in Hx as [[= Hns _] _ _ _ _]. unfold publish_entry, go_live, entry_of. cbn.
    rewrite Hns. by case_decide.
  - intros ns'. assert (s_rels c !! s_next_rel c = None) as Hn.
    { apply eq_None_not_Some. intros [r Hr]. apply (wf_rels _ _ Hwf) in Hr as [_ Hlt]. lia. }
    pose proof (versions_of_add_rel (set_cfgs (fmap (go_live ns)) c)
      (new_release ns note opr (getTimestamp now) (max_version (versions_of ns c) + 1) (s_next_rel c))
      ns' Hn) as Hp.
    rewrite (max_version_perm _ _ Hp). cbn [rel_namespace_id rel_release_version new_release].
    change (versions_of ns' (set_cfgs (fmap (go_live ns)) c)) with (versions_of ns' c).
    destruct (decide (ns = ns')) as [<-|Hne]; [|by rewrite decide_False by done]. rewrite decide_True by done.
    apply max_version_eq; [by left|]. intros v [->|Hv%max_version_le]%elem_of_cons; lia.
Qed.

Lemma delete_agrees ns key opr now (c : content) :
  let '(o, c') := spec_deleteConfig ns key opr true now c in
  o = Ret true ∧ ∃ k', kv_step (Delete ns key) (kv_of c) = Some (Done, k') ∧ kv_of c' ≡ k'.
Proof.
  cbn. split; [done|]. eexists. split; [done|]. rewrite lookup_fmap.
  destruct (s_cfgs c !! (ns, key)) as [x|]; cbn; [|done].
  case_bool_decide; [|done]. split_and!; [|done..]. cbn. by rewrite fmap_delete.
Qed.

Lemma get_agrees ns key (c : content) :
  wf fk c →
  kv_step (Get ns key) (kv_of c) =
  Some (match live_config c ns key with Some x => Value (ck_value x) (ck_version x) | None => NotFound end, kv_of c) ∧
  ∀ x, live_config c ns key = Some x → ck_namespace_id x = ns ∧ ck_key x = key ∧ ck_status x = "live".
Proof.
  intros Hwf. unfold live_config. cbn. rewrite lookup_fmap.
  destruct (s_cfgs c !! (ns, key)) as [x|] eqn:Hx; [|done]. cbn.
  apply (wf_cfgs _ _ Hwf) in Hx as [[= Hn Hk] Hst _ _ _]. destruct Hst as [Hst|Hst].
  - rewrite bool_decide_true, decide_False by (unfold visible; naive_solver). done.
  - rewrite bool_decide_false, decide_True by (unfold visible; naive_solver congruence). split; [done|].
    intros ? [= <-]. auto.
Qed.
End content.

(** ** The servers *)
Inductive proto := OverHttp | OverGrpc (operator : string).
Inductive reply := HttpReply (r : Z * json) | GrpcReply (r : response).

Section servers.
(** The texts a client sends as bodies. *)
Context (put_body publish_body : string → string).

Definition http_request (c : cmd) : request :=
  match c with
  | Put ns key v => mkRequest put (keys_target ns key) (put_body v)
  | Get ns key => mkRequest get (keys_target ns key) ""
  | Delete ns key => mkRequest delete_ (keys_target ns key) ""
  | Publish ns note => mkRequest post (publish_target ns) (publish_body note)
  end.
Definition grpc_request (operator : string) (c : cmd) : rpc :=
  match c with
  | Put ns key v => RpcSetConfig ns key v operator
  | Get ns key => RpcGetConfig ns key
  | Delete ns key => RpcDeleteConfig ns key operator
  | Publish ns note => RpcPublishRelease ns note operator
  end.

(** How a protocol puts an answer. *)
Definition http_reply (c : cmd) (now : Z) (a : answer) : json :=
  match c, a with
  | Get _ key, Value v n => object [("key", JString key); ("value", JString v); ("version", JInt n)]
  | Get _ _, _ => ApiResponse.error 404 "Config not found"
  | Publish _ note, Released i n =>
    object [("release_id", JInt i); ("release_version", JInt n); ("release_note", JString note);
            ("created_at", JString (getTimestamp now))]
  | _, _ => ApiResponse.success
  end.
Definition grpc_reply (operator : string) (c : cmd) (now : Z) (a : answer) : response :=
  match c, a with
  | Get ns key, Value v n => GotConfig (Status_OK, Some (mkConfig ns key v n "live"))
  | Get _ _, _ => GotConfig (mkStatus NOT_FOUND "Config not found", None)
  | Put _ _ _, _ => SetConfigDone (Status_OK, None)
  | Delete _ _, _ => DeleteConfigDone (Status_OK, true)
  | Publish ns note, Released i n =>
    Published (Status_OK, Some (mkReleaseMsg i ns n note "full" "active" (or_grpc operator) (getTimestamp now)))
  | Publish _ _, _ => Published (mkStatus INTERNAL "Publish failed", None)
  end.
Definition render (p : proto) (c : cmd) (now : Z) (a : answer) : reply :=
  match p with
  | OverHttp => HttpReply (200, http_reply c now a)
  | OverGrpc operator => GrpcReply (grpc_reply operator c now a)
  end.

(** A request: the protocol, the command, the reading of the clock. *)
Definition ask : Type := proto * cmd * Z.
Definition render_all (l : list ask) (r : list answer) : list reply :=
  zip_with (λ '(p, c, now) a, render p c now a) l r.

(** Over HTTP the namespace must be one that the target can carry. *)
Definition ns_of (c : cmd) : string :=
  match c with Put ns _ _ | Get ns _ | Delete ns _ | Publish ns _ => ns end.
Definition addressable (x : ask) : Prop :=
  match x.1.1 with OverHttp => plain_ns (ns_of x.1.2) = true | OverGrpc _ => True end.

Context {T : Type} `{!ConfigStore T}.
Context (json_parse : string → option json).

Definition send (p : proto) (c : cmd) (now : Z) : M T reply :=
  match p with
  | OverHttp => r ← route json_parse (http_request c) now; mret (HttpReply r)
  | OverGrpc operator => r ← GrpcServer.handle (grpc_request operator c) now; mret (GrpcReply r)
  end.
Fixpoint send_all (l : list ask) : M T (list reply) :=
  match l with
  | [] => mret []
  | (p, c, now) :: l => r ← send p c now; rs ← send_all l; mret (r :: rs)
  end.
End servers.

Section refinement.
Context {T : Type} `{!ConfigStore T} {O : Observed T Store} {fk : bool}
  `{Hspec : !ConfigStoreSpec T O fk}.
Context (put_body publish_body : string → string) (json_parse : string → option json).
Context (Hput : ∀ v, json_parse (put_body v) = Some (object [("value", JString v)])).
Context (Hpublish : ∀ n, json_parse (publish_body n) = Some (object [("release_note", JString n)])).
Local Abbreviation send := (send put_body publish_body json_parse).
Local Abbreviation send_all := (send_all put_body publish_body json_parse).

(** Outside a transaction, a well-formed store. *)
Definition quiet (st : Store) : Prop := saved st = None ∧ wf fk (cur st).

(** What one request does. *)
Definition served {A : Type} (f : answer → A) (c : cmd) (s : T) (o : outcome A) (st' : Store) : Prop :=
  agrees f (kv_step c (kv_of (cur (view s)))) o (cur st') ∧ (o ≠ Undef → quiet st').

Lemma wf_put ns key v opr now c o c' :
  wf fk c → spec_addDraftChange ns key v opr now c = (o, c') → wf fk c'.
Proof.
  intros Hwf E. unfold spec_addDraftChange in E.
  destruct (live_config c ns key); (eapply content_step_wf; [|exact Hwf]); by econstructor.
Qed.

(** An edit, whatever is answered. *)
Lemma served_put {A : Type} (x : A) ns key v opr now (s : T) o st' :
  quiet (view s) →
  match spec_addDraftChange ns key v opr now (cur (view s)) with
  | (Undef, _) => o = Undef
  | (_, c') => o = Ret x ∧ st' = mkStore c' (saved (view s))
  end →
  served (λ _, x) (Put ns key v) s o st'.
Proof.
  intros [Hsv Hwf]. unfold served. pose proof (put_agrees ns key v opr now (cur (view s))) as Ha.
  pose proof (wf_put ns key v opr now (cur (view s))) as Hwf'.
  destruct (spec_addDraftChange ns key v opr now (cur (view s))) as [[ok| |] c']; [|done|].
  - destruct Ha as (k' & -> & Hk). intros [-> ->]. split; [done|]. intros _. split; [done|].
    by eapply Hwf'.
  - rewrite Ha. by intros ->.
Qed.

(** The answer is put another way. *)
Lemma wp_served {A B : Type} (g : answer → A) (h : A → B) (f : answer → B) c (m : M T A) (s : T) :
  (∀ a, h (g a) = f a) → wp s m (served g c s) → wp s (x ← m; mret (h x)) (served f c s).
Proof.
  intros Hf Hm. apply wp_bind. eapply wp_mono; [exact Hm|]. unfold served, agrees.
  intros o st' [Ha Hq]. destruct (kv_step c _) as [[a k']|]; [|by subst o].
  destruct Ha as [-> Hk]. intros s' Hs' <-. apply wp_ret; [done|]. rewrite Hf. split; [done|].
  intros _. by apply Hq.
Qed.

Lemma served_get {A : Type} (x : A) (y : ConfigKey → A) (f : answer → A) ns key (s : T) :
  ready s → quiet (view s) → f NotFound = x →
  (∀ c, ck_namespace_id c = ns → ck_key c = key → ck_status c = "live" →
    f (Value (ck_value c) (ck_version c)) = y c) →
  wp s (config ← getConfig ns key false;
        match config with None => mret x | Some c => mret (y c) end) (served f (Get ns key) s).
Proof.
  intros Hs [Hsv Hwf] Hx Hy. eapply wp_call; [by apply getConfig_spec|]. cbn. intros s1 Hs1 Hv1.
  fold (live_config (cur (view s)) ns key). destruct (get_agrees ns key _ Hwf) as [E Hl].
  assert (view s1 = view s) as Ev by (rewrite Hv1; by destruct (view s)).
  unfold served. rewrite E. destruct (live_config _ ns key) as [c|]; (apply wp_ret; [done|]); cbn; rewrite Ev.
  - destruct (Hl c eq_refl) as (Hn & Hk & Hst). by rewrite Hy.
  - by rewrite Hx.
Qed.

Lemma served_delete ns key opr now (s : T) :
  ready s → quiet (view s) →
  wp s (deleteConfig ns key opr true now) (served (λ _, true) (Delete ns key) s).
Proof.
  intros Hs [Hsv Hwf]. eapply wp_mono; [by apply deleteConfig_spec|]. unfold refines, served.
  pose proof (delete_agrees ns key opr now (cur (view s))) as Hd. intros o st'.
  destruct (spec_deleteConfig ns key opr true now (cur (view s))) as [x c'] eqn:E.
  destruct Hd as (-> & k' & -> & Hk). intros [-> ->]. split; [done|]. intros _. split; [done|].
  eapply content_step_wf; [|exact Hwf]. by econstructor.
Qed.

Lemma served_publish {A : Type} (k : bool * Release → M T A) (f : answer → A) ns note opr out now (s : T) :
  ready s → quiet (view s) →
  (∀ i n, k (true, new_release ns note opr (getTimestamp now) n i) = mret (f (Released i n))) →
  wp s (publishRelease ns note opr out now ≫= k) (served f (Publish ns note) s).
Proof.
  intros Hs [Hsv Hwf] Hk. eapply wp_call; [by apply publish_call|].
  pose proof (publish_agrees ns note opr now (cur (view s)) Hwf) as Hp. unfold served.
  destruct (spec_publishRelease ns note opr now (cur (view s))) as [[[ok r]| |] c'] eqn:E; [|done|].
  - destruct Hp as (-> & Hr & k' & -> & Hk'). intros s1 Hs1 Hv1. rewrite Hr at 1. rewrite Hk.
    apply wp_ret; [done|]. rewrite Hv1, Hr. cbn. split; [done|]. intros _. split; [done|]. cbn.
    eapply content_step_wf; [|exact Hwf]. by econstructor.
  - rewrite Hp. by intros v.
Qed.

Lemma route_served c now (s : T) :
  ready s → quiet (view s) → plain_ns (ns_of c) = true →
  wp s (route json_parse (http_request put_body publish_body c) now)
    (served (λ a, (200, http_reply c now a)) c s).
Proof.
  intros Hs Hq Hns. destruct c as [ns key v|ns key|ns key|ns note]; cbn [http_request ns_of] in *;
    rewrite ?route_keys, ?route_publish by done; (eapply (wp_served (http_reply _ now)); [done|]).
  - eapply wp_ext; [by eapply handleSetConfig_edits; [apply Hput|]|].
    eapply wp_call; [by apply addDraftChange_call|].
    pose proof (λ o st', served_put ApiResponse.success ns key v "system" now s o st' Hq) as Hp.
    pose proof (put_agrees ns key v "system" now (cur (view s))) as Ha.
    destruct (spec_addDraftChange _ _ _ _ _ _) as [[ok| |] c']; [|done|by intros; apply Hp].
    intros s1 Hs1 Hv1. apply wp_ret; [done|]. by apply Hp.
  - apply served_get; [done..|]. intros c Hn Hk _. cbn. unfold config_json. by rewrite Hk.
  - by eapply (wp_served (λ _, true) (λ _, ApiResponse.success)), served_delete.
  - unfold handlePublish, parse_body. rewrite Hpublish. eapply wp_ext; [reflexivity|].
    by apply (served_publish (λ r, if negb r.1 then mret (ApiResponse.error 500 "Publish failed")
      else mret (published_json r.2))).
Qed.

Lemma send_http c now (s : T) :
  ready s → quiet (view s) → plain_ns (ns_of c) = true →
  wp s (send OverHttp c now) (served (render OverHttp c now) c s).
Proof. intros Hs Hq Hns. by eapply (wp_served (λ a, (200, http_reply c now a))), route_served. Qed.

Lemma send_grpc opr c now (s : T) :
  ready s → quiet (view s) → wp s (send (OverGrpc opr) c now) (served (render (OverGrpc opr) c now) c s).
Proof.
  intros Hs Hq. eapply (wp_served (grpc_reply opr c now)); [done|].
  destruct c as [ns key v|ns key|ns key|ns note]; cbn [grpc_request GrpcServer.handle].
  - eapply (wp_served (λ _, (Status_OK, None))); [done|]. eapply wp_mono; [apply SetConfig_answer; [done|apply Hq]|].
    intros o st'. by apply served_put.
  - eapply (wp_served (λ a, match a with
      | Value v n => (Status_OK, Some (mkConfig ns key v n "live"))
      | _ => (mkStatus NOT_FOUND "Config not found", None) end)); [by intros []|].
    apply served_get; [done..|]. intros c Hn Hk Hst. cbn. unfold set_config. by rewrite Hn, Hk, Hst.
  - eapply (wp_served (λ _, (Status_OK, true))); [done|].
    by eapply (wp_served (λ _, true) (λ ok, (Status_OK, ok))), served_delete.
  - eapply (wp_served (λ a, match a with
      | Released i n => (Status_OK, Some (mkReleaseMsg i ns n note "full" "active" (or_grpc opr) (getTimestamp now)))
      | _ => (mkStatus INTERNAL "Publish failed", None) end)); [by intros []|].
    by apply served_publish.
Qed.

(** C3: The servers are a key-value store with drafts.  Any sequence of edits, reads,
    deletions and publications, each made over HTTP or over gRPC by any operator,
    gets exactly the answers that the map gives, in the form of its protocol, and
    leaves the map in the store; it ends in undefined behaviour exactly when the map
    overflows a 32-bit number. *)
Theorem server_refines_kv (l : list ask) (s : T) :
  ready s → saved (view s) = None → wf fk (cur (view s)) → Forall addressable l →
  wp s (send_all l) (λ o st',
    match kv_run (l.*1.*2) (kv_of (cur (view s))) with
    | Some (answers, k') => o = Ret (render_all l answers) ∧ kv_of (cur st') ≡ k'
    | None => o = Undef
    end).
Proof.
  intros Hs Hsv Hwf Hl. revert s Hs Hsv Hwf. induction Hl as [|[[p c] now] l Hx Hl IH]; intros s Hs Hsv Hwf; cbn.
  { apply wp_ret; [done|]. done. }
  apply wp_bind. eapply wp_mono.
  { destruct p as [|opr]; [by apply send_http|by apply send_grpc]. }
  unfold served, agrees. intros o st' [Ha Hq].
  destruct (kv_step c (kv_of (cur (view s)))) as [[a k1]|]; cbn; [|by subst o].
  destruct Ha as [-> Hk]. intros s1 Hs1 <-. destruct (Hq ltac:(done)) as [Hsv1 Hwf1].
  apply wp_bind. eapply wp_mono; [by apply IH|]. intros o st' Ho.
  pose proof (kv_run_proper l.*1.*2 _ _ Hk) as Hrun.
  destruct (kv_run l.*1.*2 k1) as [[r k2]|], (kv_run l.*1.*2 (kv_of (cur (view s1)))) as [[r' k2']|];
    try (by inversion Hrun); cbn; [|by subst o].
  apply Some_equiv_inj in Hrun as [Hr Hk2]. cbn in *. destruct Ho as [-> Ho]. intros s2 Hs2 <-.
  apply wp_ret; [done|]. split; [|by rewrite Ho].
  apply leibniz_equiv in Hr. by subst r'.
Qed.
End refinement.

(** ** Witness: bodies that start with a letter for the kind of request *)
Definition letter_parse (b : string) : option json :=
  match b with
  | String "v" v => Some (object [("value", JString v)])
  | String "n" n => Some (object [("release_note", JString n)])
  | _ => None
  end.

Definition sample_session : list ask := [
  (OverHttp, Get main_id "k", 9);
  (OverGrpc "bob", Put main_id "k" "v3", 10);
  (OverHttp, Get main_id "k", 11);
  (OverHttp, Put main_id "k" "lost", 12);
  (OverHttp, Publish main_id "second", 13);
  (OverGrpc "", Get main_id "k", 14);
  (OverGrpc "", Delete main_id "k", 15);
  (OverHttp, Get main_id "k", 16)].

Lemma server_refines_kv_witness :
  let k := kv_of (cur (@view _ _ mem_observed mem_sample)) in
  fst <$> kv_run (sample_session.*1.*2) k =
    Some [Value "v2" 2; Done; NotFound; Done; Released 2 2; Value "v3" 3; Done; Value "v3" 3] ∧
  @wp _ _ mem_observed _ mem_sample
    (@send_all (String "v") (String "n") _ mem_store letter_parse sample_session) (λ o st',
    match kv_run (sample_session.*1.*2) k with
    | Some (answers, k') => o = Ret (render_all sample_session answers) ∧ kv_of (cur st') ≡ k'
    | None => o = Undef
    end).
Proof.
  intros k. split; [vm_compute; reflexivity|].
  apply (@server_refines_kv _ mem_store mem_observed true mem_store_spec (String "v") (String "n") letter_parse);
    [done|done|apply mem_sample_healthy|vm_compute; reflexivity|exact (proj1 mem_sample_wf)|].
  unfold sample_session. repeat (constructor; [vm_compute; (reflexivity || exact I)|]). constructor.
Defined.
