(* ===== verification/Registry.v ===== *)
(** * The server as a registry of applications and namespaces

    What the administration requests of the HTTP server do, without tables and JSON:
    a map of the registered applications and a map of their namespaces.  [reg_step]
    says what each of the six requests does to it and what it answers, as a relation,
    since the lists come in an order of the database's choosing; [reg_run] is a
    sequence of requests, which ends early when one of them is not answered.
    [http_registry] shows that every sequence of requests is answered as the registry
    allows. *)
From S2P Require Import Prelude Timestamp DataTypes SqliteOrm MemOrm ConfigStore SqliteConfigStore StoreOps StoreInvariants StoreTheorems History NamespaceManager PublishEngine Strings Json Api HttpServer HttpTheorems.
Import NamespaceManager.NamespaceManager HttpSession.

(** ** The specification *)
Record registry := mkRegistry {
  r_apps : gmap string Application;
  r_nss : gmap string Namespace;
}.

Inductive reg_cmd :=
  | Register (id name : string) (description : option string)
  | Show (id : string)
  | ListApps
  | Remove (id : string)
  | AddNamespace (app env : string) (cluster : option string) (name : string)
      (type parent : option string)
  | ListOf (app : string).

Inductive reg_answer :=
  | Created
  | Refused
  | Known (a : Application)
  | Unknown
  | Removed
  | Apps (l : list Application)
  | Namespaces (l : list Namespace).

Definition put_app (a : Application) (g : registry) : registry :=
  mkRegistry (<[app_app_id a := a]> (r_apps g)) (r_nss g).
Definition put_ns (n : Namespace) (g : registry) : registry :=
  mkRegistry (r_apps g) (<[ns_id n := n]> (r_nss g)).
Definition drop_app (id : string) (g : registry) : registry :=
  mkRegistry (delete id (r_apps g)) (r_nss g).

(** The database refuses to orphan a namespace. *)
Definition owner (fk : bool) (id : string) (g : registry) : Prop :=
  fk = true ∧ ∃ i n, r_nss g !! i = Some n ∧ ns_app_id n = id.

(** The namespace a request describes, with the defaults of the handler. *)
Definition described (app env : string) (cluster : option string) (name : string)
    (type parent : option string) (now : Z) : Namespace :=
  mkNamespace (makeNamespaceId app env (default "default" cluster) name) app env
    (default "default" cluster) name (default "private" type) parent (Some false) (getTimestamp now).

(** No answer: the request ends in an exception, which ends the server. *)
Inductive reg_step (fk : bool) (now : Z) (g : registry) :
    reg_cmd → option reg_answer → registry → Prop :=
  | step_register id name descr :
    r_apps g !! id = None →
    reg_step fk now g (Register id name descr) (Some Created)
      (put_app (mkApplication id name descr (getTimestamp now)) g)
  | step_register_refused id name descr a :
    r_apps g !! id = Some a → reg_step fk now g (Register id name descr) (Some Refused) g
  | step_show id :
    reg_step fk now g (Show id)
      (Some match r_apps g !! id with Some a => Known a | None => Unknown end) g
  | step_list l :
    enumerates l (r_apps g) (λ _, True) → reg_step fk now g ListApps (Some (Apps l)) g
  | step_remove id :
    ¬ owner fk id g → reg_step fk now g (Remove id) (Some Removed) (drop_app id g)
  | step_remove_owner id : owner fk id g → reg_step fk now g (Remove id) None g
  | step_add app env cl name ty par a :
    r_apps g !! app = Some a →
    r_nss g !! ns_id (described app env cl name ty par now) = None →
    reg_step fk now g (AddNamespace app env cl name ty par) (Some Created)
      (put_ns (described app env cl name ty par now) g)
  | step_add_refused app env cl name ty par :
    r_apps g !! app = None ∨ is_Some (r_nss g !! ns_id (described app env cl name ty par now)) →
    reg_step fk now g (AddNamespace app env cl name ty par) (Some Refused) g
  | step_list_of app l :
    enumerates l (r_nss g) (λ n, ns_app_id n = app ∧ ns_env n = "" ∧ ns_cluster n = "") →
    reg_step fk now g (ListOf app) (Some (Namespaces l)) g.

(** The answers of a sequence of requests, and whether all were answered. *)
Inductive reg_run (fk : bool) : list (reg_cmd * Z) → registry → list reg_answer → bool → registry → Prop :=
  | run_nil g : reg_run fk [] g [] true g
  | run_cons c now l g a g1 r b g' :
    reg_step fk now g c (Some a) g1 → reg_run fk l g1 r b g' →
    reg_run fk ((c, now) :: l) g (a :: r) b g'
  | run_end c now l g g1 :
    reg_step fk now g c None g1 → reg_run fk ((c, now) :: l) g [] false g1.

(** *** Of the registry alone *)
Record reg_wf (fk : bool) (g : registry) : Prop := {
  rw_apps : map_Forall (λ i a, app_app_id a = i) (r_apps g);
  rw_nss : map_Forall (λ i n, ns_id n = i) (r_nss g);
  rw_owned : fk = true → map_Forall (λ _ n, is_Some (r_apps g !! ns_app_id n)) (r_nss g);
}.

Lemma reg_step_wf fk now g c a g' : reg_step fk now g c a g' → reg_wf fk g → reg_wf fk g'.
Proof.
  intros Hstep [Ha Hn Ho]. destruct Hstep as [id name descr Hid| | | |id Hown| |app env cl name ty par x Hx Hnew| |];
    split; cbn; try done.
  - by apply map_Forall_insert_2.
  - intros Hfk i n Hi. specialize (Ho Hfk i n Hi). cbn in *. rewrite lookup_insert. by case_decide.
  - by apply map_Forall_delete.
  - intros Hfk i n Hi. cbn in *. rewrite lookup_delete_ne; [by eapply Ho|]. intros E. apply Hown. unfold owner. eauto.
  - by apply map_Forall_insert_2.
  - intros Hfk. apply map_Forall_insert_2; [cbn; by rewrite Hx|by apply Ho].
Qed.

Lemma reg_run_wf fk l g r b g' : reg_run fk l g r b g' → reg_wf fk g → reg_wf fk g'.
Proof. induction 1; eauto using reg_step_wf. Qed.

(** What is registered stays until it is removed, and so do its name and its age. *)
Lemma reg_run_stays fk l g r b g' id a :
  reg_run fk l g r b g' → r_apps g !! id = Some a → Remove id ∉ l.*1 → r_apps g' !! id = Some a.
Proof.
  assert (∀ now g c x g', reg_step fk now g c x g' → r_apps g !! id = Some a → c ≠ Remove id →
    r_apps g' !! id = Some a) as Hstep.
  { clear. intros now g c x g'. destruct 1 as [i name descr Hi| | | |i| | | |]; cbn; try done; intros Ha Hc.
    - rewrite lookup_insert_ne; [done|]. congruence.
    - rewrite lookup_delete_ne; [done|]. congruence. }
  induction 1 as [|c now l g x g1 r b g' Hs Hr IH|c now l g g1 Hs]; intros Ha Hin; cbn in *; [done|apply IH|];
    [|set_solver|]; (eapply Hstep; [done..|set_solver]).
Qed.

(** ** The server *)
Definition option_member (k : string) (o : option string) : list (string * json) :=
  match o with Some s => [(k, JString s)] | None => [] end.
Definition app_members (id name : string) (description : option string) : list (string * json) :=
  [("app_id", JString id); ("name", JString name)] ++ option_member "description" description.
Definition ns_members (app env : string) (cluster : option string) (name : string)
    (type parent : option string) : list (string * json) :=
  [("app_id", JString app); ("env", JString env); ("name", JString name)] ++
  option_member "cluster" cluster ++ option_member "type" type ++
  option_member "parent_namespace_id" parent.

Definition reg_json (c : reg_cmd) (a : reg_answer) : json :=
  match c, a with
  | Register id name _, Created => object [("app_id", JString id); ("name", JString name)]
  | Register _ _ _, _ => ApiResponse.error 409 "Application already exists"
  | Show _, Known app => app_json app
  | Show _, _ => ApiResponse.error 404 "Application not found"
  | ListApps, Apps l => object [("applications", JArray (app_json <$> l))]
  | AddNamespace app env cluster name _ _, Created =>
    object [("id", JString (app +:+ "/" +:+ env +:+ "/" +:+ default "default" cluster +:+ "/" +:+ name))]
  | AddNamespace _ _ _ _ _ _, _ => ApiResponse.error 400 "Failed to create namespace"
  | ListOf _, Namespaces l => object [("namespaces", JArray (ns_json <$> l))]
  | _, _ => ApiResponse.success
  end.

(** The id of an application must be one that a target can carry. *)
Definition reg_addressable (c : reg_cmd) : Prop :=
  match c with Show id | Remove id | ListOf id => plain_app id = true | _ => True end.

Section server.
Context (app_body : string → string → option string → string).
Context (ns_body : string → string → option string → string → option string → option string → string).

Definition reg_request (c : reg_cmd) : request :=
  match c with
  | Register id name descr => mkRequest post "/api/v1/apps" (app_body id name descr)
  | Show id => mkRequest get (app_target id) ""
  | ListApps => mkRequest get "/api/v1/apps" ""
  | Remove id => mkRequest delete_ (app_target id) ""
  | AddNamespace app env cl name ty par =>
    mkRequest post "/api/v1/namespaces" (ns_body app env cl name ty par)
  | ListOf app => mkRequest get (namespaces_target app) ""
  end.

Context {T : Type} `{!ConfigStore T} (json_parse : string → option json).

(** The server serves one request after the other; one it does not answer ends it. *)
Fixpoint administer (l : list (reg_cmd * Z)) : M T (list (Z * json) * bool) :=
  match l with
  | [] => mret ([], true)
  | (c, now) :: l =>
    a ← try_catch (r ← route json_parse (reg_request c) now; mret (Some r)) (mret None);
    match a with
    | Some r => '(rs, b) ← administer l; mret (r :: rs, b)
    | None => mret ([], false)
    end
  end.
End server.

Section handlers.
Context {T : Type} `{!ConfigStore T} (json_parse : string → option json).

(** What the handlers read of a body. *)
Lemma app_members_read id name descr (B := object (app_members id name descr)) :
  contains B "app_id" = true ∧ contains B "name" = true ∧
  string_at (S := T) B "app_id" = mret id ∧ string_at (S := T) B "name" = mret name ∧
  optional_at (S := T) B "description" = mret descr ∧
  json_at (S := T) B "app_id" = mret (JString id) ∧ json_at (S := T) B "name" = mret (JString name).
Proof. by destruct descr. Qed.

Lemma ns_members_read app env cl name ty par (B := object (ns_members app env cl name ty par)) :
  string_at (S := T) B "app_id" = mret app ∧ string_at (S := T) B "env" = mret env ∧
  value_or (S := T) B "cluster" "default" = mret (default "default" cl) ∧
  string_at (S := T) B "name" = mret name ∧
  value_or (S := T) B "type" "private" = mret (default "private" ty) ∧
  optional_at (S := T) B "parent_namespace_id" = mret par.
Proof. by destruct cl, ty, par. Qed.

Lemma handleCreateApp_registers b id name descr now (s : T) :
  json_parse b = Some (object (app_members id name descr)) →
  handleCreateApp json_parse b now s =
  (ok ← registerApplication id name descr now;
   mret (if negb ok then ApiResponse.error 409 "Application already exists"
         else object [("app_id", JString id); ("name", JString name)])) s.
Proof.
  intros Hb. destruct (app_members_read id name descr) as (E1 & E2 & E3 & E4 & E5 & E6 & E7).
  unfold handleCreateApp, parse_body. rewrite Hb.
  rewrite bind_ret, E1, E2. cbn [negb orb]. rewrite E3, E4, E5, E6, E7, !bind_ret.
  by apply bind_ext; [|intros [] s1].
Qed.

Lemma handleCreateNamespace_creates b app env cl name ty par now (s : T) :
  json_parse b = Some (object (ns_members app env cl name ty par)) →
  handleCreateNamespace json_parse b now s =
  (ok ← NamespaceManager.createNamespace app env (default "default" cl) name
     (default "private" ty) par now;
   mret (if negb ok then ApiResponse.error 400 "Failed to create namespace"
         else object [("id", JString (app +:+ "/" +:+ env +:+ "/" +:+ default "default" cl +:+ "/" +:+ name))])) s.
Proof.
  intros Hb. destruct (ns_members_read app env cl name ty par) as (E1 & E2 & E3 & E4 & E5 & E6).
  unfold handleCreateNamespace, parse_body. rewrite Hb.
  rewrite bind_ret, E1, E2, E3, E4, E5, E6, !bind_ret.
  by apply bind_ext; [|intros [] s1].
Qed.
End handlers.

(** ** The server implements the registry *)
Definition registry_of (c : content) : registry := mkRegistry (s_apps c) (s_nss c).

Section refinement.
Context {T : Type} `{!ConfigStore T} {O : Observed T Store} {fk : bool}
  `{Hspec : !ConfigStoreSpec T O fk}.
Context (app_body : string → string → option string → string).
Context (ns_body : string → string → option string → string → option string → option string → string).
Context (json_parse : string → option json).
Context (Happ : ∀ id name descr,
  json_parse (app_body id name descr) = Some (object (app_members id name descr))).
Context (Hns : ∀ app env cl name ty par,
  json_parse (ns_body app env cl name ty par) = Some (object (ns_members app env cl name ty par))).
Local Abbreviation reg_request := (reg_request app_body ns_body).
Local Abbreviation administer := (administer app_body ns_body json_parse).

(** An answer, or an exception, that the registry allows. *)
Definition answered {A : Type} (f : reg_answer → A) (c : reg_cmd) (now : Z) (s : T)
    (o : outcome A) (st' : Store) : Prop :=
  ∃ a, reg_step fk now (registry_of (cur (view s))) c a (registry_of (cur st')) ∧
    o = match a with Some a => Ret (f a) | None => Throw end.

Lemma wp_answered {A B : Type} (g : reg_answer → A) (h : A → B) (f : reg_answer → B) c now (m : M T A) (s : T) :
  (∀ a, h (g a) = f a) → wp s m (answered g c now s) → wp s (x ← m; mret (h x)) (answered f c now s).
Proof.
  intros Hf Hm. apply wp_bind. eapply wp_mono; [exact Hm|]. intros o st' (a & Hstep & ->).
  destruct a as [a|]; [|by exists None]. intros s' Hs' <-. apply wp_ret; [done|].
  exists (Some a). by rewrite Hf.
Qed.

Lemma register_answered id name descr now (s : T) :
  ready s →
  wp s (registerApplication id name descr now)
    (answered (λ a, match a with Created => true | _ => false end) (Register id name descr) now s).
Proof.
  intros Hs. eapply wp_ask; [by apply getApplication_spec|]. intros x s1 -> Hs1 Hv1.
  destruct (s_apps (cur (view s)) !! id) as [a|] eqn:E.
  - apply wp_ret; [done|]. eexists (Some Refused). rewrite Hv1. split; [|done]. by econstructor.
  - eapply wp_mono; [by apply createApplication_spec|]. unfold refines, spec_createApplication. cbn.
    rewrite Hv1, E. intros o st' [-> ->]. eexists (Some Created). split; [|done]. by apply step_register.
Qed.

Lemma remove_answered id now (s : T) :
  ready s →
  wp s (removeApplication id) (answered (λ _, true) (Remove id) now s).
Proof.
  intros Hs. eapply wp_mono; [by apply deleteApplication_spec|]. unfold refines, spec_deleteApplication.
  intros o st'. case_decide as Hd; intros [-> ->].
  - exists None. split; [|done]. by apply step_remove_owner.
  - exists (Some Removed). split; [|done]. by apply step_remove.
Qed.

Lemma add_answered app env cl name ty par now (s : T) :
  ready s →
  wp s (NamespaceManager.createNamespace app env (default "default" cl) name (default "private" ty) par now)
    (answered (λ a, match a with Created => true | _ => false end) (AddNamespace app env cl name ty par) now s).
Proof.
  intros Hs. eapply wp_ask; [by apply getApplication_spec|]. intros x s1 -> Hs1 Hv1.
  destruct (s_apps (cur (view s)) !! app) as [a|] eqn:E.
  - eapply wp_mono; [by apply createNamespace_spec|]. unfold refines, spec_createNamespace. cbn.
    rewrite Hv1, E. intros o st'. case_decide as Hd; intros [-> ->].
    + eexists (Some Created). split; [|done]. eapply step_add; [done|]. apply Hd.
    + eexists (Some Refused). split; [|done]. apply step_add_refused. right. cbn.
      destruct (s_nss _ !! _); [done|]. destruct Hd; eauto.
  - apply wp_ret; [done|]. eexists (Some Refused). rewrite Hv1. split; [|done]. apply step_add_refused. by left.
Qed.

(** A query whose answer the registry allows. *)
Lemma query_answered {A : Type} (m : M T A) (R : content → A → Prop) (g : A → reg_answer)
    (f : reg_answer → json) (k : A → json) c now (s : T) :
  wp s m (queries R (view s)) →
  (∀ x, R (cur (view s)) x → k x = f (g x) ∧
    reg_step fk now (registry_of (cur (view s))) c (Some (g x)) (registry_of (cur (view s)))) →
  wp s (x ← m; mret (k x)) (answered f c now s).
Proof.
  intros Hm Hf. eapply wp_ask; [exact Hm|]. intros x s1 Hx Hs1 Hv1. apply wp_ret; [done|].
  destruct (Hf x Hx) as [-> Hstep]. eexists (Some (g x)). by rewrite Hv1.
Qed.

Lemma request_answered c now (s : T) :
  ready s → reg_addressable c →
  wp s (route json_parse (reg_request c) now) (answered (λ a, (200, reg_json c a)) c now s).
Proof.
  intros Hs Hc. destruct c as [id name descr|id| |id|app env cl name ty par|app];
    cbn in Hc |- *; rewrite ?route_app, ?route_app_namespaces by done.
  - change (wp s (ok_json (handleCreateApp json_parse (app_body id name descr) now))
      (answered (λ a, (200, reg_json (Register id name descr) a)) (Register id name descr) now s)).
    eapply (wp_answered (reg_json (Register id name descr))); [done|].
    eapply wp_ext; [by apply handleCreateApp_registers|].
    eapply (wp_answered (λ a, match a with Created => true | _ => false end)
      (λ ok, if negb ok then _ else _)); [by intros []|by apply register_answered].
  - eapply (wp_answered (reg_json (Show id))); [done|].
    eapply wp_mono; [by apply handleGetApp_answer|]. intros ? ? [-> (j & -> & ->)].
    eexists (Some match s_apps (cur (view s)) !! id with Some a => Known a | None => Unknown end).
    split; [by apply step_show|]. by destruct (_ !! id).
  - change (wp s (ok_json handleListApps) (answered (λ a, (200, reg_json ListApps a)) ListApps now s)).
    eapply (wp_answered (reg_json ListApps)); [done|].
    eapply (query_answered _ _ Apps (reg_json ListApps)); [by apply listApplications_spec|].
    intros l Hl. split; [done|]. by apply step_list.
  - eapply (wp_answered (reg_json (Remove id))); [done|].
    by eapply (wp_answered (λ _, true) (λ _, ApiResponse.success)), remove_answered.
  - change (wp s (ok_json (handleCreateNamespace json_parse (ns_body app env cl name ty par) now))
      (answered (λ a, (200, reg_json (AddNamespace app env cl name ty par) a)) (AddNamespace app env cl name ty par) now s)).
    eapply (wp_answered (reg_json (AddNamespace app env cl name ty par))); [done|].
    eapply wp_ext; [by apply handleCreateNamespace_creates|].
    eapply (wp_answered (λ a, match a with Created => true | _ => false end)
      (λ ok, if negb ok then _ else _)); [by intros []|by apply add_answered].
  - eapply (wp_answered (reg_json (ListOf app))); [done|].
    eapply wp_mono; [by apply handleListNamespaces_lists|]. intros ? ? [-> (j & -> & l & -> & Hl)].
    exists (Some (Namespaces l)). split; [by apply step_list_of|done].
Qed.

(** C5: The server administers a registry of applications and namespaces.  Any
    sequence of the six administration requests is answered as the registry allows,
    with the defaults, refusals and lists of [reg_step], up to the first request the
    registry does not answer (the removal of an application that has namespaces,
    where the database enforces foreign keys), which ends in an exception; the
    registry is what the store then holds. *)
Theorem http_registry (l : list (reg_cmd * Z)) (s : T) :
  ready s → Forall (λ x, reg_addressable x.1) l →
  wp s (administer l) (λ o st', ∃ answers all,
    reg_run fk l (registry_of (cur (view s))) answers all (registry_of (cur st')) ∧
    o = Ret (zip_with (λ x a, (200, reg_json x.1 a)) l answers, all)).
Proof.
  intros Hs Hl. revert s Hs. induction Hl as [|[c now] l Hc Hl IH]; intros s Hs; cbn.
  { apply wp_ret; [done|]. exists [], true. split; [constructor|done]. }
  apply wp_bind, wp_try, wp_bind. eapply wp_mono; [by apply request_answered|].
  intros o st' (a & Hstep & ->). destruct a as [a|]; intros s1 Hs1 <-.
  - apply wp_ret; [done|]. intros s2 Hs2 Hv2. apply wp_bind. eapply wp_mono; [by apply IH|].
    intros o st' (r & b & Hrun & ->) s3 Hs3 <-. apply wp_ret; [done|]. rewrite Hv2 in Hrun.
    exists (a :: r), b. split; [by econstructor|done].
  - apply wp_ret; [done|]. intros s2 Hs2 Hv2. apply wp_ret; [done|]. exists [], false.
    rewrite Hv2. split; [by econstructor|done].
Qed.
End refinement.

(** ** Witness: bodies that spell their fields

    A character is written after an [x], a field ends with a dot, and a field that
    is missing is a dash. *)
Fixpoint spell (s : string) : string :=
  match s with EmptyString => "." | String c s => String "x" (String c (spell s)) end.
Definition spell_field (o : option string) : string :=
  match o with Some s => spell s | None => "-" end.
Definition spell_fields (l : list (option string)) : string := foldr (λ o t, spell_field o +:+ t) "" l.

Fixpoint unspell (field : string → string) (s : string) : list (option string) :=
  match s with
  | String "-" s => None :: unspell id s
  | String "." s => Some (field "") :: unspell id s
  | String _ (String c s) => unspell (λ t, field (String c t)) s
  | _ => []
  end.

Lemma unspell_spell s field t : unspell field (spell s +:+ t) = Some (field s) :: unspell id t.
Proof. revert field. induction s as [|c s IH]; intros field; [done|]. cbn [spell]. rewrite !str_app_cons. apply IH. Qed.
Lemma unspell_fields l : unspell id (spell_fields l) = l.
Proof.
  induction l as [|[s|] l IH]; [done|..]; cbn [spell_fields foldr spell_field].
  - rewrite unspell_spell. by f_equal.
  - rewrite str_app_cons. cbn. by f_equal.
Qed.

Definition spelled_app (id name : string) (descr : option string) : string :=
  String "a" (spell_fields [Some id; Some name; descr]).
Definition spelled_ns (app env : string) (cl : option string) (name : string) (ty par : option string) : string :=
  String "n" (spell_fields [Some app; Some env; cl; Some name; ty; par]).
Definition spelled_parse (b : string) : option json :=
  match b with
  | String "a" b =>
    match unspell id b with
    | [Some id; Some name; descr] => Some (object (app_members id name descr))
    | _ => None
    end
  | String "n" b =>
    match unspell id b with
    | [Some app; Some env; cl; Some name; ty; par] => Some (object (ns_members app env cl name ty par))
    | _ => None
    end
  | _ => None
  end.

Definition admin_session : list (reg_cmd * Z) := [
  (Register "app" "Again" None, 9);
  (Register "b" "Second" (Some "the second"), 10);
  (AddNamespace "b" "dev" None "main" None (Some main_id), 11);
  (AddNamespace "b" "dev" (Some "default") "main" None None, 12);
  (ListOf "b", 13);
  (Show "b", 14);
  (Show "c", 15);
  (Remove "app", 16);
  (ListApps, 17)].

(** The last request is not made: the one before it ended the server. *)
Lemma http_registry_witness :
  let run := @administer spelled_app spelled_ns _ mem_store spelled_parse admin_session in
  (run mem_sample).1 = Ret (zip_with (λ x a, (200, reg_json x.1 a)) admin_session
    [Refused; Created; Created; Refused; Namespaces [];
     Known (mkApplication "b" "Second" (Some "the second") (getTimestamp 10)); Unknown], false) ∧
  @wp _ _ mem_observed _ mem_sample run (λ o st', ∃ answers all,
    reg_run true admin_session (registry_of (cur (@view _ _ mem_observed mem_sample))) answers all
      (registry_of (cur st')) ∧
    o = Ret (zip_with (λ x a, (200, reg_json x.1 a)) admin_session answers, all)).
Proof.
  split; [vm_compute; reflexivity|].
  apply (@http_registry _ mem_store mem_observed true mem_store_spec spelled_app spelled_ns spelled_parse);
    [intros; unfold spelled_parse, spelled_app; by rewrite unspell_fields
    |intros; unfold spelled_parse, spelled_ns; by rewrite unspell_fields
    |apply mem_sample_healthy|].
  unfold admin_session. repeat (constructor; [vm_compute; (reflexivity || exact I)|]). constructor.
Defined.
