(* ===== verification/HttpErrors.v ===== *)
(** * Which requests end the HTTP server

    No handler of [HttpSession] catches an exception, and one that leaves a handler
    ends the process ([Server]).  [fatal] says which requests raise one, on a
    connection whose statements do not fail: from the kind of the request, what its
    body holds, and what the store holds.  [request_ends_server] shows that these are
    all, and that they leave the store as it was. *)
From S2P Require Import Prelude Timestamp DataTypes SqliteOrm MemOrm ConfigStore SqliteConfigStore StoreOps StoreInvariants StoreTheorems History NamespaceManager PublishEngine Strings Json Api HttpServer HttpTheorems Concurrency ConcurrencyTheorems Scripts ConfigParser Server.
Import NamespaceManager.NamespaceManager HttpSession Server.Loop.

(** ** The specification *)

(** What a request asks for, as far as its exceptions go: a body that nobody reads, or
    one with the fields of its kind. *)
Inductive kind :=
  | Bodiless
  | Removal (app : string)
  | Login
  | NewApplication
  | NewNamespace
  | NewValue
  | NewRelease.

Definition kind_of (req : request) : kind :=
  let target := req_target req in
  let method := req_method req in
  if bool_decide (target = "/api/v1/auth/login" ∧ method = post) then Login
  else if bool_decide (target = "/api/v1/apps") then
    match method with post => NewApplication | _ => Bodiless end
  else if begins "/api/v1/apps/" target then
    if includes "/namespaces" target then Bodiless
    else match method with delete_ => Removal (extractPathParam target "/api/v1/apps/" "") | _ => Bodiless end
  else if bool_decide (target = "/api/v1/namespaces" ∧ method = post) then NewNamespace
  else if begins "/api/v1/namespaces/" target then
    if includes "/keys/" target then match method with put => NewValue | _ => Bodiless end
    else if includes "/publish" target then NewRelease
    else Bodiless
  else Bodiless.

Definition has_string (b : json) (k : string) : bool :=
  match b with
  | JObject m => match m !! k with Some (JString _) => true | _ => false end
  | _ => false
  end.
Definition may_have_string (b : json) (k : string) : bool :=
  match b with
  | JObject m => match m !! k with None | Some (JString _) => true | _ => false end
  | _ => false
  end.

(** The bodies a handler can read; an application without its fields is refused
    without an exception. *)
Definition acceptable (k : kind) (body : option json) : bool :=
  match k, body with
  | Bodiless, _ | Removal _, _ => true
  | _, None => false
  | Login, Some _ => true
  | NewApplication, Some b =>
    negb (contains b "app_id") || negb (contains b "name") ||
    has_string b "app_id" && has_string b "name" && may_have_string b "description"
  | NewNamespace, Some b =>
    has_string b "app_id" && has_string b "env" && may_have_string b "cluster" &&
    has_string b "name" && may_have_string b "type" && may_have_string b "parent_namespace_id"
  | NewValue, Some b => has_string b "value"
  | NewRelease, Some b => may_have_string b "release_note"
  end.

Definition fatal (fk : bool) (body : option json) (k : kind) (st : Store) : Prop :=
  acceptable k body = false ∨
  match k with
  | Removal app => fk = true ∧ referenced app (cur st)
  | NewRelease => saved st ≠ None
  | _ => False
  end.
#[export] Instance fatal_dec fk body k st : Decision (fatal fk body k st).
Proof. unfold fatal. destruct k; apply _. Defined.

(** ** Reading a body *)
Section reading.
Context {T : Type}.

(** A member is read, or the read throws. *)
Lemma string_at_cases b k :
  if has_string b k then ∃ v, string_at (S := T) b k = mret v else string_at (S := T) b k = throw.
Proof.
  unfold string_at, json_at, has_string. destruct b as [| | | | | |m]; try done.
  destruct (m !! k) as [[]|]; try done. by eexists.
Qed.
Lemma value_or_cases b k d :
  if may_have_string b k then ∃ v, value_or (S := T) b k d = mret v else value_or (S := T) b k d = throw.
Proof.
  unfold value_or, may_have_string. destruct b as [| | | | | |m]; try done.
  destruct (m !! k) as [[]|]; try done; by eexists.
Qed.
(** An optional member of what is an object. *)
Lemma optional_at_cases b k k' :
  has_string b k' = true →
  if may_have_string b k then ∃ v, optional_at (S := T) b k = mret v else optional_at (S := T) b k = throw.
Proof.
  unfold optional_at, contains, string_at, json_at, may_have_string. destruct b as [| | | | | |m]; try done. intros _.
  destruct (m !! k) as [[]|] eqn:E; rewrite ?bool_decide_true, ?bool_decide_false by (rewrite ?E; eauto); try done;
    by eexists.
Qed.
End reading.

(** ** What never throws *)
Section safe.
Context {T : Type} `{!ConfigStore T} {O : Observed T Store} {fk : bool}
  `{Hspec : !ConfigStoreSpec T O fk}.

Definition safe {A : Type} (m : M T A) : Prop := ∀ s, ready s → wp s m (λ o _, o ≠ Throw).

Lemma safe_ret {A : Type} (a : A) : safe (mret a).
Proof. intros s Hs. by apply wp_ret. Qed.
Lemma safe_bind {A B : Type} (m : M T A) (k : A → M T B) : safe m → (∀ a, safe (k a)) → safe (m ≫= k).
Proof.
  intros Hm Hk s Hs. apply wp_bind. eapply wp_mono; [by apply Hm|]. intros [a| |] st' Ho; [|done..].
  intros s' Hs' _. by apply Hk.
Qed.
Lemma safe_refines {A : Type} (m : M T A) (f : M content A) :
  (∀ s, ready s → wp s m (refines f (view s))) → (∀ c, (f c).1 ≠ Throw) → safe m.
Proof.
  intros Hm Hf s Hs. eapply wp_mono; [by apply Hm|]. unfold refines. intros o st'.
  specialize (Hf (cur (view s))). destruct (f (cur (view s))) as [[a| |] c']; [intros [-> _]|done|intros ->]; done.
Qed.
Lemma safe_queries {A : Type} (m : M T A) (R : content → A → Prop) :
  (∀ s, ready s → wp s m (queries R (view s))) → safe m.
Proof. intros Hm s Hs. eapply wp_mono; [by apply Hm|]. by intros o st' [_ (a & -> & _)]. Qed.

Lemma createApplication_safe a : safe (createApplication a).
Proof. eapply safe_refines; [by apply createApplication_spec|]. intros c. unfold spec_createApplication. by case_match. Qed.
Lemma getApplication_safe i : safe (ConfigStore.getApplication i).
Proof. eapply safe_queries. by apply getApplication_spec. Qed.
Lemma listApplications_safe : safe ConfigStore.listApplications.
Proof. eapply safe_queries. by apply listApplications_spec. Qed.
Lemma createNamespace_safe n : safe (ConfigStore.createNamespace n).
Proof. eapply safe_refines; [by apply createNamespace_spec|]. intros c. unfold spec_createNamespace. by case_decide. Qed.
Lemma listNamespaces_safe a e c : safe (ConfigStore.listNamespaces a e c).
Proof. eapply safe_queries. by apply listNamespaces_spec. Qed.
Lemma createConfig_safe ns key v opr now : safe (createConfig ns key v opr now).
Proof. eapply safe_refines; [by apply createConfig_spec|]. intros c. unfold spec_createConfig. by case_match. Qed.
Lemma updateConfig_safe ns key v opr d now : safe (updateConfig ns key v opr d now).
Proof.
  eapply safe_refines; [by apply updateConfig_spec|]. intros c. unfold spec_updateConfig.
  case_match; [by case_decide|done].
Qed.
Lemma deleteConfig_safe ns key opr d now : safe (deleteConfig ns key opr d now).
Proof. by eapply safe_refines; [by apply deleteConfig_spec|]. Qed.
Lemma getConfig_safe ns key i : safe (getConfig ns key i).
Proof. by eapply safe_refines; [by apply getConfig_spec|]. Qed.
Lemma getReleases_safe ns : safe (getReleases (release_query ns)).
Proof. eapply safe_queries. by apply getReleases_page. Qed.

Create HintDb safe.
#[local] Hint Resolve safe_ret createApplication_safe getApplication_safe listApplications_safe
  createNamespace_safe listNamespaces_safe createConfig_safe updateConfig_safe deleteConfig_safe
  getConfig_safe getReleases_safe : safe.
Local Ltac safely :=
  repeat first
    [ match goal with |- ∀ _, _ => intros ? end
    | match goal with |- safe (match ?x with _ => _ end) => destruct x end
    | apply safe_bind | solve [eauto with safe] ].

(** ** The handlers *)
Context (json_parse : string → option json).

(** A handler that can read the body does not throw, and one that cannot does nothing else. *)
Definition ends_as {A : Type} (ok : bool) (m : M T A) : Prop := if ok then safe m else m = throw.

(** One more member is read, here and wherever it is read again. *)
Local Ltac reading lem :=
  let H := fresh in let E := fresh "E" in
  pose proof lem as H; case_match eqn:E; [destruct H as [? H]; rewrite !H, ?bind_ret|by rewrite H].

Lemma handleSetConfig_ends ns key b now :
  ends_as (acceptable NewValue (json_parse b)) (handleSetConfig json_parse ns key b now).
Proof.
  unfold handleSetConfig, parse_body. destruct (json_parse b) as [j|]; [|done]. rewrite bind_ret. cbn.
  reading (string_at_cases (T := T) j "value"). cbn. safely.
Qed.

Lemma handleCreateNamespace_ends b now :
  ends_as (acceptable NewNamespace (json_parse b)) (handleCreateNamespace json_parse b now).
Proof.
  unfold handleCreateNamespace, parse_body. destruct (json_parse b) as [j|]; [|done]. rewrite bind_ret.
  unfold acceptable.
  reading (string_at_cases (T := T) j "app_id"). reading (string_at_cases (T := T) j "env").
  reading (value_or_cases (T := T) j "cluster" "default"). reading (string_at_cases (T := T) j "name").
  reading (value_or_cases (T := T) j "type" "private").
  reading (optional_at_cases (T := T) j "parent_namespace_id" "app_id" ltac:(done)).
  unfold NamespaceManager.createNamespace. cbn. safely.
Qed.

Lemma handleCreateApp_ends b now :
  ends_as (acceptable NewApplication (json_parse b)) (handleCreateApp json_parse b now).
Proof.
  unfold handleCreateApp, parse_body. destruct (json_parse b) as [j|]; [|done]. rewrite bind_ret.
  unfold acceptable. destruct (negb (contains j "app_id") || negb (contains j "name")) eqn:Ec; cbn [orb]; [apply safe_ret|].
  assert (∀ k, has_string j k = true → ∃ x, json_at (S := T) j k = mret x) as Hat.
  { intros k. destruct j; try done. by eexists. }
  reading (string_at_cases (T := T) j "app_id"). reading (string_at_cases (T := T) j "name").
  reading (optional_at_cases (T := T) j "description" "app_id" ltac:(done)).
  destruct (Hat "app_id") as [y1 F1]; [done|]. destruct (Hat "name") as [y2 F2]; [done|]. rewrite F1, F2.
  unfold registerApplication. cbn. safely.
Qed.

(** [m] throws exactly when a request of kind [k] with the body [b] is fatal, and does
    nothing else then. *)
Definition throws_as {A : Type} (k : kind) (b : string) (s : T) (m : M T A) : Prop :=
  wp s m (λ o st', if decide (fatal fk (json_parse b) k (view s)) then o = Throw ∧ st' = view s else o ≠ Throw).

Lemma handleDeleteApp_ends id b s : ready s → throws_as (Removal id) b s (handleDeleteApp id).
Proof.
  intros Hs. apply wp_bind. eapply wp_mono; [by apply deleteApplication_spec|].
  unfold refines, spec_deleteApplication. intros o st'. case_decide as Hd.
  - intros [-> ->]. rewrite decide_True by by right. by destruct (view s).
  - intros [-> _] s1 Hs1 _. apply wp_ret; [done|]. rewrite decide_False; [done|]. by intros [|].
Qed.

Lemma handlePublish_ends ns b now s :
  ready s → throws_as NewRelease b s (handlePublish json_parse ns b now).
Proof.
  intros Hs. unfold throws_as, handlePublish, parse_body.
  assert (∀ k, fatal fk (json_parse b) NewRelease (view s) → k = throw →
    wp s k (λ (o : outcome json) st', if decide (fatal fk (json_parse b) NewRelease (view s))
      then o = Throw ∧ st' = view s else o ≠ Throw)) as Hthrow.
  { intros k Hf ->. exists Throw, s. by rewrite decide_True. }
  destruct (json_parse b) as [j|]; [|apply Hthrow; [by left|done]]. rewrite bind_ret.
  pose proof (value_or_cases (T := T) j "release_note" "") as Hn.
  destruct (may_have_string j "release_note") eqn:En; [|apply Hthrow; [by left|by rewrite Hn]].
  destruct Hn as [v ->]. rewrite bind_ret. apply wp_bind. eapply wp_mono; [by apply publishRelease_spec|].
  intros o st'. destruct (saved (view s)) as [c|] eqn:Esv.
  - intros [-> ->]. rewrite decide_True; [done|]. right. by rewrite Esv.
  - assert (¬ fatal fk (Some j) NewRelease (view s)) as Hf by (intros [Hf|Hf]; cbn in Hf; congruence).
    unfold refines, spec_publishRelease. destruct (decide (in_int32 _)) as [Hv|Hv].
    + intros [-> _] s1 Hs1 _. apply wp_ret; [done|]. by rewrite decide_False.
    + intros ->. by rewrite decide_False.
Qed.

(** ** The router *)

Lemma ok_json_throws k b s (m : M T json) : throws_as k b s m → throws_as k b s (ok_json m).
Proof.
  intros Hm. apply wp_ok_json. eapply wp_mono; [exact Hm|]. intros [a| |] v; case_decide; naive_solver.
Qed.

Lemma ends_throws {A : Type} k b s (m : M T A) :
  ready s → ends_as (acceptable k (json_parse b)) m →
  match k with Removal _ | NewRelease => False | _ => True end → throws_as k b s m.
Proof.
  intros Hs Hm Hk. unfold throws_as. destruct (decide _) as [Hf|Hf].
  - assert (acceptable k (json_parse b) = false) as E by (destruct Hf as [|Hf]; [done|by destruct k]).
    rewrite E in Hm. rewrite Hm. by exists Throw, s.
  - destruct (acceptable k (json_parse b)) eqn:E; [by apply Hm|]. destruct Hf. by left.
Qed.
Lemma safe_throws {A : Type} b s (m : M T A) : ready s → safe m → throws_as Bodiless b s m.
Proof. intros Hs Hm. by apply ends_throws. Qed.

Lemma route_ends req now s :
  ready s → req_target req ≠ "/health" →
  throws_as (kind_of req) (req_body req) s (route json_parse req now).
Proof.
  intros Hs Hh. unfold kind_of, route. rewrite (bool_decide_false (_ = "/health")) by done.
  repeat case_match; try done.
  all: first [apply safe_throws; [done|apply safe_ret] | apply ok_json_throws].
  all: first [apply ends_throws; [done| |done] | idtac].
  all: try first [apply handleCreateApp_ends|apply handleCreateNamespace_ends|apply handleSetConfig_ends].
  all: try (unfold ends_as, acceptable, handleListApps, NamespaceManager.listApplications, handleListNamespaces,
    handleGetApp, NamespaceManager.getApplication, handleGetConfig, handleDeleteConfig, handleGetReleases; by safely).
  - unfold handleLogin, parse_body. destruct (json_parse _); [apply safe_ret|done].
  - by apply handleDeleteApp_ends.
  - by apply handlePublish_ends.
Qed.
End safe.

(** ** The server *)
Section server.
Context {T : Type} `{!ConfigStore T} {O : Observed T Store} {fk : bool}
  `{Hspec : !ConfigStoreSpec T O fk}.
Context (json_parse : string → option json) (json_dump : json → option string).
Context (workers : nat) (clients : request → Prop).
Local Abbreviation steps := (steps json_parse json_dump workers clients anyhow).
Local Abbreviation received := (received json_parse json_dump).

(** C28: These requests end the HTTP server, and no others do.  On a store whose statements
    do not fail, a request whose body its handler cannot read (no JSON, a member that is
    missing or is no string), the removal of an application that has namespaces, where
    the database enforces foreign keys, and a publication while a transaction is open
    terminate the process, with the store as it was and no step after it; any other
    request terminates it only if the text of an answer cannot be made.  (The request is
    read by a free worker and no call of another handler falls between its own.) *)
Theorem request_ends_server (l : loop) i req now :
  free workers l → clients req → sessions l !! i = Some Reading →
  ready (store l) → req_target req ≠ "/health" →
  let l' := received i req now l in
  steps l [(i, req, now)] l' ∧
  if decide (fatal fk (json_parse (req_body req)) (kind_of req) (view (store l)))
  then status_of l' = Terminated ∧ view (store l') = view (store l) ∧
    ∀ tr l'', steps l' tr l'' → l'' = l'
  else status_of l' = Terminated → ∃ j, json_dump j = None.
Proof.
  intros Hfree Hc Hi Hr Hh l'. split; [by apply received_steps|]. destruct Hfree as [Hst _].
  destruct (route_ends json_parse req now (store l) Hr Hh) as (o & t & E & _ & Ho).
  unfold l', Loop.received, HttpSession.handleRequest.
  case_decide as Hf.
  - destruct Ho as [-> Hv]. unfold mbind, M_bind. rewrite E. split_and!; [done..|].
    intros tr l''. by apply steps_final.
  - unfold mbind, M_bind. rewrite E. destruct o as [[st j]| |]; [|done..].
    unfold sendResponse. cbn. destruct (json_dump j) eqn:Ej; cbn; [congruence|]. by exists j.
Qed.
End server.

(** ** Witness: the DELETE of an application that has a namespace *)
Definition one_session : loop := accepted true (start mem_sample).
Definition delete_app : request := mkRequest delete_ (app_target "app") "".
Local Abbreviation sample_received := (@received _ mem_store sample_parse sample_dump).

Lemma one_session_ready : @ready _ _ mem_observed (store one_session).
Proof. exact mem_sample_healthy. Qed.
Lemma one_session_free : free 2 one_session.
Proof. split; [done|]. apply Nat.ltb_lt. vm_compute. reflexivity. Qed.

Lemma request_ends_server_witness :
  let l' := sample_received 0%nat delete_app 9 one_session in
  @steps _ mem_store sample_parse sample_dump 2 anyone anyhow one_session [(0%nat, delete_app, 9)] l' ∧
  status_of l' = Terminated ∧
  @view _ _ mem_observed (store l') = @view _ _ mem_observed (store one_session) ∧
  ∀ tr l'', @steps _ mem_store sample_parse sample_dump 2 anyone anyhow l' tr l'' → l'' = l'.
Proof.
  pose proof (@request_ends_server _ mem_store mem_observed true mem_store_spec sample_parse sample_dump
    2%nat anyone one_session 0 delete_app 9 one_session_free I eq_refl one_session_ready ltac:(done)) as [Hstep Hend].
  rewrite decide_True in Hend; [by split|].
  apply (bool_decide_unpack _). vm_compute. exact I.
Defined.

(** The other causes; and a request that does not end the server. *)
Example fatal_bodies :
  let fatal_on r b := bool_decide (fatal true b (kind_of r) (@view _ _ mem_observed mem_sample)) in
  fatal_on (mkRequest put (keys_target main_id "k") "") (Some (object [("value", JInt 3)])) = true ∧
  fatal_on (mkRequest post "/api/v1/apps" "") (Some (object [("app_id", JNull); ("name", JString "n")])) = true ∧
  fatal_on (mkRequest post "/api/v1/apps" "") (Some (object [("name", JInt 1)])) = false ∧
  fatal_on (mkRequest get (publish_target main_id) "") None = true ∧
  fatal_on (mkRequest delete_ (app_target "other") "") None = false.
Proof. vm_compute. done. Qed.
