(* ===== verification/MysqlPool.v ===== *)
(** * The connection pool of the MySQL store

    [MysqlConnectionPool] of [src/storage/mysql_config_store.cpp].  A method of
    the store is a program ([prog]): a finite tree of the calls it makes on the
    pool and on a connection, each with what happens for every answer.
    [MysqlConnection] has no implementation in the repository, so the answers are
    a parameter: [serve c r] is what the request [r] on the connection [c] answers
    (a reply, or an exception) and does to the world.

    A program runs alone ([exec]; [None] is a call that waits for a connection
    nobody returns) or as one of several threads ([step]), with the mutex and the
    condition variable of the pool.  [uses] is a typing of programs by the
    connection they hold: programs of that type never share a connection
    ([pool_exclusive]) and are not left waiting ([pool_live]), and no schedule runs
    forever ([schedules_end]). *)
From S2P Require Import Prelude.

Definition conn := nat.

Inductive req :=
  | Connect (host : string) (port : Z) (user password database : string)
  | Execute (sql : string)
  | Query (sql : string)
  | BeginTransaction
  | Commit
  | Rollback
  | IsConnected
  | Close.

(** The result of the call, and the rows a query fills in. *)
Record reply := mkReply { ok : bool; rows : list (list string) }.

Class Server (W : Type) := serve : conn → req → W → outcome reply * W.

(** ** Programs *)
Inductive prog (A : Type) :=
  | Done (o : outcome A)
  | Acquire (k : conn → prog A)
  | GiveBack (c : conn) (p : prog A)
  | Send (c : conn) (r : req) (k : outcome reply → prog A).
Arguments Done {A} o.
Arguments Acquire {A} k.
Arguments GiveBack {A} c p.
Arguments Send {A} c r k.

#[export] Instance prog_ret : MRet prog := λ A a, Done (Ret a).
#[export] Instance prog_bind : MBind prog := λ A B f,
  fix bind (p : prog A) : prog B :=
    match p with
    | Done (Ret a) => f a
    | Done Throw => Done Throw
    | Done Undef => Done Undef
    | Acquire k => Acquire (λ c, bind (k c))
    | GiveBack c p => GiveBack c (bind p)
    | Send c r k => Send c r (λ o, bind (k o))
    end.

(** [try { p } catch (...) { h }] *)
Fixpoint prog_catch {A : Type} (p h : prog A) : prog A :=
  match p with
  | Done Throw => h
  | Done o => Done o
  | Acquire k => Acquire (λ c, prog_catch (k c) h)
  | GiveBack c p => GiveBack c (prog_catch p h)
  | Send c r k => Send c r (λ o, prog_catch (k o) h)
  end.

Definition acquire : prog conn := Acquire (λ c, mret c).
Definition release (c : conn) : prog () := GiveBack c (mret ()).
Definition send (c : conn) (r : req) : prog reply := Send c r Done.
Definition execute (c : conn) (sql : string) : prog bool := r ← send c (Execute sql); mret (ok r).
Definition query (c : conn) (sql : string) : prog (list (list string)) :=
  r ← send c (Query sql); mret (rows r).

(** ** One program *)
Section exec.
Context {W : Type} `{!Server W}.

(** [pool_] is the queue of the connections that are not in use. *)
Record mysql := mkMysql { pool_ : list conn; world : W }.

Fixpoint exec {A : Type} (p : prog A) (s : mysql) : option (outcome A * mysql) :=
  match p with
  | Done o => Some (o, s)
  | Acquire k =>
    match pool_ s with
    | [] => None
    | c :: q => exec (k c) (mkMysql q (world s))
    end
  | GiveBack c p => exec p (mkMysql (pool_ s ++ [c]) (world s))
  | Send c r k => let '(o, w) := serve c r (world s) in exec (k o) (mkMysql (pool_ s) w)
  end.

(** The constructor: [poolSize] connections, connected one after the other, the
    results not looked at; an exception leaves it. *)
Fixpoint connect_all (l : list conn) (host : string) (port : Z) (user password database : string)
    : M W () :=
  match l with
  | [] => mret ()
  | c :: l =>
    _ ← serve c (Connect host port user password database);
    connect_all l host port user password database
  end.
Definition MysqlConnectionPool (poolSize : nat) (host : string) (port : Z)
    (user password database : string) : M W (list conn) :=
  _ ← connect_all (seq 0 poolSize) host port user password database;
  mret (seq 0 poolSize).

(** The destructor: closes the connections that are in the pool. *)
Fixpoint destroy (pool : list conn) : M W () :=
  match pool with
  | [] => mret ()
  | c :: pool => _ ← serve c Close; destroy pool
  end.
End exec.
Arguments mysql : clear implicits.

(** ** Threads *)
Section threads.
Context {W : Type} `{!Server W}.

(** A thread runs, sleeps in [cv_.wait], or was woken and has to look again. *)
Inductive tstate :=
  | Running (p : prog ())
  | Waiting (k : conn → prog ())
  | Woken (k : conn → prog ()).

Record system := mkSystem { pool : list conn; threads : list tstate; env : W }.

Definition update (s : system) (i : nat) (t : tstate) (q : list conn) (w : W) : system :=
  mkSystem q (<[i := t]> (threads s)) w.

Inductive step : system → system → Prop :=
  (* [acquire] with a connection in the queue *)
  | step_acquire i k c q s :
      threads s !! i = Some (Running (Acquire k)) → pool s = c :: q →
      step s (update s i (Running (k c)) q (env s))
  (* [acquire] has to wait *)
  | step_wait i k s :
      threads s !! i = Some (Running (Acquire k)) → pool s = [] →
      step s (update s i (Waiting k) [] (env s))
  (* a woken thread evaluates the predicate again *)
  | step_resume i k c q s :
      threads s !! i = Some (Woken k) → pool s = c :: q →
      step s (update s i (Running (k c)) q (env s))
  | step_sleep i k s :
      threads s !! i = Some (Woken k) → pool s = [] →
      step s (update s i (Waiting k) [] (env s))
  (* [release] and [notify_one]: a sleeping thread is woken, if there is one *)
  | step_release_notify i c p j k s :
      threads s !! i = Some (Running (GiveBack c p)) → threads s !! j = Some (Waiting k) →
      step s (update (update s i (Running p) (pool s ++ [c]) (env s)) j (Woken k) (pool s ++ [c]) (env s))
  | step_release i c p s :
      threads s !! i = Some (Running (GiveBack c p)) →
      (∀ j k, threads s !! j ≠ Some (Waiting k)) →
      step s (update s i (Running p) (pool s ++ [c]) (env s))
  (* a request on a connection *)
  | step_send i c r k s o w :
      threads s !! i = Some (Running (Send c r k)) → serve c r (env s) = (o, w) →
      step s (update s i (Running (k o)) (pool s) w).

(** A condition variable may wake a thread for no reason. *)
Inductive spurious : system → system → Prop :=
  | spurious_wake i k s :
      threads s !! i = Some (Waiting k) → spurious s (update s i (Woken k) (pool s) (env s)).

Definition any_step (s s' : system) : Prop := step s s' ∨ spurious s s'.

Definition start (conns : list conn) (ps : list (prog ())) (w : W) : system :=
  mkSystem conns (Running <$> ps) w.
Definition reachable (conns : list conn) (ps : list (prog ())) (w : W) : system → Prop :=
  rtc any_step (start conns ps w).
End threads.
Arguments system : clear implicits.

(** ** Typing by the connection held

    [uses p h Q E]: started with the connection [h] (or none), [p] sends only on
    the connection it holds, acquires only when it holds none, and releases only
    what it holds; it holds [Q a] when it returns [a], and [E] holds of what
    it holds when it throws. *)
Fixpoint uses {A : Type} (p : prog A) (h : option conn) (Q : A → option conn)
    (E : option conn → Prop) : Prop :=
  match p with
  | Done (Ret a) => Q a = h
  | Done Throw => E h
  | Done Undef => True
  | Acquire k => h = None ∧ ∀ c, uses (k c) (Some c) Q E
  | GiveBack c p => h = Some c ∧ uses p None Q E
  | Send c _ k => h = Some c ∧ ∀ o, uses (k o) h Q E
  end.

(** A method: it gives back what it took, unless an exception leaves it. *)
Definition well_behaved {A : Type} (p : prog A) : Prop := uses p None (λ _, None) (λ _, True).

Lemma uses_mono {A : Type} (p : prog A) h (Q : A → option conn) (E E' : option conn → Prop) :
  (∀ h', E h' → E' h') → uses p h Q E → uses p h Q E'.
Proof.
  intros HE. revert h. induction p as [[a| |]|k IH|c p IH|c r k IH]; intros h; cbn; naive_solver.
Qed.

Lemma uses_bind {A B : Type} (p : prog A) (f : A → prog B) h (Q : A → option conn)
    (R : B → option conn) (E : option conn → Prop) :
  uses p h Q E → (∀ a, uses (f a) (Q a) R E) → uses (p ≫= f) h R E.
Proof.
  intros Hp Hf. revert h Hp. induction p as [[a| |]|k IH|c p IH|c r k IH]; intros h; cbn.
  - intros <-. apply Hf.
  - done.
  - done.
  - intros [-> Hk]. split; [done|]. intros c. by apply IH.
  - intros [-> Hp]. split; [done|]. by apply IH.
  - intros [-> Hk]. split; [done|]. intros o. by apply IH.
Qed.

Lemma uses_catch {A : Type} (p q : prog A) h (Q : A → option conn) (E E' : option conn → Prop) :
  uses p h Q E → (∀ h', E h' → uses q h' Q E') → uses (prog_catch p q) h Q E'.
Proof.
  intros Hp Hq. revert h Hp. induction p as [[a| |]|k IH|c p IH|c r k IH]; intros h; cbn.
  - done.
  - apply Hq.
  - done.
  - intros [-> Hk]. split; [done|]. intros c. by apply IH.
  - intros [-> Hp]. split; [done|]. by apply IH.
  - intros [-> Hk]. split; [done|]. intros o. by apply IH.
Qed.

Lemma uses_ret {A : Type} (a : A) h Q E : Q a = h → uses (mret a) h Q E.
Proof. done. Qed.
Lemma uses_acquire E : uses acquire None Some E.
Proof. by split. Qed.
Lemma uses_release c E : uses (release c) (Some c) (λ _, None) E.
Proof. by split. Qed.
Lemma uses_send c r (E : option conn → Prop) : E (Some c) → uses (send c r) (Some c) (λ _, Some c) E.
Proof. intros HE. split; [done|]. by intros [| |]. Qed.
Lemma uses_execute c sql (E : option conn → Prop) :
  E (Some c) → uses (execute c sql) (Some c) (λ _, Some c) E.
Proof. intros HE. eapply uses_bind; [by apply uses_send|done]. Qed.
Lemma uses_query c sql (E : option conn → Prop) :
  E (Some c) → uses (query c sql) (Some c) (λ _, Some c) E.
Proof. intros HE. eapply uses_bind; [by apply uses_send|done]. Qed.
(** A computation that makes no calls. *)
Lemma uses_done {A : Type} (o : outcome A) h (E : option conn → Prop) : E h → uses (Done o) h (λ _, h) E.
Proof. by destruct o. Qed.
Create HintDb uses.
#[export] Hint Resolve uses_acquire uses_release uses_send uses_execute uses_query uses_done : uses.

(** ** One program leaves the pool as it found it, but for the order *)
Lemma exec_uses {W : Type} `{!Server W} {A : Type} (p : prog A) h Q E (s s' : mysql W) o all :
  uses p h Q E → option_list h ++ pool_ s ≡ₚ all → exec p s = Some (o, s') →
  match o with
  | Ret a => option_list (Q a) ++ pool_ s' ≡ₚ all
  | Throw => ∃ h', E h' ∧ option_list h' ++ pool_ s' ≡ₚ all
  | Undef => True
  end.
Proof.
  revert h s. induction p as [[a| |]|k IH|c p IH|c r k IH]; intros h s Hu Hall Hx; cbn in Hx.
  - injection Hx as <- <-. cbn in Hu. by rewrite Hu.
  - injection Hx as <- <-. eauto.
  - by injection Hx as <- <-.
  - destruct Hu as [-> Hk]. destruct (pool_ s) as [|c q] eqn:Ep; [done|].
    exact (IH c _ (mkMysql q (world s)) (Hk c) Hall Hx).
  - destruct Hu as [-> Hp]. eapply IH; [exact Hp|cbn|exact Hx]. rewrite <- Hall. cbn. by rewrite Permutation_app_comm.
  - destruct Hu as [-> Hk]. destruct (serve c r (world s)) as [o' w].
    exact (IH o' _ (mkMysql (pool_ s) w) (Hk o') Hall Hx).
Qed.

(** ** Counting after an update *)
Lemma insert_middle {A : Type} (l : list A) i x y :
  l !! i = Some x → l = take i l ++ x :: drop (S i) l ∧ <[i := y]> l = take i l ++ y :: drop (S i) l.
Proof.
  intros Hi. split; [by rewrite take_drop_middle|]. apply insert_take_drop. by eapply lookup_lt_Some.
Qed.

Lemma filter_insert_length {A : Type} (P : A → Prop) `{∀ x, Decision (P x)} (l : list A) i x y :
  l !! i = Some x →
  (length (filter P (<[i := y]> l)) + (if decide (P x) then 1 else 0) =
   length (filter P l) + (if decide (P y) then 1 else 0))%nat.
Proof.
  intros Hi. destruct (insert_middle l i x y Hi) as [E1 E2]. rewrite E2. rewrite E1 at 3.
  rewrite !filter_app, !filter_cons, !length_app. do 2 case_decide; cbn; lia.
Qed.

Lemma omap_insert {A : Type} (l : list (option A)) i x y :
  l !! i = Some x → option_list x ++ omap id (<[i := y]> l) ≡ₚ option_list y ++ omap id l.
Proof.
  intros Hi. destruct (insert_middle l i x y Hi) as [E1 E2]. rewrite E2. rewrite E1 at 3.
  rewrite !omap_app. cbn. destruct x, y; cbn; solve_Permutation.
Qed.

(** An element that is there once is at one place. *)
Lemma omap_id_inj {A : Type} (l : list (option A)) i j x :
  NoDup (omap id l) → l !! i = Some (Some x) → l !! j = Some (Some x) → i = j.
Proof.
  revert i j. induction l as [|y l IH]; intros i j Hnd Hi Hj; [done|].
  assert (∀ i, l !! i = Some (Some x) → x ∈ omap id l) as Hin.
  { intros i' Hi'. apply list_elem_of_omap. exists (Some x). split; [|done]. by eapply list_elem_of_lookup_2. }
  destruct y as [y|]; cbn in Hnd.
  - apply NoDup_cons in Hnd as [Hy Hnd]. destruct i as [|i], j as [|j]; cbn in Hi, Hj; [done| | |].
    + injection Hi as ->. destruct Hy. by eapply Hin.
    + injection Hj as ->. destruct Hy. by eapply Hin.
    + f_equal. by eapply IH.
  - destruct i as [|i], j as [|j]; cbn in Hi, Hj; [done..|]. f_equal. by eapply IH.
Qed.

Section safety.
Context {W : Type} `{!Server W}.
Implicit Types s : system W.

(** What a thread holds. *)
Definition typed (h : option conn) (t : tstate) : Prop :=
  match t with
  | Running p => uses p h (λ _, None) (λ _, True)
  | Waiting k | Woken k => h = None ∧ ∀ c, uses (k c) (Some c) (λ _, None) (λ _, True)
  end.

Definition waiting (t : tstate) : Prop := match t with Waiting _ => True | _ => False end.
Definition woken (t : tstate) : Prop := match t with Woken _ => True | _ => False end.
#[export] Instance waiting_dec t : Decision (waiting t).
Proof. destruct t; apply _. Defined.
#[export] Instance woken_dec t : Decision (woken t).
Proof. destruct t; apply _. Defined.

(** Every connection is in the queue or held by one thread, and while a thread
    sleeps there are no more connections in the queue than woken threads. *)
Record pool_inv (conns : list conn) (s : system W) (held : list (option conn)) : Prop := {
  inv_typed : Forall2 typed held (threads s);
  inv_conns : pool s ++ omap id held ≡ₚ conns;
  inv_wakeups : filter waiting (threads s) ≠ [] →
    (length (pool s) ≤ length (filter woken (threads s)))%nat;
}.

(** The invariant after one thread has changed: what has to be checked. *)
Lemma pool_inv_update conns s held i t0 t h0 h q w :
  pool_inv conns s held → threads s !! i = Some t0 → held !! i = Some h0 →
  typed h t →
  (option_list h ++ q ≡ₚ option_list h0 ++ pool s) →
  (filter waiting (<[i := t]> (threads s)) ≠ [] →
    (length q ≤ length (filter woken (<[i := t]> (threads s))))%nat) →
  pool_inv conns (update s i t q w) (<[i := h]> held).
Proof.
  intros [Ht Hc Hw] Hi Hh Hty Hq Hwake. split; cbn.
  - by apply Forall2_insert.
  - pose proof (omap_insert held i h0 h Hh) as Ho.
    apply (Permutation_app_inv_l (option_list h0)). rewrite <- Hc.
    rewrite (Permutation_app_swap_app (option_list h0) q), Ho.
    rewrite (Permutation_app_swap_app q (option_list h)), app_assoc, Hq. by rewrite <- app_assoc.
  - done.
Qed.

(** A thread that runs neither sleeps nor was woken. *)
Lemma wakeups_same s i t0 t (q : list conn) :
  threads s !! i = Some t0 → ¬ waiting t0 → ¬ waiting t → ¬ woken t0 → ¬ woken t →
  (length q ≤ length (pool s))%nat →
  (filter waiting (threads s) ≠ [] → (length (pool s) ≤ length (filter woken (threads s)))%nat) →
  filter waiting (<[i := t]> (threads s)) ≠ [] →
  (length q ≤ length (filter woken (<[i := t]> (threads s))))%nat.
Proof.
  intros Hi Hw0 Hw Hk0 Hk Hq Hinv Hne.
  pose proof (filter_insert_length waiting (threads s) i t0 t Hi) as E1.
  pose proof (filter_insert_length woken (threads s) i t0 t Hi) as E2.
  rewrite !decide_False in E1 by done. rewrite !decide_False in E2 by done.
  assert (filter waiting (threads s) ≠ []) as Hne'.
  { intros E. rewrite E in E1. cbn in E1. apply Hne, nil_length_inv. lia. }
  specialize (Hinv Hne'). lia.
Qed.

(** Waking a sleeping thread. *)
Lemma pool_inv_wake conns s held i k w :
  pool_inv conns s held → threads s !! i = Some (Waiting k) →
  pool_inv conns (update s i (Woken k) (pool s) w) held ∧
  (length (pool s) < length (filter woken (threads (update s i (Woken k) (pool s) w))))%nat.
Proof.
  intros Hinv Hi. pose proof Hinv as [Ht _ Hw].
  destruct (Forall2_lookup_r _ _ _ _ _ Ht Hi) as (h & Hh & [-> Hk]).
  assert (length (pool s) < length (filter woken (<[i := Woken k]> (threads s))))%nat as Hlt.
  { pose proof (filter_insert_length woken (threads s) i _ (Woken k) Hi) as E.
    rewrite decide_False, decide_True in E by (cbn; tauto).
    assert (filter waiting (threads s) ≠ []) as Hne.
    { apply list_elem_of_lookup_2 in Hi. intros E'.
      assert (Waiting k ∈ filter waiting (threads s)) as Hin by by apply list_elem_of_filter.
      rewrite E' in Hin. by apply not_elem_of_nil in Hin. }
    specialize (Hw Hne). lia. }
  split; [|done]. rewrite <- (list_insert_id held i None Hh).
  eapply pool_inv_update; [done..| |]; [done|]. intros _. lia.
Qed.

Lemma pool_inv_step conns s s' :
  step s s' → (∃ held, pool_inv conns s held) → ∃ held, pool_inv conns s' held.
Proof.
  intros Hstep [held Hinv]. pose proof Hinv as [Ht _ Hw].
  destruct Hstep as [i k c q s Hi Hp|i k s Hi Hp|i k c q s Hi Hp|i k s Hi Hp|i c p j k s Hi Hj
    |i c p s Hi Hno|i c r k s o w Hi Hx];
    destruct (Forall2_lookup_r _ _ _ _ _ Ht Hi) as (h & Hh & Hty).
  - destruct Hty as [-> Hk]. eexists. eapply pool_inv_update; [done|done|done|apply (Hk c)| |].
    + cbn. by rewrite Hp.
    + eapply wakeups_same; [done|cbn; tauto|cbn; tauto|cbn; tauto|cbn; tauto| |done]. rewrite Hp. cbn. lia.
  - destruct Hty as [-> Hk]. eexists. eapply (pool_inv_update _ _ _ _ _ (Waiting k) _ None);
      [done|done|done|done|cbn; by rewrite Hp|cbn; lia].
  - destruct Hty as [-> Hk]. eexists. eapply pool_inv_update; [done|done|done|apply (Hk c)| |].
    + cbn. by rewrite Hp.
    + intros Hne. pose proof (filter_insert_length waiting _ _ _ (Running (k c)) Hi) as E1.
      pose proof (filter_insert_length woken _ _ _ (Running (k c)) Hi) as E2.
      rewrite !decide_False in E1 by (cbn; tauto). rewrite decide_True, decide_False in E2 by (cbn; tauto).
      rewrite Hp in Hw. cbn [length] in Hw.
      assert (filter waiting (threads s) ≠ []) as Hne'.
      { intros E. rewrite E in E1. cbn in E1. apply Hne, nil_length_inv. lia. }
      specialize (Hw Hne'). lia.
  - destruct Hty as [-> Hk]. eexists. eapply (pool_inv_update _ _ _ _ _ (Waiting k) _ None);
      [done|done|done|done|cbn; by rewrite Hp|cbn; lia].
  - destruct Hty as [-> Hp]. assert (i ≠ j) as Hij by (intros ->; congruence).
    destruct (pool_inv_wake conns s held j k (env s) Hinv Hj) as [Hinv' Hlt].
    assert (threads (update s j (Woken k) (pool s) (env s)) !! i = Some (Running (GiveBack c p))) as Hi'
      by (cbn; by rewrite list_lookup_insert_ne).
    exists (<[i := None]> held).
    replace (update (update s i _ _ _) j _ _ _) with
      (update (update s j (Woken k) (pool s) (env s)) i (Running p) (pool s ++ [c]) (env s))
      by (unfold update; cbn; f_equal; by apply list_insert_insert_ne).
    eapply pool_inv_update; [done|done|done|done|cbn; by rewrite Permutation_app_comm|].
    intros _. pose proof (filter_insert_length woken _ _ _ (Running p) Hi') as E.
    rewrite !decide_False in E by (cbn; tauto). rewrite length_app. cbn [length]. lia.
  - destruct Hty as [-> Hp]. exists (<[i := None]> held).
    eapply pool_inv_update; [done|done|done|done|cbn; by rewrite Permutation_app_comm|].
    intros Hne. exfalso. apply Hne. apply nil_length_inv.
    pose proof (filter_insert_length waiting _ _ _ (Running p) Hi) as E.
    rewrite !decide_False in E by (cbn; tauto).
    assert (filter waiting (threads s) = []) as E0; [|rewrite E0 in E; cbn in E; lia].
    apply elem_of_nil_inv. intros t [Hwt Hin]%list_elem_of_filter.
    apply list_elem_of_lookup in Hin as [j Hj]. destruct t; try done. by eapply Hno.
  - destruct Hty as [-> Hk]. eexists. eapply pool_inv_update; [done|done|done|apply (Hk o)|done|].
    eapply wakeups_same; [done|cbn; tauto|cbn; tauto|cbn; tauto|cbn; tauto| |done]. done.
Qed.

Lemma pool_inv_start conns (ps : list (prog ())) (w : W) :
  Forall well_behaved ps → ∃ held, pool_inv conns (start conns ps w) held.
Proof.
  intros Hps. exists (replicate (length ps) None). split; cbn.
  - induction Hps as [|p ps Hp _ IH]; [constructor|]. by constructor.
  - assert (omap id (replicate (length ps) (None (A := conn))) = []) as ->; [|by rewrite app_nil_r].
    by induction (length ps).
  - intros Hne. exfalso. apply Hne. clear. by induction ps.
Qed.

Lemma pool_inv_reachable conns ps w s :
  Forall well_behaved ps → reachable conns ps w s → ∃ held, pool_inv conns s held.
Proof.
  intros Hps Hr. pose proof (pool_inv_start conns ps w Hps) as H0. unfold reachable in Hr. revert H0.
  induction Hr as [|s1 s2 s3 [Hstep|Hwake] _ IH]; intros H1; [done| |]; apply IH.
  - by eapply pool_inv_step.
  - destruct H1 as [held H1], Hwake as [i k s1 Hi]. exists held. by apply pool_inv_wake.
Qed.

(** A connection is used by one thread at a time.  Threads that run
    methods of the store, in any interleaving, never share a connection: a
    connection on which a thread sends is not in the queue, no other
    thread sends on it, and no connection is in the queue twice. *)
Lemma pool_exclusive conns ps w s :
  NoDup conns → Forall well_behaved ps → reachable conns ps w s →
  NoDup (pool s) ∧
  ∀ i c r k, threads s !! i = Some (Running (Send c r k)) →
    (c ∈ conns) ∧ (c ∉ pool s) ∧
    ∀ j r' k', threads s !! j = Some (Running (Send c r' k')) → i = j.
Proof.
  intros Hnd Hps Hr. destruct (pool_inv_reachable conns ps w s Hps Hr) as [held [Ht Hc _]].
  rewrite <- Hc in Hnd. apply NoDup_app in Hnd as (Hp & Hdisj & Hheld).
  assert (∀ i c r k, threads s !! i = Some (Running (Send c r k)) → held !! i = Some (Some c)) as Hholds.
  { intros i c r k Hi. destruct (Forall2_lookup_r _ _ _ _ _ Ht Hi) as (h & Hh & [-> _]). done. }
  split; [done|]. intros i c r k Hi%Hholds.
  assert (c ∈ omap id held) as Hin.
  { apply list_elem_of_omap. exists (Some c). split; [|done]. by eapply list_elem_of_lookup_2. }
  split_and!.
  - rewrite <- Hc. set_solver.
  - intros Hcp. by eapply Hdisj.
  - intros j r' k' Hj%Hholds. eapply omap_id_inj; eauto.
Qed.

(** Returned, or asleep. *)
Definition stuck (t : tstate) : Prop :=
  match t with Running (Done _) | Waiting _ => True | _ => False end.
#[export] Instance stuck_dec t : Decision (stuck t).
Proof. destruct t as [[]| |]; apply _. Defined.

(** Any other thread can go on. *)
Lemma unstuck_steps s i t : threads s !! i = Some t → ¬ stuck t → ∃ s', step s s'.
Proof.
  intros Hi Ht. destruct t as [[o|k|c p|c r k]|k|k]; cbn in Ht; try tauto.
  - destruct (pool s) as [|c q] eqn:Hp; eexists; [by eapply step_wait|by eapply step_acquire].
  - destruct (filter waiting (threads s)) as [|t l] eqn:Hf.
    + eexists. eapply step_release; [done|]. intros j k Hj%list_elem_of_lookup_2.
      assert (Waiting k ∈ filter waiting (threads s)) as Hin by by apply list_elem_of_filter.
      rewrite Hf in Hin. by apply not_elem_of_nil in Hin.
    + assert (t ∈ filter waiting (threads s)) as [Hwt Hin]%list_elem_of_filter
        by (rewrite Hf; by left).
      apply list_elem_of_lookup in Hin as [j Hj]. destruct t as [|k|]; try done.
      eexists. by eapply step_release_notify.
  - destruct (serve c r (env s)) as [o w] eqn:Hx. eexists. by eapply step_send.
  - destruct (pool s) as [|c q] eqn:Hp; eexists; [by eapply step_sleep|by eapply step_resume].
Qed.

(** Threads that returned or sleep hold nothing. *)
Lemma stuck_holds_nothing conns s held :
  pool_inv conns s held → Forall stuck (threads s) →
  (∀ i o, threads s !! i = Some (Running (Done o)) → o = Ret ()) → omap id held = [].
Proof.
  intros [Ht _ _] Hs Hdone. apply elem_of_nil_inv. intros c Hc.
  apply list_elem_of_omap in Hc as (h & Hh & Hc). cbn in Hc. subst h.
  apply list_elem_of_lookup in Hh as [i Hi].
  destruct (Forall2_lookup_l _ _ _ _ _ Ht Hi) as (t & Hti & Hty).
  pose proof (Forall_lookup_1 _ _ _ _ Hs Hti) as Hst.
  destruct t as [[o| | |]|k|k]; try done.
  - apply Hdone in Hti as ->. done.
  - by destruct Hty.
Qed.

(** The pool does not deadlock.  With at least one connection, as long as
    no method was left by an exception, either every thread has returned or some
    thread can go on, without any spurious wake-up: no wake-up is lost. *)
Lemma pool_live conns ps w s :
  conns ≠ [] → Forall well_behaved ps → reachable conns ps w s →
  (∀ i o, threads s !! i = Some (Running (Done o)) → o = Ret ()) →
  (∀ t, t ∈ threads s → t = Running (Done (Ret ()))) ∨ ∃ s', step s s'.
Proof.
  intros Hne Hps Hr Hdone. destruct (pool_inv_reachable conns ps w s Hps Hr) as [held Hinv].
  destruct (decide (Forall stuck (threads s))) as [Hs|Hs].
  2: { apply not_Forall_Exists, Exists_exists in Hs as (t & Hin & Ht); [|apply _].
       apply list_elem_of_lookup in Hin as [i Hi]. right. by eapply unstuck_steps. }
  left. pose proof (stuck_holds_nothing _ _ _ Hinv Hs Hdone) as Hheld. destruct Hinv as [_ Hc Hw].
  rewrite Hheld, app_nil_r in Hc.
  assert (filter woken (threads s) = []) as Hnw.
  { apply elem_of_nil_inv. intros t [Hwt Hin]%list_elem_of_filter.
    rewrite Forall_forall in Hs. apply Hs in Hin. by destruct t as [[]| |]. }
  assert (filter waiting (threads s) = []) as Hnone.
  { destruct (decide (filter waiting (threads s) = [])) as [|Hn]; [done|]. specialize (Hw Hn).
    rewrite Hnw in Hw. cbn in Hw. apply Nat.le_0_r, nil_length_inv in Hw. rewrite Hw in Hc.
    by apply Permutation_nil_l in Hc. }
  intros t Hin. rewrite Forall_forall in Hs. pose proof (Hs t Hin) as Hst.
  destruct t as [[o| | |]|k|k]; try done.
  - apply list_elem_of_lookup in Hin as [i Hi]. by rewrite (Hdone i o Hi).
  - assert (Waiting k ∈ filter waiting (threads s)) as Hin' by by apply list_elem_of_filter.
    rewrite Hnone in Hin'. by apply not_elem_of_nil in Hin'.
Qed.
End safety.

(** ** Every schedule comes to an end

    A step takes a thread into a subtree of its program, or (a thread that goes to
    sleep) leaves the programs and lowers [alert]. *)
Inductive child {A : Type} : prog A → prog A → Prop :=
  | child_acquire k c : child (k c) (Acquire k)
  | child_giveback c p : child p (GiveBack c p)
  | child_send c r k o : child (k o) (Send c r k).

Lemma child_wf {A : Type} (p : prog A) : Acc child p.
Proof. induction p as [o|k IH|c p IH|c r k IH]; constructor; intros q Hq; by inversion Hq; subst. Qed.

(** One element of a list goes down. *)
Inductive descends {A : Type} (R : A → A → Prop) : list A → list A → Prop :=
  | descends_at l i x y : l !! i = Some x → R y x → descends R (<[i := y]> l) l.

Lemma descends_wf {A : Type} (R : A → A → Prop) l : Forall (Acc R) l → Acc (descends R) l.
Proof.
  induction 1 as [|x l Hx _ IH].
  { constructor. intros l' H. inversion H; subst. done. }
  revert x Hx. induction IH as [l Hl IHl]. intros x Hx. induction Hx as [x Hx IHx].
  constructor. intros l' H. inversion H as [? [|i] x' y Hi HR]; subst; cbn in *.
  - injection Hi as ->. by apply IHx.
  - apply IHl; [by econstructor|by constructor].
Qed.

Section schedules.
Context {W : Type} `{!Server W}.
Implicit Types s : system W.

Definition remaining (t : tstate) : prog () :=
  match t with Running p => p | Waiting k | Woken k => Acquire k end.
Definition alert (t : tstate) : nat :=
  match t with Running _ => 2 | Woken _ => 1 | Waiting _ => 0 end.
Fixpoint total (l : list tstate) : nat := match l with [] => 0 | t :: l => alert t + total l end.

Lemma total_insert l i t t' :
  l !! i = Some t → (total (<[i := t']> l) + alert t = total l + alert t')%nat.
Proof.
  revert i. induction l as [|x l IH]; intros [|i] Hi; [done|done| |].
  - injection Hi as ->. cbn. lia.
  - change (<[S i := t']> (x :: l)) with (x :: <[i := t']> l). cbn [total]. specialize (IH i Hi). lia.
Qed.

Lemma step_descends s s' :
  step s s' →
  descends child (remaining <$> threads s') (remaining <$> threads s) ∨
  (remaining <$> threads s' = remaining <$> threads s ∧ (total (threads s') < total (threads s))%nat).
Proof.
  assert (∀ (l : list tstate) i t, remaining <$> <[i := t]> l = <[i := remaining t]> (remaining <$> l)) as Hins.
  { intros. apply list_fmap_insert. }
  assert (∀ (l : list tstate) i t t', l !! i = Some t → remaining t' = remaining t →
    remaining <$> <[i := t']> l = remaining <$> l) as Hsame.
  { intros l i t t' Hi E. rewrite Hins. apply list_insert_id. by rewrite list_lookup_fmap, Hi, E. }
  assert (∀ (l : list tstate) i t t', l !! i = Some t → child (remaining t') (remaining t) →
    descends child (remaining <$> <[i := t']> l) (remaining <$> l)) as Hdown.
  { intros l i t t' Hi Hc. rewrite Hins. econstructor; [|exact Hc]. by rewrite list_lookup_fmap, Hi. }
  destruct 1 as [i k c q s Hi Hp|i k s Hi Hp|i k c q s Hi Hp|i k s Hi Hp|i c p j k s Hi Hj|i c p s Hi Hn|i c r k s o w Hi Hs];
    cbn.
  - left. eapply Hdown; [done|constructor].
  - right. split; [by eapply Hsame|]. pose proof (total_insert _ _ _ (Waiting k) Hi). cbn in *. lia.
  - left. eapply Hdown; [done|constructor].
  - right. split; [by eapply Hsame|]. pose proof (total_insert _ _ _ (Waiting k) Hi). cbn in *. lia.
  - left. assert (i ≠ j) by congruence.
    rewrite (Hsame _ j (Waiting k)); [|by rewrite list_lookup_insert_ne|done].
    eapply Hdown; [done|constructor].
  - left. eapply Hdown; [done|constructor].
  - left. eapply Hdown; [done|constructor].
Qed.

(** No schedule runs forever, whatever the programs and the server do. *)
Lemma schedules_end s : Acc (flip step) s.
Proof.
  assert (∀ l, Acc (descends child) l → ∀ n s, remaining <$> threads s = l → total (threads s) = n →
    Acc (flip step) s) as Hacc.
  { induction 1 as [l _ IHl]. intros n. induction (lt_wf n) as [n _ IHn]. intros s0 El En.
    constructor. intros s1 H. apply step_descends in H as [H|[H1 H2]].
    - rewrite El in H. by eapply IHl.
    - eapply (IHn (total (threads s1))); [lia|congruence|done]. }
  eapply Hacc; [|done..]. apply descends_wf. apply Forall_forall. intros p _. apply child_wf.
Qed.
End schedules.
