(* ===== verification/MysqlConfigStore.v ===== *)
(** * The MySQL store

    [MysqlConfigStore] of [src/storage/mysql_config_store.cpp], one program per
    method over the pool of [MysqlPool].  The SQL text of every statement is a
    definition of its own ([sql_*]), concatenated the way the method does it.
    A query answers with rows of text; [decode_*] reads a row into its struct:
    an index outside the row is undefined, and [std::stoi] and [std::stoll] throw
    on text that is not a number of their type. *)
From S2P Require Import Prelude Strings Timestamp DataTypes MysqlPool.

Module Mysql.
(** ** Helpers *)
Fixpoint escape (value : string) : string :=
  match value with
  | EmptyString => ""
  | String c value =>
    (if bool_decide (c = "'"%char) then "\'"
     else if bool_decide (c = "\"%char) then "\\"
     else String c "") +:+ escape value
  end.

(** [std::to_string] *)
Definition to_string (z : Z) : string := pretty z.

(** ** Connection string: [size_t] arithmetic wraps, and [npos] is the largest value *)
Definition npos : Z := 2 ^ 64 - 1.
Definition size_t (z : Z) : Z := z mod 2 ^ 64.

Fixpoint index_of (c : ascii) (s : string) : option nat :=
  match s with
  | EmptyString => None
  | String a s => if bool_decide (a = c) then Some 0%nat else S <$> index_of c s
  end.

(** [s.find(c, pos)] *)
Definition find_char (s : string) (c : ascii) (pos : Z) : Z :=
  if Z.of_nat (String.length s) <? pos then npos
  else match index_of c (substr (Z.to_nat pos) s) with
       | Some i => pos + Z.of_nat i
       | None => npos
       end.

(** [s.substr(pos, len)]: throws when [pos] is past the end *)
Definition substr_at (s : string) (pos len : Z) : outcome string :=
  if Z.of_nat (String.length s) <? pos then Throw
  else Ret (str_take (Z.to_nat (Z.min len (Z.of_nat (String.length s)))) (substr (Z.to_nat pos) s)).

(** [host_], [port_], [user_], [password_], [database_] *)
Record members := mkMembers {
  m_host : string;
  m_port : Z;
  m_user : string;
  m_password : string;
  m_database : string;
}.
Definition new_members : members := mkMembers "" 3306 "" "" "".

Definition parse_connection (connectionString : string) (m : members) : outcome members :=
  let atPos := find_char connectionString "@" 0 in
  let slashPos := find_char connectionString "/" 0 in
  host ← substr_at connectionString 0 slashPos;
  let portStart := find_char host ":" 0 in
  hp ← (if bool_decide (portStart ≠ npos) then
          text ← substr_at host (size_t (portStart + 1)) npos;
          port ← or_throw (stoi text);
          host ← substr_at host 0 portStart;
          Ret (host, port mod 65536)
        else Ret (host, 3306));
  let colonUserPwd := find_char connectionString ":" (size_t (slashPos + 1)) in
  up ← (if bool_decide (colonUserPwd ≠ npos) then
          user ← substr_at connectionString (size_t (slashPos + 1)) (size_t (colonUserPwd - slashPos - 1));
          password ← substr_at connectionString (size_t (colonUserPwd + 1)) (size_t (atPos - colonUserPwd - 1));
          Ret (user, password)
        else Ret (m_user m, m_password m));
  database ← substr_at connectionString (size_t (atPos + 1)) npos;
  Ret (mkMembers hp.1 hp.2 up.1 up.2 database).

(** ** SQL text *)

(** [cond ? "'" + escape(x) + "'" : "NULL"] *)
Definition nullable (o : option string) : string :=
  match o with Some s => "'" +:+ escape s +:+ "'" | None => "NULL" end.

Definition sql_createApplication (app : Application) : string :=
  "INSERT INTO applications (app_id, name, description, created_at) VALUES ('" +:+
  escape (app_app_id app) +:+ "', '" +:+ escape (app_name app) +:+ "', " +:+
  nullable (app_description app) +:+ ", '" +:+ escape (app_created_at app) +:+ "')".

Definition sql_getApplication (appId : string) : string :=
  "SELECT app_id, name, description, created_at FROM applications WHERE app_id = '" +:+
  escape appId +:+ "'".

Definition sql_listApplications : string :=
  "SELECT app_id, name, description, created_at FROM applications".

Definition sql_deleteApplication (appId : string) : string :=
  "DELETE FROM applications WHERE app_id = '" +:+ escape appId +:+ "'".

Definition approval_text (b : option bool) : string :=
  match b with Some true => "TRUE" | _ => "FALSE" end.

Definition sql_createNamespace (ns : Namespace) : string :=
  "INSERT INTO namespaces (id, app_id, env, cluster, name, type, parent_namespace_id, approval_enabled, created_at) VALUES ('" +:+
  escape (ns_id ns) +:+ "', '" +:+ escape (ns_app_id ns) +:+ "', '" +:+ escape (ns_env ns) +:+ "', '" +:+
  escape (ns_cluster ns) +:+ "', '" +:+ escape (ns_name ns) +:+ "', '" +:+ escape (ns_type ns) +:+ "', " +:+
  nullable (ns_parent_namespace_id ns) +:+ ", " +:+ approval_text (ns_approval_enabled ns) +:+ ", '" +:+
  escape (ns_created_at ns) +:+ "')".

Definition sql_getNamespace (nsId : string) : string :=
  "SELECT id, app_id, env, cluster, name, type, parent_namespace_id, approval_enabled, created_at FROM namespaces WHERE id = '" +:+
  escape nsId +:+ "'".

Definition sql_listNamespaces (appId env cluster : string) : string :=
  "SELECT id, app_id, env, cluster, name, type, parent_namespace_id, approval_enabled, created_at FROM namespaces WHERE app_id = '" +:+
  escape appId +:+ "' AND env = '" +:+ escape env +:+ "' AND cluster = '" +:+ escape cluster +:+ "'".

Definition sql_deleteNamespace (nsId : string) : string :=
  "DELETE FROM namespaces WHERE id = '" +:+ escape nsId +:+ "'".

Definition sql_createConfig (namespaceId key value ts : string) : string :=
  "INSERT INTO configs (namespace_id, `key`, value, version, status, created_at, updated_at) VALUES ('" +:+
  escape namespaceId +:+ "', '" +:+ escape key +:+ "', '" +:+ escape value +:+
  "', 1, 'draft', '" +:+ ts +:+ "', '" +:+ ts +:+ "')".

Definition sql_createVersion (configId value operatorId ts : string) : string :=
  "INSERT INTO config_versions (version, config_id, value, change_type, operator_id, created_at) VALUES (1, '" +:+
  escape configId +:+ "', '" +:+ escape value +:+ "', 'create', '" +:+ escape operatorId +:+ "', '" +:+ ts +:+
  "')".

Definition sql_createLog (configId namespaceId key value operatorId ts : string) : string :=
  "INSERT INTO change_logs (config_id, namespace_id, `key`, version, new_value, operation, operator_id, created_at) VALUES ('" +:+
  escape configId +:+ "', '" +:+ escape namespaceId +:+ "', '" +:+ escape key +:+
  "', 1, '" +:+ escape value +:+ "', 'create', '" +:+ escape operatorId +:+ "', '" +:+ ts +:+ "')".

Definition sql_currentConfig (namespaceId key : string) : string :=
  "SELECT version, value FROM configs WHERE namespace_id = '" +:+ escape namespaceId +:+ "' AND `key` = '" +:+
  escape key +:+ "'".

Definition sql_updateConfig (value : string) (newVersion : Z) (status ts namespaceId key : string) : string :=
  "UPDATE configs SET value = '" +:+ escape value +:+ "', version = " +:+ to_string newVersion +:+
  ", status = '" +:+ status +:+ "', updated_at = '" +:+ ts +:+ "' WHERE namespace_id = '" +:+
  escape namespaceId +:+ "' AND `key` = '" +:+ escape key +:+ "'".

Definition sql_updateVersion (newVersion : Z) (configId value operatorId ts : string) : string :=
  "INSERT INTO config_versions (version, config_id, value, change_type, operator_id, created_at) VALUES (" +:+
  to_string newVersion +:+ ", '" +:+ escape configId +:+ "', '" +:+ escape value +:+
  "', 'update', '" +:+ escape operatorId +:+ "', '" +:+ ts +:+ "')".

Definition sql_updateLog (configId namespaceId key : string) (newVersion : Z)
    (oldValue value operatorId ts : string) : string :=
  "INSERT INTO change_logs (config_id, namespace_id, `key`, version, old_value, new_value, operation, operator_id, created_at) VALUES ('" +:+
  escape configId +:+ "', '" +:+ escape namespaceId +:+ "', '" +:+ escape key +:+ "', " +:+ to_string newVersion +:+
  ", '" +:+ escape oldValue +:+ "', '" +:+ escape value +:+ "', 'update', '" +:+ escape operatorId +:+ "', '" +:+ ts +:+ "')".

Definition sql_deleteDraft (namespaceId key : string) : string :=
  "DELETE FROM configs WHERE namespace_id = '" +:+ escape namespaceId +:+ "' AND `key` = '" +:+
  escape key +:+ "' AND status = 'draft'".

Definition sql_deleteConfig (namespaceId key : string) : string :=
  "DELETE FROM configs WHERE namespace_id = '" +:+ escape namespaceId +:+ "' AND `key` = '" +:+
  escape key +:+ "'".

Definition sql_deleteLog (configId namespaceId key operatorId ts : string) : string :=
  "INSERT INTO change_logs (config_id, namespace_id, `key`, version, operation, operator_id, created_at) VALUES ('" +:+
  escape configId +:+ "', '" +:+ escape namespaceId +:+ "', '" +:+ escape key +:+
  "', 0, 'delete', '" +:+ escape operatorId +:+ "', '" +:+ ts +:+ "')".

Definition sql_getConfig (namespaceId key : string) : string :=
  "SELECT namespace_id, `key`, value, version, status, created_at, updated_at FROM configs WHERE namespace_id = '" +:+
  escape namespaceId +:+ "' AND `key` = '" +:+ escape key +:+ "'".

Definition sql_listConfigs (namespaceId : string) (includeDraft : bool) : string :=
  ("SELECT namespace_id, `key`, value, version, status, created_at, updated_at FROM configs WHERE namespace_id = '" +:+
   escape namespaceId +:+ "'") +:+ (if negb includeDraft then " AND status = 'live'" else "").

Definition sql_getConfigVersions (configId : string) : string :=
  "SELECT version, config_id, value, change_type, operator_id, created_at FROM config_versions WHERE config_id = '" +:+
  escape configId +:+ "' ORDER BY version DESC".

Definition sql_getConfigVersion (configId : string) (version : Z) : string :=
  "SELECT version, config_id, value, change_type, operator_id, created_at FROM config_versions WHERE config_id = '" +:+
  escape configId +:+ "' AND version = " +:+ to_string version.

(** [if (query.f) sql += " AND f = '" + escape( *query.f) + "'"] *)
Definition clause (text : string) (o : option string) : string :=
  match o with Some v => text +:+ escape v +:+ "'" | None => "" end.

Definition sql_getChangeHistory (query : ChangeLogQuery) (offset : Z) : string :=
  "SELECT id, config_id, namespace_id, `key`, version, old_value, new_value, operation, operator_id, created_at FROM change_logs WHERE 1=1" +:+
  clause " AND `key` = '" (clq_key query) +:+
  clause " AND namespace_id = '" (clq_namespace_id query) +:+
  clause " AND created_at >= '" (clq_time_from query) +:+
  clause " AND created_at <= '" (clq_time_to query) +:+
  " ORDER BY created_at DESC LIMIT " +:+ to_string (clq_page_size query) +:+ " OFFSET " +:+ to_string offset.

Definition sql_createRelease (release : Release) (ts : string) : string :=
  "INSERT INTO releases (namespace_id, release_version, release_note, release_type, status, grayscale_percentage, whitelist, operator_id, created_at) VALUES ('" +:+
  escape (rel_namespace_id release) +:+ "', " +:+ to_string (rel_release_version release) +:+ ", '" +:+
  escape (rel_release_note release) +:+ "', '" +:+ escape (rel_release_type release) +:+ "', '" +:+
  escape (rel_status release) +:+ "', " +:+
  (match rel_grayscale_percentage release with Some p => to_string p | None => "NULL" end) +:+ ", " +:+
  nullable (rel_whitelist release) +:+ ", '" +:+ escape (rel_operator_id release) +:+ "', '" +:+ ts +:+ "')".

Definition sql_lastInsertId : string := "SELECT LAST_INSERT_ID()".

Definition sql_getReleases (query : ReleaseQuery) (offset : Z) : string :=
  "SELECT id, namespace_id, release_version, release_note, release_type, status, grayscale_percentage, whitelist, operator_id, created_at FROM releases WHERE namespace_id = '" +:+
  escape (rq_namespace_id query) +:+ "' ORDER BY created_at DESC LIMIT " +:+ to_string (rq_page_size query) +:+
  " OFFSET " +:+ to_string offset.

Definition sql_getRelease (releaseId : Z) : string :=
  "SELECT id, namespace_id, release_version, release_note, release_type, status, grayscale_percentage, whitelist, operator_id, created_at FROM releases WHERE id = " +:+
  to_string releaseId.

Definition sql_retireRelease (releaseId : Z) : string :=
  "UPDATE releases SET status = 'retired' WHERE id = " +:+ to_string releaseId.

Definition sql_goLive (namespaceId : string) : string :=
  "UPDATE configs SET status = 'live' WHERE namespace_id = '" +:+ escape namespaceId +:+ "'".

Definition sql_maxVersion (namespaceId : string) : string :=
  "SELECT MAX(release_version) FROM releases WHERE namespace_id = '" +:+ escape namespaceId +:+ "'".

Definition sql_insertRelease (namespaceId : string) (nextVersion : Z) (releaseNote operatorId ts : string) : string :=
  "INSERT INTO releases (namespace_id, release_version, release_note, release_type, status, operator_id, created_at) VALUES ('" +:+
  escape namespaceId +:+ "', " +:+ to_string nextVersion +:+ ", '" +:+ escape releaseNote +:+
  "', 'full', 'active', '" +:+ escape operatorId +:+ "', '" +:+ ts +:+ "')".

Definition sql_createApproval (approval : Approval) (ts : string) : string :=
  "INSERT INTO approvals (namespace_id, submitter_id, approver_id, status, comment, created_at) VALUES ('" +:+
  escape (apv_namespace_id approval) +:+ "', '" +:+ escape (apv_submitter_id approval) +:+ "', " +:+
  (if bool_decide (apv_approver_id approval = "") then "NULL"
   else "'" +:+ escape (apv_approver_id approval) +:+ "'") +:+ ", '" +:+
  escape (apv_status approval) +:+ "', '" +:+ escape (apv_comment approval) +:+ "', '" +:+ ts +:+ "')".

Definition sql_updateApproval (status comment ts : string) (approvalId : Z) : string :=
  "UPDATE approvals SET status = '" +:+ escape status +:+ "', comment = '" +:+ escape comment +:+
  "', updated_at = '" +:+ ts +:+ "' WHERE id = " +:+ to_string approvalId.

Definition sql_getPendingApprovals (namespaceId : string) : string :=
  "SELECT id, namespace_id, submitter_id, approver_id, status, comment, created_at, updated_at FROM approvals WHERE namespace_id = '" +:+
  escape namespaceId +:+ "' AND status = 'pending'".

Definition sql_createUser (user : User) : string :=
  "INSERT INTO users (username, password_hash, role, created_at) VALUES ('" +:+
  escape (usr_username user) +:+ "', '" +:+ escape (usr_password_hash user) +:+ "', '" +:+
  escape (usr_role user) +:+ "', '" +:+ escape (usr_created_at user) +:+ "')".

Definition sql_getUser (username : string) : string :=
  "SELECT id, username, password_hash, role, created_at FROM users WHERE username = '" +:+ escape username +:+ "'".

Definition sql_listUsers : string := "SELECT id, username, password_hash, role, created_at FROM users".

(** ** Rows *)

(** [row[i]] of a vector: an index outside it is undefined. *)
Definition cell (row : list string) (i : nat) : outcome string :=
  match row !! i with Some s => Ret s | None => Undef end.
(** [std::stoi(row[i])] and [std::stoll(row[i])] *)
Definition cell_int (row : list string) (i : nat) : outcome Z := s ← cell row i; or_throw (stoi s).
Definition cell_long (row : list string) (i : nat) : outcome Z := s ← cell row i; or_throw (stoll s).
(** [if (!row[i].empty()) f = row[i]] *)
Definition cell_opt (row : list string) (i : nat) : outcome (option string) :=
  s ← cell row i; Ret (if bool_decide (s = "") then None else Some s).
Definition cell_opt_int (row : list string) (i : nat) : outcome (option Z) :=
  s ← cell row i; if bool_decide (s = "") then Ret None else z ← or_throw (stoi s); Ret (Some z).
Definition cell_opt_bool (row : list string) (i : nat) : outcome (option bool) :=
  s ← cell row i;
  Ret (if bool_decide (s = "") then None else Some (bool_decide (s = "1") || bool_decide (s = "true"))).

Definition decode_application (row : list string) : outcome Application :=
  app_id ← cell row 0; name ← cell row 1; description ← cell_opt row 2; created_at ← cell row 3;
  Ret (mkApplication app_id name description created_at).

Definition decode_namespace (row : list string) : outcome Namespace :=
  id ← cell row 0; app_id ← cell row 1; env ← cell row 2; cluster ← cell row 3;
  name ← cell row 4; type ← cell row 5; parent ← cell_opt row 6;
  approval_enabled ← cell_opt_bool row 7; created_at ← cell row 8;
  Ret (mkNamespace id app_id env cluster name type parent approval_enabled created_at).

Definition decode_config (row : list string) : outcome ConfigKey :=
  namespace_id ← cell row 0; key ← cell row 1; value ← cell row 2; version ← cell_int row 3;
  status ← cell row 4; created_at ← cell row 5; updated_at ← cell row 6;
  Ret (mkConfigKey namespace_id key value version status created_at updated_at).

Definition decode_version (row : list string) : outcome ConfigVersion :=
  version ← cell_int row 0; config_id ← cell row 1; value ← cell row 2; change_type ← cell row 3;
  operator_id ← cell row 4; created_at ← cell row 5;
  Ret (mkConfigVersion version config_id value change_type operator_id created_at).

Definition decode_log (row : list string) : outcome ChangeLog :=
  id ← cell_long row 0; config_id ← cell row 1; namespace_id ← cell row 2; key ← cell row 3;
  version ← cell_int row 4; old_value ← cell row 5; new_value ← cell row 6; operation ← cell row 7;
  operator_id ← cell row 8; created_at ← cell row 9;
  Ret (mkChangeLog id config_id namespace_id key version old_value new_value operation operator_id created_at).

Definition decode_release (row : list string) : outcome Release :=
  id ← cell_long row 0; namespace_id ← cell row 1; release_version ← cell_int row 2;
  release_note ← cell row 3; release_type ← cell row 4; status ← cell row 5;
  grayscale_percentage ← cell_opt_int row 6; whitelist ← cell_opt row 7;
  operator_id ← cell row 8; created_at ← cell row 9;
  Ret (mkRelease id namespace_id release_version release_note release_type status
         grayscale_percentage whitelist operator_id created_at).

Definition decode_approval (row : list string) : outcome Approval :=
  id ← cell_long row 0; namespace_id ← cell row 1; submitter_id ← cell row 2; approver_id ← cell row 3;
  status ← cell row 4; comment ← cell row 5; created_at ← cell row 6; updated_at ← cell row 7;
  Ret (mkApproval id namespace_id submitter_id approver_id status comment created_at updated_at).

Definition decode_user (row : list string) : outcome User :=
  id ← cell_long row 0; username ← cell row 1; password_hash ← cell row 2; role ← cell row 3;
  created_at ← cell row 4;
  Ret (mkUser id username password_hash role created_at).

(** [if (rows.empty()) return std::nullopt;], then the first row *)
Definition first {A : Type} (decode : list string → outcome A) (rows : list (list string))
    : outcome (option A) :=
  match rows with [] => Ret None | row :: _ => a ← decode row; Ret (Some a) end.

(** ** Methods

    [run_query] and [run_execute] are the two shapes most methods have: take a
    connection, make one call, give the connection back. *)
Definition run_execute (sql : string) : prog bool :=
  conn ← acquire; ok ← execute conn sql; _ ← release conn; mret ok.
Definition run_query (sql : string) : prog (list (list string)) :=
  conn ← acquire; rows ← query conn sql; _ ← release conn; mret rows.

Definition healthCheck : prog bool :=
  conn ← acquire; r ← send conn IsConnected; _ ← release conn; mret (ok r).

Definition createApplication (app : Application) : prog bool := run_execute (sql_createApplication app).
Definition getApplication (appId : string) : prog (option Application) :=
  rows ← run_query (sql_getApplication appId); Done (first decode_application rows).
Definition listApplications : prog (list Application) :=
  rows ← run_query sql_listApplications; Done (mapM decode_application rows).
Definition deleteApplication (appId : string) : prog bool := run_execute (sql_deleteApplication appId).

Definition createNamespace (ns : Namespace) : prog bool := run_execute (sql_createNamespace ns).
Definition getNamespace (nsId : string) : prog (option Namespace) :=
  rows ← run_query (sql_getNamespace nsId); Done (first decode_namespace rows).
Definition listNamespaces (appId env cluster : string) : prog (list Namespace) :=
  rows ← run_query (sql_listNamespaces appId env cluster); Done (mapM decode_namespace rows).
Definition deleteNamespace (nsId : string) : prog bool := run_execute (sql_deleteNamespace nsId).

Definition config_id (namespaceId key : string) : string := namespaceId +:+ ":" +:+ key.

Definition createConfig (namespaceId key value operatorId : string) (now : Z) : prog bool :=
  conn ← acquire;
  let ts := getTimestamp now in
  let configId := config_id namespaceId key in
  _ ← execute conn (sql_createConfig namespaceId key value ts);
  _ ← execute conn (sql_createVersion configId value operatorId ts);
  _ ← execute conn (sql_createLog configId namespaceId key value operatorId ts);
  _ ← release conn;
  mret true.

(** [x + 1] on [int32_t] *)
Definition add_int32 (x y : Z) : outcome Z := if decide (in_int32 (x + y)) then Ret (x + y) else Undef.

Definition updateConfig (namespaceId key value operatorId : string) (draft : bool) (now : Z) : prog bool :=
  conn ← acquire;
  let ts := getTimestamp now in
  let configId := config_id namespaceId key in
  rows ← query conn (sql_currentConfig namespaceId key);
  match rows with
  | [] => _ ← release conn; mret false
  | row :: _ =>
    oldVersion ← Done (cell_int row 0);
    oldValue ← Done (cell row 1);
    newVersion ← Done (add_int32 oldVersion 1);
    let status := if draft then "draft" else "live" in
    _ ← execute conn (sql_updateConfig value newVersion status ts namespaceId key);
    _ ← execute conn (sql_updateVersion newVersion configId value operatorId ts);
    _ ← execute conn (sql_updateLog configId namespaceId key newVersion oldValue value operatorId ts);
    _ ← release conn;
    mret true
  end.

Definition deleteConfig (namespaceId key operatorId : string) (draft : bool) (now : Z) : prog bool :=
  conn ← acquire;
  let ts := getTimestamp now in
  let configId := config_id namespaceId key in
  _ ← execute conn (if draft then sql_deleteDraft namespaceId key else sql_deleteConfig namespaceId key);
  _ ← execute conn (sql_deleteLog configId namespaceId key operatorId ts);
  _ ← release conn;
  mret true.

(** The status is looked at before the row is read. *)
Definition getConfig (namespaceId key : string) (includeDraft : bool) : prog (option ConfigKey) :=
  rows ← run_query (sql_getConfig namespaceId key);
  Done (match rows with
        | [] => Ret None
        | row :: _ =>
          hidden ← (if includeDraft then Ret false
                    else status ← cell row 4; Ret (bool_decide (status = "draft")));
          if hidden : bool then Ret None else config ← decode_config row; Ret (Some config)
        end).

Definition listConfigs (namespaceId : string) (includeDraft : bool) : prog (list ConfigKey) :=
  rows ← run_query (sql_listConfigs namespaceId includeDraft); Done (mapM decode_config rows).

Definition getConfigVersions (namespaceId key : string) : prog (list ConfigVersion) :=
  rows ← run_query (sql_getConfigVersions (config_id namespaceId key)); Done (mapM decode_version rows).
Definition getConfigVersion (namespaceId key : string) (version : Z) : prog (option ConfigVersion) :=
  rows ← run_query (sql_getConfigVersion (config_id namespaceId key) version); Done (first decode_version rows).

Definition rollbackConfig (namespaceId key : string) (targetVersion : Z) (operatorId : string) (now : Z)
    : prog bool :=
  target ← getConfigVersion namespaceId key targetVersion;
  match target with
  | None => mret false
  | Some target => updateConfig namespaceId key (cv_value target) operatorId true now
  end.

(** [(page - 1) * page_size] on [int32_t] *)
Definition page_offset (page page_size : Z) : outcome Z :=
  p ← add_int32 page (-1);
  if decide (in_int32 (p * page_size)) then Ret (p * page_size) else Undef.

Definition getChangeHistory (q : ChangeLogQuery) : prog (list ChangeLog) :=
  conn ← acquire;
  offset ← Done (page_offset (clq_page q) (clq_page_size q));
  rows ← query conn (sql_getChangeHistory q offset);
  _ ← release conn;
  Done (mapM decode_log rows).

(** [SELECT LAST_INSERT_ID()], and the id when a row with a cell comes back *)
Definition last_insert_id (conn : conn) (id : Z) : prog Z :=
  idRows ← query conn sql_lastInsertId;
  match idRows with
  | (s :: _) :: _ => Done (or_throw (stoll s))
  | _ => mret id
  end.

(** The release the caller passed comes back with its time and its id. *)
Definition createRelease (r : Release) (now : Z) : prog (bool * Release) :=
  conn ← acquire;
  let ts := getTimestamp now in
  _ ← execute conn (sql_createRelease r ts);
  id ← last_insert_id conn (rel_id r);
  _ ← release conn;
  mret (true, mkRelease id (rel_namespace_id r) (rel_release_version r) (rel_release_note r)
    (rel_release_type r) (rel_status r) (rel_grayscale_percentage r) (rel_whitelist r)
    (rel_operator_id r) ts).

Definition getReleases (q : ReleaseQuery) : prog (list Release) :=
  conn ← acquire;
  offset ← Done (page_offset (rq_page q) (rq_page_size q));
  rows ← query conn (sql_getReleases q offset);
  _ ← release conn;
  Done (mapM decode_release rows).
Definition getRelease (releaseId : Z) : prog (option Release) :=
  rows ← run_query (sql_getRelease releaseId); Done (first decode_release rows).
Definition retireRelease (releaseId : Z) : prog bool :=
  _ ← run_execute (sql_retireRelease releaseId); mret true.

(** The statements of [publishRelease], up to the release it hands out. *)
Definition publishStatements (conn : conn) (namespaceId releaseNote operatorId : string) (now : Z)
    : prog Release :=
  _ ← execute conn (sql_goLive namespaceId);
  versionRows ← query conn (sql_maxVersion namespaceId);
  nextVersion ← match versionRows with
                | (s :: _) :: _ =>
                  if bool_decide (s = "") then mret 1
                  else Done (v ← or_throw (stoi s); add_int32 v 1)
                | _ => mret 1
                end;
  let ts := getTimestamp now in
  _ ← execute conn (sql_insertRelease namespaceId nextVersion releaseNote operatorId ts);
  id ← last_insert_id conn 0;
  mret (mkRelease id namespaceId nextVersion releaseNote "full" "active" None None operatorId ts).

(** [outRelease] is assigned before the commit, so the block is caught in two
    parts: a failure before the assignment keeps the caller's release, a failure
    of the commit does not. *)
Definition publishRelease (namespaceId releaseNote operatorId : string) (outRelease : Release) (now : Z)
    : prog (bool * Release) :=
  conn ← acquire;
  _ ← send conn BeginTransaction;
  let failed (out : Release) : prog (bool * Release) :=
    _ ← send conn Rollback; _ ← release conn; mret (false, out) in
  published ← prog_catch
    (r ← publishStatements conn namespaceId releaseNote operatorId now; mret (Some r)) (mret None);
  match published with
  | None => failed outRelease
  | Some r =>
    prog_catch (_ ← send conn Commit; _ ← release conn; mret (true, r)) (failed r)
  end.

Definition createApproval (approval : Approval) (now : Z) : prog (bool * Approval) :=
  conn ← acquire;
  let ts := getTimestamp now in
  _ ← execute conn (sql_createApproval approval ts);
  id ← last_insert_id conn (apv_id approval);
  _ ← release conn;
  mret (true, mkApproval id (apv_namespace_id approval) (apv_submitter_id approval)
    (apv_approver_id approval) (apv_status approval) (apv_comment approval) ts (apv_updated_at approval)).

Definition updateApprovalStatus (approvalId : Z) (status comment : string) (now : Z) : prog bool :=
  _ ← run_execute (sql_updateApproval status comment (getTimestamp now) approvalId); mret true.
Definition getPendingApprovals (namespaceId : string) : prog (list Approval) :=
  rows ← run_query (sql_getPendingApprovals namespaceId); Done (mapM decode_approval rows).

Definition createUser (user : User) : prog bool := run_execute (sql_createUser user).
Definition getUserByUsername (username : string) : prog (option User) :=
  rows ← run_query (sql_getUser username); Done (first decode_user rows).
Definition listUsers : prog (list User) :=
  rows ← run_query sql_listUsers; Done (mapM decode_user rows).

(** The connection is not given back. *)
Definition beginTransaction : prog bool := conn ← acquire; r ← send conn BeginTransaction; mret (ok r).
Definition commitTransaction : prog bool := conn ← acquire; r ← send conn Commit; mret (ok r).
Definition rollbackTransaction : prog bool := conn ← acquire; r ← send conn Rollback; mret (ok r).

(** ** The schema

    The texts of [autoMigrate], as they are in the source. *)
Definition ddl_applications : string :=
  "
        CREATE TABLE IF NOT EXISTS applications (
            app_id VARCHAR(255) PRIMARY KEY,
            name VARCHAR(255) NOT NULL,
            description TEXT,
            created_at DATETIME NOT NULL
        )
    ".

Definition ddl_namespaces : string :=
  "
        CREATE TABLE IF NOT EXISTS namespaces (
            id VARCHAR(255) PRIMARY KEY,
            app_id VARCHAR(255) NOT NULL,
            env VARCHAR(50) NOT NULL,
            cluster VARCHAR(100) NOT NULL DEFAULT 'default',
            name VARCHAR(255) NOT NULL,
            type VARCHAR(50) NOT NULL,
            parent_namespace_id VARCHAR(255),
            approval_enabled BOOLEAN DEFAULT FALSE,
            created_at DATETIME NOT NULL,
            FOREIGN KEY (app_id) REFERENCES applications(app_id) ON DELETE CASCADE
        )
    ".

Definition ddl_configs : string :=
  "
        CREATE TABLE IF NOT EXISTS configs (
            namespace_id VARCHAR(255) NOT NULL,
            `key` VARCHAR(255) NOT NULL,
            value TEXT NOT NULL,
            version INT NOT NULL DEFAULT 1,
            status VARCHAR(20) NOT NULL DEFAULT 'live',
            created_at DATETIME NOT NULL,
            updated_at DATETIME NOT NULL,
            PRIMARY KEY (namespace_id, `key`),
            FOREIGN KEY (namespace_id) REFERENCES namespaces(id) ON DELETE CASCADE
        )
    ".

Definition ddl_config_versions : string :=
  "
        CREATE TABLE IF NOT EXISTS config_versions (
            version INT NOT NULL,
            config_id VARCHAR(512) NOT NULL,
            value TEXT NOT NULL,
            change_type VARCHAR(50) NOT NULL,
            operator_id VARCHAR(255) NOT NULL,
            created_at DATETIME NOT NULL
        )
    ".

Definition ddl_change_logs : string :=
  "
        CREATE TABLE IF NOT EXISTS change_logs (
            id BIGINT AUTO_INCREMENT PRIMARY KEY,
            config_id VARCHAR(512) NOT NULL,
            namespace_id VARCHAR(255) NOT NULL,
            `key` VARCHAR(255) NOT NULL,
            version INT NOT NULL,
            old_value TEXT,
            new_value TEXT,
            operation VARCHAR(50) NOT NULL,
            operator_id VARCHAR(255) NOT NULL,
            created_at DATETIME NOT NULL
        )
    ".

Definition ddl_releases : string :=
  "
        CREATE TABLE IF NOT EXISTS releases (
            id BIGINT AUTO_INCREMENT PRIMARY KEY,
            namespace_id VARCHAR(255) NOT NULL,
            release_version INT NOT NULL,
            release_note TEXT,
            release_type VARCHAR(50) NOT NULL DEFAULT 'full',
            status VARCHAR(50) NOT NULL DEFAULT 'active',
            grayscale_percentage INT,
            whitelist TEXT,
            operator_id VARCHAR(255) NOT NULL,
            created_at DATETIME NOT NULL,
            FOREIGN KEY (namespace_id) REFERENCES namespaces(id) ON DELETE CASCADE
        )
    ".

Definition ddl_approvals : string :=
  "
        CREATE TABLE IF NOT EXISTS approvals (
            id BIGINT AUTO_INCREMENT PRIMARY KEY,
            namespace_id VARCHAR(255) NOT NULL,
            submitter_id VARCHAR(255) NOT NULL,
            approver_id VARCHAR(255),
            status VARCHAR(50) NOT NULL DEFAULT 'pending',
            comment TEXT,
            created_at DATETIME NOT NULL,
            updated_at DATETIME,
            FOREIGN KEY (namespace_id) REFERENCES namespaces(id) ON DELETE CASCADE
        )
    ".

Definition ddl_users : string :=
  "
        CREATE TABLE IF NOT EXISTS users (
            id BIGINT AUTO_INCREMENT PRIMARY KEY,
            username VARCHAR(255) UNIQUE NOT NULL,
            password_hash VARCHAR(255) NOT NULL,
            role VARCHAR(50) NOT NULL DEFAULT 'viewer',
            created_at DATETIME NOT NULL
        )
    ".

Definition schema : list string :=
  [ddl_applications; ddl_namespaces; ddl_configs; ddl_config_versions; ddl_change_logs; ddl_releases; ddl_approvals; ddl_users].

(** The results of the statements are not looked at. *)
Fixpoint execute_all (conn : conn) (sqls : list string) : prog () :=
  match sqls with
  | [] => mret ()
  | sql :: sqls => _ ← execute conn sql; execute_all conn sqls
  end.
Definition autoMigrate : prog bool :=
  conn ← acquire; _ ← execute_all conn schema; _ ← release conn; mret true.

(** [initialize] of a store that has no pool yet: the connection string, ten
    connections, the schema.  [None] is a call that never returns. *)
Definition initialize {W : Type} `{!Server W} (connectionString : string) (m : members) (w : W)
    : option (outcome bool * mysql W) :=
  match parse_connection connectionString m with
  | Ret m =>
    match MysqlConnectionPool 10 (m_host m) (m_port m) (m_user m) (m_password m) (m_database m) w with
    | (Ret pool, w) => exec autoMigrate (mkMysql pool w)
    | (Throw, w) => Some (Throw, mkMysql [] w)
    | (Undef, w) => Some (Undef, mkMysql [] w)
    end
  | Throw => Some (Throw, mkMysql [] w)
  | Undef => Some (Undef, mkMysql [] w)
  end.
End Mysql.
