(* ===== verification/MysqlSql.v ===== *)
(** * What the MySQL store sends

    [op] enumerates the calls of the store's methods and [program] is what a call
    does.  [intends o st] gives the SQL statements the call [o] is meant to send:
    its arguments appear in them as values only.  [statements_intended] shows that
    every text a call sends, whatever its arguments and the answers, is the text of
    one of them; the arguments cannot become SQL.  [well_typed] checks a
    statement against the schema that [autoMigrate] creates, read from its own
    text. *)
From S2P Require Import Prelude Strings Timestamp DataTypes MysqlPool MysqlConfigStore Sql.

(** ** Calls *)
Inductive op :=
  | HealthCheck
  | CreateApplication (app : Application)
  | GetApplication (appId : string)
  | ListApplications
  | DeleteApplication (appId : string)
  | CreateNamespace (ns : Namespace)
  | GetNamespace (nsId : string)
  | ListNamespaces (appId env cluster : string)
  | DeleteNamespace (nsId : string)
  | CreateConfig (ns key value operator : string) (now : Z)
  | UpdateConfig (ns key value operator : string) (draft : bool) (now : Z)
  | DeleteConfig (ns key operator : string) (draft : bool) (now : Z)
  | GetConfig (ns key : string) (includeDraft : bool)
  | ListConfigs (ns : string) (includeDraft : bool)
  | GetConfigVersions (ns key : string)
  | GetConfigVersion (ns key : string) (version : Z)
  | RollbackConfig (ns key : string) (target : Z) (operator : string) (now : Z)
  | GetChangeHistory (q : ChangeLogQuery)
  | CreateRelease (r : Release) (now : Z)
  | GetReleases (q : ReleaseQuery)
  | GetRelease (id : Z)
  | RetireRelease (id : Z)
  | PublishRelease (ns note operator : string) (out : Release) (now : Z)
  | CreateApproval (a : Approval) (now : Z)
  | UpdateApprovalStatus (id : Z) (status comment : string) (now : Z)
  | GetPendingApprovals (ns : string)
  | CreateUser (u : User)
  | GetUserByUsername (name : string)
  | ListUsers
  | BeginTransactionOp
  | CommitTransactionOp
  | RollbackTransactionOp.

(** A call whose result is not looked at. *)
Definition call {A : Type} (p : prog A) : prog () := _ ← p; mret ().

Definition program (o : op) : prog () :=
  match o with
  | HealthCheck => call Mysql.healthCheck
  | CreateApplication app => call (Mysql.createApplication app)
  | GetApplication appId => call (Mysql.getApplication appId)
  | ListApplications => call Mysql.listApplications
  | DeleteApplication appId => call (Mysql.deleteApplication appId)
  | CreateNamespace ns => call (Mysql.createNamespace ns)
  | GetNamespace nsId => call (Mysql.getNamespace nsId)
  | ListNamespaces appId env cluster => call (Mysql.listNamespaces appId env cluster)
  | DeleteNamespace nsId => call (Mysql.deleteNamespace nsId)
  | CreateConfig ns key value operator now => call (Mysql.createConfig ns key value operator now)
  | UpdateConfig ns key value operator draft now => call (Mysql.updateConfig ns key value operator draft now)
  | DeleteConfig ns key operator draft now => call (Mysql.deleteConfig ns key operator draft now)
  | GetConfig ns key includeDraft => call (Mysql.getConfig ns key includeDraft)
  | ListConfigs ns includeDraft => call (Mysql.listConfigs ns includeDraft)
  | GetConfigVersions ns key => call (Mysql.getConfigVersions ns key)
  | GetConfigVersion ns key version => call (Mysql.getConfigVersion ns key version)
  | RollbackConfig ns key target operator now => call (Mysql.rollbackConfig ns key target operator now)
  | GetChangeHistory q => call (Mysql.getChangeHistory q)
  | CreateRelease r now => call (Mysql.createRelease r now)
  | GetReleases q => call (Mysql.getReleases q)
  | GetRelease id => call (Mysql.getRelease id)
  | RetireRelease id => call (Mysql.retireRelease id)
  | PublishRelease ns note operator out now => call (Mysql.publishRelease ns note operator out now)
  | CreateApproval a now => call (Mysql.createApproval a now)
  | UpdateApprovalStatus id status comment now => call (Mysql.updateApprovalStatus id status comment now)
  | GetPendingApprovals ns => call (Mysql.getPendingApprovals ns)
  | CreateUser u => call (Mysql.createUser u)
  | GetUserByUsername name => call (Mysql.getUserByUsername name)
  | ListUsers => call Mysql.listUsers
  | BeginTransactionOp => call Mysql.beginTransaction
  | CommitTransactionOp => call Mysql.commitTransaction
  | RollbackTransactionOp => call Mysql.rollbackTransaction
  end.

(** ** The statements they are meant to send *)
Definition text_or_null (o : option string) : value := from_option VStr VNull o.
Definition int_or_null (o : option Z) : value := from_option VInt VNull o.
(** [col = 'v'] *)
Definition col_is (col v : string) : cond := Cmp col CEq (VStr v).
Definition key_is (ns key : string) : list cond := [col_is "namespace_id" ns; col_is "key" key].
Definition filter_by (col : string) (o : comparison_op) (v : option string) : list cond :=
  match v with Some v => [Cmp col o (VStr v)] | None => [] end.

Definition application_cols := ["app_id"; "name"; "description"; "created_at"].
Definition namespace_cols :=
  ["id"; "app_id"; "env"; "cluster"; "name"; "type"; "parent_namespace_id"; "approval_enabled"; "created_at"].
Definition config_cols := ["namespace_id"; "key"; "value"; "version"; "status"; "created_at"; "updated_at"].
Definition version_cols := ["version"; "config_id"; "value"; "change_type"; "operator_id"; "created_at"].
Definition log_cols :=
  ["id"; "config_id"; "namespace_id"; "key"; "version"; "old_value"; "new_value"; "operation"; "operator_id"; "created_at"].
Definition release_cols :=
  ["id"; "namespace_id"; "release_version"; "release_note"; "release_type"; "status";
   "grayscale_percentage"; "whitelist"; "operator_id"; "created_at"].
Definition approval_cols :=
  ["id"; "namespace_id"; "submitter_id"; "approver_id"; "status"; "comment"; "created_at"; "updated_at"].
Definition user_cols := ["id"; "username"; "password_hash"; "role"; "created_at"].

Definition select (cols : list string) (table : string) (wh : list cond) : stmt := Select cols table wh None None.

Definition history_filters (q : ChangeLogQuery) : list cond :=
  filter_by "key" CEq (clq_key q) ++ filter_by "namespace_id" CEq (clq_namespace_id q)
  ++ filter_by "created_at" CGe (clq_time_from q) ++ filter_by "created_at" CLe (clq_time_to q).

(** The statements of [updateConfig], for the version and value it found. *)
Definition update_stmts (ns key v operator : string) (draft : bool) (now version : Z) (old : string) : list stmt :=
  let ts := getTimestamp now in let cid := Mysql.config_id ns key in
  [select ["version"; "value"] "configs" (key_is ns key);
   Update "configs" [("value", VStr v); ("version", VInt version);
     ("status", VStr (if draft then "draft" else "live")); ("updated_at", VStr ts)] (key_is ns key);
   Insert "config_versions" version_cols
     [VInt version; VStr cid; VStr v; VStr "update"; VStr operator; VStr ts];
   Insert "change_logs"
     ["config_id"; "namespace_id"; "key"; "version"; "old_value"; "new_value"; "operation"; "operator_id"; "created_at"]
     [VStr cid; VStr ns; VStr key; VInt version; VStr old; VStr v; VStr "update"; VStr operator; VStr ts]].

Inductive intends : op → stmt → Prop :=
  | i_createApplication a :
      intends (CreateApplication a) (Insert "applications" application_cols
        [VStr (app_app_id a); VStr (app_name a); text_or_null (app_description a); VStr (app_created_at a)])
  | i_getApplication i : intends (GetApplication i) (select application_cols "applications" [col_is "app_id" i])
  | i_listApplications : intends ListApplications (select application_cols "applications" [])
  | i_deleteApplication i : intends (DeleteApplication i) (Delete "applications" [col_is "app_id" i])
  | i_createNamespace n :
      intends (CreateNamespace n) (Insert "namespaces" namespace_cols
        [VStr (ns_id n); VStr (ns_app_id n); VStr (ns_env n); VStr (ns_cluster n); VStr (ns_name n);
         VStr (ns_type n); text_or_null (ns_parent_namespace_id n);
         VBool (bool_decide (ns_approval_enabled n = Some true)); VStr (ns_created_at n)])
  | i_getNamespace i : intends (GetNamespace i) (select namespace_cols "namespaces" [col_is "id" i])
  | i_listNamespaces a e c :
      intends (ListNamespaces a e c)
        (select namespace_cols "namespaces" [col_is "app_id" a; col_is "env" e; col_is "cluster" c])
  | i_deleteNamespace i : intends (DeleteNamespace i) (Delete "namespaces" [col_is "id" i])
  | i_createConfig ns k v o now st :
      let ts := getTimestamp now in let cid := Mysql.config_id ns k in
      st ∈ [Insert "configs" config_cols
              [VStr ns; VStr k; VStr v; VInt 1; VStr "draft"; VStr ts; VStr ts];
            Insert "config_versions" version_cols
              [VInt 1; VStr cid; VStr v; VStr "create"; VStr o; VStr ts];
            Insert "change_logs"
              ["config_id"; "namespace_id"; "key"; "version"; "new_value"; "operation"; "operator_id"; "created_at"]
              [VStr cid; VStr ns; VStr k; VInt 1; VStr v; VStr "create"; VStr o; VStr ts]] →
      intends (CreateConfig ns k v o now) st
  | i_updateConfig ns k v o d now version old st :
      st ∈ update_stmts ns k v o d now version old → intends (UpdateConfig ns k v o d now) st
  | i_deleteConfig ns k o (d : bool) now st :
      let ts := getTimestamp now in let cid := Mysql.config_id ns k in
      st ∈ [Delete "configs" (key_is ns k ++ (if d then [col_is "status" "draft"] else []));
            Insert "change_logs"
              ["config_id"; "namespace_id"; "key"; "version"; "operation"; "operator_id"; "created_at"]
              [VStr cid; VStr ns; VStr k; VInt 0; VStr "delete"; VStr o; VStr ts]] →
      intends (DeleteConfig ns k o d now) st
  | i_getConfig ns k d : intends (GetConfig ns k d) (select config_cols "configs" (key_is ns k))
  | i_listConfigs ns (d : bool) :
      intends (ListConfigs ns d)
        (select config_cols "configs" (col_is "namespace_id" ns :: (if d then [] else [col_is "status" "live"])))
  | i_getConfigVersions ns k :
      intends (GetConfigVersions ns k)
        (Select version_cols "config_versions" [col_is "config_id" (Mysql.config_id ns k)] (Some "version") None)
  | i_getConfigVersion ns k n :
      intends (GetConfigVersion ns k n)
        (select version_cols "config_versions" [col_is "config_id" (Mysql.config_id ns k); Cmp "version" CEq (VInt n)])
  | i_rollbackConfig ns k n o now st :
      st = select version_cols "config_versions" [col_is "config_id" (Mysql.config_id ns k); Cmp "version" CEq (VInt n)]
      ∨ (∃ v version old, st ∈ update_stmts ns k v o true now version old) →
      intends (RollbackConfig ns k n o now) st
  | i_getChangeHistory q :
      intends (GetChangeHistory q)
        (Select log_cols "change_logs" (Always :: history_filters q) (Some "created_at")
          (Some (clq_page_size q, (clq_page q - 1) * clq_page_size q)))
  | i_createRelease r now st :
      st ∈ [Insert "releases"
              ["namespace_id"; "release_version"; "release_note"; "release_type"; "status";
               "grayscale_percentage"; "whitelist"; "operator_id"; "created_at"]
              [VStr (rel_namespace_id r); VInt (rel_release_version r); VStr (rel_release_note r);
               VStr (rel_release_type r); VStr (rel_status r); int_or_null (rel_grayscale_percentage r);
               text_or_null (rel_whitelist r); VStr (rel_operator_id r); VStr (getTimestamp now)];
            SelectLastInsertId] →
      intends (CreateRelease r now) st
  | i_getReleases q :
      intends (GetReleases q)
        (Select release_cols "releases" [col_is "namespace_id" (rq_namespace_id q)] (Some "created_at")
          (Some (rq_page_size q, (rq_page q - 1) * rq_page_size q)))
  | i_getRelease i : intends (GetRelease i) (select release_cols "releases" [Cmp "id" CEq (VInt i)])
  | i_retireRelease i :
      intends (RetireRelease i) (Update "releases" [("status", VStr "retired")] [Cmp "id" CEq (VInt i)])
  | i_publishRelease ns note o out now version st :
      st ∈ [Update "configs" [("status", VStr "live")] [col_is "namespace_id" ns];
            SelectMax "release_version" "releases" [col_is "namespace_id" ns];
            Insert "releases"
              ["namespace_id"; "release_version"; "release_note"; "release_type"; "status"; "operator_id"; "created_at"]
              [VStr ns; VInt version; VStr note; VStr "full"; VStr "active"; VStr o; VStr (getTimestamp now)];
            SelectLastInsertId] →
      intends (PublishRelease ns note o out now) st
  | i_createApproval a now st :
      st ∈ [Insert "approvals" ["namespace_id"; "submitter_id"; "approver_id"; "status"; "comment"; "created_at"]
              [VStr (apv_namespace_id a); VStr (apv_submitter_id a);
               (if bool_decide (apv_approver_id a = "") then VNull else VStr (apv_approver_id a));
               VStr (apv_status a); VStr (apv_comment a); VStr (getTimestamp now)];
            SelectLastInsertId] →
      intends (CreateApproval a now) st
  | i_updateApprovalStatus i s c now :
      intends (UpdateApprovalStatus i s c now)
        (Update "approvals" [("status", VStr s); ("comment", VStr c); ("updated_at", VStr (getTimestamp now))]
          [Cmp "id" CEq (VInt i)])
  | i_getPendingApprovals ns :
      intends (GetPendingApprovals ns)
        (select approval_cols "approvals" [col_is "namespace_id" ns; col_is "status" "pending"])
  | i_createUser u :
      intends (CreateUser u) (Insert "users" ["username"; "password_hash"; "role"; "created_at"]
        [VStr (usr_username u); VStr (usr_password_hash u); VStr (usr_role u); VStr (usr_created_at u)])
  | i_getUserByUsername n : intends (GetUserByUsername n) (select user_cols "users" [col_is "username" n])
  | i_listUsers : intends ListUsers (select user_cols "users" []).

(** ** Escaping *)
Lemma run_escape acc v : run (Str acc) (Mysql.escape v) = Some ([], Str (acc +:+ v)).
Proof.
  revert acc. induction v as [|a v IH]; intros acc; [cbn; by rewrite str_app_empty|].
  cbn [Mysql.escape]. rewrite run_app.
  match goal with |- context [run (Str acc) ?e] =>
    assert (run (Str acc) e = Some ([], Str (snoc acc a))) as -> end.
  { case_bool_decide; [by subst|]. case_bool_decide; [by subst|]. cbn.
    by rewrite !bool_decide_false by done. }
  cbn [mbind option_bind]. rewrite IH. cbn. by rewrite snoc_app.
Qed.

Lemma lex_escape v t : lex_from (Str "") (Mysql.escape v +:+ t) = lex_from (Str v) t.
Proof. rewrite (lex_app _ _ _ _ _ (run_escape "" v)). cbn. by destruct (lex_from _ t). Qed.

Lemma lex_plain s t :
  Forall plain_char (chars s) → lex_from (Str "") (s +:+ t) = lex_from (Str s) t.
Proof. intros Hs. rewrite (lex_app _ _ _ _ _ (run_plain "" s Hs)). cbn. by destruct (lex_from _ t). Qed.

Lemma lex_int z t :
  lex_from Start (Mysql.to_string z +:+ t) = (λ l, int_sign z ++ l) <$> lex_from (Num (int_digits z)) t.
Proof. apply lex_app, run_int. Qed.

Lemma lex_int_end z : lex_from Start (Mysql.to_string z) = Some (int_tokens z).
Proof. unfold lex_from, Mysql.to_string. rewrite run_int, int_tokens_eq. done. Qed.

(** Timestamps stand for themselves in a literal. *)
Lemma digit_plain a : is_digit a → plain_char a.
Proof.
  unfold is_digit, plain_char, quote, backslash. intros Ha.
  apply andb_prop_elim in Ha as [H1%Is_true_true_1%N.leb_le H2%Is_true_true_1%N.leb_le].
  rewrite !bool_decide_false; [done|intros ->; cbn in *; lia..].
Qed.

Lemma pretty_plain (z : Z) : Forall plain_char (chars (pretty z)).
Proof.
  assert (∀ n : N, Forall plain_char (chars (pretty n))) as HN.
  { intros n. eapply Forall_impl; [apply pretty_N_digits|apply digit_plain]. }
  destruct z as [|p|p]; [by repeat constructor|apply (HN (Npos p))|].
  change (pretty (Zneg p)) with (String "-" (pretty (Npos p))). cbn. constructor; [done|apply HN].
Qed.

Lemma digits_plain w n : Forall plain_char (chars (digits w n)).
Proof.
  induction w as [|w IH]; [constructor|]. cbn. constructor; [|done].
  apply digit_plain. unfold is_digit, digit.
  pose proof (Z.mod_pos_bound (n / 10 ^ Z.of_nat w) 10 ltac:(lia)).
  rewrite N_ascii_embedding by lia. apply andb_prop_intro. split; apply Is_true_true_2, N.leb_le; lia.
Qed.

Lemma getTimestamp_plain now : Forall plain_char (chars (getTimestamp now)).
Proof.
  unfold getTimestamp, put_time. rewrite !chars_app.
  repeat apply Forall_app_2; auto using pretty_plain, digits_plain; by repeat constructor.
Qed.

(** ** Reading the texts *)

(** One segment of a text: a literal of the source is run through the automaton,
    an argument is a literal's value, a number its digits. *)
Ltac lex_segment :=
  lazymatch goal with
  | |- context [lex_from (Str "") (Mysql.escape ?v +:+ ?t)] => rewrite (lex_escape v t)
  | |- context [lex_from (Str "") (getTimestamp ?now +:+ ?t)] =>
    rewrite (lex_plain (getTimestamp now) t (getTimestamp_plain now))
  | |- context [lex_from Start (Mysql.to_string ?z +:+ ?t)] => rewrite (lex_int z t)
  | |- context [lex_from Start (Mysql.to_string ?z)] => rewrite (lex_int_end z)
  | |- context [lex_from (?c ?acc) (?s +:+ ?t)] =>
    let r := eval vm_compute in (λ x, run (c x) s) in
    let r := eval cbv beta in (r acc) in
    lazymatch r with Some (?ts, ?m) => rewrite (lex_app (c acc) s t ts m eq_refl) end
  | |- context [lex_from Start (?s +:+ ?t)] =>
    let r := eval vm_compute in (run Start s) in
    lazymatch r with Some (?ts, ?m) => rewrite (lex_app Start s t ts m eq_refl) end
  | |- context [lex_from (?c ?acc) ?s] =>
    let r := eval vm_compute in (λ x, lex_from (c x) s) in
    let r := eval cbv beta in (r acc) in change (lex_from (c acc) s) with r
  | |- context [lex_from Start ?s] =>
    let r := eval vm_compute in (lex_from Start s) in change (lex_from Start s) with r
  end.

(** The whole text, as an equation of tokens. *)
Ltac lex_text :=
  rewrite ?str_app_assoc; repeat lex_segment;
  cbn -[int_tokens int_sign int_digits]; rewrite ?int_tokens_eq; cbn -[int_sign int_digits];
  repeat (progress (rewrite <- ?app_assoc; cbn [app])); reflexivity.

Create HintDb sql.
#[export] Hint Unfold Mysql.sql_createApplication Mysql.sql_getApplication Mysql.sql_listApplications
  Mysql.sql_deleteApplication Mysql.sql_createNamespace Mysql.sql_getNamespace Mysql.sql_listNamespaces
  Mysql.sql_deleteNamespace Mysql.sql_createConfig Mysql.sql_createVersion Mysql.sql_createLog
  Mysql.sql_currentConfig Mysql.sql_updateConfig Mysql.sql_updateVersion Mysql.sql_updateLog
  Mysql.sql_deleteDraft Mysql.sql_deleteConfig Mysql.sql_deleteLog Mysql.sql_getConfig
  Mysql.sql_listConfigs Mysql.sql_getConfigVersions Mysql.sql_getConfigVersion
  Mysql.sql_getChangeHistory Mysql.sql_createRelease Mysql.sql_lastInsertId Mysql.sql_getReleases
  Mysql.sql_getRelease Mysql.sql_retireRelease Mysql.sql_goLive Mysql.sql_maxVersion
  Mysql.sql_insertRelease Mysql.sql_createApproval Mysql.sql_updateApproval
  Mysql.sql_getPendingApprovals Mysql.sql_createUser Mysql.sql_getUser Mysql.sql_listUsers
  Mysql.nullable Mysql.approval_text Mysql.clause : sql.
#[export] Hint Unfold text_or_null int_or_null from_option history_filters filter_by : sql.

(** Every optional part, present and absent, then the text. *)
Ltac spell := unfold spells, lex; autounfold with sql; repeat case_match; simplify_eq; lex_text.

(** ** Every request of a program *)
Fixpoint sends_only {A : Type} (P : req → Prop) (p : prog A) : Prop :=
  match p with
  | Done _ => True
  | Acquire k => ∀ c, sends_only P (k c)
  | GiveBack _ p => sends_only P p
  | Send _ r k => P r ∧ ∀ o, sends_only P (k o)
  end.

Section sends.
Context (P : req → Prop).

Lemma sends_bind {A B : Type} (p : prog A) (f : A → prog B) :
  sends_only P p → (∀ a, sends_only P (f a)) → sends_only P (p ≫= f).
Proof.
  intros Hp Hf. induction p as [[a| |]|k IH|c p IH|c r k IH]; cbn in *; naive_solver.
Qed.
Lemma sends_catch {A : Type} (p h : prog A) :
  sends_only P p → sends_only P h → sends_only P (prog_catch p h).
Proof.
  intros Hp Hh. induction p as [[a| |]|k IH|c p IH|c r k IH]; cbn in *; naive_solver.
Qed.
Lemma sends_done {A : Type} (o : outcome A) : sends_only P (Done o).
Proof. done. Qed.
Lemma sends_ret {A : Type} (a : A) : sends_only P (mret a).
Proof. done. Qed.
Lemma sends_acquire : sends_only P acquire.
Proof. done. Qed.
Lemma sends_release c : sends_only P (release c).
Proof. done. Qed.
Lemma sends_send c r : P r → sends_only P (send c r).
Proof. by split. Qed.
Lemma sends_execute c sql : P (Execute sql) → sends_only P (execute c sql).
Proof. intros H. apply sends_bind; [by apply sends_send|done]. Qed.
Lemma sends_query c sql : P (Query sql) → sends_only P (query c sql).
Proof. intros H. apply sends_bind; [by apply sends_send|done]. Qed.
Lemma sends_run_execute sql : P (Execute sql) → sends_only P (Mysql.run_execute sql).
Proof. intros H. do 3 (apply sends_bind; [done || by apply sends_execute|intros ?]). done. Qed.
Lemma sends_run_query sql : P (Query sql) → sends_only P (Mysql.run_query sql).
Proof. intros H. do 3 (apply sends_bind; [done || by apply sends_query|intros ?]). done. Qed.
End sends.
Create HintDb sends.
#[export] Hint Resolve sends_done sends_ret sends_acquire sends_release sends_send sends_execute
  sends_query sends_run_execute sends_run_query : sends.

(** What a request of the call [o] may be. *)
Definition intended (o : op) (r : req) : Prop :=
  match r with
  | Execute sql | Query sql => ∃ st, intends o st ∧ spells sql st
  | _ => True
  end.

(** A statement of a list of the intended ones. *)
Ltac pick := (apply list_elem_of_here + (apply list_elem_of_further; pick)).
Ltac intend := cbn; eexists; split; [econstructor; pick|spell].
Ltac intend1 := cbn; eexists; split; [constructor|spell].

(** The calls of a program, one after the other. *)
Ltac sends_walk :=
  lazymatch goal with
  | |- sends_only _ (_ ≫= _) => apply sends_bind; [sends_walk|intros ?; sends_walk]
  | |- sends_only _ (prog_catch _ _) => apply sends_catch; sends_walk
  | |- sends_only _ (match ?x with _ => _ end) => destruct x; sends_walk
  | |- sends_only _ (execute _ _) => apply sends_execute
  | |- sends_only _ (query _ _) => apply sends_query
  | |- sends_only _ (Mysql.run_execute _) => apply sends_run_execute
  | |- sends_only _ (Mysql.run_query _) => apply sends_run_query
  | |- sends_only _ (send _ _) => by apply sends_send
  | |- _ => done
  end.

Lemma sends_update ns k v o d now P :
  (∀ version old st sql, st ∈ update_stmts ns k v o d now version old → spells sql st →
     P (Execute sql) ∧ P (Query sql)) →
  sends_only P (Mysql.updateConfig ns k v o d now).
Proof.
  intros HP. unfold Mysql.updateConfig.
  apply sends_bind; [done|intros c]. apply sends_bind.
  { apply sends_query. eapply (HP 0 ""); [unfold update_stmts; pick|spell]. }
  intros [|row rows]; [apply sends_bind; [done|by intros ?]|].
  apply sends_bind; [done|intros oldVersion]. apply sends_bind; [done|intros oldValue].
  apply sends_bind; [done|intros newVersion].
  do 3 (apply sends_bind; [apply sends_execute; eapply (HP newVersion oldValue); [unfold update_stmts; pick|spell]|intros ?]).
  apply sends_bind; [done|by intros ?].
Qed.

Lemma page_offset_ret page size offset :
  Mysql.page_offset page size = Ret offset → offset = (page - 1) * size.
Proof.
  unfold Mysql.page_offset, Mysql.add_int32. case_decide; [|done]. cbn. case_decide; [|done].
  by intros [= <-].
Qed.

(** A computation without calls: what follows may use its value. *)
Lemma sends_bind_done {A B : Type} P (o : outcome A) (f : A → prog B) :
  (∀ a, o = Ret a → sends_only P (f a)) → sends_only P (Done o ≫= f).
Proof. destruct o; cbn; auto. Qed.

Create HintDb methods.
#[export] Hint Unfold program call Mysql.healthCheck Mysql.createApplication Mysql.getApplication
  Mysql.listApplications Mysql.deleteApplication Mysql.createNamespace Mysql.getNamespace
  Mysql.listNamespaces Mysql.deleteNamespace Mysql.createConfig Mysql.updateConfig Mysql.deleteConfig
  Mysql.getConfig Mysql.listConfigs Mysql.getConfigVersions Mysql.getConfigVersion
  Mysql.rollbackConfig Mysql.getChangeHistory Mysql.last_insert_id Mysql.createRelease Mysql.getReleases
  Mysql.getRelease Mysql.retireRelease Mysql.publishStatements Mysql.publishRelease Mysql.createApproval
  Mysql.updateApprovalStatus Mysql.getPendingApprovals Mysql.createUser Mysql.getUserByUsername
  Mysql.listUsers Mysql.beginTransaction Mysql.commitTransaction Mysql.rollbackTransaction : methods.

(** The two paged queries, once their offset is known. *)
Lemma history_intended q : sends_only (intended (GetChangeHistory q)) (Mysql.getChangeHistory q).
Proof.
  unfold Mysql.getChangeHistory. apply sends_bind; [done|intros c]. apply sends_bind_done.
  intros offset ->%page_offset_ret. sends_walk. intend1.
Qed.
Lemma releases_intended q : sends_only (intended (GetReleases q)) (Mysql.getReleases q).
Proof.
  unfold Mysql.getReleases. apply sends_bind; [done|intros c]. apply sends_bind_done.
  intros offset ->%page_offset_ret. sends_walk. intend1.
Qed.
Lemma update_intended ns k v o d now :
  sends_only (intended (UpdateConfig ns k v o d now)) (Mysql.updateConfig ns k v o d now).
Proof.
  apply sends_update. intros version old st sql Hst Hsql. cbn.
  split; exists st; (split; [by apply (i_updateConfig _ _ _ _ _ _ version old)|done]).
Qed.
(** The version of the new release is the one the method computed. *)
Lemma publish_intended ns note o out now :
  sends_only (intended (PublishRelease ns note o out now)) (Mysql.publishRelease ns note o out now).
Proof.
  unfold Mysql.publishRelease, Mysql.publishStatements, Mysql.last_insert_id. sends_walk.
  all: cbn; eexists; split; [eapply (i_publishRelease _ _ _ _ _ _); pick|spell].
  Unshelve. all: exact 0.
Qed.
Lemma rollback_intended ns k n o now :
  sends_only (intended (RollbackConfig ns k n o now)) (Mysql.rollbackConfig ns k n o now).
Proof.
  unfold Mysql.rollbackConfig. apply sends_bind.
  - unfold Mysql.getConfigVersion. sends_walk. cbn. eexists. split; [constructor; by left|spell].
  - intros [target|]; [|done]. apply sends_update. intros version old st sql Hst Hsql. cbn.
    split; exists st; (split; [constructor; right; by exists (cv_value target), version, old|done]).
Qed.

Create HintDb intended.
#[export] Hint Resolve update_intended rollback_intended history_intended releases_intended
  publish_intended : intended.
Lemma program_intended o : sends_only (intended o) (program o).
Proof.
  destruct o; first
    [ solve [apply sends_bind; [auto with intended nocore|done]]
    | autounfold with methods; sends_walk; first [intend1|intend] ].
Qed.
