(* ===== verification/MysqlSchema.v ===== *)
(** * The schema of the MySQL store

    The [CREATE TABLE] texts of [autoMigrate], read with the lexer of [Sql] into
    columns with their type and whether an insert may leave them out, and
    [well_typed]: a statement that names tables and columns of that schema, gives
    them values of their type, and does not leave out a column that has to have
    a value.  A [DATETIME] column is given text, and [date_texts] are these texts.
    Every statement the store sends is one of the intended ones
    ([statements_intended]), is well typed, and its dates are those of the call
    ([statements_typed]). *)
From S2P Require Import Prelude Strings Timestamp DataTypes MysqlPool MysqlConfigStore Sql MysqlSql.

(** ** Reading [CREATE TABLE] *)
Inductive col_type := CText | CInt | CBool | CDate.
#[export] Instance col_type_eq_dec : EqDecision col_type.
Proof. solve_decision. Defined.

Record column := mkColumn {
  col_name : string;
  col_kind : col_type;
  col_nullable : bool;
  col_optional : bool;   (* an insert may leave it out *)
}.

(** The lengths of [VARCHAR] are not kept. *)
Definition type_of (w : string) : option col_type :=
  if decide (w ∈ ["VARCHAR"; "TEXT"]) then Some CText
  else if decide (w = "DATETIME") then Some CDate
  else if decide (w ∈ ["INT"; "BIGINT"]) then Some CInt
  else if decide (w = "BOOLEAN") then Some CBool else None.

Definition has (w : string) (ts : list token) : bool := bool_decide (TWord w ∈ ts).

(** A column, or a key ([None]). *)
Definition parse_item (ts : list token) : option (option column) :=
  match ts with
  | TWord c :: TWord t :: ts | TTick c :: TWord t :: ts =>
    if decide (c ∈ ["PRIMARY"; "FOREIGN"]) then Some None
    else
      k ← type_of t;
      let nullable := negb (has "NOT" ts || has "PRIMARY" ts) in
      Some (Some (mkColumn c k nullable (nullable || has "DEFAULT" ts || has "AUTO_INCREMENT" ts)))
  | _ => None
  end.

(** The items between the outer parentheses, which are the end of the text. *)
Fixpoint items (depth : nat) (item : list token) (ts : list token) : option (list (list token)) :=
  match ts with
  | [] => None
  | t :: ts =>
    if decide (t = TOp "(") then items (S depth) (item ++ [t]) ts
    else if decide (t = TOp ")") then
      match depth, ts with
      | S depth, _ => items depth (item ++ [t]) ts
      | O, [] => Some [item]
      | O, _ => None
      end
    else if decide (t = TOp "," ∧ depth = 0%nat) then cons item <$> items 0 [] ts
    else items depth (item ++ [t]) ts
  end.

Fixpoint expect_all (ws : list token) (ts : list token) : option (list token) :=
  match ws with [] => Some ts | w :: ws => ts ← expect w ts; expect_all ws ts end.

Definition parse_create (text : string) : option (string * list column) :=
  ts ← lex text;
  ts ← expect_all [TWord "CREATE"; TWord "TABLE"; TWord "IF"; TWord "NOT"; TWord "EXISTS"] ts;
  '(table, ts) ← parse_col ts;
  ts ← expect (TOp "(") ts;
  l ← items 0 [] ts;
  cols ← mapM parse_item l;
  Some (table, omap id cols).

(** The tables of [autoMigrate], evaluated once; all eight texts are read. *)
Definition tables : option (list (string * list column)) := Eval vm_compute in mapM parse_create Mysql.schema.
Lemma tables_schema : tables = mapM parse_create Mysql.schema.
Proof. vm_compute. reflexivity. Qed.

Example tables_read :
  (λ l, l.*1) <$> tables
  = Some ["applications"; "namespaces"; "configs"; "config_versions"; "change_logs"; "releases"; "approvals"; "users"].
Proof. vm_compute. reflexivity. Qed.
Example users_columns :
  (λ l, list_to_map (M := gmap string (list column)) l !! "users") <$> tables
  = Some (Some
      [mkColumn "id" CInt false true; mkColumn "username" CText false false;
       mkColumn "password_hash" CText false false; mkColumn "role" CText false true;
       mkColumn "created_at" CDate false false]).
Proof. vm_compute. reflexivity. Qed.

(** ** Typing *)
Definition table_columns (t : string) : option (list column) :=
  l ← tables; '(_, p) ← list_find (λ p, p.1 = t) l; Some p.2.

Definition find_column (cols : list column) (c : string) : option column :=
  snd <$> list_find (λ d, col_name d = c) cols.

(** The value [v] can be stored in, or compared with, the column; a date is given as
    text, whose format is the matter of [datetime_format]. *)
Definition fits (d : column) (v : value) : bool :=
  match v with
  | VStr _ => bool_decide (col_kind d ∈ [CText; CDate])
  | VInt _ => bool_decide (col_kind d = CInt)
  | VBool _ => bool_decide (col_kind d = CBool)
  | VNull => col_nullable d
  end.

Definition fits_in (cols : list column) (c : string) (v : value) : bool :=
  match find_column cols c with Some d => fits d v | None => false end.

Definition cond_fits (cols : list column) (c : cond) : bool :=
  match c with Cmp c _ v => fits_in cols c v | Always => true end.

Definition known (cols : list column) (c : string) : bool := bool_decide (is_Some (find_column cols c)).

(** [LIMIT] and [OFFSET] take no negative numbers. *)
Definition limit_ok (l : option (Z * Z)) : bool :=
  match l with Some (n, o) => (0 <=? n) && (0 <=? o) | None => true end.

Definition well_typed (st : stmt) : bool :=
  match st with
  | Insert t cs vs =>
    match table_columns t with
    | Some cols =>
      bool_decide (NoDup cs) && bool_decide (length cs = length vs) &&
      forallb (λ p, fits_in cols p.1 p.2) (zip cs vs) &&
      forallb (λ d, col_optional d || bool_decide (col_name d ∈ cs)) cols
    | None => false
    end
  | Update t sets wh =>
    match table_columns t with
    | Some cols => forallb (λ p, fits_in cols p.1 p.2) sets && forallb (cond_fits cols) wh
    | None => false
    end
  | Delete t wh => match table_columns t with Some cols => forallb (cond_fits cols) wh | None => false end
  | Select cs t wh order limit =>
    match table_columns t with
    | Some cols =>
      forallb (known cols) cs && forallb (cond_fits cols) wh &&
      match order with Some c => known cols c | None => true end && limit_ok limit
    | None => false
    end
  | SelectMax c t wh =>
    match table_columns t with Some cols => known cols c && forallb (cond_fits cols) wh | None => false end
  | SelectLastInsertId => true
  end.

(** ** Dates *)

(** The values a statement stores in columns of its table or compares with them *)
Definition cond_cells (wh : list cond) : list (string * value) :=
  omap (λ c, match c with Cmp c _ v => Some (c, v) | Always => None end) wh.
Definition cells (st : stmt) : string * list (string * value) :=
  match st with
  | Insert t cs vs => (t, zip cs vs)
  | Update t sets wh => (t, sets ++ cond_cells wh)
  | Delete t wh | Select _ t wh _ _ | SelectMax _ t wh => (t, cond_cells wh)
  | SelectLastInsertId => ("", [])
  end.

Definition is_date (cols : list column) (c : string) : bool :=
  match find_column cols c with Some d => bool_decide (col_kind d = CDate) | None => false end.

(** The texts that are given to [DATETIME] columns *)
Definition date_texts (st : stmt) : list string :=
  let cols := default [] (table_columns (cells st).1) in
  omap (λ p, if is_date cols p.1 then match p.2 with VStr s => Some s | _ => None end else None) (cells st).2.

(** The texts of dates in the arguments of a call, or the one its clock makes *)
Definition dates_of (o : op) : list string :=
  match o with
  | CreateApplication a => [app_created_at a]
  | CreateNamespace n => [ns_created_at n]
  | CreateUser u => [usr_created_at u]
  | GetChangeHistory q => option_list (clq_time_from q) ++ option_list (clq_time_to q)
  | CreateConfig _ _ _ _ now | UpdateConfig _ _ _ _ _ now | DeleteConfig _ _ _ _ now
  | RollbackConfig _ _ _ _ now | CreateRelease _ now | PublishRelease _ _ _ _ now
  | CreateApproval _ now | UpdateApprovalStatus _ _ _ now => [getTimestamp now]
  | _ => []
  end.

(** The format of a date and time literal in the MySQL manual: [YYYY-MM-DD], then
    perhaps a time after a space or a T, its fraction of a second and its offset.  (The
    range of the numbers is not looked at.  The relaxed formats of the manual, with other
    punctuation or none, are left out; they end in a digit too.) *)
Definition pattern : Type := list (Ascii.ascii → bool).
Definition a_digit (c : Ascii.ascii) : bool := 
  existsb (Ascii.eqb c) ["0"; "1"; "2"; "3"; "4"; "5"; "6"; "7"; "8"; "9"]%char.
Definition the (c : Ascii.ascii) : Ascii.ascii → bool := Ascii.eqb c.
Definition two : pattern := [a_digit; a_digit].
Definition date_pattern : pattern := two ++ two ++ [the "-"%char] ++ two ++ [the "-"%char] ++ two.
Definition time_pattern : pattern :=
  [λ c, the " "%char c || the "T"%char c] ++ two ++ [the ":"%char] ++ two ++ [the ":"%char] ++ two.
Definition offset_pattern : pattern := [λ c, the "+"%char c || the "-"%char c] ++ two ++ [the ":"%char] ++ two.
Definition fraction_patterns : list pattern := [] :: ((λ n, the "."%char :: replicate n a_digit) <$> seq 1 6).
Definition datetime_patterns : list pattern :=
  date_pattern ::
  (f ← fraction_patterns; o ← [[]; offset_pattern]; mret (date_pattern ++ time_pattern ++ f ++ o)).

Fixpoint matches (p : pattern) (s : string) : bool :=
  match p, s with
  | [], EmptyString => true
  | f :: p, String c s => f c && matches p s
  | _, _ => false
  end.
Definition datetime_format (s : string) : bool := existsb (λ p, matches p s) datetime_patterns.

Example datetime_formats :
  datetime_format <$> ["2024-02-29"; "2024-02-29 12:34:56"; "2024-02-29T12:34:56.25+08:00"; "2024-02-29T12:34:56Z"; "now"]
  = [true; true; true; false; false].
Proof. vm_compute. reflexivity. Qed.

Lemma matches_last p s c :
  matches p (s +:+ String c "") = true → match last p with Some f => f c = true | None => False end.
Proof.
  revert s. induction p as [|f p IH]; intros s; [by destruct s|]. destruct s as [|a s]; intros [Hf Hp]%andb_true_iff.
  - by destruct p.
  - specialize (IH s Hp). by destruct p.
Qed.

(** The store's own clock makes texts that end in Z, which are none of these. *)
Lemma getTimestamp_format now : datetime_format (getTimestamp now) = false.
Proof.
  apply not_true_iff_false. unfold datetime_format. rewrite existsb_exists. intros (p & Hp & Hm).
  unfold getTimestamp, put_time in Hm. rewrite <- !str_app_assoc in Hm.
  apply matches_last in Hm. apply list_elem_of_In in Hp.
  assert (Forall (λ p, match last p with Some f => f "Z"%char = false | None => True end) datetime_patterns) as Hall
    by by repeat constructor.
  rewrite Forall_forall in Hall. specialize (Hall p Hp). destruct (last p); [congruence|done].
Qed.

(** The pages a caller asks for. *)
Definition paged (o : op) : Prop :=
  match o with
  | GetChangeHistory q => 1 ≤ clq_page q ∧ 0 ≤ clq_page_size q
  | GetReleases q => 1 ≤ rq_page q ∧ 0 ≤ rq_page_size q
  | _ => True
  end.

Lemma limit_page page size : 1 ≤ page → 0 ≤ size → limit_ok (Some (size, (page - 1) * size)) = true.
Proof. intros Hp Hs. cbn. apply andb_true_iff. split; apply Z.leb_le; [done|nia]. Qed.

(** One statement of a list of statements. *)
Ltac each_stmt H :=
  match type of H with
  | _ ∈ [] => by apply not_elem_of_nil in H
  | _ ∈ _ :: _ => apply elem_of_cons in H as [->|H]; [|each_stmt H]
  end.

Lemma update_stmts_typed ns k v o d now version old st :
  st ∈ update_stmts ns k v o d now version old → wf_stmt st = true ∧ well_typed st = true.
Proof. unfold update_stmts. intros H. each_stmt H; vm_compute; done. Qed.

Lemma filter_by_fits cols c o v :
  fits_in cols c (VStr "") = true → forallb (cond_fits cols) (filter_by c o v) = true.
Proof. intros H. destruct v as [v|]; [|done]. cbn. by rewrite andb_true_r. Qed.

Lemma history_typed q : forallb (cond_fits (default [] (table_columns "change_logs"))) (history_filters q) = true.
Proof.
  unfold history_filters. rewrite !forallb_app, !filter_by_fits by (vm_compute; reflexivity). done.
Qed.

(** The dates of a statement that is written out *)
Ltac dates :=
  cbv zeta; try match goal with |- context [getTimestamp ?n] => generalize (getTimestamp n); intros ? end;
  match goal with |- date_texts ?s ⊆ _ =>
    let l := eval vm_compute in (date_texts s) in change (date_texts s) with l
  end;
  let x := fresh in let H := fresh in
  intros x H; cbn; repeat (apply elem_of_cons in H as [->|H]; [by repeat first [by left|right]|]);
  by apply not_elem_of_nil in H.

Lemma update_stmts_dates ns k v o d now version old st :
  st ∈ update_stmts ns k v o d now version old → date_texts st ⊆ [getTimestamp now].
Proof. unfold update_stmts. intros H. each_stmt H; dates. Qed.

(** The dates of a statement are those of its call. *)
Lemma intends_dates o st : intends o st → date_texts st ⊆ dates_of o.
Proof.
  destruct 1 as [a| | | |n| | | |????? st ts cid H|???????? st H|????? st ts cid H| |? d| | |????? st H|q|r ? st H|
    q| | |?????? st H|a ? st H|????| | | |]; cbn [dates_of].
  all: try (match goal with |- date_texts (_ _) ⊆ _ => dates end).
  - subst ts. each_stmt H; dates.
  - by apply update_stmts_dates in H.
  - subst ts. destruct d; each_stmt H; dates.
  - destruct d; dates.
  - destruct H as [->|(?&?&?&H)]; [dates|by apply update_stmts_dates in H].
  - unfold history_filters. destruct (clq_key q), (clq_namespace_id q), (clq_time_from q), (clq_time_to q); dates.
  - each_stmt H; dates.
  - each_stmt H; dates.
  - each_stmt H; dates.
Qed.

Lemma intends_typed o st : intends o st → wf_stmt st = true ∧ (paged o → well_typed st = true).
Proof.
  destruct 1 as [a| | | |n| | | |????? st ts cid H|???????? st H|????? st ts cid H| |? d| | |????? st H|q|r ? st H|
    q| | |?????? st H|a ? st H| | | | |].
  all: try (split; [|intros _]; vm_compute; done).
  - destruct (app_description a); by vm_compute.
  - destruct (ns_parent_namespace_id n); by vm_compute.
  - each_stmt H; by vm_compute.
  - apply update_stmts_typed in H. naive_solver.
  - destruct d; cbn in H; each_stmt H; by vm_compute.
  - destruct d; by vm_compute.
  - destruct H as [->|(?&?&?&H%update_stmts_typed)]; [by vm_compute|naive_solver].
  - split; [done|]. intros [Hp Hs]. unfold well_typed.
    change (table_columns "change_logs") with (Some (default [] (table_columns "change_logs"))).
    cbn [forallb]. rewrite history_typed, limit_page by done. by vm_compute.
  - each_stmt H; [|done]. destruct (rel_grayscale_percentage r), (rel_whitelist r); by vm_compute.
  - split; [done|]. intros [Hp Hs]. unfold well_typed. rewrite limit_page by done. by vm_compute.
  - each_stmt H; by vm_compute.
  - each_stmt H; [|done]. case_bool_decide; by vm_compute.
Qed.

(** ** Every text that is sent *)
Lemma sends_mono {A : Type} (P Q : req → Prop) (p : prog A) :
  (∀ r, P r → Q r) → sends_only P p → sends_only Q p.
Proof. intros H Hp. induction p as [[a| |]|k IH|c p IH|c r k IH]; cbn in *; naive_solver. Qed.

(** A request with SQL text that a server reads as a statement with [P]. *)
Definition reads_as (P : stmt → Prop) (r : req) : Prop :=
  match r with
  | Execute sql | Query sql => ∃ st, parse_sql sql = Some st ∧ P st
  | _ => True
  end.

Lemma spells_parse sql st : spells sql st → wf_stmt st = true → parse_sql sql = Some st.
Proof. intros Hs Hwf. unfold parse_sql. rewrite Hs. by apply parse_tokens. Qed.

Lemma intended_reads o r : intended o r →
  reads_as (λ st, intends o st ∧ date_texts st ⊆ dates_of o ∧ (paged o → well_typed st = true)) r.
Proof.
  destruct r as [|sql|sql| | | | |]; try done.
  all: intros (st & Hi & Hs); destruct (intends_typed _ _ Hi) as [Hwf Ht]; exists st;
    split; [by apply spells_parse|split_and!; [done|by apply intends_dates|done]].
Qed.

(** C17: Every SQL text a call of the MySQL store sends, for all argument strings
    (with quotes, backslashes or SQL in them) and all answers of the server, is read
    as one of the statements the call is meant to send, with the arguments as
    values: arguments cannot change the statement. *)
Theorem statements_intended o : sends_only (reads_as (intends o)) (program o).
Proof.
  eapply sends_mono; [|apply program_intended]. intros r Hr%intended_reads.
  destruct r; cbn in *; naive_solver.
Qed.

(** C20: Every statement a call of the MySQL store sends names tables and columns of the
    schema that [autoMigrate] creates, gives a value to each column that needs one, and
    gives the text, number and truth-value columns values of their types, where a call
    that asks for a page asks for one from 1 with a size from 0.  What it gives to
    [DATETIME] columns are texts: those the caller passed as times, or the one the
    store's clock makes, which has none of the formats MySQL reads as a date. *)
Theorem statements_typed o now :
  paged o →
  sends_only (reads_as (λ st, well_typed st = true ∧ date_texts st ⊆ dates_of o)) (program o) ∧
  datetime_format (getTimestamp now) = false.
Proof.
  intros Ho. split; [|apply getTimestamp_format].
  eapply sends_mono; [|apply program_intended]. intros r Hr%intended_reads.
  destruct r; cbn in *; naive_solver.
Qed.

Lemma statements_typed_witness :
  let o := GetChangeHistory (mkChangeLogQuery (Some "a' OR '1'='1") None (Some "2024-02-29") None 2 10) in
  paged o ∧ datetime_format <$> dates_of o = [true] ∧
  sends_only (reads_as (λ st, well_typed st = true ∧ date_texts st ⊆ dates_of o)) (program o) ∧
  datetime_format (getTimestamp 1709210096) = false.
Proof.
  cbv zeta. split; [cbn; lia|]. split; [vm_compute; reflexivity|]. apply statements_typed. cbn. lia.
Defined.

(** The text of a name with a quote and a comment in it. *)
Example quoted_name :
  parse_sql (Mysql.sql_getUser "x' OR 1=1 -- \")
  = Some (select user_cols "users" [col_is "username" "x' OR 1=1 -- \"]).
Proof. vm_compute. reflexivity. Qed.
