(* ===== verification/MysqlTheorems.v ===== *)
(** * The MySQL store and its pool

    What the calls of the store do with the connections of the pool, alone and as
    threads, the methods that never give a connection back, the requests of a
    publication, and the results that do not depend on the server's. *)
From S2P Require Import Prelude Strings Timestamp DataTypes MysqlPool MysqlConfigStore MysqlSql.

(** ** Calls hold one connection and give it back *)
Lemma uses_same {A : Type} (a : A) h E : uses (mret a) h (λ _, h) E.
Proof. done. Qed.

(** Walks over the calls of a program; what is held is known at every point. *)
Ltac uses_walk :=
  lazymatch goal with
  | |- uses (_ ≫= _) _ _ _ => eapply uses_bind; [uses_walk|intros ?; cbn beta; uses_walk]
  | |- uses (match ?x with _ => _ end) _ _ _ => destruct x; uses_walk
  | |- uses acquire _ _ _ => apply uses_acquire
  | |- uses (release _) _ _ _ => apply uses_release
  | |- uses (send _ _) _ _ _ => apply uses_send; done
  | |- uses (execute _ _) _ _ _ => apply uses_execute; done
  | |- uses (query _ _) _ _ _ => apply uses_query; done
  | |- uses (mret _) _ _ _ => first [apply uses_same | by apply uses_ret]
  | |- uses (Done _) _ _ _ => apply uses_done; done
  | |- _ => idtac
  end.

Definition is_transaction (o : op) : bool :=
  match o with BeginTransactionOp | CommitTransactionOp | RollbackTransactionOp => true | _ => false end.

Lemma publish_uses ns note o out now :
  uses (Mysql.publishRelease ns note o out now) None (λ _, None) (λ _, True).
Proof.
  unfold Mysql.publishRelease. eapply uses_bind; [apply uses_acquire|intros c].
  eapply uses_bind; [by apply uses_send|intros started]. cbn beta.
  eapply (uses_bind _ _ _ (λ _, Some c)).
  { eapply (uses_catch _ _ _ _ (λ h, h = Some c)).
    - unfold Mysql.publishStatements, Mysql.last_insert_id. uses_walk.
    - intros h ->. done. }
  intros [r|]; [|uses_walk].
  eapply (uses_catch _ _ _ _ (λ h, h = Some c)); [uses_walk|]. intros h ->. uses_walk.
Qed.

Lemma program_uses o : is_transaction o = false → well_behaved (program o).
Proof.
  intros Ho. unfold well_behaved.
  destruct o; try done; try (autounfold with methods; unfold Mysql.run_execute, Mysql.run_query; uses_walk; fail).
  eapply uses_bind; [apply publish_uses|done].
Qed.

(** A program that acquires only when it holds nothing is never stuck on a pool
    that had a connection. *)
Lemma exec_total {W : Type} `{!Server W} {A : Type} (p : prog A) h Q E (s : mysql W) all :
  uses p h Q E → option_list h ++ pool_ s ≡ₚ all → all ≠ [] → is_Some (exec p s).
Proof.
  intros Hu Hall Hne. revert h s Hu Hall. induction p as [o|k IH|c p IH|c r k IH]; intros h s Hu Hall; cbn.
  - done.
  - destruct Hu as [-> Hk]. destruct (pool_ s) as [|c q] eqn:Ep.
    { cbn in Hall. by apply Permutation_nil_l in Hall. }
    by eapply (IH c); [apply Hk|].
  - destruct Hu as [-> Hp]. eapply IH; [done|]. cbn. rewrite <- Hall. cbn. by rewrite Permutation_app_comm.
  - destruct Hu as [-> Hk]. destruct (serve c r (world s)) as [o w]. by eapply IH; [apply Hk|].
Qed.

Section calls.
Context {W : Type} `{!Server W}.
Implicit Types s : mysql W.

(** C22: On a pool with a connection in it every call but the three transaction
    methods comes to an end.  When it returns, the pool has the connections it had;
    when an exception of the server or of a conversion leaves it, at most one
    connection is lost. *)
Theorem call_gives_back o s :
  is_transaction o = false → pool_ s ≠ [] →
  ∃ r s', exec (program o) s = Some (r, s') ∧
    match r with
    | Ret _ => pool_ s' ≡ₚ pool_ s
    | Throw => pool_ s' ≡ₚ pool_ s ∨ ∃ c, c :: pool_ s' ≡ₚ pool_ s
    | Undef => True
    end.
Proof.
  intros Ho%program_uses Hs. destruct (exec_total _ _ _ _ s (pool_ s) Ho) as [[r s'] Hx]; [done..|].
  exists r, s'. split; [done|]. pose proof (exec_uses _ _ _ _ s s' r (pool_ s) Ho) as H.
  specialize (H ltac:(done) Hx). destruct r as [[]| |]; [done| |done].
  destruct H as ([c|] & _ & H); [right; by exists c|by left].
Qed.

(** Calls one after the other; a caller goes on after an exception. *)
Fixpoint run_calls (os : list op) (s : mysql W) : option (mysql W) :=
  match os with
  | [] => Some s
  | o :: os => '(_, s) ← exec (program o) s; run_calls os s
  end.

(** Each transaction method makes its request on a connection of its own. *)
Definition transaction_req (o : op) : req :=
  match o with CommitTransactionOp => Commit | RollbackTransactionOp => Rollback | _ => BeginTransaction end.

Lemma transaction_call o s c q :
  is_transaction o = true → pool_ s = c :: q →
  ∃ r, exec (program o) s = Some (r, mkMysql q (serve c (transaction_req o) (world s)).2).
Proof.
  intros Ho Hs. destruct o; try done; cbn; rewrite Hs; cbn.
  all: match goal with |- context [serve ?c ?r ?w] => destruct (serve c r w) as [[| |] w'] end; cbn; eauto.
Qed.

Lemma empty_pool_blocks o s : pool_ s = [] → exec (program o) s = None.
Proof. intros Hs. destruct o; cbn; by rewrite Hs. Qed.

(** C39: [beginTransaction], [commitTransaction] and [rollbackTransaction] never give
    their connection back: after as many of them as there are connections, whatever
    the server answers, every call of the store waits forever. *)
Theorem transactions_exhaust os s :
  Forall (λ o, is_transaction o = true) os → length os = length (pool_ s) →
  ∃ s', run_calls os s = Some s' ∧ pool_ s' = [] ∧ ∀ o, exec (program o) s' = None.
Proof.
  intros Hos. revert s. induction Hos as [|o os Ho Hos IH]; intros s Hlen; cbn.
  - exists s. assert (pool_ s = []) as E by (destruct (pool_ s); done).
    split_and!; [done..|]. intros o. by apply empty_pool_blocks.
  - destruct (pool_ s) as [|c q] eqn:Ep; [done|].
    destruct (transaction_call o s c q Ho Ep) as [r ->]. cbn. apply IH. cbn in *. lia.
Qed.

(** A transaction that is begun and committed through the interface: the commit goes
    to another connection than the begin. *)
Lemma begin_commit_split s c1 c2 q :
  pool_ s = c1 :: c2 :: q →
  run_calls [BeginTransactionOp; CommitTransactionOp] s
  = Some (mkMysql q (serve c2 Commit (serve c1 BeginTransaction (world s)).2).2).
Proof.
  intros Hs. cbn -[program]. destruct (transaction_call BeginTransactionOp s _ _ eq_refl Hs) as [r ->].
  cbn -[program].
  destruct (transaction_call CommitTransactionOp
    (mkMysql (c2 :: q) (serve c1 BeginTransaction (world s)).2) c2 q eq_refl eq_refl) as [r' E].
  cbn [transaction_req] in *. rewrite E. done.
Qed.
End calls.

(** ** Threads

    A thread makes calls of the store, one after the other, until one throws. *)
Definition thread (os : list op) : prog () := foldr (λ o p, _ ← program o; p) (mret ()) os.
Definition plain_calls (os : list op) : Prop := Forall (λ o, is_transaction o = false) os.

Lemma thread_well_behaved os : plain_calls os → well_behaved (thread os).
Proof.
  induction 1 as [|o os Ho Hos IH]; [done|]. eapply uses_bind; [by apply program_uses|done].
Qed.
Lemma threads_well_behaved oss : Forall plain_calls oss → Forall well_behaved (thread <$> oss).
Proof. intros H. apply Forall_fmap. eapply Forall_impl; [exact H|apply thread_well_behaved]. Qed.

Section threads.
Context {W : Type} `{!Server W}.

(** C18: Threads that call the store, in any interleaving, with spurious wake-ups
    and whatever the server answers, use a connection one at a time: a connection a
    thread sends on is not in the queue and no other thread sends on it, and no
    connection is in the queue twice. *)
Theorem connections_exclusive (conns : list conn) (oss : list (list op)) (w : W) (s : system W) :
  NoDup conns → Forall plain_calls oss → reachable conns (thread <$> oss) w s →
  NoDup (pool s) ∧
  ∀ i c r k, threads s !! i = Some (Running (Send c r k)) →
    (c ∈ conns) ∧ (c ∉ pool s) ∧
    ∀ j r' k', threads s !! j = Some (Running (Send c r' k')) → i = j.
Proof. intros Hnd Hos%threads_well_behaved. by apply pool_exclusive. Qed.

(** C21: The calls of all threads complete: with at least one connection, whatever
    the server answers, no schedule without spurious wake-ups runs forever from any
    reachable state, and where it ends with no call left by an exception, every thread
    has made all its calls; no thread is left waiting and no wake-up is lost. *)
Theorem calls_complete (conns : list conn) (oss : list (list op)) (w : W) (s : system W) :
  conns ≠ [] → Forall plain_calls oss → reachable conns (thread <$> oss) w s →
  Acc (flip step) s ∧
  ((∀ s', ¬ step s s') → (∀ i o, threads s !! i = Some (Running (Done o)) → o = Ret ()) →
   ∀ t, t ∈ threads s → t = Running (Done (Ret ()))).
Proof.
  intros Hne Hos%threads_well_behaved Hr. split; [apply schedules_end|]. intros Hend Hdone.
  destruct (pool_live conns (thread <$> oss) w s) as [|[s' Hs]]; [done..|]. by destruct (Hend s').
Qed.
End threads.

(** ** The requests of a run

    [runs p Φ l]: after the requests [l], every run of [p], whatever the answers,
    ends with requests and an outcome that satisfy [Φ]. *)
Definition event : Type := conn * req * outcome reply.

Fixpoint runs {A : Type} (p : prog A) (Φ : list event → outcome A → Prop) (l : list event) : Prop :=
  match p with
  | Done o => Φ l o
  | Acquire k => ∀ c, runs (k c) Φ l
  | GiveBack _ p => runs p Φ l
  | Send c r k => ∀ o, runs (k o) Φ (l ++ [(c, r, o)])
  end.

Lemma runs_mono {A : Type} (p : prog A) (Φ Ψ : list event → outcome A → Prop) l :
  (∀ l o, Φ l o → Ψ l o) → runs p Φ l → runs p Ψ l.
Proof. intros H. revert l. induction p as [o|k IH|c p IH|c r k IH]; intros l; cbn; naive_solver. Qed.

Lemma runs_bind {A B : Type} (p : prog A) (f : A → prog B) (Φ : list event → outcome B → Prop) l :
  runs p (λ l o, match o with Ret a => runs (f a) Φ l | Throw => Φ l Throw | Undef => Φ l Undef end) l →
  runs (p ≫= f) Φ l.
Proof. revert l. induction p as [[a| |]|k IH|c p IH|c r k IH]; intros l; cbn; naive_solver. Qed.

Lemma runs_catch {A : Type} (p h : prog A) (Φ : list event → outcome A → Prop) l :
  runs p (λ l o, match o with Throw => runs h Φ l | _ => Φ l o end) l → runs (prog_catch p h) Φ l.
Proof. revert l. induction p as [[a| |]|k IH|c p IH|c r k IH]; intros l; cbn; naive_solver. Qed.

(** A run of [exec] is one of the runs. *)
Lemma exec_runs {W : Type} `{!Server W} {A : Type} (p : prog A) Φ l (s s' : mysql W) o :
  runs p Φ l → exec p s = Some (o, s') → ∃ l', Φ l' o.
Proof.
  revert l s. induction p as [o'|k IH|c p IH|c r k IH]; intros l s Hp Hx; cbn in *.
  - injection Hx as <- <-. eauto.
  - destruct (pool_ s) as [|c q]; [done|]. eauto.
  - eauto.
  - destruct (serve c r (world s)) as [o' w]. eauto.
Qed.

(** A statement of a transaction on the connection [c]. *)
Definition is_statement (c : conn) (e : event) : Prop :=
  e.1.1 = c ∧ match e.1.2 with Execute _ | Query _ => True | _ => False end.
Definition answered (e : event) : Prop := ∃ r, e.2 = Ret r.

(** What the requests of a publication look like, by how it ends. *)
Definition bracketed (l : list event) (o : outcome (bool * Release)) : Prop :=
  ∃ c, match o with
  | Ret (true, _) => ∃ b m body, l = (c, BeginTransaction, Ret b) :: body ++ [(c, Commit, Ret m)] ∧
      Forall (λ e, is_statement c e ∧ answered e) body
  | Ret (false, _) => ∃ b m body, l = (c, BeginTransaction, Ret b) :: body ++ [(c, Rollback, Ret m)] ∧
      Forall (λ e, is_statement c e ∨ e = (c, Commit, Throw)) body
  | Throw => ∃ body r, l = body ++ [(c, r, Throw)] ∧ (r = BeginTransaction ∨ r = Rollback)
  | Undef => True
  end.

(** Requests that are statements on [c]: the events after [l0] of a program that
    sends only statements on [c], and which of them can be the last. *)
Definition statements_after {A : Type} (c : conn) (l0 l : list event) (o : outcome A) : Prop :=
  ∃ body, l = l0 ++ body ∧ Forall (is_statement c) body ∧
    match o with Ret _ => Forall answered body | _ => True end.

Lemma statements_bind {A B : Type} c l0 (p : prog A) (f : A → prog B) :
  runs p (statements_after c l0) l0 → (∀ a l, runs (f a) (statements_after c l) l) →
  runs (p ≫= f) (statements_after c l0) l0.
Proof.
  intros Hp Hf. apply runs_bind. eapply runs_mono; [|apply Hp].
  cbn. intros l' [a| |] (body1 & -> & Hs1 & Ha1); [|by exists body1..].
  eapply runs_mono; [|apply Hf]. intros l' o (body2 & -> & Hs2 & Ha2).
  exists (body1 ++ body2). rewrite app_assoc, Forall_app. destruct o; rewrite ?Forall_app; done.
Qed.
Lemma statements_done {A : Type} c l (o : outcome A) : runs (Done o) (statements_after c l) l.
Proof. exists []. rewrite app_nil_r. by destruct o. Qed.
Lemma statements_send c l r :
  match r with Execute _ | Query _ => True | _ => False end → runs (send c r) (statements_after c l) l.
Proof.
  intros Hr o. exists [(c, r, o)]. split; [done|]. rewrite !Forall_singleton. split; [done|].
  destruct o; [|done..]. rewrite Forall_singleton. by eexists.
Qed.
Lemma statements_execute c l sql : runs (execute c sql) (statements_after c l) l.
Proof. apply statements_bind; [by apply statements_send|intros ? ?; apply statements_done]. Qed.
Lemma statements_query c l sql : runs (query c sql) (statements_after c l) l.
Proof. apply statements_bind; [by apply statements_send|intros ? ?; apply statements_done]. Qed.

Lemma publish_statements c ns note o now l :
  runs (Mysql.publishStatements c ns note o now) (statements_after c l) l.
Proof.
  unfold Mysql.publishStatements, Mysql.last_insert_id.
  apply statements_bind; [apply statements_execute|intros ? ?].
  apply statements_bind; [apply statements_query|intros rows ?].
  apply statements_bind; [repeat case_match; apply statements_done|intros version ?].
  apply statements_bind; [apply statements_execute|intros ? ?].
  apply statements_bind; [|intros ? ?; apply statements_done].
  apply statements_bind; [apply statements_query|intros ids ?]. repeat case_match; apply statements_done.
Qed.

(** C19: Whatever the server answers, the requests of [publishRelease] are one
    transaction on one connection: it returns true only after BEGIN, statements
    that all came back, and a COMMIT that came back; false only after a ROLLBACK
    that came back; an exception leaves it only from BEGIN or ROLLBACK. *)
Theorem publish_bracketed ns note o out now :
  runs (Mysql.publishRelease ns note o out now) bracketed [].
Proof.
  unfold Mysql.publishRelease. intros c. cbn [mbind prog_bind send].
  intros [b| |]; [|exists c, [], BeginTransaction; by auto|by exists c].
  cbn [mbind prog_bind]. apply runs_bind, runs_catch, runs_bind.
  eapply runs_mono; [|apply (publish_statements c)].
  intros l [r| |] (body & -> & Hs & Ha); cbn; [| |by exists c].
  - intros [m| |]; cbn; [| |by exists c].
    + exists c, b, m, body. split; [done|]. by apply Forall_and.
    + intros [m| |]; cbn; [|exists c; eexists (_ :: _), Rollback; split; [reflexivity|by right]|by exists c].
      exists c, b, m, (body ++ [(c, Commit, Throw)]). split; [by rewrite ?app_assoc|].
      apply Forall_app. split; [|apply Forall_singleton; by right].
      eapply Forall_impl; [exact Hs|by left].
  - intros [m| |]; cbn; [|exists c; eexists (_ :: _), Rollback; split; [reflexivity|by right]|by exists c].
    exists c, b, m, body. split; [done|]. eapply Forall_impl; [exact Hs|by left].
Qed.

(** ** A server that refuses everything *)

(** Every request answers false, without rows. *)
Definition refusing (W : Type) : Server W := λ _ _ w, (Ret (mkReply false []), w).

(** Over a server that refuses every request, the methods that write configs,
    releases and approvals, [publishRelease] and [autoMigrate] report success and hand
    out a release with version 1; only the methods for applications, namespaces and
    users report the failure. *)
Theorem refusals_unreported {W : Type} (c : conn) (q : list conn) (w : W) :
  let _ := refusing W in
  let s := mkMysql (c :: q) w in let s' := mkMysql (q ++ [c]) w in
  (∀ ns k v o now, exec (Mysql.createConfig ns k v o now) s = Some (Ret true, s')) ∧
  (∀ ns k o d now, exec (Mysql.deleteConfig ns k o d now) s = Some (Ret true, s')) ∧
  (∀ ns note o out now, exec (Mysql.publishRelease ns note o out now) s
     = Some (Ret (true, mkRelease 0 ns 1 note "full" "active" None None o (getTimestamp now)), s')) ∧
  (∀ i, exec (Mysql.retireRelease i) s = Some (Ret true, s')) ∧
  (∀ i st cm now, exec (Mysql.updateApprovalStatus i st cm now) s = Some (Ret true, s')) ∧
  (∀ r now, (λ p, p.1) <$> exec (Mysql.createRelease r now) s
     = Some (Ret (true, mkRelease (rel_id r) (rel_namespace_id r) (rel_release_version r) (rel_release_note r)
         (rel_release_type r) (rel_status r) (rel_grayscale_percentage r) (rel_whitelist r)
         (rel_operator_id r) (getTimestamp now)))) ∧
  exec Mysql.autoMigrate s = Some (Ret true, s') ∧
  (∀ a, exec (Mysql.createApplication a) s = Some (Ret false, s')) ∧
  (∀ n, exec (Mysql.createNamespace n) s = Some (Ret false, s')) ∧
  (∀ u, exec (Mysql.createUser u) s = Some (Ret false, s')).
Proof. cbv zeta. split_and!; try intros; done. Qed.

(** ** Witnesses *)

(** The concrete server of the witnesses: it answers every request with true and
    counts them. *)
#[local] Instance counting : Server nat := λ _ _ w, (Ret (mkReply true []), S w).
(** One that throws. *)
Definition throwing : Server nat := λ _ _ w, (Throw, S w).

Lemma call_gives_back_witness :
  let s : mysql nat := mkMysql [0; 1]%nat 0%nat in
  ∃ r s', exec (program (CreateConfig "ns" "k" "v" "o" 0)) s = Some (r, s') ∧
    match r with
    | Ret _ => pool_ s' ≡ₚ pool_ s
    | Throw => pool_ s' ≡ₚ pool_ s ∨ ∃ c, c :: pool_ s' ≡ₚ pool_ s
    | Undef => True
    end.
Proof. cbv zeta. apply call_gives_back; done. Defined.

Lemma transactions_exhaust_witness :
  let s : mysql nat := mkMysql [0; 1]%nat 0%nat in
  ∃ s', run_calls [BeginTransactionOp; CommitTransactionOp] s = Some s' ∧ pool_ s' = [] ∧
    ∀ o, exec (program o) s' = None.
Proof. cbv zeta. apply transactions_exhaust; [by repeat constructor|done]. Defined.

(** An exception does lose the connection. *)
Example throw_loses_connection :
  exec (Server0 := throwing) (program (CreateConfig "ns" "k" "v" "o" 0)) (mkMysql [0; 1]%nat 0%nat)
  = Some (Throw, mkMysql [1%nat] 1%nat).
Proof. reflexivity. Qed.

(** Two threads, one connection; the first has just taken it. *)
Definition two_threads : list (list op) := [[HealthCheck]; [GetRelease 1; ListUsers]].
Definition one_started : system nat :=
  update (start [0%nat] (thread <$> two_threads) 0%nat) 0 (Running
    (Send 0%nat IsConnected (λ o,
       (((r ← Done o; _ ← release 0%nat; mret (ok r)) ≫= λ _, mret ()) : prog ()) ≫= λ _, mret ()))) [] 0%nat.

Lemma one_started_reachable : reachable [0%nat] (thread <$> two_threads) 0%nat one_started.
Proof. eapply rtc_l; [left; by eapply (step_acquire 0)|]. apply rtc_refl. Qed.

Lemma connections_exclusive_witness :
  NoDup (pool one_started) ∧
  ∀ i c r k, threads one_started !! i = Some (Running (Send c r k)) →
    (c ∈ [0%nat]) ∧ (c ∉ pool one_started) ∧
    ∀ j r' k', threads one_started !! j = Some (Running (Send c r' k')) → i = j.
Proof.
  apply (connections_exclusive [0%nat] two_threads 0%nat one_started);
    [apply NoDup_singleton|by repeat constructor|apply one_started_reachable].
Defined.

Lemma calls_complete_witness :
  Acc (flip step) one_started ∧
  ((∀ s', ¬ step one_started s') →
   (∀ i o, threads one_started !! i = Some (Running (Done o)) → o = Ret ()) →
   ∀ t, t ∈ threads one_started → t = Running (Done (Ret ()))).
Proof.
  apply (calls_complete [0%nat] two_threads 0%nat one_started);
    [done|by repeat constructor|apply one_started_reachable].
Defined.
