(* ===== verification/MysqlData.v ===== *)
(** * The data of the MySQL store

    The connection string taken apart by [initialize], and the rows of text a query
    answers with, read back into structs. *)
From S2P Require Import Prelude Strings DataTypes Sql MysqlConfigStore.

(** ** The connection string *)
Abbreviation len s := (Z.of_nat (String.length s)).

Lemma index_of_app c s t : c ∉ chars s → Mysql.index_of c (s +:+ String c t) = Some (String.length s).
Proof.
  induction s as [|a s IH].
  { intros _. rewrite str_app_nil. cbn -[bool_decide]. by rewrite bool_decide_true. }
  cbn [chars]. rewrite not_elem_of_cons, str_app_cons. intros [Ha Hs]. cbn -[bool_decide].
  rewrite bool_decide_false by done. by rewrite IH.
Qed.

Lemma len_app s t : len (s +:+ t) = len s + len t.
Proof. rewrite str_length_app. lia. Qed.

Lemma find_char_app pre s c t :
  c ∉ chars s → Mysql.find_char (pre +:+ s +:+ String c t) c (len pre) = len pre + len s.
Proof.
  intros Hc. unfold Mysql.find_char. rewrite !len_app.
  destruct (Z.ltb_spec (len pre + (len s + len (String c t))) (len pre)); [lia|].
  rewrite Nat2Z.id, substr_app, index_of_app by done. done.
Qed.

Lemma str_take_all n s : (String.length s ≤ n)%nat → str_take n s = s.
Proof. revert n. induction s as [|a s IH]; intros [|n] Hn; cbn in *; [done..|lia|]. rewrite IH by lia. done. Qed.

Lemma substr_at_app pre s t : Mysql.substr_at (pre +:+ s +:+ t) (len pre) (len s) = Ret s.
Proof.
  unfold Mysql.substr_at. rewrite !len_app.
  destruct (Z.ltb_spec (len pre + (len s + len t)) (len pre)); [lia|].
  rewrite Z.min_l by lia. by rewrite !Nat2Z.id, substr_app, str_take_app.
Qed.

Lemma substr_at_end pre s : len s ≤ Mysql.npos → Mysql.substr_at (pre +:+ s) (len pre) Mysql.npos = Ret s.
Proof.
  intros Hs. unfold Mysql.substr_at. rewrite !len_app.
  destruct (Z.ltb_spec (len pre + len s) (len pre)); [lia|].
  rewrite Nat2Z.id, substr_app, str_take_all by lia. done.
Qed.

(** [find] and [substr] at a position that is the end of a known part. *)
Lemma find_char_at text pre s c t pos :
  text = pre +:+ s +:+ String c t → pos = len pre → c ∉ chars s →
  Mysql.find_char text c pos = len pre + len s.
Proof. intros -> ->. apply find_char_app. Qed.
Lemma substr_at_part text pre s t pos n :
  text = pre +:+ s +:+ t → pos = len pre → n = len s → Mysql.substr_at text pos n = Ret s.
Proof. intros -> -> ->. apply substr_at_app. Qed.
Lemma substr_at_rest text pre s pos :
  text = pre +:+ s → pos = len pre → len s ≤ Mysql.npos → Mysql.substr_at text pos Mysql.npos = Ret s.
Proof. intros -> ->. apply substr_at_end. Qed.

Lemma size_t_small z : 0 ≤ z < 2 ^ 64 → Mysql.size_t z = z.
Proof. apply Z.mod_small. Qed.

Lemma pretty_nat_no c (z : Z) : 0 ≤ z → ¬ Sql.is_digit c → c ∉ chars (pretty z).
Proof.
  intros Hz Hc Hin. destruct (Sql.pretty_N_digits (Z.to_N z)) as [Hd _]. rewrite Forall_forall in Hd.
  apply Hc, Hd. destruct z; [exact Hin|exact Hin|lia].
Qed.

(** [host:port/user:password@database] *)
Definition connection_string (host : string) (port : Z) (user password database : string) : string :=
  host +:+ ":" +:+ pretty port +:+ "/" +:+ user +:+ ":" +:+ password +:+ "@" +:+ database.

(** None of the characters [cs] is in [s]. *)
Definition free_of (cs s : string) : Prop := ∀ c, c ∈ chars cs → c ∉ chars s.

Section connection.
Context (host : string) (port : Z) (user password database : string).
Context (Hhost : free_of "/:@" host).
Context (Huser : free_of ":@" user) (Hpassword : free_of "@" password).
Context (Hport : 0 ≤ port < 65536).
Abbreviation text := (connection_string host port user password database).
Context (Hlen : len text < Mysql.npos).
Abbreviation hp := (host +:+ ":" +:+ pretty port).

Ltac same_text := unfold connection_string; by rewrite ?str_app_assoc.
Ltac lengths := unfold connection_string, Mysql.npos in *; rewrite ?len_app in *; cbn [String.length] in *; lia.

Lemma hp_chars c : bool_decide (c = ":"%char) || Sql.is_digit c = false → c ∉ chars host → c ∉ chars hp.
Proof.
  intros [Hc%bool_decide_eq_false Hd]%orb_false_iff Hh. rewrite !chars_app, !elem_of_app.
  pose proof (pretty_nat_no c port ltac:(lia)) as Hp. rewrite Hd in Hp. specialize (Hp id).
  cbn. set_solver.
Qed.

Lemma slash_at : Mysql.find_char text "/" 0 = len hp.
Proof. apply (find_char_at _ "" hp _ (user +:+ ":" +:+ password +:+ "@" +:+ database)); [same_text|done|]. apply hp_chars; [done|apply Hhost; set_solver]. Qed.

Lemma at_at : Mysql.find_char text "@" 0 = len hp + len user + len password + 2.
Proof.
  rewrite (find_char_at _ "" (hp +:+ "/" +:+ user +:+ ":" +:+ password) _ database); [lengths|same_text|done|].
  pose proof (hp_chars "@"%char eq_refl (Hhost "@"%char ltac:(cbn; set_solver))).
  rewrite !(chars_app _ (_ +:+ _)) in *. rewrite chars_app. set_solver.
Qed.
Lemma host_part :
  Mysql.find_char hp ":" 0 = len host ∧ Mysql.substr_at hp 0 (len host) = Ret host ∧
  Mysql.substr_at hp (Mysql.size_t (len host + 1)) Mysql.npos = Ret (pretty port).
Proof.
  split_and!.
  - apply (find_char_at _ "" host _ (pretty port)); [done..|]. apply Hhost. cbn. set_solver.
  - by apply (substr_at_part _ "" host (":" +:+ pretty port)).
  - rewrite size_t_small by lengths. apply (substr_at_rest _ (host +:+ ":")); [same_text|lengths..].
Qed.

Lemma user_part :
  Mysql.find_char text ":" (Mysql.size_t (len hp + 1)) = len hp + 1 + len user ∧
  Mysql.substr_at text (Mysql.size_t (len hp + 1)) (len user) = Ret user.
Proof.
  rewrite size_t_small by lengths. split.
  - rewrite (find_char_at _ (hp +:+ "/") user _ (password +:+ "@" +:+ database)); [lengths|same_text|lengths|].
    apply Huser. cbn. set_solver.
  - apply (substr_at_part _ (hp +:+ "/") user (":" +:+ password +:+ "@" +:+ database)); [same_text|lengths|done].
Qed.

Lemma password_part :
  Mysql.substr_at text (Mysql.size_t (len hp + 1 + len user + 1)) (len password) = Ret password ∧
  Mysql.substr_at text (Mysql.size_t (len hp + len user + len password + 2 + 1)) Mysql.npos = Ret database.
Proof.
  rewrite !size_t_small by lengths. split.
  - apply (substr_at_part _ (hp +:+ "/" +:+ user +:+ ":") password ("@" +:+ database)); [same_text|lengths|done].
  - apply (substr_at_rest _ (hp +:+ "/" +:+ user +:+ ":" +:+ password +:+ "@")); [same_text|lengths..].
Qed.

Lemma parse_connection_string m :
  Mysql.parse_connection text m = Ret (Mysql.mkMembers host port user password database).
Proof.
  destruct host_part as (Eh1 & Eh2 & Eh3), user_part as [Eu1 Eu2], password_part as [Ep1 Ep2].
  unfold Mysql.parse_connection. rewrite slash_at, at_at.
  rewrite (substr_at_part text "" hp ("/" +:+ user +:+ ":" +:+ password +:+ "@" +:+ database) 0 (len hp)); [|same_text|done..].
  cbn [mbind outcome_bind]. rewrite Eh1, Eh2, Eh3, Eu1.
  rewrite !bool_decide_true by lengths. cbn [mbind outcome_bind].
  rewrite stoi_number by (unfold in_int32, INT32_MIN, INT32_MAX; lia). cbn [mbind outcome_bind or_throw].
  replace (len hp + 1 + len user - len hp - 1) with (len user) by lia.
  replace (len hp + len user + len password + 2 - (len hp + 1 + len user) - 1) with (len password) by lia.
  rewrite (size_t_small (len user)), (size_t_small (len password)) by lengths.
  rewrite Eu2, Ep1, Ep2. cbn. by rewrite Z.mod_small.
Qed.
End connection.

(** A connection string host:port/user:password@database is taken apart into
    its parts: the host has no slash, colon or at sign, the user no colon or at
    sign, the password no at sign; the database is arbitrary. *)
Theorem connection_string_roundtrip host port user password database m :
  free_of "/:@" host → free_of ":@" user → free_of "@" password → 0 ≤ port < 65536 →
  len (connection_string host port user password database) < Mysql.npos →
  Mysql.parse_connection (connection_string host port user password database) m
  = Ret (Mysql.mkMembers host port user password database).
Proof. intros. by apply parse_connection_string. Qed.

(** An at sign in the password ends it there, and a port is taken modulo 65536. *)
Example password_at :
  Mysql.parse_connection (connection_string "db" 3306 "root" "p@ss" "config") Mysql.new_members
  = Ret (Mysql.mkMembers "db" 3306 "root" "p" "ss@config").
Proof. vm_compute. reflexivity. Qed.
Example port_wraps :
  Mysql.parse_connection (connection_string "db" 70000 "root" "x" "config") Mysql.new_members
  = Ret (Mysql.mkMembers "db" 4464 "root" "x" "config").
Proof. vm_compute. reflexivity. Qed.

Lemma connection_string_roundtrip_witness :
  Mysql.parse_connection (connection_string "10.0.0.1" 3307 "app" "s:e/c" "config_center") Mysql.new_members
  = Ret (Mysql.mkMembers "10.0.0.1" 3307 "app" "s:e/c" "config_center").
Proof.
  apply connection_string_roundtrip; [..|lia|vm_compute; reflexivity].
  all: intros c Hc Hin; cbn in *; set_solver.
Defined.

(** ** Rows

    The cells of a row are the text of its columns; [NULL] is the empty text. *)
Definition int_text (z : Z) : string := pretty z.
Definition opt_text (o : option string) : string := default "" o.
Definition bool_text (b : bool) : string := if b then "1" else "0".

Definition application_row (a : Application) : list string :=
  [app_app_id a; app_name a; opt_text (app_description a); app_created_at a].
Definition namespace_row (n : Namespace) : list string :=
  [ns_id n; ns_app_id n; ns_env n; ns_cluster n; ns_name n; ns_type n; opt_text (ns_parent_namespace_id n);
   opt_text (bool_text <$> ns_approval_enabled n); ns_created_at n].
Definition config_row (c : ConfigKey) : list string :=
  [ck_namespace_id c; ck_key c; ck_value c; int_text (ck_version c); ck_status c; ck_created_at c; ck_updated_at c].
Definition version_row (v : ConfigVersion) : list string :=
  [int_text (cv_version v); cv_config_id v; cv_value v; cv_change_type v; cv_operator_id v; cv_created_at v].
Definition log_row (l : ChangeLog) : list string :=
  [int_text (cl_id l); cl_config_id l; cl_namespace_id l; cl_key l; int_text (cl_version l); cl_old_value l;
   cl_new_value l; cl_operation l; cl_operator_id l; cl_created_at l].
Definition release_row (r : Release) : list string :=
  [int_text (rel_id r); rel_namespace_id r; int_text (rel_release_version r); rel_release_note r;
   rel_release_type r; rel_status r; opt_text (int_text <$> rel_grayscale_percentage r);
   opt_text (rel_whitelist r); rel_operator_id r; rel_created_at r].
Definition approval_row (a : Approval) : list string :=
  [int_text (apv_id a); apv_namespace_id a; apv_submitter_id a; apv_approver_id a; apv_status a; apv_comment a;
   apv_created_at a; apv_updated_at a].
Definition user_row (u : User) : list string :=
  [int_text (usr_id u); usr_username u; usr_password_hash u; usr_role u; usr_created_at u].

(** A struct whose numbers are in the range of their types and whose optional texts
    are not empty: an empty text cannot be told from [NULL]. *)
Class Storable (A : Type) := {
  to_row : A → list string;
  of_row : list string → outcome A;
  storable : A → Prop;
}.
#[export] Instance application_storable : Storable Application := {|
  to_row := application_row; of_row := Mysql.decode_application;
  storable a := app_description a ≠ Some "" |}.
#[export] Instance namespace_storable : Storable Namespace := {|
  to_row := namespace_row; of_row := Mysql.decode_namespace;
  storable n := ns_parent_namespace_id n ≠ Some "" |}.
#[export] Instance config_storable : Storable ConfigKey := {|
  to_row := config_row; of_row := Mysql.decode_config; storable c := in_int32 (ck_version c) |}.
#[export] Instance version_storable : Storable ConfigVersion := {|
  to_row := version_row; of_row := Mysql.decode_version; storable v := in_int32 (cv_version v) |}.
#[export] Instance log_storable : Storable ChangeLog := {|
  to_row := log_row; of_row := Mysql.decode_log;
  storable l := in_int64 (cl_id l) ∧ in_int32 (cl_version l) |}.
#[export] Instance release_storable : Storable Release := {|
  to_row := release_row; of_row := Mysql.decode_release;
  storable r := in_int64 (rel_id r) ∧ in_int32 (rel_release_version r) ∧
    (∀ p, rel_grayscale_percentage r = Some p → in_int32 p) ∧ rel_whitelist r ≠ Some "" |}.
#[export] Instance approval_storable : Storable Approval := {|
  to_row := approval_row; of_row := Mysql.decode_approval; storable a := in_int64 (apv_id a) |}.
#[export] Instance user_storable : Storable User := {|
  to_row := user_row; of_row := Mysql.decode_user; storable u := in_int64 (usr_id u) |}.

(** What the rows promise to the methods that read lists of them. *)
Class RowLaw (A : Type) `{!Storable A} := row_law (a : A) : storable a → of_row (to_row a) = Ret a.

Lemma pretty_not_empty (z : Z) : pretty z ≠ "".
Proof.
  destruct z as [|p|p]; [done| |done]. change (pretty (Zpos p)) with (pretty (Npos p)). apply pretty_N_digits.
Qed.

Lemma cell_opt_text row i o :
  row !! i = Some (opt_text o) → o ≠ Some "" → Mysql.cell_opt row i = Ret o.
Proof.
  intros Hr Ho. unfold Mysql.cell_opt, Mysql.cell. rewrite Hr. cbn.
  destruct o as [s|]; [|done]. cbn. rewrite bool_decide_false by congruence. done.
Qed.
Lemma cell_opt_bool_text row i o :
  row !! i = Some (opt_text (bool_text <$> o)) → Mysql.cell_opt_bool row i = Ret o.
Proof. intros Hr. unfold Mysql.cell_opt_bool, Mysql.cell. rewrite Hr. by destruct o as [[]|]. Qed.
Lemma cell_int_text row i z : row !! i = Some (int_text z) → in_int32 z → Mysql.cell_int row i = Ret z.
Proof. intros Hr Hz. unfold Mysql.cell_int, Mysql.cell. rewrite Hr. cbn. unfold int_text. by rewrite stoi_number. Qed.
Lemma cell_long_text row i z : row !! i = Some (int_text z) → in_int64 z → Mysql.cell_long row i = Ret z.
Proof. intros Hr Hz. unfold Mysql.cell_long, Mysql.cell. rewrite Hr. cbn. unfold int_text. by rewrite stoll_number. Qed.
Lemma cell_opt_int_text row i o :
  row !! i = Some (opt_text (int_text <$> o)) → (∀ z, o = Some z → in_int32 z) → Mysql.cell_opt_int row i = Ret o.
Proof.
  intros Hr Ho. unfold Mysql.cell_opt_int, Mysql.cell. rewrite Hr. cbn. destruct o as [z|]; [|done]. cbn.
  unfold int_text. rewrite bool_decide_false by apply pretty_not_empty. rewrite stoi_number by by apply Ho. done.
Qed.
Lemma cell_text row i s : row !! i = Some s → Mysql.cell row i = Ret s.
Proof. intros Hr. unfold Mysql.cell. by rewrite Hr. Qed.

(** Reads the cells of the row of a struct, from left to right. *)
Ltac read_row :=
  repeat (lazymatch goal with
    | |- Mysql.cell ?r ?i ≫= _ = _ => rewrite (cell_text r i _ eq_refl)
    | |- Mysql.cell_int ?r ?i ≫= _ = _ => rewrite (cell_int_text r i _ eq_refl) by naive_solver
    | |- Mysql.cell_long ?r ?i ≫= _ = _ => rewrite (cell_long_text r i _ eq_refl) by naive_solver
    | |- Mysql.cell_opt ?r ?i ≫= _ = _ => rewrite (cell_opt_text r i _ eq_refl) by naive_solver
    | |- Mysql.cell_opt_int ?r ?i ≫= _ = _ => rewrite (cell_opt_int_text r i _ eq_refl) by naive_solver
    | |- Mysql.cell_opt_bool ?r ?i ≫= _ = _ => rewrite (cell_opt_bool_text r i _ eq_refl)
    end; cbn [mbind outcome_bind]).
(** A struct is read back from its row. *)
Ltac row_law_tac decode row :=
  intros a H; cbn in H; change (decode (row a) = Ret a); unfold decode; read_row; by destruct a.

#[export] Instance application_law : RowLaw Application.
Proof. row_law_tac Mysql.decode_application application_row. Qed.
#[export] Instance namespace_law : RowLaw Namespace.
Proof. row_law_tac Mysql.decode_namespace namespace_row. Qed.
#[export] Instance config_law : RowLaw ConfigKey.
Proof. row_law_tac Mysql.decode_config config_row. Qed.
#[export] Instance version_law : RowLaw ConfigVersion.
Proof. row_law_tac Mysql.decode_version version_row. Qed.
#[export] Instance log_law : RowLaw ChangeLog.
Proof. row_law_tac Mysql.decode_log log_row. Qed.
#[export] Instance release_law : RowLaw Release.
Proof. row_law_tac Mysql.decode_release release_row. Qed.
#[export] Instance approval_law : RowLaw Approval.
Proof. row_law_tac Mysql.decode_approval approval_row. Qed.
#[export] Instance user_law : RowLaw User.
Proof. row_law_tac Mysql.decode_user user_row. Qed.

Lemma mapM_rows {A : Type} `{!Storable A, !RowLaw A} (l : list A) :
  Forall storable l → mapM of_row (to_row <$> l) = Ret l.
Proof.
  induction 1 as [|a l Ha Hl IH]; [done|]. cbn. rewrite row_law by done. cbn. rewrite IH. done.
Qed.

(** A row with the text of a struct's columns is read back as the struct, for
    every table, when its numbers are in the range of their types and its optional
    texts are not empty. *)
Theorem rows_roundtrip :
  (∀ a : Application, storable a → Mysql.decode_application (application_row a) = Ret a) ∧
  (∀ n : Namespace, storable n → Mysql.decode_namespace (namespace_row n) = Ret n) ∧
  (∀ c : ConfigKey, storable c → Mysql.decode_config (config_row c) = Ret c) ∧
  (∀ v : ConfigVersion, storable v → Mysql.decode_version (version_row v) = Ret v) ∧
  (∀ l : ChangeLog, storable l → Mysql.decode_log (log_row l) = Ret l) ∧
  (∀ r : Release, storable r → Mysql.decode_release (release_row r) = Ret r) ∧
  (∀ a : Approval, storable a → Mysql.decode_approval (approval_row a) = Ret a) ∧
  (∀ u : User, storable u → Mysql.decode_user (user_row u) = Ret u).
Proof. split_and!; exact row_law. Qed.

(** An empty description comes back as none. *)
Example empty_description :
  Mysql.decode_application (application_row (mkApplication "a" "A" (Some "") "t"))
  = Ret (mkApplication "a" "A" None "t").
Proof. reflexivity. Qed.
